(* ===== verification/_CoqProject ===== *)
-Q . S2P
Prelude.v
MathExtras.v
ObjcOS.v
DenseMapInfo.v
DenseMap.v
DenseMapTheory.v
DenseMapMove.v
DenseMapOps.v
DenseMapImpl.v
SmallDenseMap.v
Isa.v
SideTable.v
TaggedPointer.v
ObjcObject.v
RetainRelease.v
ObjectIsa.v
ObjectEnd.v
AutoreleasePool.v
AutoreleasePoolTheory.v
AutoreleasePoolPop.v
AutoreleasePoolProperties.v
CFMemory.v
CFBitVector.v
CFBitVectorTheory.v
CFBinaryHeap.v
CFBinaryHeapTheory.v
ReturnAutorelease.v
RawIsa.v
MethodCache.v
MethodCacheTheory.v
MethodCacheHistory.v
MethodCacheWriters.v
MethodCacheOps.v
MethodCacheUpdates.v
MethodCacheReaders.v
MethodCacheProperties.v
AssociatedObjects.v
AssociatedObjectsTheory.v
AssociatedObjectsProperties.v
ObjcWeak.v
ObjcWeakTheory.v
WeakReferences.v
WeakReferencesTheory.v
CFBigNumber.v
CFBigNumberTheory.v
CFSortFunctions.v
CFSortTheory.v
