(* ===== verification/Prelude.v ===== *)
(** * Verification of the Objective-C runtime core and of CoreFoundation containers

    The repository collects notes on Objective-C together with the sources of the
    systems they study. This development verifies the parts of two of these that
    carry their reference counting and their data structures:
    - the Objective-C runtime, src/sdk/objc4-818.2/runtime;
    - CoreFoundation, src/sdk/RunLoopDemo/RunLoopDemo/CF-1153.18.

    It is a shallow embedding. Functions of the source are Rocq functions of the
    same name; an integer of w bits is a [Z] that is wrapped ([wrap w], [u32],
    [sint w]) where its C type wraps it; objects that operations change are
    records passed through them; a failed [ASSERT], [_objc_fatal] or an access
    outside a buffer is a [Fault] of the result type [res]. Every definition can
    be evaluated, and the witnesses do so.

    ** The parts and their files

    Runtime, from the bottom up:
    - MathExtras.v: the bit arithmetic of llvm-MathExtras.h, in its portable and
      its compiler-builtin versions. ObjcOS.v: alignment, carries, string and
      pointer hashes of objc-os.h and objc-private.h.
    - DenseMapInfo.v: what a hash table asks of its keys, as a record of
      operations with the class [DenseMapInfoOk] of its laws, and every
      specialisation in llvm-DenseMapInfo.h.
    - DenseMap.v: the open-addressing table of llvm-DenseMap.h. The operations of
      [DenseMapBase] are written against the class [Derived] of the virtual
      [grow] and [shrink_and_clear], as the source writes them against its
      derived class; [Module DenseMap] is the heap-allocated implementation.
      DenseMapTheory.v has the probe sequence, the invariant [wf] (parametrised by
      [Storage], what an implementation says of its bucket arrays) and lookup;
      DenseMapMove.v rehashing; DenseMapOps.v the public operations proved from
      the interface [DerivedOk]; DenseMapImpl.v that [DenseMap] satisfies the
      interface, and the properties. SmallDenseMap.v is the implementation with
      inline buckets, against the same interface, with its copies and [swap].
    - SideTable.v: the side table of retain counts of NSObject.mm, a [DenseMap]
      from disguised pointers to words, with its lock. The weak table it calls is
      the class [WeakTableOps].
    - ObjcWeak.v and ObjcWeakTheory.v: the weak table of objc-weak.mm, hash tables
      in a hash table, as a map from objects to their weak variables; it is the
      instance of [WeakTableOps]. WeakReferences.v and WeakReferencesTheory.v: the
      entry points of weak variables in NSObject.mm, over the 64 side tables, the
      objects and the variables of a program, with other threads in between.
    - Isa.v: the bit fields of isa.h, for every configuration, as a [layout] that
      satisfies [layout_ok]. TaggedPointer.v: tagged pointers and the tables
      their dispatch reads (objc-internal.h, objc-runtime-new.mm).
    - ObjcObject.v: the operations of [objc_object] for objects with a nonpointer
      isa (objc-object.h), in a state monad over the isa, the side table and
      [env], what other threads store into the isa between two accesses.
      RetainRelease.v, ObjectIsa.v and ObjectEnd.v have the theorems. RawIsa.v has
      the second set of these operations, for objects without a nonpointer isa.
    - AutoreleasePool.v: the autorelease pools of a thread, pages linked both ways,
      with releases that call back into them. AutoreleasePoolTheory.v has the
      pages as one stack of entries; AutoreleasePoolPop.v the induction through
      releases, as contracts of every operation; AutoreleasePoolProperties.v what
      pools and threads promise.
    - MethodCache.v: the method caches of objc-cache.mm in all layouts, as programs
      of a monad that makes the stores of the source one by one and keeps the
      memory before each; [CacheLookup], the search of [objc_msgSend] on x86-64 and
      arm64, whose loads each find the memory of a moment of their own.
      MethodCacheTheory.v has words, probing, tables, well-formed memory [wf] and
      [contents], what a cache holds; MethodCacheHistory.v what a history must keep
      for the readers of a class ([inv]); MethodCacheWriters.v, MethodCacheOps.v and
      MethodCacheUpdates.v the weakest preconditions of the operations, from the
      stores up; MethodCacheReaders.v the searches; MethodCacheProperties.v runs of
      updates and the main theorems.
    - AssociatedObjects.v: the associations of objects in objc-references.mm, a
      [DenseMap] of [DenseMap]s under one lock, with every message to a value able to
      run any code. AssociatedObjectsTheory.v has the two levels of tables as one map
      from objects and keys ([association_of]) and what each step does to it;
      AssociatedObjectsProperties.v the entry points, and the count of what
      associations own.
    - ReturnAutorelease.v: the convention by which autoreleased return values
      skip the autorelease pool: recognition of the caller's code, the
      thread-local disposition, the entry points.

    CoreFoundation:
    - CFMemory.v: blocks of memory. CFBitVector.v and CFBitVectorTheory.v: bit
      vectors. CFBinaryHeap.v and CFBinaryHeapTheory.v: priority queues.
      CFBigNumber.v and CFBigNumberTheory.v: numbers in base one billion.
      CFSortFunctions.v and CFSortTheory.v: the merge sort behind
      [CFSortIndexes], [CFQSortArray] and [CFMergeSortArray].

    ** What the theorems show

    - Reference counting. Retain and release change the count of an object (its
      inline and its side count together) by one, at the moment of their store,
      whatever words other threads store before it that agree with the side
      table ([counted]; stores that break the agreement are the interleavings of
      [lost_interleavings]), for counts below 2^59; the last release, and only
      that, deallocates; a retain followed by a release restores the count;
      class changes keep count and flags; deallocation leaves nothing behind.
      The side table refines a counter per object, saturation included, and so do objects
      without a nonpointer isa ([spec] in RawIsa.v).
    - Weak references. The weak table refines a map from objects to sets of
      variables; a weak variable is registered, and its object flagged, exactly
      while it holds the object, whatever other threads do between the steps; it
      loads an object only while that is alive, and holds nil once it is gone.
    - Method caches. Every update keeps the caches, the shared empty buckets and the
      garbage well formed and does to one map what it should; the search of
      [objc_msgSend] answers from that map. With writers at work it needs no lock: it
      ends, reads no block that has been freed, and answers a miss or an
      implementation that was in the cache while it searched.
    - Associated objects. The tables refine a map from objects and keys to
      associations; values are acquired before the lock is taken and released after
      it is dropped; whatever the requests, each value is owned once for each
      association that holds it, so that nothing leaks or is released too often.
    - Autorelease pools. The pages of a thread refine one stack; popping a pool
      releases each object autoreleased in it as often as it was autoreleased,
      whatever the releases do to the pools meanwhile, and leaves the enclosing
      pools alone; a thread that ends leaves nothing pending and no page. A loop
      of which a comment asks whether it could be an [if] can be one.
    - Hash tables. For every lawful key type and both implementations, the
      operations refine a partial map: lookups terminate and are exact, insertion,
      removal, resizing, copies, swaps and moves keep the invariant and all
      entries that may not be purged; iteration visits each entry once; equality
      is equality of maps.
    - Encodings. Classes in an isa, counts in its top bits, tagged pointers and
      their obfuscation round-trip, in every configuration.
    - Arithmetic. The routines of MathExtras compute the functions their comments
      promise, the two versions of each agreeing.
    - Containers. Bit vectors refine lists of booleans; heaps refine bags, and give
      a minimum where the callback that retains a value keeps its place in the
      order ([in_place]); big numbers refine integers, and their text round-trips. The sorts
      are stable sorts for every total order.
    - What goes wrong. Two kinds of interleaving, of any object, break the locking
      of [objc_object] ([lost_interleavings]); borrowing from a saturated side count loses the
      saturation ([sidetable_borrow_correct]); further concrete defects are Examples
      next to the theories ([shrunk_not_equal], [GetBits_unaligned],
      [retained_out_of_order],
      [equality_inverted], [missed_carry], [negative_zero],
      [emptied_entry_stays], [coalescing_not_disabled], [releases_pending_undercounts]). Where [mask_t] has 16 bits, the largest table does
      not grow, and an insertion halts ([narrow_table_stuck]; [stuck] in
      [cache_updates_correct]).

    ** Bounds and fuel

    Loops that are not structural have fuel, enough of it proved: probing has one
    turn per bucket, the loops around a store-exclusive one per interfering store
    and three more, the loops that store and load weak variables one per change by
    another thread and two more, Euclid's and the bit-counting loops one per bit,
    heap loops one per item, the merge sort's recursion one per item, walks over the
    pages of a pool one per page. What a release sets off may have no end: a pop
    takes fuel, and ends under a law on weights of objects ([law] in
    AutoreleasePoolPop.v) with more fuel than the weight of the pool. A search of a
    method cache takes at most two turns per bucket of the largest block, 65536,
    and one ([enough_fuel]); insertion takes one turn per bucket; the wait for readers
    has fuel, and fails only if they stay as long ([may_fail]). Hash tables
    are assumed to have at most 2^28 buckets ([max_buckets]), beyond which the
    source's 32-bit size computations overflow.

    ** Not modelled

    Locks are a flag that must not be taken twice; memory orders weaker than
    sequential consistency are not represented. Pointer authentication is a
    parameter ([signing]) with the law that it can be undone. Messages, C++
    destructors and the memory allocator are events or parameters. Weak variables
    are modelled for objects with a raw isa, and the sort without its concurrent
    variant. Autorelease pools are modelled for one thread, and their theorems are
    for runs without the pool debugging options.
    Method caches are modelled without the preoptimized caches of the shared cache,
    whose memory other programs build, without the 32-bit readers and the statistics;
    that the kernel's inspection finds readers is a hypothesis on a reader's moments
    ([sees]): none of them is separated from the next by an inspection that found
    nobody. Associated objects are modelled with messages of other code that return
    with the lock free; that they leave the tables well formed is a law ([MessagesOk]).
    Classes, whose sources are Objective-C++ files, rest on images that the linker builds
    and are not modelled; string, locale and stream code rests
    on ICU and the operating system; libdispatch, GNUstep and the demo
    applications are left out. *)

From stdpp Require Import prelude numbers list.
From Stdlib Require Import ZArith Lia Bool Btauto.

#[global] Set Default Goal Selector "!".

Declare Scope word_scope.
Delimit Scope word_scope with W.
#[global] Open Scope Z_scope.

(** ** Machine words

    A w-bit unsigned word is a [Z] in [0, 2^w). Arithmetic is written on [Z]
    and wrapped where the C type of the expression wraps it. *)
Definition wrap (w x : Z) : Z := x mod 2 ^ w.
#[global] Arguments wrap : simpl never.
Abbreviation u8 := (wrap 8).
Abbreviation u16 := (wrap 16).
Abbreviation u32 := (wrap 32).
Abbreviation u64 := (wrap 64).

(** The two's complement reading of a w-bit word. *)
Definition sint (w x : Z) : Z := if wrap w x <? 2 ^ (w - 1) then wrap w x else wrap w x - 2 ^ w.

(** [~x] at width [w]. *)
Definition unot (w x : Z) : Z := wrap w (Z.lnot x).

Definition in_word (w x : Z) : Prop := 0 <= x < 2 ^ w.
Definition is_word (w x : Z) : bool := (0 <=? x) && (x <? 2 ^ w).

(** C truth of an integer. *)
Definition nz (x : Z) : bool := negb (x =? 0).
Definition Zb (b : bool) : Z := if b then 1 else 0.

(** ** Faults

    What the source reports by [_objc_fatal], by a failed [ASSERT] or by [HALT],
    and an access outside a buffer. *)
Inductive fault :=
  | AssertFailed
  | HashTableCorrupted
  | BadWeakTable
  | BadCache
  | CannotFormWeakReference
  | LockMisuse
  | OutOfFuel
  | OutOfBounds
  | AllocationFailed
  | IntegerOverflow
  | FatalError.

Inductive res (A : Type) :=
  | Ok (a : A)
  | Fault (f : fault).
Arguments Ok {A} a.
Arguments Fault {A} f.

Definition rbind {A B} (r : res A) (k : A -> res B) : res B :=
  match r with Ok a => k a | Fault f => Fault f end.
Definition rassert (b : bool) : res unit := if b then Ok tt else Fault AssertFailed.

Notation "'let?' x := r 'in' k" := (rbind r (fun x => k))
  (at level 10, x pattern, r at level 100, k at level 200) : word_scope.
Notation "'assert?' b 'in' k" := (rbind (rassert b) (fun _ => k))
  (at level 10, b at level 100, k at level 200) : word_scope.
#[global] Open Scope word_scope.

Lemma rbind_Ok {A B} (a : A) (k : A -> res B) : rbind (Ok a) k = k a.
Proof. reflexivity. Qed.
Lemma rbind_assert {B} (b : bool) (k : unit -> res B) : b = true -> rbind (rassert b) k = k tt.
Proof. by intros ->. Qed.

(** ** Words *)
Lemma pow2_pos w : 0 <= w -> 0 < 2 ^ w.
Proof. intros. by apply Z.pow_pos_nonneg. Qed.
Lemma wrap_range w x : 0 <= w -> 0 <= wrap w x < 2 ^ w.
Proof. intros. apply Z.mod_pos_bound. by apply pow2_pos. Qed.
Lemma wrap_small w x : 0 <= x < 2 ^ w -> wrap w x = x.
Proof. apply Z.mod_small. Qed.
Lemma wrap_in_word w x : 0 <= w -> in_word w (wrap w x).
Proof. apply wrap_range. Qed.
Lemma is_word_spec w x : is_word w x = true <-> in_word w x.
Proof. unfold is_word, in_word. rewrite andb_true_iff, Z.leb_le, Z.ltb_lt. lia. Qed.
Lemma wrap_idem w x : wrap w (wrap w x) = wrap w x.
Proof. unfold wrap. apply Zmod_mod. Qed.
Lemma wrap_land w x : 0 <= w -> wrap w x = Z.land x (2 ^ w - 1).
Proof. intros. unfold wrap. rewrite <- Z.land_ones, Z.ones_equiv by done. by rewrite <- Z.sub_1_r. Qed.
Lemma land_mask k x : 0 <= k -> Z.land x (2 ^ k - 1) = x mod 2 ^ k.
Proof. intros. by rewrite <- wrap_land. Qed.
Lemma nz_true x : nz x = true <-> x <> 0.
Proof. unfold nz. rewrite negb_true_iff, Z.eqb_neq. done. Qed.
Lemma nz_false x : nz x = false <-> x = 0.
Proof. unfold nz. rewrite negb_false_iff, Z.eqb_eq. done. Qed.

Lemma div_zero_small a b : 0 <= a -> 0 < b -> a / b = 0 -> a < b.
Proof. intros Ha Hb E. destruct (decide (a < b)); [done|]. pose proof (Z.div_str_pos a b). lia. Qed.
Lemma div_nonzero_large a b : 0 <= a -> a / b <> 0 -> b <= a.
Proof. intros Ha E. destruct (decide (b <= a)); [done|]. by rewrite Z.div_small in E by lia. Qed.

(** A property of the first [n] naturals, by evaluation. *)
Lemma forall_below (n : nat) (f : Z -> bool) :
  forallb f (map Z.of_nat (seq 0 n)) = true -> forall k, 0 <= k < Z.of_nat n -> f k = true.
Proof.
  intros H k Hk. rewrite forallb_forall in H. apply H. apply in_map_iff.
  exists (Z.to_nat k). split; [lia|]. apply in_seq. lia.
Qed.

(** ** Bits *)
Lemma testbit_wrap w x i : 0 <= w -> 0 <= i ->
  Z.testbit (wrap w x) i = (i <? w) && Z.testbit x i.
Proof.
  intros Hw Hi. unfold wrap. destruct (Z.ltb_spec i w).
  - by rewrite Z.mod_pow2_bits_low.
  - by rewrite Z.mod_pow2_bits_high.
Qed.
Lemma testbit_shiftl a n i : 0 <= i ->
  Z.testbit (Z.shiftl a n) i = (n <=? i) && Z.testbit a (i - n).
Proof.
  intros Hi. destruct (Z.leb_spec n i).
  - by rewrite Z.shiftl_spec.
  - rewrite Z.shiftl_spec by done. by rewrite Z.testbit_neg_r by lia.
Qed.
Lemma testbit_pow2m1 n i : 0 <= n -> 0 <= i -> Z.testbit (2 ^ n - 1) i = (i <? n).
Proof.
  intros. rewrite Z.sub_1_r, <- Z.ones_equiv. by rewrite Z.testbit_ones_nonneg.
Qed.
Lemma testbit_pow2 n i : 0 <= n -> 0 <= i -> Z.testbit (2 ^ n) i = (i =? n).
Proof. intros. rewrite Z.pow2_bits_eqb by done. apply Z.eqb_sym. Qed.
Lemma testbit_high w x i : 0 <= x < 2 ^ w -> 0 <= w -> w <= i -> Z.testbit x i = false.
Proof.
  intros Hx Hw Hi. destruct (decide (x = 0)) as [->|]; [apply Z.bits_0|].
  apply Z.bits_above_log2; [lia|]. apply Z.log2_lt_pow2; [lia|].
  apply Z.lt_le_trans with (2 ^ w); [lia|]. by apply Z.pow_le_mono_r.
Qed.
Lemma lor_range w a b : 0 <= w -> in_word w a -> in_word w b -> in_word w (Z.lor a b).
Proof.
  unfold in_word. intros Hw Ha Hb. split; [apply Z.lor_nonneg; lia|].
  destruct (decide (Z.lor a b = 0)) as [->|]; [by apply pow2_pos|].
  assert (0 <= Z.lor a b) by (apply Z.lor_nonneg; lia).
  apply Z.log2_lt_cancel. rewrite Z.log2_pow2 by done.
  rewrite Z.log2_lor by lia.
  destruct (decide (a = 0)) as [->|], (decide (b = 0)) as [->|]; simpl.
  - by rewrite Z.lor_0_r in *.
  - apply Z.max_lub_lt; [|by apply Z.log2_lt_pow2; lia].
    assert (0 <= Z.log2 b < w); [|lia]. split; [apply Z.log2_nonneg|by apply Z.log2_lt_pow2; lia].
  - apply Z.max_lub_lt; [by apply Z.log2_lt_pow2; lia|].
    assert (0 <= Z.log2 a < w); [|lia]. split; [apply Z.log2_nonneg|by apply Z.log2_lt_pow2; lia].
  - by apply Z.max_lub_lt; apply Z.log2_lt_pow2; lia.
Qed.
Lemma lxor_range w a b : 0 <= w -> in_word w a -> in_word w b -> in_word w (Z.lxor a b).
Proof.
  unfold in_word. intros Hw Ha Hb. replace (Z.lxor a b) with (wrap w (Z.lxor a b)); [by apply wrap_range|].
  apply Z.bits_inj'. intros i Hi. rewrite testbit_wrap, Z.lxor_spec by done.
  destruct (Z.ltb_spec i w); [done|]. by rewrite (testbit_high w a), (testbit_high w b) by lia.
Qed.
Lemma land_range w a b : 0 <= w -> in_word w a -> in_word w (Z.land a b).
Proof.
  unfold in_word. intros Hw Ha.
  replace (Z.land a b) with (wrap w (Z.land a b)); [by apply wrap_range|].
  apply Z.bits_inj'. intros i Hi. rewrite testbit_wrap, Z.land_spec by done.
  destruct (Z.ltb_spec i w); [done|]. by rewrite (testbit_high w a) by lia.
Qed.
Lemma bits_ext_word w a b : in_word w a -> in_word w b -> 0 <= w ->
  (forall i, 0 <= i < w -> Z.testbit a i = Z.testbit b i) -> a = b.
Proof.
  intros Ha Hb Hw H. apply Z.bits_inj'. intros i Hi.
  destruct (decide (i < w)); [by apply H|].
  rewrite !(testbit_high w) by (unfold in_word in *; lia). done.
Qed.

Create Rewrite HintDb zbits.
#[export] Hint Rewrite Z.land_spec Z.lor_spec Z.lxor_spec Z.ldiff_spec Z.bits_0 : zbits.
#[export] Hint Rewrite Z.lnot_spec Z.shiftr_spec testbit_shiftl testbit_wrap
  testbit_pow2m1 testbit_pow2 using (first [assumption | lia]) : zbits.

(** Splits the integer comparisons a bit goal mentions. *)
Ltac zcmp :=
  repeat match goal with
  | |- context [?a <? ?b] => destruct (Z.ltb_spec a b)
  | |- context [?a <=? ?b] => destruct (Z.leb_spec a b)
  | |- context [?a =? ?b] => destruct (Z.eqb_spec a b)
  end.
(** [lia] that also knows division and modulo. *)
Ltac dlia := Z.to_euclidean_division_equations; lia.
(** Proves an equation of integers by comparing all bits. *)
Ltac zbits :=
  apply Z.bits_inj'; let i := fresh "i" in let Hi := fresh "Hi" in intros i Hi;
  autorewrite with zbits; zcmp; try lia; rewrite ?andb_true_r, ?andb_false_r, ?orb_false_r, ?orb_true_r; simpl;
  try reflexivity; try btauto.

(** Testing and setting one bit. *)
Lemma nz_bit r k : 0 <= k -> nz (Z.land r (2 ^ k)) = Z.testbit r k.
Proof.
  intros Hk. destruct (Z.testbit r k) eqn:E.
  - apply nz_true. intros H. assert (Hb : Z.testbit (Z.land r (2 ^ k)) k = false) by (by rewrite H, Z.bits_0).
    by rewrite Z.land_spec, Z.pow2_bits_true, E in Hb.
  - apply nz_false. apply Z.bits_inj'. intros j Hj. rewrite Z.land_spec, testbit_pow2, Z.bits_0 by done.
    destruct (Z.eqb_spec j k) as [->|]; [by rewrite E|by rewrite andb_false_r].
Qed.
Lemma lor_bit r k : 0 <= k -> Z.testbit r k = false -> Z.lor r (2 ^ k) = r + 2 ^ k.
Proof.
  intros Hk E. symmetry. apply Z.add_nocarry_lor. apply nz_false. by rewrite nz_bit.
Qed.

Create HintDb words.
#[export] Hint Resolve wrap_in_word lor_range land_range : words.
