(* ===== verification/MathExtras.v ===== *)
(** * llvm-MathExtras.h: bit arithmetic

    Models the integer routines of src/sdk/objc4-818.2/runtime/llvm-MathExtras.h
    that the hash tables of the runtime are sized with. Every value is a [Z];
    the operations wrap where the C type of the expression wraps. The routines
    that exist in a [__GNUC__] and in a portable version are modelled in both
    versions: [builtin_clz], [builtin_ctz] and [builtin_popcount] stand for the
    compiler's documented builtins. *)

From stdpp Require Import prelude numbers list.
From Stdlib Require Import ZArith Lia Bool Znumtheory.
From S2P Require Import Prelude.

(** ** The compiler's builtins, as documented *)
Definition builtin_clz (w v : Z) : Z := w - 1 - Z.log2 v.
Definition builtin_ctz (v : Z) : Z := Z.log2 (Z.land v (- v)).
Fixpoint popcount (n : nat) (v : Z) : Z :=
  match n with
  | O => 0
  | S n => v mod 2 + popcount n (v / 2)
  end.

Module MathExtras.

Definition Hi_32 (Value : Z) : Z := u32 (Z.shiftr Value 32).
Definition Lo_32 (Value : Z) : Z := u32 Value.

Definition isInt (N x : Z) : bool :=
  (64 <=? N) || ((- Z.shiftl 1 (N - 1) <=? x) && (x <? Z.shiftl 1 (N - 1))).
Definition isInt_8 (x : Z) : bool := sint 8 x =? x.
Definition isInt_16 (x : Z) : bool := sint 16 x =? x.
Definition isInt_32 (x : Z) : bool := sint 32 x =? x.
Definition isShiftedInt (N S x : Z) : bool :=
  isInt (N + S) x && (Z.rem x (Z.shiftl 1 S) =? 0).
Definition isUInt (N x : Z) : bool := (64 <=? N) || (x <? Z.shiftl 1 N).
Definition isUInt_8 (x : Z) : bool := u8 x =? x.
Definition isUInt_16 (x : Z) : bool := u16 x =? x.
Definition isUInt_32 (x : Z) : bool := u32 x =? x.
Definition isShiftedUInt (N S x : Z) : bool :=
  isUInt (N + S) x && (x mod Z.shiftl 1 S =? 0).
Definition isUIntN (N x : Z) : bool := x =? Z.land x (Z.shiftr (unot 64 0) (64 - N)).
Definition isIntN (N x : Z) : bool :=
  (64 <=? N) || ((- Z.shiftl 1 (N - 1) <=? x) && (x <? Z.shiftl 1 (N - 1))).

Definition isMask_32 (Value : Z) : bool :=
  nz Value && (Z.land (u32 (Value + 1)) Value =? 0).
Definition isMask_64 (Value : Z) : bool :=
  nz Value && (Z.land (u64 (Value + 1)) Value =? 0).
Definition isShiftedMask_32 (Value : Z) : bool :=
  isMask_32 (Z.lor (u32 (Value - 1)) Value).
Definition isShiftedMask_64 (Value : Z) : bool :=
  isMask_64 (Z.lor (u64 (Value - 1)) Value).
Definition isPowerOf2_32 (Value : Z) : bool :=
  nz Value && negb (nz (Z.land Value (u32 (Value - 1)))).
Definition isPowerOf2_64 (Value : Z) : bool :=
  nz Value && negb (nz (Z.land Value (u64 (Value - 1)))).

(** The bisection loop [for (Shift = w >> 1; Shift; Shift >>= 1)]; a shift of
    at most 2^(fuel-1) is used up within the fuel. *)
Fixpoint clz_loop (fuel : nat) (Shift Value Count : Z) : Z :=
  match fuel with
  | O => Count
  | S fuel =>
      if nz Shift then
        let Tmp := Z.shiftr Value Shift in
        if nz Tmp then clz_loop fuel (Z.shiftr Shift 1) Tmp Count
        else clz_loop fuel (Z.shiftr Shift 1) Value (Z.lor Count Shift)
      else Count
  end.
Definition CountLeadingZeros_32_gnu (Value : Z) : Z :=
  if negb (nz Value) then 32 else builtin_clz 32 Value.
Definition CountLeadingZeros_32 (Value : Z) : Z :=
  if negb (nz Value) then 32 else clz_loop 6 (Z.shiftr 32 1) Value 0.
Definition CountLeadingOnes_32 (Value : Z) : Z := CountLeadingZeros_32 (unot 32 Value).
Definition CountLeadingZeros_64_gnu (Value : Z) : Z :=
  if negb (nz Value) then 64 else builtin_clz 64 Value.
(** [sizeof(long) == sizeof(int64_t)] selects the loop, otherwise the value is
    counted in two halves. *)
Definition CountLeadingZeros_64 (lp64 : bool) (Value : Z) : Z :=
  if lp64 then
    if negb (nz Value) then 64 else clz_loop 7 (Z.shiftr 64 1) Value 0
  else
    let Hi := Hi_32 Value in
    if nz Hi then CountLeadingZeros_32 Hi
    else CountLeadingZeros_32 (Lo_32 Value) + 32.
Definition CountLeadingOnes_64 (lp64 : bool) (Value : Z) : Z :=
  CountLeadingZeros_64 lp64 (unot 64 Value).

Definition Mod37BitPosition : list Z :=
  [32; 0; 1; 26; 2; 23; 27; 0; 3; 16; 24; 30; 28; 11; 0; 13;
   4; 7; 17; 0; 25; 22; 31; 15; 29; 10; 12; 6; 0; 21; 14; 9;
   5; 20; 8; 19; 18].
Definition CountTrailingZeros_32_gnu (Value : Z) : Z :=
  if nz Value then builtin_ctz Value else 32.
Definition CountTrailingZeros_32 (Value : Z) : Z :=
  nth (Z.to_nat (Z.land (u32 (- Value)) Value mod 37)) Mod37BitPosition 0.
Definition CountTrailingOnes_32 (Value : Z) : Z := CountTrailingZeros_32 (unot 32 Value).
Definition Mod67Position : list Z :=
  [64; 0; 1; 39; 2; 15; 40; 23; 3; 12; 16; 59; 41; 19; 24; 54;
   4; 64; 13; 10; 17; 62; 60; 28; 42; 30; 20; 51; 25; 44; 55;
   47; 5; 32; 65; 38; 14; 22; 11; 58; 18; 53; 63; 9; 61; 27;
   29; 50; 43; 46; 31; 37; 21; 57; 52; 8; 26; 49; 45; 36; 56;
   7; 48; 35; 6; 34; 33; 0].
Definition CountTrailingZeros_64_gnu (Value : Z) : Z :=
  if nz Value then builtin_ctz Value else 64.
Definition CountTrailingZeros_64 (Value : Z) : Z :=
  nth (Z.to_nat (Z.land (u64 (- Value)) Value mod 67)) Mod67Position 0.
Definition CountTrailingOnes_64 (Value : Z) : Z := CountTrailingZeros_64 (unot 64 Value).

Definition CountPopulation_32 (Value : Z) : Z :=
  let v := u32 (Value - Z.land (Z.shiftr Value 1) 0x55555555) in
  let v := u32 (Z.land v 0x33333333 + Z.land (Z.shiftr v 2) 0x33333333) in
  Z.shiftr (u32 (Z.land (u32 (v + Z.shiftr v 4)) 0xF0F0F0F * 0x1010101)) 24.
Definition CountPopulation_64 (Value : Z) : Z :=
  let v := u64 (Value - Z.land (Z.shiftr Value 1) 0x5555555555555555) in
  let v := u64 (Z.land v 0x3333333333333333 + Z.land (Z.shiftr v 2) 0x3333333333333333) in
  let v := Z.land (u64 (v + Z.shiftr v 4)) 0x0F0F0F0F0F0F0F0F in
  u32 (Z.shiftr (u64 (v * 0x0101010101010101)) 56).

Definition Log2_32 (Value : Z) : Z := u32 (31 - CountLeadingZeros_32 Value).
Definition Log2_64 (Value : Z) : Z := u32 (63 - CountLeadingZeros_64 true Value).
Definition Log2_32_Ceil (Value : Z) : Z := u32 (32 - CountLeadingZeros_32 (u32 (Value - 1))).
Definition Log2_64_Ceil (Value : Z) : Z := u32 (64 - CountLeadingZeros_64 true (u64 (Value - 1))).

(** The Euclid loop. Two iterations halve [B], so 130 suffice for a 64-bit word. *)
Fixpoint gcd_loop (fuel : nat) (A B : Z) : option Z :=
  match fuel with
  | O => None
  | S fuel => if nz B then gcd_loop fuel B (A mod B) else Some A
  end.
Definition GreatestCommonDivisor64 (A B : Z) : option Z := gcd_loop 130 A B.

Definition MinAlign (A B : Z) : Z := Z.land (Z.lor A B) (u64 (- Z.lor A B)).

Definition NextPowerOf2_64 (A : Z) : Z :=
  let A := Z.lor A (Z.shiftr A 1) in
  let A := Z.lor A (Z.shiftr A 2) in
  let A := Z.lor A (Z.shiftr A 4) in
  let A := Z.lor A (Z.shiftr A 8) in
  let A := Z.lor A (Z.shiftr A 16) in
  let A := Z.lor A (Z.shiftr A 32) in
  u64 (A + 1).
Definition NextPowerOf2_32 (A : Z) : Z :=
  let A := Z.lor A (Z.shiftr A 1) in
  let A := Z.lor A (Z.shiftr A 2) in
  let A := Z.lor A (Z.shiftr A 4) in
  let A := Z.lor A (Z.shiftr A 8) in
  let A := Z.lor A (Z.shiftr A 16) in
  u32 (A + 1).

Definition RoundUpToAlignment (Value Align : Z) : Z :=
  u64 (u64 (u64 (Value + Align) - 1) / Align * Align).
Definition OffsetToAlignment (Value Align : Z) : Z :=
  u64 (RoundUpToAlignment Value Align - Value).
Definition abs64 (x : Z) : Z := if x <? 0 then - x else x.
Definition SignExtend32 (x B : Z) : Z := Z.shiftr (sint 32 (u32 (Z.shiftl x (32 - B)))) (32 - B).
Definition SignExtend64 (x B : Z) : Z := Z.shiftr (sint 64 (u64 (Z.shiftl x (64 - B)))) (64 - B).

End MathExtras.
Import MathExtras.

(** ** Powers of two *)

(** [B] is [A] with every set bit copied to the [n - 1] positions below it. *)
Definition smeared (n A B : Z) : Prop :=
  forall i, 0 <= i -> Z.testbit B i = true <-> exists j, i <= j < i + n /\ Z.testbit A j = true.

Lemma smeared_init A : smeared 1 A A.
Proof.
  intros i Hi. split; [intros H; exists i; split; [lia|done]|].
  intros (j & Hj & H). by replace i with j by lia.
Qed.
Lemma smeared_step n A B : 0 <= n -> smeared n A B -> smeared (2 * n) A (Z.lor B (Z.shiftr B n)).
Proof.
  intros Hn H i Hi. unfold smeared in H. rewrite Z.lor_spec, orb_true_iff, Z.shiftr_spec by lia.
  rewrite (H i), (H (i + n)) by lia. split.
  - intros [(j & ? & ?)|(j & ? & ?)]; exists j; (split; [lia|done]).
  - intros (j & ? & ?). destruct (decide (j < i + n)); [left|right]; exists j; (split; [lia|done]).
Qed.
Lemma smeared_all w A B : 0 <= w -> 0 < A < 2 ^ w -> smeared w A B -> 0 <= B ->
  B = 2 ^ (Z.log2 A + 1) - 1.
Proof.
  intros Hw HA HB HB0.
  assert (0 <= Z.log2 A) by apply Z.log2_nonneg.
  assert (Z.log2 A < w) by (apply Z.log2_lt_pow2; lia).
  apply Z.bits_inj'. intros i Hi. rewrite testbit_pow2m1 by lia.
  destruct (Z.ltb_spec i (Z.log2 A + 1)) as [Hl|Hl].
  - apply HB; [done|]. exists (Z.log2 A). split; [lia|]. apply Z.bit_log2. lia.
  - apply not_true_is_false. intros E. apply HB in E as (j & ? & Hj); [|done].
    rewrite Z.bits_above_log2 in Hj by lia. done.
Qed.

Lemma smear_nonneg B n : 0 <= B -> 0 <= Z.lor B (Z.shiftr B n).
Proof. intros. apply Z.lor_nonneg. split; [done|]. by apply Z.shiftr_nonneg. Qed.

Lemma NextPowerOf2_64_pos A : 0 < A < 2 ^ 64 -> NextPowerOf2_64 A = u64 (2 ^ (Z.log2 A + 1)).
Proof.
  intros HA. unfold NextPowerOf2_64. cbv zeta.
  set (B := Z.lor _ (Z.shiftr _ 32)).
  rewrite (smeared_all 64 A B); [f_equal; lia|lia|done| |by repeat apply smear_nonneg; lia].
  unfold B. do 6 (apply smeared_step; [lia|]). apply smeared_init.
Qed.
Lemma NextPowerOf2_32_pos A : 0 < A < 2 ^ 32 -> NextPowerOf2_32 A = u32 (2 ^ (Z.log2 A + 1)).
Proof.
  intros HA. unfold NextPowerOf2_32. cbv zeta.
  set (B := Z.lor _ (Z.shiftr _ 16)).
  rewrite (smeared_all 32 A B); [f_equal; lia|lia|done| |by repeat apply smear_nonneg; lia].
  unfold B. do 5 (apply smeared_step; [lia|]). apply smeared_init.
Qed.

(** The result of [NextPowerOf2] at width [w], overflow included. *)
Definition next_pow2_spec (w A r : Z) : Prop :=
  (2 ^ (w - 1) <= A /\ r = 0) \/
  (exists k, 0 <= k < w /\ r = 2 ^ k /\ A < r /\ forall j, 0 <= j < k -> 2 ^ j <= A).

Lemma next_pow2_spec_log2 w A : 0 < w -> 0 <= A < 2 ^ w ->
  next_pow2_spec w A (wrap w (if decide (A = 0) then 1 else 2 ^ (Z.log2 A + 1))).
Proof.
  intros Hw HA. destruct (decide (A = 0)) as [->|HA0].
  - right. exists 0. rewrite wrap_small by (split; [lia|]; apply Z.pow_gt_1; lia).
    repeat split; try lia.
  - destruct (Z.log2_spec A) as [Hlo Hhi]; [lia|].
    assert (0 <= Z.log2 A) by apply Z.log2_nonneg.
    assert (Z.log2 A < w) by (apply Z.log2_lt_pow2; lia).
    destruct (decide (Z.log2 A = w - 1)) as [E|E].
    + left. rewrite <- E. split; [lia|]. replace (Z.log2 A + 1) with w by lia.
      unfold wrap. apply Z_mod_same_full.
    + right. exists (Z.log2 A + 1). rewrite wrap_small.
      2: { split; [lia|]. apply Z.pow_lt_mono_r; lia. }
      split_and!; try lia.
      intros j Hj. apply Z.le_trans with (2 ^ Z.log2 A); [apply Z.pow_le_mono_r; lia|lia].
Qed.

(** The least power of two strictly greater, 0 when it does not fit the word. *)
Lemma NextPowerOf2_ok A :
  (in_word 64 A -> next_pow2_spec 64 A (NextPowerOf2_64 A)) /\
  (in_word 32 A -> next_pow2_spec 32 A (NextPowerOf2_32 A)).
Proof.
  split; intros HA; unfold in_word in HA.
  - pose proof (next_pow2_spec_log2 64 A ltac:(lia) HA) as H.
    destruct (decide (A = 0)) as [->|]; [done|]. by rewrite NextPowerOf2_64_pos by lia.
  - pose proof (next_pow2_spec_log2 32 A ltac:(lia) HA) as H.
    destruct (decide (A = 0)) as [->|]; [done|]. by rewrite NextPowerOf2_32_pos by lia.
Qed.
(** ** Counting zeros *)

Lemma lor_add_disjoint C n : 0 <= n -> C mod 2 ^ (n + 1) = 0 -> Z.lor C (2 ^ n) = C + 2 ^ n.
Proof.
  intros Hn HC. symmetry. apply Z.add_nocarry_lor. apply Z.bits_inj'. intros i Hi.
  rewrite Z.land_spec, testbit_pow2, Z.bits_0 by lia.
  destruct (Z.eqb_spec i n) as [->|]; [|apply andb_false_r].
  rewrite <- (Z.mod_pow2_bits_low C (n + 1) n), HC by lia. by rewrite Z.bits_0.
Qed.

Lemma clz_loop_correct (s : nat) fuel V C :
  (s + 2 <= fuel)%nat -> 0 <= C -> C mod 2 ^ (Z.of_nat s + 1) = 0 ->
  0 < V < 2 ^ 2 ^ (Z.of_nat s + 1) ->
  clz_loop fuel (2 ^ Z.of_nat s) V C = C + 2 ^ (Z.of_nat s + 1) - 1 - Z.log2 V.
Proof.
  revert fuel V C. induction s as [|s IH]; intros [|fuel] V C Hf HC HCm HV; try lia.
  - destruct fuel as [|fuel]; [lia|]. change (2 ^ Z.of_nat 0) with 1 in *. change (2 ^ (Z.of_nat 0 + 1)) with 2 in *.
    change (2 ^ 2) with 4 in HV. cbn -[Z.lor Z.shiftr Z.log2].
    assert (V = 1 \/ V = 2 \/ V = 3) as [->|[-> | ->]] by lia.
    + change (Z.shiftr 1 1) with 0. simpl.
      pose proof (lor_add_disjoint C 0 ltac:(lia) HCm) as E. change (2 ^ 0) with 1 in E. rewrite E. lia.
    + simpl. lia.
    + simpl. lia.
  - set (t := Z.of_nat s) in *. assert (0 <= t) by lia.
    replace (Z.of_nat (S s)) with (t + 1) in * by lia.
    assert (E2 : 2 ^ (t + 1 + 1) = 2 * 2 ^ (t + 1)) by (rewrite <- Z.pow_succ_r by lia; f_equal; lia).
    assert (E1 : 2 ^ (t + 1) = 2 * 2 ^ t) by (rewrite <- Z.pow_succ_r by lia; f_equal; lia).
    assert (0 < 2 ^ t) by (apply pow2_pos; lia).
    assert (Hd : (2 ^ (t + 1) | C)).
    { apply Z.divide_trans with (2 ^ (t + 1 + 1)); [exists 2; lia|].
      by apply Z.mod_divide; [lia|]. }
    cbn [clz_loop]. rewrite (proj2 (nz_true (2 ^ (t + 1)))) by lia.
    replace (Z.shiftr (2 ^ (t + 1)) 1) with (2 ^ t).
    2: { rewrite Z.shiftr_div_pow2, E1 by lia. change (2 ^ 1) with 2. rewrite Z.mul_comm, Z.div_mul; lia. }
    destruct (nz (Z.shiftr V (2 ^ (t + 1)))) eqn:Et.
    + apply nz_true in Et. assert (0 <= Z.shiftr V (2 ^ (t + 1))) by (apply Z.shiftr_nonneg; lia).
      rewrite IH; [|lia|done|by apply Z.mod_divide; [lia|]|].
      * rewrite Z.log2_shiftr by lia.
        assert (2 ^ (t + 1) <= Z.log2 V); [|lia].
        apply (Z.log2_le_pow2 V); [lia|]. rewrite Z.shiftr_div_pow2 in Et by lia.
        apply div_nonzero_large in Et; lia.
      * split; [lia|]. rewrite Z.shiftr_div_pow2 by lia.
        apply Z.div_lt_upper_bound; [apply pow2_pos; lia|].
        rewrite <- Z.pow_add_r by lia. replace (2 ^ (t + 1) + 2 ^ (t + 1)) with (2 ^ (t + 1 + 1)) by lia. lia.
    + apply nz_false in Et. rewrite Z.shiftr_div_pow2 in Et by lia.
      apply div_zero_small in Et; [|lia|apply pow2_pos; lia].
      rewrite lor_add_disjoint by (done || lia). rewrite IH; [lia|lia|lia| |lia].
      apply Z.mod_divide; [lia|]. apply Z.divide_add_r; [done|]. by exists 1; lia.
Qed.

Lemma CountLeadingZeros_32_portable V : in_word 32 V -> CountLeadingZeros_32 V = CountLeadingZeros_32_gnu V.
Proof.
  intros HV. unfold CountLeadingZeros_32, CountLeadingZeros_32_gnu, builtin_clz.
  destruct (nz V) eqn:E; [|done]. apply nz_true in E. unfold in_word in HV. simpl negb. cbv iota.
  change (Z.shiftr 32 1) with (2 ^ Z.of_nat 4).
  rewrite (clz_loop_correct 4); [|lia|lia|reflexivity|].
  - change (2 ^ (Z.of_nat 4 + 1)) with 32. lia.
  - change (2 ^ (Z.of_nat 4 + 1)) with 32. lia.
Qed.
Lemma CountLeadingZeros_64_portable lp64 V :
  in_word 64 V -> CountLeadingZeros_64 lp64 V = CountLeadingZeros_64_gnu V.
Proof.
  intros HV. unfold in_word in HV. unfold CountLeadingZeros_64, CountLeadingZeros_64_gnu, builtin_clz.
  destruct lp64.
  - destruct (nz V) eqn:E; [|done]. apply nz_true in E. simpl negb. cbv iota.
    change (Z.shiftr 64 1) with (2 ^ Z.of_nat 5).
    rewrite (clz_loop_correct 5); [|lia|lia|reflexivity|].
    + change (2 ^ (Z.of_nat 5 + 1)) with 64. lia.
    + change (2 ^ (Z.of_nat 5 + 1)) with 64. lia.
  - assert (HHi : Hi_32 V = Z.shiftr V 32).
    { unfold Hi_32. apply wrap_small. rewrite Z.shiftr_div_pow2 by lia.
      split; [apply Z.div_pos; lia|]. apply Z.div_lt_upper_bound; lia. }
    rewrite !CountLeadingZeros_32_portable by (apply wrap_in_word; lia).
    unfold CountLeadingZeros_32_gnu, builtin_clz. rewrite HHi.
    assert (0 <= Z.shiftr V 32) by (apply Z.shiftr_nonneg; lia).
    destruct (nz (Z.shiftr V 32)) eqn:E; cbn [negb].
    + apply nz_true in E. destruct (nz V) eqn:EV; cbn [negb].
      2: { apply nz_false in EV. by subst. }
      assert (V <> 0) by by apply nz_true.
      rewrite Z.log2_shiftr by lia.
      assert (32 <= Z.log2 V); [|lia]. apply (Z.log2_le_pow2 V); [lia|].
      rewrite Z.shiftr_div_pow2 in E by lia. apply div_nonzero_large in E; lia.
    + apply nz_false in E. rewrite Z.shiftr_div_pow2 in E by lia.
      apply div_zero_small in E; [|lia|lia].
      unfold Lo_32. rewrite wrap_small by lia. destruct (nz V); cbn [negb]; lia.
Qed.

Lemma land_opp_lowest p : exists k m, 0 <= k /\ Z.land (Zpos p) (- Zpos p) = 2 ^ k /\
  Zpos p = 2 ^ k * (2 * m + 1) /\ 0 <= m.
Proof.
  induction p as [p IH|p (k & m & Hk & E & Em & Hm)|].
  - exists 0, (Zpos p). split_and!; [lia| |simpl; lia|lia]. change (2 ^ 0) with 1.
    apply Z.bits_inj'. intros i Hi.
    replace (- Z.pos p~1) with (Z.lnot (2 * Zpos p)) by (unfold Z.lnot; lia).
    rewrite Z.land_spec, Z.lnot_spec by done. destruct (decide (i = 0)) as [->|].
    + rewrite Z.testbit_even_0. by rewrite Pos2Z.inj_xI, Z.testbit_odd_0.
    + replace i with (Z.succ (i - 1)) by lia.
      rewrite Z.testbit_even_succ, Pos2Z.inj_xI, Z.testbit_odd_succ by lia.
      rewrite andb_negb_r. symmetry. apply (testbit_high 1); lia.
  - exists (k + 1), m. split; [lia|]. rewrite Pos2Z.inj_xO.
    replace (2 ^ (k + 1)) with (2 * 2 ^ k) by (rewrite <- Z.pow_succ_r by lia; f_equal; lia).
    split; [|lia]. rewrite <- E.
    replace (- (2 * Z.pos p)) with (2 * (- Z.pos p)) by lia.
    rewrite !(Z.mul_comm 2). change 2 with (2 ^ 1). rewrite <- !Z.shiftl_mul_pow2 by lia.
    by rewrite Z.shiftl_land.
  - by exists 0, 0.
Qed.
Lemma lowest_bit w V : 0 <= w -> 0 < V < 2 ^ w ->
  exists k m, 0 <= k < w /\ Z.land (wrap w (- V)) V = 2 ^ k /\ builtin_ctz V = k /\ V = 2 ^ k * (2 * m + 1).
Proof.
  intros Hw HV. destruct V as [|p|]; try lia.
  destruct (land_opp_lowest p) as (k & m & Hk & E & Em & Hm).
  assert (2 ^ k <= Zpos p) by (assert (0 < 2 ^ k) by (by apply pow2_pos); nia).
  exists k, m. assert (k < w) by (apply (Z.pow_lt_mono_r_iff 2); lia). split; [lia|]. split; [|split; [|done]].
  - rewrite <- E. apply Z.bits_inj'. intros i Hi. rewrite !Z.land_spec, testbit_wrap by lia.
    destruct (Z.ltb_spec i w); [apply andb_comm|].
    by rewrite (testbit_high w (Z.pos p)) by lia.
  - unfold builtin_ctz. rewrite E. by apply Z.log2_pow2.
Qed.

(** Table lookups at the 32 (64) powers of two, by evaluation. *)
Lemma ctz_table_32 k : 0 <= k < 32 -> nth (Z.to_nat (2 ^ k mod 37)) Mod37BitPosition 0 = k.
Proof.
  intros Hk. apply Z.eqb_eq.
  apply (forall_below 32 (fun k => nth (Z.to_nat (2 ^ k mod 37)) Mod37BitPosition 0 =? k)); [|done].
  vm_compute. reflexivity.
Qed.
Lemma ctz_table_64 k : 0 <= k < 64 -> nth (Z.to_nat (2 ^ k mod 67)) Mod67Position 0 = k.
Proof.
  intros Hk. apply Z.eqb_eq.
  apply (forall_below 64 (fun k => nth (Z.to_nat (2 ^ k mod 67)) Mod67Position 0 =? k)); [|done].
  vm_compute. reflexivity.
Qed.
Lemma CountTrailingZeros_32_portable V : in_word 32 V -> CountTrailingZeros_32 V = CountTrailingZeros_32_gnu V.
Proof.
  intros HV. unfold in_word in HV. unfold CountTrailingZeros_32, CountTrailingZeros_32_gnu.
  destruct (nz V) eqn:E; [|apply nz_false in E; by subst].
  apply nz_true in E. destruct (lowest_bit 32 V) as (k & ? & Hk & -> & -> & _); [lia|lia|].
  by apply ctz_table_32.
Qed.
Lemma CountTrailingZeros_64_portable V : in_word 64 V -> CountTrailingZeros_64 V = CountTrailingZeros_64_gnu V.
Proof.
  intros HV. unfold in_word in HV. unfold CountTrailingZeros_64, CountTrailingZeros_64_gnu.
  destruct (nz V) eqn:E; [|apply nz_false in E; by subst].
  apply nz_true in E. destruct (lowest_bit 64 V) as (k & ? & Hk & -> & -> & _); [lia|lia|].
  by apply ctz_table_64.
Qed.

(** ** Population count

    A word is read as its list of bytes, least significant first; the steps of
    the count act byte by byte. *)
Fixpoint of_bytes (l : list Z) : Z :=
  match l with
  | [] => 0
  | b :: l => b + 256 * of_bytes l
  end.
Definition is_byte (b : Z) : Prop := 0 <= b < 256.
Fixpoint to_bytes (n : nat) (v : Z) : list Z :=
  match n with
  | O => []
  | S n => v mod 256 :: to_bytes n (v / 256)
  end.

Lemma of_to_bytes n v : 0 <= v < 256 ^ Z.of_nat n -> of_bytes (to_bytes n v) = v.
Proof.
  revert v. induction n as [|n IH]; intros v Hv; simpl.
  - simpl in Hv. lia.
  - rewrite IH; [pose proof (Z.div_mod v 256); lia|].
    rewrite Nat2Z.inj_succ, Z.pow_succ_r in Hv by lia.
    split; [apply Z.div_pos; lia|]. apply Z.div_lt_upper_bound; lia.
Qed.
Lemma to_bytes_bytes n v : Forall is_byte (to_bytes n v).
Proof. revert v. induction n; intros; simpl; constructor; [|done]. apply Z.mod_pos_bound. lia. Qed.
Lemma length_to_bytes n v : length (to_bytes n v) = n.
Proof. revert v. induction n; intros; simpl; [done|]. by f_equal. Qed.

Lemma byte_decomp_land a b c d : is_byte a -> is_byte c ->
  Z.land (a + 256 * b) (c + 256 * d) = Z.land a c + 256 * Z.land b d.
Proof.
  unfold is_byte. intros Ha Hc.
  assert (E : forall x y, is_byte x -> x + 256 * y = Z.lor x (Z.shiftl y 8)).
  { intros x y Hx. unfold is_byte in Hx. rewrite Z.shiftl_mul_pow2 by lia. change (2 ^ 8) with 256. rewrite (Z.mul_comm y).
    apply Z.add_nocarry_lor. apply Z.bits_inj'. intros i Hi. rewrite Z.land_spec, Z.bits_0.
    rewrite (Z.mul_comm 256). change 256 with (2 ^ 8). rewrite <- Z.shiftl_mul_pow2, testbit_shiftl by lia.
    destruct (Z.leb_spec 8 i); [|apply andb_false_r]. by rewrite (testbit_high 8) by lia. }
  assert (is_byte (Z.land a c)) by (apply (land_range 8); [lia|exact Ha]).
  rewrite (E a), (E c), (E (Z.land a c)) by assumption.
  zbits. by rewrite (testbit_high 8 a), (testbit_high 8 c) by lia.
Qed.
Lemma of_bytes_land l l' : Forall is_byte l -> Forall is_byte l' -> length l = length l' ->
  Z.land (of_bytes l) (of_bytes l') = of_bytes (zip_with Z.land l l').
Proof.
  intros Hl. revert l'. induction Hl as [|a l Ha Hl IH]; intros [|c l'] Hl' Hlen; simplify_eq/=; [done|].
  inversion Hl'; subst. rewrite byte_decomp_land by done. by rewrite IH.
Qed.
Lemma of_bytes_shiftr_land l s m : Forall is_byte l -> 0 <= s <= 8 -> 0 <= m < 2 ^ (8 - s) ->
  Z.land (Z.shiftr (of_bytes l) s) (of_bytes (replicate (length l) m)) =
  of_bytes (map (fun b => Z.land (Z.shiftr b s) m) l).
Proof.
  intros Hl Hs Hm. induction Hl as [|b l Hb Hl IH]; simpl; [by rewrite Z.shiftr_0_l|].
  assert (Hm' : is_byte m).
  { unfold is_byte. split; [lia|]. apply Z.lt_le_trans with (2 ^ (8 - s)); [lia|].
    change 256 with (2 ^ 8). apply Z.pow_le_mono_r; lia. }
  unfold is_byte in Hb, Hm'.
  set (r := of_bytes l) in *. set (M := of_bytes (replicate _ m)) in *.
  assert (Hsplit : Z.shiftr (b + 256 * r) s =
    (Z.shiftr b s + 2 ^ (8 - s) * (r mod 2 ^ s)) + 256 * Z.shiftr r s).
  { rewrite !Z.shiftr_div_pow2 by lia. rewrite (Z.div_mod r (2 ^ s)) at 1 by (apply Z.pow_nonzero; lia).
    assert (E : 256 = 2 ^ s * 2 ^ (8 - s)) by (rewrite <- Z.pow_add_r by lia; change 256 with (2 ^ 8); f_equal; lia).
    replace (b + 256 * (2 ^ s * (r / 2 ^ s) + r mod 2 ^ s)) with
      (b + (2 ^ (8 - s) * (r mod 2 ^ s) + 256 * (r / 2 ^ s)) * 2 ^ s) by (rewrite E; ring).
    rewrite Z.div_add by (apply Z.pow_nonzero; lia). ring. }
  assert (0 < 2 ^ s) by (apply pow2_pos; lia). assert (0 < 2 ^ (8 - s)) by (apply pow2_pos; lia).
  assert (E : 256 = 2 ^ s * 2 ^ (8 - s)) by (rewrite <- Z.pow_add_r by lia; change 256 with (2 ^ 8); f_equal; lia).
  assert (Hsh : 0 <= Z.shiftr b s < 2 ^ (8 - s)).
  { rewrite Z.shiftr_div_pow2 by lia. split; [apply Z.div_pos; lia|]. apply Z.div_lt_upper_bound; lia. }
  pose proof (Z.mod_pos_bound r (2 ^ s)).
  rewrite Hsplit, byte_decomp_land; [|unfold is_byte; nia|done].
  rewrite IH. f_equal. apply Z.bits_inj'. intros i Hi. rewrite !Z.land_spec.
  destruct (Z.ltb_spec i (8 - s)).
  - f_equal. rewrite <- (Z.mod_pow2_bits_low (_ + _) (8 - s)) by lia.
    rewrite (Z.mul_comm (2 ^ (8 - s))), Z.mod_add by lia. by rewrite Z.mod_pow2_bits_low by lia.
  - by rewrite (testbit_high (8 - s) m), !andb_false_r by lia.
Qed.
Lemma of_bytes_map2 (l : list Z) (f g : Z -> Z) :
  of_bytes (map f l) + of_bytes (map g l) = of_bytes (map (fun b => f b + g b) l) /\
  of_bytes (map f l) - of_bytes (map g l) = of_bytes (map (fun b => f b - g b) l).
Proof. induction l as [|b l [IH1 IH2]]; simpl; [done|]. rewrite <- IH1, <- IH2. lia. Qed.
Lemma of_bytes_map_land (l : list Z) (f : Z -> Z) m : Forall is_byte (map f l) -> is_byte m ->
  Z.land (of_bytes (map f l)) (of_bytes (replicate (length l) m)) = of_bytes (map (fun b => Z.land (f b) m) l).
Proof.
  intros Hl Hm. induction l as [|b l IH]; simpl in *; [done|]. inversion Hl; subst.
  rewrite byte_decomp_land by done. by rewrite IH.
Qed.
Lemma of_bytes_range l : Forall is_byte l -> 0 <= of_bytes l < 256 ^ Z.of_nat (length l).
Proof.
  induction 1 as [|b l Hb Hl IH]; [simpl; lia|]. unfold is_byte in Hb.
  cbn [of_bytes length]. rewrite Nat2Z.inj_succ, Z.pow_succ_r by lia. lia.
Qed.

(** One byte of the population count, and the check of all 256 of them. *)
Definition pop1 (b : Z) : Z := b - Z.land (Z.shiftr b 1) 0x55.
Definition pop2 (b : Z) : Z := Z.land (pop1 b) 0x33 + Z.land (Z.shiftr (pop1 b) 2) 0x33.
Definition pop3 (b : Z) : Z := Z.land (pop2 b) 0xF + Z.shiftr (pop2 b) 4.
Definition pop_byte_ok (b : Z) : bool :=
  (0 <=? pop1 b) && (pop1 b <? 256) && (0 <=? Z.land (pop2 b) 0xF) && (Z.land (pop2 b) 0xF <=? 4) &&
  (0 <=? Z.shiftr (pop2 b) 4) && (Z.shiftr (pop2 b) 4 <=? 4) &&
  (pop2 b =? Z.land (pop2 b) 0xF + 16 * Z.shiftr (pop2 b) 4) && (pop3 b =? popcount 8 b).
Lemma pop_byte b : is_byte b ->
  is_byte (pop1 b) /\ 0 <= Z.land (pop2 b) 0xF <= 4 /\ 0 <= Z.shiftr (pop2 b) 4 <= 4 /\
  pop2 b = Z.land (pop2 b) 0xF + 16 * Z.shiftr (pop2 b) 4 /\
  pop3 b = popcount 8 b.
Proof.
  intros Hb. unfold is_byte in Hb.
  pose proof (forall_below 256 pop_byte_ok ltac:(vm_compute; reflexivity) b Hb) as H.
  unfold pop_byte_ok in H.
  rewrite !andb_true_iff, !Z.leb_le, !Z.ltb_lt, !Z.eqb_eq in H. unfold is_byte. lia.
Qed.
Lemma pop4_bytes l : Forall is_byte l ->
  Z.land (of_bytes (map pop2 l) + Z.shiftr (of_bytes (map pop2 l)) 4) (of_bytes (replicate (length l) 0xF)) =
  of_bytes (map (popcount 8) l) /\ 0 <= of_bytes (map pop2 l) /\ of_bytes (map pop2 l) mod 16 <= 4.
Proof.
  induction 1 as [|b l Hb Hl (IH & IHn & IHm)]; [done|]. cbn [map of_bytes length replicate].
  destruct (pop_byte b Hb) as (_ & H1 & H2 & H3 & H4). unfold pop3 in H4.
  set (r := of_bytes (map pop2 l)) in *. set (M := of_bytes (replicate _ _)) in *.
  split; [|split; [lia|]].
  2: { rewrite H3. replace (_ + _ + 256 * r) with (Z.land (pop2 b) 15 + (Z.shiftr (pop2 b) 4 + 16 * r) * 16) by ring.
       rewrite Z.mod_add, Z.mod_small by lia. lia. }
  replace (Z.shiftr (pop2 b + 256 * r) 4) with (Z.shiftr (pop2 b) 4 + 16 * (r mod 16) + 256 * Z.shiftr r 4).
  2: { rewrite !Z.shiftr_div_pow2 by lia. change (2 ^ 4) with 16.
       rewrite (Z.div_mod r 16) at 3 by lia.
       replace (pop2 b + 256 * (16 * (r / 16) + r mod 16)) with (pop2 b + (256 * (r / 16) + 16 * (r mod 16)) * 16) by ring.
       rewrite Z.div_add by lia. lia. }
  pose proof (Z.mod_pos_bound r 16).
  replace (pop2 b + 256 * r + (Z.shiftr (pop2 b) 4 + 16 * (r mod 16) + 256 * Z.shiftr r 4)) with
    ((pop2 b + Z.shiftr (pop2 b) 4 + 16 * (r mod 16)) + 256 * (r + Z.shiftr r 4)) by lia.
  rewrite byte_decomp_land by (unfold is_byte; lia). rewrite IH. f_equal.
  change 15 with (2 ^ 4 - 1) at 1. rewrite land_mask by lia. change (2 ^ 4) with 16.
  rewrite <- H4, H3 at 1.
  replace (Z.land (pop2 b) 15 + 16 * Z.shiftr (pop2 b) 4 + Z.shiftr (pop2 b) 4 + 16 * (r mod 16)) with
    (Z.land (pop2 b) 15 + Z.shiftr (pop2 b) 4 + (Z.shiftr (pop2 b) 4 + r mod 16) * 16) by ring.
  rewrite Z.mod_add by lia. apply Z.mod_small. lia.
Qed.
Lemma popcount_mod n v : popcount n (v mod 2 ^ Z.of_nat n) = popcount n v.
Proof.
  revert v. induction n as [|n IH]; intros v; [done|]. cbn [popcount].
  rewrite Nat2Z.inj_succ, Z.pow_succ_r by lia. rewrite Z.rem_mul_r by lia.
  rewrite (Z.mul_comm 2), Z.mod_add, Z.div_add, Zmod_mod, (Z.div_small (v mod 2)) by
    (try apply Z.mod_pos_bound; lia).
  by rewrite Z.add_0_l, IH.
Qed.
Lemma popcount_add n m v : popcount (n + m) v = popcount n v + popcount m (v / 2 ^ Z.of_nat n).
Proof.
  revert v. induction n as [|n IH]; intros v; cbn [popcount Nat.add].
  - by rewrite Z.div_1_r.
  - rewrite IH, Nat2Z.inj_succ, Z.pow_succ_r, Z.div_div by lia. lia.
Qed.
Lemma popcount_bytes l : Forall is_byte l ->
  popcount (8 * length l) (of_bytes l) = foldr Z.add 0 (map (popcount 8) l).
Proof.
  induction 1 as [|b l Hb Hl IH]; [done|]. cbn [length of_bytes map foldr].
  replace (8 * S (length l))%nat with (8 + 8 * length l)%nat by lia.
  rewrite popcount_add, <- (popcount_mod 8). change (2 ^ Z.of_nat 8) with 256.
  unfold is_byte in Hb.
  rewrite (Z.mul_comm 256), Z.mod_add, Z.mod_small, Z.div_add, Z.div_small, Z.add_0_l, IH by lia. done.
Qed.
Lemma popcount_word n V : 0 <= V < 256 ^ Z.of_nat n ->
  popcount (8 * n) V = foldr Z.add 0 (map (popcount 8) (to_bytes n V)).
Proof.
  intros HV. rewrite <- popcount_bytes by apply to_bytes_bytes.
  by rewrite length_to_bytes, of_to_bytes.
Qed.
Lemma popcount8_range b : is_byte b -> 0 <= popcount 8 b <= 8.
Proof. intros Hb. destruct (pop_byte b Hb) as (_ & ? & ? & _ & <-). unfold pop3. lia. Qed.

(** The steps common to the 32-bit and the 64-bit count, on [n] bytes. *)
Lemma popcount_steps n V (w := 8 * Z.of_nat n) (l := to_bytes n V)
    (m := fun x => of_bytes (replicate n x)) : in_word w V ->
  let v := wrap w (V - Z.land (Z.shiftr V 1) (m 0x55)) in
  let v := wrap w (Z.land v (m 0x33) + Z.land (Z.shiftr v 2) (m 0x33)) in
  Z.land (wrap w (v + Z.shiftr v 4)) (m 0xF) = of_bytes (map (popcount 8) l).
Proof.
  intros HV. assert (Hlen : length l = n) by apply length_to_bytes.
  assert (Hw : 2 ^ w = 256 ^ Z.of_nat n) by (unfold w; rewrite Z.pow_mul_r by lia; done).
  assert (Hl : Forall is_byte l) by apply to_bytes_bytes.
  assert (HVl : V = of_bytes l) by (symmetry; apply of_to_bytes; rewrite <- Hw; exact HV).
  assert (Hr : forall f, Forall is_byte (map f l) -> wrap w (of_bytes (map f l)) = of_bytes (map f l)).
  { intros f Hf. apply wrap_small. rewrite Hw, <- Hlen, <- (length_map f l). by apply of_bytes_range. }
  assert (Hf : forall f, (forall b, is_byte b -> is_byte (f b)) -> Forall is_byte (map f l)).
  { intros f Hf. apply Forall_map. by eapply Forall_impl. }
  assert (H1 : Forall is_byte (map pop1 l)) by (apply Hf; intros b Hb; by destruct (pop_byte b Hb)).
  assert (H2 : Forall is_byte (map pop2 l)).
  { apply Hf. intros b Hb. destruct (pop_byte b Hb) as (_ & ? & ? & ? & _). unfold is_byte. lia. }
  assert (Hm : forall x, m x = of_bytes (replicate (length l) x)) by (intros; unfold m; by rewrite Hlen).
  assert (Hm1 : forall x, m x = of_bytes (replicate (length (map pop1 l)) x)) by (intros; by rewrite length_map).
  assert (E1 : V - Z.land (Z.shiftr V 1) (m 0x55) = of_bytes (map pop1 l)).
  { rewrite HVl, Hm, of_bytes_shiftr_land by (done || lia).
    rewrite <- (map_id l) at 1. apply of_bytes_map2. }
  assert (E2 : Z.land (of_bytes (map pop1 l)) (m 0x33) + Z.land (Z.shiftr (of_bytes (map pop1 l)) 2) (m 0x33) =
    of_bytes (map pop2 l)).
  { rewrite Hm1 at 2. rewrite of_bytes_shiftr_land, map_map by (done || lia).
    rewrite Hm, of_bytes_map_land by (done || unfold is_byte; lia). apply of_bytes_map2. }
  cbv zeta. rewrite E1, Hr, E2, Hr by done.
  destruct (pop4_bytes l Hl) as [<- _]. rewrite <- Hm.
  apply Z.bits_inj'. intros i Hi. rewrite !Z.land_spec, testbit_wrap by lia.
  destruct (Z.ltb_spec i w); [done|].
  rewrite (testbit_high w (m 15)), !andb_false_r; [done| |lia|lia].
  rewrite Hw. unfold m. rewrite <- (length_replicate n 15) at 3.
  apply of_bytes_range, Forall_replicate. by unfold is_byte.
Qed.

Lemma shiftr_top w k q s lo : 0 <= k <= w -> 0 <= lo < 2 ^ k -> 0 <= s < 2 ^ (w - k) ->
  Z.shiftr (wrap w (q * 2 ^ w + (s * 2 ^ k + lo))) k = s.
Proof.
  intros Hk Hlo Hs. assert (E : 2 ^ w = 2 ^ k * 2 ^ (w - k)) by (rewrite <- Z.pow_add_r by lia; f_equal; lia).
  unfold wrap. rewrite Z.add_comm, Z.mod_add by (apply Z.pow_nonzero; lia).
  rewrite Z.mod_small by nia. rewrite Z.shiftr_div_pow2, Z.add_comm, Z.div_add, Z.div_small by lia. done.
Qed.

Lemma CountPopulation_32_portable V : in_word 32 V -> CountPopulation_32 V = popcount 32 V.
Proof.
  intros HV. unfold CountPopulation_32. cbv zeta.
  pose proof (popcount_steps 4 V HV) as E. cbv beta zeta in E.
  change (of_bytes (replicate 4 85)) with 0x55555555 in E.
  change (of_bytes (replicate 4 51)) with 0x33333333 in E.
  change (of_bytes (replicate 4 15)) with 0xF0F0F0F in E.
  change (8 * Z.of_nat 4) with 32 in E. rewrite E.
  change 32%nat with (8 * 4)%nat. rewrite popcount_word by exact HV.
  pose proof (to_bytes_bytes 4 V) as Hl. revert Hl.
  generalize (to_bytes 4 V) (length_to_bytes 4 V). intros l Hlen Hl.
  destruct l as [|a [|b [|c [|d [|]]]]]; try discriminate.
  rewrite !Forall_cons in Hl. destruct Hl as (Ha & Hb & Hc & Hd & _).
  apply popcount8_range in Ha, Hb, Hc, Hd. revert Ha Hb Hc Hd. cbn [map of_bytes foldr].
  generalize (popcount 8 a) (popcount 8 b) (popcount 8 c) (popcount 8 d). clear.
  intros a b c d ????.
  replace (_ * 16843009) with ((b + c + d + 256 * (c + d) + 65536 * d) * 2 ^ 32 +
    ((a + b + c + d) * 2 ^ 24 + (a + 256 * (a + b) + 65536 * (a + b + c)))) by ring.
  rewrite shiftr_top by lia. lia.
Qed.
Lemma CountPopulation_64_portable V : in_word 64 V -> CountPopulation_64 V = popcount 64 V.
Proof.
  intros HV. unfold CountPopulation_64. cbv zeta.
  pose proof (popcount_steps 8 V HV) as E. cbv beta zeta in E.
  change (of_bytes (replicate 8 85)) with 0x5555555555555555 in E.
  change (of_bytes (replicate 8 51)) with 0x3333333333333333 in E.
  change (of_bytes (replicate 8 15)) with 0x0F0F0F0F0F0F0F0F in E.
  change (8 * Z.of_nat 8) with 64 in E. rewrite E.
  change 64%nat with (8 * 8)%nat. rewrite popcount_word by exact HV.
  pose proof (to_bytes_bytes 8 V) as Hl. revert Hl.
  generalize (to_bytes 8 V) (length_to_bytes 8 V). intros l Hlen Hl.
  destruct l as [|a [|b [|c [|d [|e [|f [|g [|h [|]]]]]]]]]; try discriminate.
  rewrite !Forall_cons in Hl. destruct Hl as (Ha & Hb & Hc & Hd & He & Hf & Hg & Hh & _).
  apply popcount8_range in Ha, Hb, Hc, Hd, He, Hf, Hg, Hh.
  revert Ha Hb Hc Hd He Hf Hg Hh. cbn [map of_bytes foldr].
  generalize (popcount 8 a) (popcount 8 b) (popcount 8 c) (popcount 8 d)
    (popcount 8 e) (popcount 8 f) (popcount 8 g) (popcount 8 h). clear.
  intros a b c d e f g h ????????.
  replace (_ * 72340172838076673) with
    ((b + c + d + e + f + g + h + 256 * (c + d + e + f + g + h) + 65536 * (d + e + f + g + h) +
      16777216 * (e + f + g + h) + 4294967296 * (f + g + h) + 1099511627776 * (g + h) +
      281474976710656 * h) * 2 ^ 64 +
    ((a + b + c + d + e + f + g + h) * 2 ^ 56 +
     (a + 256 * (a + b) + 65536 * (a + b + c) + 16777216 * (a + b + c + d) +
      4294967296 * (a + b + c + d + e) + 1099511627776 * (a + b + c + d + e + f) +
      281474976710656 * (a + b + c + d + e + f + g)))) by ring.
  rewrite shiftr_top by lia. rewrite wrap_small by lia. lia.
Qed.

(** C25: the portable bit counters (the bisection and half-word loops, the
    mod-37 and mod-67 tables, the parallel population counts) compute the
    compiler builtins' result on every word of their width. *)
Theorem bit_counters_portable V :
  (in_word 32 V -> CountLeadingZeros_32 V = CountLeadingZeros_32_gnu V /\
     CountTrailingZeros_32 V = CountTrailingZeros_32_gnu V /\
     CountPopulation_32 V = popcount 32 V) /\
  (in_word 64 V -> (forall lp64, CountLeadingZeros_64 lp64 V = CountLeadingZeros_64_gnu V) /\
     CountTrailingZeros_64 V = CountTrailingZeros_64_gnu V /\
     CountPopulation_64 V = popcount 64 V).
Proof.
  split; intros HV; split_and!; auto using CountLeadingZeros_32_portable, CountLeadingZeros_64_portable,
    CountTrailingZeros_32_portable, CountTrailingZeros_64_portable,
    CountPopulation_32_portable, CountPopulation_64_portable.
Qed.
Lemma bit_counters_portable_witness :
  CountPopulation_32 0xF0F0 = popcount 32 0xF0F0 /\ CountTrailingZeros_64 0x100 = CountTrailingZeros_64_gnu 0x100.
Proof. split; [apply (bit_counters_portable 0xF0F0)|apply (bit_counters_portable 0x100)]; unfold in_word; lia. Defined.

(** ** Masks and powers of two *)

Lemma land_pred_zero V : 0 < V -> Z.land V (V - 1) = 0 <-> V = 2 ^ Z.log2 V.
Proof.
  intros HV. assert (0 <= Z.log2 V) by apply Z.log2_nonneg.
  destruct (Z.log2_spec V HV) as [Hlo Hhi]. split; intros H0.
  - destruct (decide (V = 2 ^ Z.log2 V)) as [|Hne]; [done|exfalso].
    assert (E : Z.testbit (Z.land V (V - 1)) (Z.log2 V) = true).
    { rewrite Z.land_spec, Z.bit_log2 by done.
      replace (Z.log2 V) with (Z.log2 (V - 1)); [apply Z.bit_log2; lia|].
      apply Z.log2_unique; [done|]. lia. }
    by rewrite H0, Z.bits_0 in E.
  - rewrite H0. apply Z.bits_inj'. intros i Hi.
    rewrite Z.land_spec, testbit_pow2, testbit_pow2m1, Z.bits_0 by done. zcmp; try lia; done.
Qed.
Lemma mask_shape w V : 0 < w -> 0 < V < 2 ^ w ->
  Z.land (wrap w (V + 1)) V = 0 <-> exists k, 0 < k <= w /\ V = 2 ^ k - 1.
Proof.
  intros Hw HV. destruct (decide (V + 1 = 2 ^ w)) as [E|E].
  - replace (wrap w (V + 1)) with 0 by (rewrite E; symmetry; apply Z_mod_same_full).
    rewrite Z.land_0_l. split; [|done]. exists w. lia.
  - rewrite wrap_small by lia. replace V with (V + 1 - 1) at 2 by lia.
    rewrite land_pred_zero by lia. split.
    + intros H. exists (Z.log2 (V + 1)). split; [|lia]. split; [apply Z.log2_pos; lia|].
      apply Z.log2_lt_pow2 with (b := w) in E || (assert (Z.log2 (V + 1) < w); [apply Z.log2_lt_pow2; lia|lia]).
    + intros (k & Hk & Ek). rewrite Ek. replace (2 ^ k - 1 + 1) with (2 ^ k) by lia.
      by rewrite Z.log2_pow2 by lia.
Qed.
Lemma fill_low_zeros w V : 0 < V < 2 ^ w -> 0 <= w ->
  exists k m, 0 <= k /\ V = 2 ^ k * (2 * m + 1) /\ 0 <= m /\ Z.lor (V - 1) V = V + 2 ^ k - 1.
Proof.
  intros HV Hw.
  assert (Hodd : exists k m, 0 <= k /\ 0 <= m /\ V = 2 ^ k * (2 * m + 1)).
  { destruct V as [|p|]; try lia. clear HV. induction p as [p IH|p (k & m & ? & ? & E)|].
    - exists 0, (Zpos p). lia.
    - exists (k + 1), m. rewrite Z.pow_add_r by lia. lia.
    - by exists 0, 0. }
  destruct Hodd as (k & m & Hk & Hm & E). exists k, m. split_and!; try done.
  assert (0 < 2 ^ k) by (apply pow2_pos; lia).
  replace (V - 1) with (m * 2 ^ (k + 1) + (2 ^ k - 1)) by (rewrite Z.pow_add_r, E by lia; lia).
  replace (V + 2 ^ k - 1) with (m * 2 ^ (k + 1) + (2 ^ (k + 1) - 1)) by (rewrite Z.pow_add_r, E by lia; lia).
  replace V with (m * 2 ^ (k + 1) + 2 ^ k) by (rewrite Z.pow_add_r, E by lia; lia).
  assert (Hdec : forall lo, 0 <= lo < 2 ^ (k + 1) -> m * 2 ^ (k + 1) + lo = Z.lor (Z.shiftl m (k + 1)) lo).
  { intros lo Hlo. rewrite <- Z.shiftl_mul_pow2 by lia. apply Z.add_nocarry_lor.
    apply Z.bits_inj'. intros i Hi. rewrite Z.land_spec, testbit_shiftl, Z.bits_0 by lia.
    destruct (Z.leb_spec (k + 1) i); [|done]. by rewrite (testbit_high (k + 1) lo), andb_false_r by lia. }
  assert (2 ^ (k + 1) = 2 * 2 ^ k) by (rewrite Z.pow_add_r by lia; lia).
  rewrite !Hdec by lia. zbits.
Qed.

Lemma odd_part_unique k j m n : 0 <= k -> 0 <= j -> 2 ^ k * (2 * m + 1) = 2 ^ j * (2 * n + 1) -> k = j.
Proof.
  assert (Hlt : forall k j m n, 0 <= k < j -> 2 ^ k * (2 * m + 1) = 2 ^ j * (2 * n + 1) -> False).
  { clear. intros k j m n Hk E. replace j with (k + (1 + (j - k - 1))) in E by lia.
    rewrite !Z.pow_add_r in E by lia. assert (0 < 2 ^ k) by (apply pow2_pos; lia).
    assert (2 * m + 1 = 2 * (2 ^ (j - k - 1) * (2 * n + 1))); [|lia].
    apply (Z.mul_reg_l _ _ (2 ^ k)); [lia|]. rewrite E. change (2 ^ 1) with 2. ring. }
  intros Hk Hj E. destruct (Z.lt_trichotomy k j) as [?|[?|?]]; [|done|]; exfalso; eapply Hlt;
    [|exact E| |symmetry; exact E]; lia.
Qed.

(** The predicates at a width [w]. *)
Lemma isPowerOf2_w w V : 0 < w -> in_word w V ->
  nz V && negb (nz (Z.land V (wrap w (V - 1)))) = true <-> exists k, 0 <= k < w /\ V = 2 ^ k.
Proof.
  intros Hw HV. unfold in_word in HV. rewrite andb_true_iff, negb_true_iff, nz_true, nz_false. split.
  - intros [HV0 H]. rewrite wrap_small, land_pred_zero in H by lia. exists (Z.log2 V).
    split; [|done]. split; [apply Z.log2_nonneg|]. apply Z.log2_lt_pow2; lia.
  - intros (k & Hk & ->). assert (0 < 2 ^ k) by (apply pow2_pos; lia). split; [lia|].
    assert (2 ^ k < 2 ^ w) by (apply Z.pow_lt_mono_r; lia).
    rewrite wrap_small, land_pred_zero, Z.log2_pow2 by lia. done.
Qed.
Lemma isMask_w w V : 0 < w -> in_word w V ->
  nz V && (Z.land (wrap w (V + 1)) V =? 0) = true <-> exists k, 0 < k <= w /\ V = 2 ^ k - 1.
Proof.
  intros Hw HV. unfold in_word in HV. rewrite andb_true_iff, Z.eqb_eq, nz_true. split.
  - intros [? H]. apply (mask_shape w); [lia|lia|done].
  - intros H. assert (V <> 0).
    { destruct H as (k & ? & ->). assert (2 ^ 0 < 2 ^ k) by (apply Z.pow_lt_mono_r; lia). lia. }
    split; [done|]. apply (mask_shape w); [lia|lia|done].
Qed.
Lemma isShiftedMask_w w V (U := Z.lor (wrap w (V - 1)) V) : 0 < w -> in_word w V ->
  nz U && (Z.land (wrap w (U + 1)) U =? 0) = true <->
  V = 0 \/ exists j k, 0 <= j < k /\ k <= w /\ V = 2 ^ k - 2 ^ j.
Proof.
  intros Hw HV. assert (HU : in_word w U) by (apply lor_range; [lia|apply wrap_in_word; lia|done]).
  rewrite (isMask_w w U Hw HU). unfold U in *. unfold in_word in HV.
  destruct (decide (V = 0)) as [->|HV0].
  { split; [by left|]. intros _. exists w. rewrite Z.lor_0_r. split; [lia|].
    unfold wrap. symmetry. apply Z.mod_unique with (-1); lia. }
  rewrite wrap_small by lia.
  destruct (fill_low_zeros w V) as (k & m & Hk & HVm & Hm & ->); [lia|lia|].
  assert (0 < 2 ^ k) by (apply pow2_pos; lia). split.
  - intros (K & HK & E). right. exists k, K. split_and!; [done| |lia|lia].
    apply (Z.pow_lt_mono_r_iff 2); [lia|lia|]. lia.
  - intros [?|(j & K & Hj & HK & E)]; [done|]. exists K. split; [lia|].
    assert (k = j); [|subst k; lia].
    apply (odd_part_unique k j m (2 ^ (K - j - 1) - 1)); [lia|lia|].
    rewrite <- HVm, E. replace K with (j + (1 + (K - j - 1))) at 1 by lia.
    rewrite !Z.pow_add_r by lia. ring.
Qed.

(** ** Logarithms, divisors and alignment *)

Lemma Log2_32_correct V : 0 < V < 2 ^ 32 -> Log2_32 V = Z.log2 V.
Proof.
  intros HV. unfold Log2_32. rewrite CountLeadingZeros_32_portable by (unfold in_word; lia).
  unfold CountLeadingZeros_32_gnu, builtin_clz. rewrite (proj2 (nz_true V)) by lia. cbn [negb].
  assert (0 <= Z.log2 V < 32) by (split; [apply Z.log2_nonneg|apply Z.log2_lt_pow2; lia]).
  rewrite wrap_small by lia. lia.
Qed.
Lemma Log2_64_correct V : 0 < V < 2 ^ 64 -> Log2_64 V = Z.log2 V.
Proof.
  intros HV. unfold Log2_64. rewrite CountLeadingZeros_64_portable by (unfold in_word; lia).
  unfold CountLeadingZeros_64_gnu, builtin_clz. rewrite (proj2 (nz_true V)) by lia. cbn [negb].
  assert (0 <= Z.log2 V < 64) by (split; [apply Z.log2_nonneg|apply Z.log2_lt_pow2; lia]).
  rewrite wrap_small by lia. lia.
Qed.
Lemma log2_up_pred V : 1 < V -> Z.log2_up V = Z.log2 (V - 1) + 1.
Proof. intros. rewrite Z.log2_up_eqn by lia. unfold Z.pred. replace (V + -1) with (V - 1); lia. Qed.
Lemma Log2_32_Ceil_correct V : 0 < V < 2 ^ 32 -> Log2_32_Ceil V = Z.log2_up V.
Proof.
  intros HV. unfold Log2_32_Ceil. rewrite (wrap_small 32 (V - 1)) by lia.
  rewrite CountLeadingZeros_32_portable by (unfold in_word; lia).
  unfold CountLeadingZeros_32_gnu, builtin_clz. destruct (decide (V = 1)) as [->|]; [done|].
  rewrite (proj2 (nz_true (V - 1))), log2_up_pred by lia. cbn [negb].
  assert (0 <= Z.log2 (V - 1) < 32) by (split; [apply Z.log2_nonneg|apply Z.log2_lt_pow2; lia]).
  rewrite wrap_small by lia. lia.
Qed.
Lemma Log2_64_Ceil_correct V : 0 < V < 2 ^ 64 -> Log2_64_Ceil V = Z.log2_up V.
Proof.
  intros HV. unfold Log2_64_Ceil. rewrite (wrap_small 64 (V - 1)) by lia.
  rewrite CountLeadingZeros_64_portable by (unfold in_word; lia).
  unfold CountLeadingZeros_64_gnu, builtin_clz. destruct (decide (V = 1)) as [->|]; [done|].
  rewrite (proj2 (nz_true (V - 1))), log2_up_pred by lia. cbn [negb].
  assert (0 <= Z.log2 (V - 1) < 64) by (split; [apply Z.log2_nonneg|apply Z.log2_lt_pow2; lia]).
  rewrite wrap_small by lia. lia.
Qed.

Lemma gcd_loop_correct (k : nat) fuel A B :
  (2 * k + 1 <= fuel)%nat -> 0 <= A -> 0 <= B < 2 ^ Z.of_nat k -> gcd_loop fuel A B = Some (Z.gcd A B).
Proof.
  revert fuel A B. induction k as [|k IH]; intros [|fuel] A B Hf HA HB; try lia; cbn [gcd_loop].
  - assert (B = 0) as -> by (simpl in HB; lia). simpl. by rewrite Z.gcd_0_r, Z.abs_eq.
  - rewrite Nat2Z.inj_succ, Z.pow_succ_r in HB by lia.
    destruct (nz B) eqn:EB.
    2: { apply nz_false in EB as ->. by rewrite Z.gcd_0_r, Z.abs_eq. }
    apply nz_true in EB. destruct fuel as [|fuel]; [lia|]. cbn [gcd_loop].
    pose proof (Z.mod_pos_bound A B ltac:(lia)) as Hr.
    destruct (nz (A mod B)) eqn:Er.
    2: { apply nz_false in Er. rewrite <- Z.gcd_mod_l, Er. by rewrite Z.gcd_0_l, Z.abs_eq by lia. }
    apply nz_true in Er. pose proof (Z.mod_pos_bound B (A mod B) ltac:(lia)).
    rewrite IH; [|lia|lia|].
    + f_equal. by rewrite Z.gcd_mod_r, Z.gcd_mod_l.
    + split; [lia|]. destruct (decide (A mod B < 2 ^ Z.of_nat k)); [lia|].
      rewrite <- (Z.mod_unique B (A mod B) 1 (B - A mod B)); lia.
Qed.

Lemma divide_pow2_lor j A B : 0 <= j -> (2 ^ j | Z.lor A B) <-> (2 ^ j | A) /\ (2 ^ j | B).
Proof.
  intros Hj. assert (2 ^ j <> 0) by (apply Z.pow_nonzero; lia).
  rewrite <- !Z.mod_divide, <- !Z.land_ones, Z.land_lor_distr_l by done. apply Z.lor_eq_0_iff.
Qed.
Lemma MinAlign_correct A B : in_word 64 A -> in_word 64 B -> Z.lor A B <> 0 ->
  exists k, 0 <= k /\ MinAlign A B = 2 ^ k /\ forall j, 0 <= j -> ((2 ^ j | A) /\ (2 ^ j | B) <-> j <= k).
Proof.
  intros HA HB H0. destruct (lor_range 64 A B) as [Hlo Hhi]; [lia|done|done|].
  destruct (lowest_bit 64 (Z.lor A B)) as (k & m & Hk & E & _ & Em); [lia|lia|].
  exists k. split; [lia|]. split; [unfold MinAlign; by rewrite Z.land_comm|].
  intros j Hj. rewrite <- divide_pow2_lor, Em by lia. split.
  - intros [q Hq]. destruct (decide (j <= k)); [done|exfalso].
    assert (0 < 2 ^ k) by (apply pow2_pos; lia).
    assert (2 * m + 1 = 2 * (q * 2 ^ (j - k - 1))); [|lia].
    apply (Z.mul_reg_l _ _ (2 ^ k)); [lia|]. rewrite Hq.
    replace j with (k + (1 + (j - k - 1))) at 1 by lia. rewrite !Z.pow_add_r by lia. change (2 ^ 1) with 2. ring.
  - intros Hjk. apply Z.divide_mul_l. exists (2 ^ (k - j)). rewrite <- Z.pow_add_r by lia. f_equal. lia.
Qed.

(** The least multiple of [Align] not below [Value]. *)
Definition round_up (Value Align : Z) : Z := (Value + Align - 1) / Align * Align.
Lemma round_up_spec Value Align : 0 < Align ->
  Value <= round_up Value Align < Value + Align /\ (Align | round_up Value Align).
Proof.
  intros HA. unfold round_up. split; [|by apply Z.divide_factor_r].
  pose proof (Z.div_mod (Value + Align - 1) Align ltac:(lia)).
  pose proof (Z.mod_pos_bound (Value + Align - 1) Align HA). lia.
Qed.
Lemma RoundUpToAlignment_correct Value Align : in_word 64 Value -> 0 < Align < 2 ^ 64 ->
  Value + Align - 1 < 2 ^ 64 \/ (Align | 2 ^ 64) ->
  RoundUpToAlignment Value Align = u64 (round_up Value Align).
Proof.
  intros HV HA Hcase. unfold in_word in HV. unfold RoundUpToAlignment, round_up.
  assert (E : u64 (u64 (Value + Align) - 1) = u64 (Value + Align - 1)).
  { unfold wrap. by rewrite Zminus_mod_idemp_l. }
  rewrite E. destruct (decide (Value + Align - 1 < 2 ^ 64)).
  - by rewrite (wrap_small 64 (Value + Align - 1)) by lia.
  - destruct Hcase as [|[q Hq]]; [lia|].
    unfold wrap. set (x := Value + Align - 1) in *.
    pose proof (Z.div_mod x (2 ^ 64) ltac:(lia)) as Hx.
    set (t := x / 2 ^ 64) in *. set (r := x mod 2 ^ 64) in *.
    assert (Ex : x / Align = q * t + r / Align).
    { rewrite Hx, Hq. replace (q * Align * t + r) with (r + q * t * Align) by ring.
      rewrite Z.div_add by lia. lia. }
    rewrite Ex, Z.mul_add_distr_r.
    replace (q * t * Align) with (t * 2 ^ 64) by (rewrite Hq; ring).
    by rewrite Z.add_comm, Z.mod_add by lia.
Qed.

(** The logarithms, Euclid's loop and the alignment routines: [Log2] is the
    floor and [Log2_Ceil] the ceiling of the base-2 logarithm, with the results
    of the header for 0; [GreatestCommonDivisor64] terminates with the gcd;
    [NextPowerOf2] is the least power of two strictly greater than its argument,
    and 0 exactly when that power does not fit the word, at both widths;
    [MinAlign] is the largest power of two dividing both arguments;
    [RoundUpToAlignment] is, modulo 2^64, the least multiple of a power of two
    not below its argument (and of any alignment when the sum does not
    overflow) and [OffsetToAlignment] the distance to it. *)
Theorem log_gcd_align_correct A B : in_word 64 A -> in_word 64 B ->
  (0 < A -> Log2_64 A = Z.log2 A /\ Log2_64_Ceil A = Z.log2_up A) /\
  (0 < A < 2 ^ 32 -> Log2_32 A = Z.log2 A /\ Log2_32_Ceil A = Z.log2_up A) /\
  Log2_32 0 = 2 ^ 32 - 1 /\ Log2_32_Ceil 0 = 32 /\ Log2_64 0 = 2 ^ 32 - 1 /\ Log2_64_Ceil 0 = 64 /\
  GreatestCommonDivisor64 A B = Some (Z.gcd A B) /\
  next_pow2_spec 64 A (NextPowerOf2_64 A) /\ (A < 2 ^ 32 -> next_pow2_spec 32 A (NextPowerOf2_32 A)) /\
  (Z.lor A B <> 0 -> exists k, 0 <= k /\ MinAlign A B = 2 ^ k /\
     forall j, 0 <= j -> ((2 ^ j | A) /\ (2 ^ j | B) <-> j <= k)) /\
  (0 < B -> A + B - 1 < 2 ^ 64 \/ (B | 2 ^ 64) -> exists r,
     A <= r < A + B /\ (B | r) /\ RoundUpToAlignment A B = u64 r /\ OffsetToAlignment A B = r - A).
Proof.
  intros HA HB. unfold in_word in HA, HB. split_and!.
  - intros. split; [apply Log2_64_correct|apply Log2_64_Ceil_correct]; lia.
  - intros. split; [apply Log2_32_correct|apply Log2_32_Ceil_correct]; lia.
  - reflexivity.
  - reflexivity.
  - reflexivity.
  - reflexivity.
  - apply (gcd_loop_correct 64); [lia|lia|]. exact HB.
  - by apply NextPowerOf2_ok.
  - intros. apply NextPowerOf2_ok. unfold in_word. lia.
  - by apply MinAlign_correct.
  - intros HB0 Hc. exists (round_up A B). destruct (round_up_spec A B HB0) as [Hr Hd].
    assert (E : RoundUpToAlignment A B = u64 (round_up A B)) by
      (apply RoundUpToAlignment_correct; [exact HA|lia|exact Hc]).
    split_and!; try done; try lia. unfold OffsetToAlignment. rewrite E. unfold wrap.
    rewrite Zminus_mod_idemp_l. apply Z.mod_small. lia.
Qed.
Example log_gcd_align_48_36 :
  GreatestCommonDivisor64 48 36 = Some (Z.gcd 48 36) /\ Log2_64_Ceil 48 = Z.log2_up 48.
Proof.
  destruct (log_gcd_align_correct 48 36) as (H1 & _ & _ & _ & _ & _ & H2 & _);
    [unfold in_word; lia|unfold in_word; lia|]. split; [exact H2|]. apply H1. lia.
Defined.

(** The rounding of an alignment that is not a power of two is off when the sum
    overflows: 2^64 - 1 is a multiple of 3, yet it is rounded to 0. *)
Lemma RoundUpToAlignment_overflow : RoundUpToAlignment (2 ^ 64 - 1) 3 = 0 /\ (3 | 2 ^ 64 - 1).
Proof. split; [reflexivity|]. by exists 6148914691236517205. Qed.
Lemma isShiftedMask_zero : isShiftedMask_32 0 = true /\ isShiftedMask_64 0 = true.
Proof. split; reflexivity. Qed.

(** ** Width tests and sign extension *)
Lemma sint_eq_iff w x : 0 < w -> sint w x = x <-> - 2 ^ (w - 1) <= x < 2 ^ (w - 1).
Proof.
  intros Hw. assert (E : 2 ^ w = 2 * 2 ^ (w - 1)) by (rewrite <- Z.pow_succ_r by lia; f_equal; lia).
  assert (0 < 2 ^ (w - 1)) by (apply pow2_pos; lia).
  unfold sint. pose proof (wrap_range w x ltac:(lia)) as Hr. destruct (Z.ltb_spec (wrap w x) (2 ^ (w - 1))).
  - split; [lia|]. intros Hx. destruct (decide (0 <= x)).
    + apply wrap_small. lia.
    + replace (wrap w x) with (x + 2 ^ w) in *; [lia|]. symmetry.
      unfold wrap. symmetry. apply Z.mod_unique with (-1); lia.
  - split; [lia|]. intros Hx. destruct (decide (0 <= x)).
    + rewrite wrap_small in * by lia. lia.
    + replace (wrap w x) with (x + 2 ^ w); [lia|].
      unfold wrap. apply Z.mod_unique with (-1); lia.
Qed.
Lemma sint_shifted w s x : 0 <= s < w ->
  sint w (wrap w (Z.shiftl x s)) = sint (w - s) x * 2 ^ s.
Proof.
  intros Hs. unfold sint. rewrite wrap_idem.
  assert (E : 2 ^ w = 2 ^ (w - s) * 2 ^ s) by (rewrite <- Z.pow_add_r by lia; f_equal; lia).
  assert (E1 : 2 ^ (w - 1) = 2 ^ (w - s - 1) * 2 ^ s) by (rewrite <- Z.pow_add_r by lia; f_equal; lia).
  assert (0 < 2 ^ s) by (apply pow2_pos; lia).
  assert (Ew : wrap w (Z.shiftl x s) = wrap (w - s) x * 2 ^ s).
  { unfold wrap. rewrite Z.shiftl_mul_pow2, E by lia. apply Z.mul_mod_distr_r; [apply Z.pow_nonzero|]; lia. }
  rewrite Ew, E, E1.
  destruct (Z.ltb_spec (wrap (w - s) x) (2 ^ (w - s - 1))), (Z.ltb_spec (wrap (w - s) x * 2 ^ s) (2 ^ (w - s - 1) * 2 ^ s)); nia.
Qed.
Lemma isInt_range N x : 0 < N -> in_word 63 x \/ - 2 ^ 63 <= x < 0 ->
  isInt N x = true <-> - 2 ^ (N - 1) <= x < 2 ^ (N - 1).
Proof.
  intros HN Hx. unfold isInt. rewrite !Z.shiftl_mul_pow2, Z.mul_1_l by lia.
  rewrite orb_true_iff, andb_true_iff, !Z.leb_le, Z.ltb_lt. split; [|lia].
  intros [H|H]; [|lia]. unfold in_word in Hx.
  assert (2 ^ 63 <= 2 ^ (N - 1)) by (apply Z.pow_le_mono_r; lia). lia.
Qed.
Lemma isUInt_range N x : 0 <= N -> in_word 64 x -> isUInt N x = true <-> x < 2 ^ N.
Proof.
  intros HN Hx. unfold in_word in Hx. unfold isUInt. rewrite Z.shiftl_mul_pow2, Z.mul_1_l by lia.
  rewrite orb_true_iff, Z.leb_le, Z.ltb_lt. split; [|lia]. intros [H|H]; [|lia].
  assert (2 ^ 64 <= 2 ^ N) by (apply Z.pow_le_mono_r; lia). lia.
Qed.
Lemma wrap_eq_iff w x : 0 <= w -> 0 <= x -> wrap w x = x <-> x < 2 ^ w.
Proof. intros Hw Hx. split; [intros <-; by apply wrap_range|]. intros. by apply wrap_small. Qed.

Lemma int_widths_ok N x : 0 < N <= 64 ->
  (- 2 ^ 63 <= x < 2 ^ 63 ->
     (isInt N x = true <-> - 2 ^ (N - 1) <= x < 2 ^ (N - 1)) /\ isIntN N x = isInt N x /\
     isInt_8 x = isInt 8 x /\ isInt_16 x = isInt 16 x /\ isInt_32 x = isInt 32 x) /\
  (in_word 64 x ->
     (isUInt N x = true <-> x < 2 ^ N) /\ isUIntN N x = isUInt N x /\
     isUInt_8 x = isUInt 8 x /\ isUInt_16 x = isUInt 16 x /\ isUInt_32 x = isUInt 32 x) /\
  (N <= 32 -> SignExtend32 x N = sint N x) /\ SignExtend64 x N = sint N x /\
  isInt N (SignExtend64 x N) = true.
Proof.
  intros HN.
  assert (HS : SignExtend64 x N = sint N x).
  { unfold SignExtend64. rewrite sint_shifted by lia.
    replace (64 - (64 - N)) with N by lia. rewrite Z.shiftr_div_pow2, Z.div_mul; [done|apply Z.pow_nonzero; lia|lia]. }
  split_and!.
  - intros Hx. assert (Hx' : in_word 63 x \/ - 2 ^ 63 <= x < 0) by (unfold in_word; lia).
    assert (HI : forall w, 0 < w -> (sint w x =? x) = isInt w x).
    { intros w Hw. apply eq_true_iff_eq. rewrite Z.eqb_eq, sint_eq_iff, isInt_range by done. done. }
    split_and!; [apply isInt_range; [lia|done]|done|apply HI; lia..].
  - intros Hx. assert (HU : forall w, 0 <= w -> (wrap w x =? x) = isUInt w x).
    { intros w Hw. unfold in_word in Hx. apply eq_true_iff_eq.
      rewrite Z.eqb_eq, wrap_eq_iff, isUInt_range by (done || lia). done. }
    split_and!; [apply isUInt_range; [lia|done]| |apply HU; lia..].
    rewrite <- HU by lia. unfold isUIntN. rewrite Z.eqb_sym. f_equal. symmetry.
    rewrite wrap_land by lia. f_equal. change (unot 64 0) with (2 ^ 64 - 1).
    apply Z.bits_inj'. intros i Hi. rewrite Z.shiftr_spec, !testbit_pow2m1 by lia. zcmp; lia.
  - intros HN32. unfold SignExtend32. rewrite sint_shifted by lia.
    replace (32 - (32 - N)) with N by lia. rewrite Z.shiftr_div_pow2, Z.div_mul; [done|apply Z.pow_nonzero; lia|lia].
  - exact HS.
  - rewrite HS. unfold sint. pose proof (wrap_range N x ltac:(lia)).
    assert (E : 2 ^ N = 2 * 2 ^ (N - 1)) by (rewrite <- Z.pow_succ_r by lia; f_equal; lia).
    assert (2 ^ N <= 2 ^ 64) by (apply Z.pow_le_mono_r; lia).
    destruct (Z.ltb_spec (wrap N x) (2 ^ (N - 1))); apply isInt_range; (lia || (unfold in_word; lia)).
Qed.

(** C26: [isPowerOf2], [isMask] and [isShiftedMask] hold exactly of the powers of
    two, of the non-empty runs of ones from bit 0, and of the non-empty runs of
    ones anywhere in the word, at both widths; the one exception is 0, which
    [isShiftedMask] accepts although it has no ones. [isInt] and [isUInt] decide
    the range of a signed and of an unsigned N-bit number for every N, their
    specialisations for 8, 16 and 32 bits and the dynamic [isIntN] and [isUIntN]
    agree with them, and [SignExtend32]/[SignExtend64] return the signed reading
    of the low N bits, a number on which [isInt] N holds. *)
Theorem number_predicates_correct N x : 0 < N <= 64 ->
  (in_word 32 x ->
    (isPowerOf2_32 x = true <-> exists k, 0 <= k < 32 /\ x = 2 ^ k) /\
    (isMask_32 x = true <-> exists k, 0 < k <= 32 /\ x = 2 ^ k - 1) /\
    (isShiftedMask_32 x = true <-> x = 0 \/ exists j k, 0 <= j < k /\ k <= 32 /\ x = 2 ^ k - 2 ^ j)) /\
  (in_word 64 x ->
    (isPowerOf2_64 x = true <-> exists k, 0 <= k < 64 /\ x = 2 ^ k) /\
    (isMask_64 x = true <-> exists k, 0 < k <= 64 /\ x = 2 ^ k - 1) /\
    (isShiftedMask_64 x = true <-> x = 0 \/ exists j k, 0 <= j < k /\ k <= 64 /\ x = 2 ^ k - 2 ^ j)) /\
  (- 2 ^ 63 <= x < 2 ^ 63 ->
     (isInt N x = true <-> - 2 ^ (N - 1) <= x < 2 ^ (N - 1)) /\ isIntN N x = isInt N x /\
     isInt_8 x = isInt 8 x /\ isInt_16 x = isInt 16 x /\ isInt_32 x = isInt 32 x) /\
  (in_word 64 x ->
     (isUInt N x = true <-> x < 2 ^ N) /\ isUIntN N x = isUInt N x /\
     isUInt_8 x = isUInt 8 x /\ isUInt_16 x = isUInt 16 x /\ isUInt_32 x = isUInt 32 x) /\
  (N <= 32 -> SignExtend32 x N = sint N x) /\ SignExtend64 x N = sint N x /\
  isInt N (SignExtend64 x N) = true.
Proof.
  intros HN. split; [|split; [|by apply int_widths_ok]]; intros Hx; (split; [|split]);
    [apply (isPowerOf2_w 32)|apply (isMask_w 32)|apply (isShiftedMask_w 32)
    |apply (isPowerOf2_w 64)|apply (isMask_w 64)|apply (isShiftedMask_w 64)]; done.
Qed.
Lemma number_predicates_correct_witness :
  (isPowerOf2_64 96 = true <-> exists k, 0 <= k < 64 /\ 96 = 2 ^ k) /\
  SignExtend32 0xFF 8 = sint 8 0xFF /\ isUIntN 8 0xFF = isUInt 8 0xFF.
Proof.
  split; [apply (number_predicates_correct 8 96); unfold in_word; lia|].
  destruct (number_predicates_correct 8 0xFF) as (_ & _ & _ & H1 & H2 & _); [lia|]. split; [apply H2; lia|].
  apply H1. unfold in_word. lia.
Defined.
