(* ===== verification/ObjcOS.v ===== *)
(** * objc-os.h and objc-private.h: words, pointers, hashing

    The small arithmetic helpers the runtime's components share: rounding to
    words and to 16 bytes, add and subtract with carry, the pointer and string
    hash functions, disguised pointers and the stripe of a [StripedMap]. The
    LP64 configuration is modelled: a word has 64 bits. *)

From stdpp Require Import prelude numbers list.
From Stdlib Require Import ZArith Lia Bool.
From S2P Require Import Prelude.

Definition WORD_SHIFT : Z := 3.
Definition WORD_MASK : Z := 7.
Definition WORD_BITS : Z := 64.

Definition word_align_32 (x : Z) : Z := u32 (Z.land (u64 (x + WORD_MASK)) (unot 64 WORD_MASK)).
Definition word_align (x : Z) : Z := Z.land (u64 (x + WORD_MASK)) (unot 64 WORD_MASK).
Definition align16 (x : Z) : Z := Z.land (u64 (x + 15)) (unot 64 15).

(** [__builtin_clz] of the 32-bit value, for a non-zero mask. *)
Definition mask16ShiftBits (mask : Z) : res Z :=
  let maskShift := (31 - Z.log2 mask) - 16 in
  assert? (Z.shiftr 0xffff maskShift =? mask) in Ok maskShift.

(** Result and carry out, at the width of [uintptr_t]. *)
Definition addc (w lhs rhs carryin : Z) : Z * bool :=
  (wrap w (lhs + rhs + carryin), 2 ^ w <=? lhs + rhs + carryin).
Definition subc (w lhs rhs carryin : Z) : Z * bool :=
  (wrap w (lhs - rhs - carryin), lhs - rhs - carryin <? 0).

(** Recursion on the number of bits left. *)
Fixpoint log2u_fuel (fuel : nat) (x : Z) : Z :=
  match fuel with
  | O => 0
  | S fuel => if x <? 2 then 0 else log2u_fuel fuel (Z.shiftr x 1) + 1
  end.
Definition log2u (x : Z) : Z := log2u_fuel 64 x.
Definition exp2u (x : Z) : Z := Z.shiftl 1 x.
Definition exp2m1u (x : Z) : Z := Z.shiftl 1 x - 1.

Definition byte_of (i x : Z) : Z := Z.land (Z.shiftr x (8 * i)) 0xFF.
(** [__builtin_bswap64]. *)
Definition bswap64 (x : Z) : Z :=
  fold_left (fun acc i => Z.lor acc (Z.shiftl (byte_of i x) (56 - 8 * i))) [0; 1; 2; 3; 4; 5; 6; 7] 0.
Definition ptr_hash (key : Z) : Z :=
  let key := Z.lxor key (Z.shiftr key 4) in
  let key := u64 (key * 0x8a970be7488fda55) in
  let key := Z.lxor key (bswap64 key) in
  u32 key.

(** The bytes before the terminating NUL, as the signed chars the loop reads. *)
Fixpoint strhash_loop (hash : Z) (s : list Z) : Z :=
  match s with
  | [] => hash
  | a :: s => strhash_loop (u32 (hash + u32 (u32 (Z.shiftl hash 8) + a))) s
  end.
Definition objc_strhash (s : list Z) : Z := strhash_loop 0 s.

(** [DisguisedPtr]: the stored word is the negated pointer. *)
Definition disguise (ptr : Z) : Z := u64 (- ptr).
Definition undisguise (val : Z) : Z := u64 (- val).

(** [StripedMap::indexForPointer]; [StripeCount] is 8 on iOS devices, else 64. *)
Definition StripeCount (ios_device : bool) : Z := if ios_device then 8 else 64.
Definition indexForPointer (ios_device : bool) (addr : Z) : Z :=
  Z.lxor (Z.shiftr addr 4) (Z.shiftr addr 9) mod StripeCount ios_device.

(** ** Lemmas *)
Lemma disguise_range p : in_word 64 (disguise p).
Proof. apply wrap_in_word. lia. Qed.
Lemma undisguise_disguise p : in_word 64 p -> undisguise (disguise p) = p.
Proof.
  intros Hp. unfold undisguise, disguise, wrap. 
  unfold in_word in Hp. destruct (decide (p = 0)) as [->|]; [done|].
  rewrite <- (Z.mod_unique (- p) (2 ^ 64) (-1) (2 ^ 64 - p)) by lia.
  symmetry. apply Z.mod_unique with (-1); lia.
Qed.
Lemma disguise_inj p q : in_word 64 p -> in_word 64 q -> disguise p = disguise q -> p = q.
Proof. intros Hp Hq E. rewrite <- (undisguise_disguise p), <- (undisguise_disguise q) by done. by rewrite E. Qed.
Lemma disguise_zero p : in_word 64 p -> disguise p = 0 <-> p = 0.
Proof. intros Hp. split; [|by intros ->]. intros E. by apply disguise_inj. Qed.

(** Masking off the low [k] bits of a word rounds it down to a multiple of [2^k]. *)
Lemma land_unot_mask w k x : 0 <= k <= w -> in_word w x ->
  Z.land x (unot w (2 ^ k - 1)) = x - x mod 2 ^ k.
Proof.
  intros Hk Hx. rewrite <- (land_mask k x) by lia.
  assert (E : Z.lor (Z.land x (unot w (2 ^ k - 1))) (Z.land x (2 ^ k - 1)) = x).
  { unfold unot. apply Z.bits_inj'. intros i Hi.
    rewrite Z.lor_spec, !Z.land_spec, testbit_wrap, Z.lnot_spec, testbit_pow2m1 by lia.
    destruct (Z.ltb_spec i w); [by destruct (Z.testbit x i), (i <? k)|].
    by rewrite (testbit_high w x) by (unfold in_word in Hx; lia). }
  rewrite <- Z.add_nocarry_lor in E; [lia|].
  unfold unot. apply Z.bits_inj'. intros i Hi.
  rewrite !Z.land_spec, testbit_wrap, Z.lnot_spec, testbit_pow2m1, Z.bits_0 by lia.
  destruct (i <? k), (i <? w), (Z.testbit x i); done.
Qed.
Lemma round_down_spec k x : 0 <= k -> 0 <= x ->
  let y := x + (2 ^ k - 1) - (x + (2 ^ k - 1)) mod 2 ^ k in
  x <= y < x + 2 ^ k /\ y mod 2 ^ k = 0.
Proof.
  intros Hk Hx y. assert (0 < 2 ^ k) by by apply pow2_pos.
  pose proof (Z.mod_pos_bound (x + (2 ^ k - 1)) (2 ^ k) ltac:(lia)).
  split; [unfold y; lia|]. unfold y. rewrite Zminus_mod_idemp_r, Z.sub_diag. apply Z.mod_0_l. lia.
Qed.
Lemma word_align_spec x : 0 <= x -> x + 7 < 2 ^ 64 ->
  x <= word_align x < x + 8 /\ word_align x mod 8 = 0.
Proof.
  intros Hx Hb. unfold word_align, WORD_MASK. rewrite wrap_small by lia.
  pose proof (land_unot_mask 64 3 (x + 7) ltac:(lia) ltac:(unfold in_word; lia)) as E.
  change (2 ^ 3 - 1) with 7 in E. rewrite E. apply (round_down_spec 3); lia.
Qed.
Lemma word_align_32_spec x : 0 <= x -> x + 7 < 2 ^ 32 ->
  x <= word_align_32 x < x + 8 /\ word_align_32 x mod 8 = 0.
Proof.
  intros Hx Hb. assert (H := word_align_spec x Hx ltac:(lia)). unfold word_align_32.
  fold (word_align x). rewrite wrap_small; [done|]. destruct H as [H Hm].
  assert (word_align x < 2 ^ 32); [|lia]. pose proof (Z.div_mod (word_align x) 8 ltac:(lia)). lia.
Qed.
Lemma align16_spec x : 0 <= x -> x + 15 < 2 ^ 64 ->
  x <= align16 x < x + 16 /\ align16 x mod 16 = 0.
Proof.
  intros Hx Hb. unfold align16. rewrite wrap_small by lia.
  pose proof (land_unot_mask 64 4 (x + 15) ltac:(lia) ltac:(unfold in_word; lia)) as E.
  change (2 ^ 4 - 1) with 15 in E. rewrite E. apply (round_down_spec 4); lia.
Qed.
Lemma ptr_hash_range p : in_word 32 (ptr_hash p).
Proof. apply wrap_in_word. lia. Qed.
Lemma strhash_range s h : in_word 32 h -> in_word 32 (strhash_loop h s).
Proof. revert h. induction s; intros h Hh; simpl; [done|]. apply IHs, wrap_in_word. lia. Qed.
Lemma log2u_correct x : 0 < x < 2 ^ 64 -> log2u x = Z.log2 x.
Proof.
  unfold log2u. assert (H : forall n x, 0 < x < 2 ^ Z.of_nat n -> log2u_fuel n x = Z.log2 x).
  { clear. induction n as [|n IH]; intros x Hx; [simpl in Hx; lia|].
    cbn [log2u_fuel]. destruct (Z.ltb_spec x 2); [by replace x with 1 by lia|].
    rewrite Nat2Z.inj_succ, Z.pow_succ_r in Hx by lia.
    assert (1 <= Z.log2 x) by (apply (Z.log2_le_pow2 x); lia).
    rewrite IH.
    - rewrite Z.log2_shiftr by lia. lia.
    - rewrite Z.shiftr_div_pow2 by lia. change (2 ^ 1) with 2. dlia. }
  intros. by apply H.
Qed.
