(* ===== verification/DenseMapInfo.v ===== *)
(** * llvm-DenseMapInfo.h: what a DenseMap needs of its keys

    [DenseMapInfo K] is the record of operations a specialisation of the
    template supplies (sentinel keys, hash, equality); [DenseMapInfoOk] is the
    promise the map relies on. Every specialisation of the header is a value of
    the record, and satisfies the promise. *)

From stdpp Require Import prelude numbers list.
From Stdlib Require Import ZArith Lia Bool.
From S2P Require Import Prelude ObjcOS.

Record DenseMapInfo (K : Type) := {
  getEmptyKey : K;
  getTombstoneKey : K;
  getHashValue : K -> Z;
  isEqual : K -> K -> bool;
}.
Arguments getEmptyKey {K} d.
Arguments getTombstoneKey {K} d.
Arguments getHashValue {K} d _.
Arguments isEqual {K} d _ _.

(** Equality is an equivalence the hash respects, hashes are [unsigned], and
    the two sentinels differ. *)
Class DenseMapInfoOk {K} (I : DenseMapInfo K) : Prop := {
  isEqual_refl : forall k, isEqual I k k = true;
  isEqual_sym : forall k l, isEqual I k l = isEqual I l k;
  isEqual_trans : forall k l m, isEqual I k l = true -> isEqual I l m = true -> isEqual I k m = true;
  hash_range : forall k, in_word 32 (getHashValue I k);
  hash_proper : forall k l, isEqual I k l = true -> getHashValue I k = getHashValue I l;
  sentinels_differ : isEqual I (getEmptyKey I) (getTombstoneKey I) = false;
}.

Module DenseMapInfos.

(** Pointers are 64-bit words. *)
Definition PointerInfo : DenseMapInfo Z := {|
  getEmptyKey := u64 (-1);
  getTombstoneKey := u64 (-2);
  getHashValue := ptr_hash;
  isEqual := Z.eqb;
|}.

(** A key is the stored (disguised) word; hashing and comparing undisguise it. *)
Definition DisguisedPtrInfo : DenseMapInfo Z := {|
  getEmptyKey := disguise (u64 (-1));
  getTombstoneKey := disguise (u64 (-2));
  getHashValue k := ptr_hash (undisguise k);
  isEqual l r := undisguise l =? undisguise r;
|}.

(** [str p] is the string (before its NUL) the memory holds at [p]. *)
Definition CStringInfo (str : Z -> list Z) : DenseMapInfo Z :=
  let empty := u64 (-1) in
  let tombstone := u64 (-2) in {|
  getEmptyKey := empty;
  getTombstoneKey := tombstone;
  getHashValue v := objc_strhash (str v);
  isEqual LHS RHS :=
    if LHS =? RHS then true
    else if (LHS =? empty) || (RHS =? empty) then false
    else if (LHS =? tombstone) || (RHS =? tombstone) then false
    else bool_decide (str LHS = str RHS);
|}.

Definition CharInfo : DenseMapInfo Z := {|
  getEmptyKey := -1;
  getTombstoneKey := -1 - 1;
  getHashValue v := u32 (v * 37);
  isEqual := Z.eqb;
|}.
Definition UnsignedInfo : DenseMapInfo Z := {|
  getEmptyKey := unot 32 0;
  getTombstoneKey := u32 (unot 32 0 - 1);
  getHashValue v := u32 (v * 37);
  isEqual := Z.eqb;
|}.
Definition UnsignedLongInfo : DenseMapInfo Z := {|
  getEmptyKey := unot 64 0;
  getTombstoneKey := u64 (unot 64 0 - 1);
  getHashValue v := u32 (u64 (v * 37));
  isEqual := Z.eqb;
|}.
Definition UnsignedLongLongInfo : DenseMapInfo Z := {|
  getEmptyKey := unot 64 0;
  getTombstoneKey := u64 (unot 64 0 - 1);
  getHashValue v := u32 (u64 (v * 37));
  isEqual := Z.eqb;
|}.
Definition IntInfo : DenseMapInfo Z := {|
  getEmptyKey := 0x7fffffff;
  getTombstoneKey := -0x7fffffff - 1;
  getHashValue v := u32 (v * 37);
  isEqual := Z.eqb;
|}.
Definition LongInfo : DenseMapInfo Z := {|
  getEmptyKey := Z.shiftl 1 (8 * 8 - 1) - 1;
  getTombstoneKey := (Z.shiftl 1 (8 * 8 - 1) - 1) - 1;
  getHashValue v := u32 (u64 (v * 37));
  isEqual := Z.eqb;
|}.
Definition LongLongInfo : DenseMapInfo Z := {|
  getEmptyKey := 0x7fffffffffffffff;
  getTombstoneKey := -0x7fffffffffffffff - 1;
  getHashValue v := u32 (u64 (v * 37));
  isEqual := Z.eqb;
|}.

(** The mixing of two 32-bit hashes. *)
Definition pair_hash (h1 h2 : Z) : Z :=
  let key := Z.lor (Z.shiftl h1 32) h2 in
  let key := u64 (key + unot 64 (Z.shiftl key 32)) in
  let key := Z.lxor key (Z.shiftr key 22) in
  let key := u64 (key + unot 64 (Z.shiftl key 13)) in
  let key := Z.lxor key (Z.shiftr key 8) in
  let key := u64 (key + u64 (Z.shiftl key 3)) in
  let key := Z.lxor key (Z.shiftr key 15) in
  let key := u64 (key + unot 64 (Z.shiftl key 27)) in
  let key := Z.lxor key (Z.shiftr key 31) in
  u32 key.
Definition PairInfo {T U} (FirstInfo : DenseMapInfo T) (SecondInfo : DenseMapInfo U) : DenseMapInfo (T * U) := {|
  getEmptyKey := (getEmptyKey FirstInfo, getEmptyKey SecondInfo);
  getTombstoneKey := (getTombstoneKey FirstInfo, getTombstoneKey SecondInfo);
  getHashValue p := pair_hash (getHashValue FirstInfo (fst p)) (getHashValue SecondInfo (snd p));
  isEqual l r := isEqual FirstInfo (fst l) (fst r) && isEqual SecondInfo (snd l) (snd r);
|}.

(** [DenseMapValueInfo]: no value may be dropped. *)
Definition isPurgeable_default {V} (value : V) : bool := false.

End DenseMapInfos.
Import DenseMapInfos.

(** ** The promise *)

(** Keys compared as numbers. *)
Lemma numeric_info_ok I :
  isEqual I = Z.eqb -> (forall k, in_word 32 (getHashValue I k)) ->
  getEmptyKey I <> getTombstoneKey I -> DenseMapInfoOk I.
Proof.
  intros E Hh Hs. split; rewrite ?E.
  - apply Z.eqb_refl.
  - apply Z.eqb_sym.
  - intros k l m. rewrite !Z.eqb_eq. congruence.
  - done.
  - intros k l. rewrite Z.eqb_eq. by intros ->.
  - by apply Z.eqb_neq.
Qed.
Ltac numeric_info :=
  apply numeric_info_ok; [reflexivity|intros; first [apply ptr_hash_range|apply wrap_in_word; lia]|discriminate].

#[export] Instance PointerInfo_ok : DenseMapInfoOk PointerInfo.
Proof. numeric_info. Qed.
#[export] Instance CharInfo_ok : DenseMapInfoOk CharInfo.
Proof. numeric_info. Qed.
#[export] Instance UnsignedInfo_ok : DenseMapInfoOk UnsignedInfo.
Proof. numeric_info. Qed.
#[export] Instance UnsignedLongInfo_ok : DenseMapInfoOk UnsignedLongInfo.
Proof. numeric_info. Qed.
#[export] Instance UnsignedLongLongInfo_ok : DenseMapInfoOk UnsignedLongLongInfo.
Proof. numeric_info. Qed.
#[export] Instance IntInfo_ok : DenseMapInfoOk IntInfo.
Proof. numeric_info. Qed.
#[export] Instance LongInfo_ok : DenseMapInfoOk LongInfo.
Proof. numeric_info. Qed.
#[export] Instance LongLongInfo_ok : DenseMapInfoOk LongLongInfo.
Proof. numeric_info. Qed.

#[export] Instance DisguisedPtrInfo_ok : DenseMapInfoOk DisguisedPtrInfo.
Proof.
  split; simpl.
  - intros. apply Z.eqb_refl.
  - intros. apply Z.eqb_sym.
  - intros k l m. rewrite !Z.eqb_eq. congruence.
  - intros. apply ptr_hash_range.
  - intros k l. rewrite Z.eqb_eq. by intros ->.
  - reflexivity.
Qed.
(** Two C strings are equal when they are the same pointer, or both are real and
    have the same contents. *)
Lemma CString_isEqual str l r : isEqual (CStringInfo str) l r = true <->
  l = r \/ (l <> u64 (-1) /\ r <> u64 (-1) /\ l <> u64 (-2) /\ r <> u64 (-2) /\ str l = str r).
Proof.
  unfold CStringInfo. cbn [isEqual].
  generalize (u64 (-1)) (u64 (-2)). intros e t.
  destruct (Z.eqb_spec l r); [tauto|].
  destruct (Z.eqb_spec l e), (Z.eqb_spec r e), (Z.eqb_spec l t), (Z.eqb_spec r t);
    cbn [orb]; rewrite ?bool_decide_eq_true;
    (split; [try discriminate; intros; right; by split_and! | intros [?|(?&?&?&?&?)]; try contradiction; done]).
Qed.
#[export] Instance CStringInfo_ok str : DenseMapInfoOk (CStringInfo str).
Proof.
  split.
  - intros k. apply CString_isEqual. by left.
  - intros k l. apply eq_true_iff_eq. rewrite !CString_isEqual. intuition congruence.
  - intros k l m. rewrite !CString_isEqual.
    intros [->|(?&?&?&?&E)]; [done|]. intros [->|(?&?&?&?&?)]; [by right; split_and!|].
    right. rewrite E. by split_and!.
  - intros k. apply strhash_range. by unfold in_word.
  - intros k l. rewrite CString_isEqual. cbn [CStringInfo getHashValue].
    intros [->|(?&?&?&?&->)]; done.
  - reflexivity.
Qed.
#[export] Instance PairInfo_ok {T U} (I1 : DenseMapInfo T) (I2 : DenseMapInfo U) :
  DenseMapInfoOk I1 -> DenseMapInfoOk I2 -> DenseMapInfoOk (PairInfo I1 I2).
Proof.
  intros H1 H2. split; simpl.
  - intros k. by rewrite !isEqual_refl.
  - intros k l. f_equal; apply isEqual_sym.
  - intros k l m. rewrite !andb_true_iff. intros [] []. eauto using isEqual_trans.
  - intros k. apply wrap_in_word. lia.
  - intros k l. rewrite andb_true_iff. intros [E1 E2]. by rewrite (hash_proper _ _ E1), (hash_proper _ _ E2).
  - by rewrite sentinels_differ.
Qed.

(** ** The hashes *)
(** Steps of a hash that lose nothing. *)
Definition lossless (f : Z -> Z) : Prop :=
  (forall x, in_word 64 x -> in_word 64 (f x)) /\ forall x y, in_word 64 x -> in_word 64 y -> f x = f y -> x = y.
Lemma lossless_after f g : lossless f -> lossless g -> lossless (fun x => g (f x)).
Proof. intros [Hf1 Hf2] [Hg1 Hg2]. split; [auto|]. intros x y Hx Hy E. apply Hf2, Hg2; auto. Qed.
Lemma mod_eq_divide w x y : 0 <= w -> x mod 2 ^ w = y mod 2 ^ w <-> (2 ^ w | x - y).
Proof.
  intros Hw. pose proof (pow2_pos w Hw). rewrite <- Z.mod_divide by lia. rewrite Zminus_mod. split.
  - intros ->. rewrite Z.sub_diag. by rewrite Z.mod_0_l by lia.
  - intros E. apply Z.mod_divide in E as [q E]; [|lia].
    pose proof (Z.mod_pos_bound x (2 ^ w)). pose proof (Z.mod_pos_bound y (2 ^ w)). assert (q = 0) by nia. nia.
Qed.
Lemma mul_odd_inj w m c x y : 0 <= w -> Z.gcd (2 ^ w) m = 1 -> (x * m + c) mod 2 ^ w = (y * m + c) mod 2 ^ w -> x mod 2 ^ w = y mod 2 ^ w.
Proof.
  intros Hw Hg. rewrite !mod_eq_divide by done. replace (x * m + c - (y * m + c)) with (m * (x - y)) by lia.
  intros H. by apply (Z.gauss _ m).
Qed.
Lemma lossless_affine m c f : Z.gcd (2 ^ 64) m = 1 -> (forall x, f x = u64 (x * m + c)) -> lossless f.
Proof.
  intros Hm Hf. split; intros x; [intros _; rewrite Hf; by apply wrap_in_word|].
  intros y Hx Hy. rewrite !Hf. intros E%mul_odd_inj; [|done..]. rewrite !Z.mod_small in E by done. done.
Qed.
(** [key += ~(key << n)]. *)
Lemma lossless_complement n : 0 <= n -> Z.gcd (2 ^ 64) (1 - 2 ^ n) = 1 -> lossless (fun x => u64 (x + unot 64 (Z.shiftl x n))).
Proof.
  intros Hn Hg. apply (lossless_affine (1 - 2 ^ n) (-1)); [done|]. intros x. unfold unot, wrap.
  rewrite Zplus_mod_idemp_r, Z.shiftl_mul_pow2 by done. f_equal. unfold Z.lnot. lia.
Qed.
(** [key += key << n]. *)
Lemma lossless_shifted n : 0 <= n -> Z.gcd (2 ^ 64) (1 + 2 ^ n) = 1 -> lossless (fun x => u64 (x + u64 (Z.shiftl x n))).
Proof.
  intros Hn Hg. apply (lossless_affine (1 + 2 ^ n) 0); [done|]. intros x. unfold wrap.
  rewrite Zplus_mod_idemp_r, Z.shiftl_mul_pow2 by done. f_equal. lia.
Qed.
(** [key ^= key >> n]: the bits are found again from the top. *)
Lemma lossless_xorshift n : 0 < n -> lossless (fun x => Z.lxor x (Z.shiftr x n)).
Proof.
  intros Hn. split.
  - intros x Hx. apply lxor_range; [done|done|]. unfold in_word in *. rewrite Z.shiftr_div_pow2 by lia. pose proof (pow2_pos n). split; [apply Z.div_pos; lia|].
    apply Z.le_lt_trans with x; [|lia]. apply Z.div_le_upper_bound; nia.
  - intros x y Hx Hy E. apply Z.bits_inj'. intros i Hi.
    assert (Hb : forall d j, 0 <= j -> 64 - Z.of_nat d <= j -> Z.testbit x j = Z.testbit y j).
    { induction d as [|d IH]; intros j Hj Hd; unfold in_word in *; [by rewrite !(testbit_high 64) by lia|].
      assert (Ej : Z.testbit (Z.lxor x (Z.shiftr x n)) j = Z.testbit (Z.lxor y (Z.shiftr y n)) j) by by rewrite E.
      rewrite !Z.lxor_spec, !Z.shiftr_spec in Ej by lia. rewrite (IH (j + n)) in Ej by lia. by destruct (Z.testbit x j), (Z.testbit y j), (Z.testbit y (j + n)). }
    apply (Hb 64%nat); lia.
Qed.

(** The mixing of 64 bits in a pair's hash, and the first steps of a pointer's. *)
Definition pair_mix (key : Z) : Z :=
  let key := u64 (key + unot 64 (Z.shiftl key 32)) in
  let key := Z.lxor key (Z.shiftr key 22) in
  let key := u64 (key + unot 64 (Z.shiftl key 13)) in
  let key := Z.lxor key (Z.shiftr key 8) in
  let key := u64 (key + u64 (Z.shiftl key 3)) in
  let key := Z.lxor key (Z.shiftr key 15) in
  let key := u64 (key + unot 64 (Z.shiftl key 27)) in
  Z.lxor key (Z.shiftr key 31).
Lemma pair_mix_lossless : lossless pair_mix.
Proof.
  pose proof (lossless_complement 32 ltac:(lia) eq_refl) as H1. pose proof (lossless_xorshift 22 ltac:(lia)) as H2.
  pose proof (lossless_complement 13 ltac:(lia) eq_refl) as H3. pose proof (lossless_xorshift 8 ltac:(lia)) as H4.
  pose proof (lossless_shifted 3 ltac:(lia) eq_refl) as H5. pose proof (lossless_xorshift 15 ltac:(lia)) as H6.
  pose proof (lossless_complement 27 ltac:(lia) eq_refl) as H7. pose proof (lossless_xorshift 31 ltac:(lia)) as H8.
  exact (lossless_after _ _ H1 (lossless_after _ _ H2 (lossless_after _ _ H3 (lossless_after _ _ H4
    (lossless_after _ _ H5 (lossless_after _ _ H6 (lossless_after _ _ H7 H8))))))).
Qed.
Definition ptr_mix (key : Z) : Z := u64 (Z.lxor key (Z.shiftr key 4) * 0x8a970be7488fda55).
Lemma ptr_mix_lossless : lossless ptr_mix.
Proof.
  apply (lossless_after _ (fun x => u64 (x * 0x8a970be7488fda55)) (lossless_xorshift 4 ltac:(lia))).
  apply (lossless_affine 0x8a970be7488fda55 0); [reflexivity|]. intros x. by rewrite Z.add_0_r.
Qed.
(** Multiplication by 37. *)
Lemma times37 k l : u32 (k * 37) = u32 (l * 37) <-> u32 k = u32 l.
Proof.
  split.
  - intros E. apply (mul_odd_inj 32 37 0); [done|done|]. by rewrite !Z.add_0_r.
  - unfold wrap. intros E. rewrite Z.mul_mod, E by lia. by rewrite <- Z.mul_mod by lia.
Qed.
Lemma u32_u64 x : u32 (u64 x) = u32 x.
Proof. unfold wrap. apply Z.mod_mod_divide. by exists (2 ^ 32). Qed.
(** One more character of a string. *)
Lemma strhash_step h a : u32 (h + u32 (u32 (Z.shiftl h 8) + a)) = u32 (h * 257 + a).
Proof.
  unfold wrap. rewrite Z.shiftl_mul_pow2, Zplus_mod_idemp_r by done. rewrite Z.add_assoc, (Z.add_comm h), <- Z.add_assoc, Zplus_mod_idemp_l.
  f_equal. lia.
Qed.
Lemma strhash_loop_inj s : forall g h, in_word 32 g -> in_word 32 h -> strhash_loop g s = strhash_loop h s -> g = h.
Proof.
  induction s as [|a s IH]; intros g h Hg Hh; [done|]. cbn [strhash_loop]. intros E%IH; [|by apply wrap_in_word..].
  rewrite !strhash_step in E. apply (mul_odd_inj 32 257) in E; [|done..]. by rewrite !Z.mod_small in E.
Qed.
(** Strings of one length that differ in one character only, which is a signed one,
    never collide. *)
Lemma strhash_one_character l a b r : -128 <= a < 128 -> -128 <= b < 128 ->
  objc_strhash (l ++ a :: r) = objc_strhash (l ++ b :: r) -> a = b.
Proof.
  intros Ha Hb. unfold objc_strhash. assert (H0 : in_word 32 0) by done. revert H0. generalize 0. induction l as [|c l IH]; intros h Hh; cbn [app strhash_loop].
  - intros E%strhash_loop_inj; [|by apply wrap_in_word..]. rewrite !strhash_step in E. unfold wrap in E.
    apply mod_eq_divide in E as [q E]; [lia|done].
  - apply IH. by apply wrap_in_word.
Qed.

(** What the hash of an integer type can tell apart: numbers that differ in their low
    32 bits. *)
Definition hashes_low_bits (I : DenseMapInfo Z) : Prop :=
  isEqual I = Z.eqb /\ forall k l, getHashValue I k = getHashValue I l <-> u32 k = u32 l.
Lemma narrow_low_bits I : isEqual I = Z.eqb -> (forall k, getHashValue I k = u32 (k * 37)) -> hashes_low_bits I.
Proof. intros E H. split; [done|]. intros k l. rewrite !H. apply times37. Qed.
Lemma wide_low_bits I : isEqual I = Z.eqb -> (forall k, getHashValue I k = u32 (u64 (k * 37))) -> hashes_low_bits I.
Proof. intros E H. split; [done|]. intros k l. rewrite !H, !u32_u64. apply times37. Qed.

(** C27: every specialisation of [DenseMapInfo] keeps the promise the map relies
    on ([DenseMapInfoOk]): its equality is an equivalence that its hash respects, its
    hashes are 32-bit, and its two sentinel keys are distinct. The integer types compare
    numbers, and two numbers have one hash exactly when their low 32 bits are the same,
    so that no two keys of the 8-bit and 32-bit types collide. Pointers
    compare as words, and their hash is half of a word that is the pointer mixed without loss and
    combined with its bytes in reverse. A disguised pointer compares and hashes as the pointer it hides.
    Strings are equal when they are the same pointer, or neither is a sentinel and they have the same
    contents; strings of one length that differ in one character have different hashes.
    Pairs of any two specialisations that keep the promise keep it, compare both
    components, and their hash is half of a word that is the two hashes mixed without loss. *)
Theorem DenseMapInfo_specialisations_ok (str : Z -> list Z) :
  (forall I, I ∈ [CharInfo; UnsignedInfo; UnsignedLongInfo; UnsignedLongLongInfo; IntInfo; LongInfo; LongLongInfo] ->
     DenseMapInfoOk I /\ hashes_low_bits I) /\
  (DenseMapInfoOk PointerInfo /\ isEqual PointerInfo = Z.eqb /\
   exists mix, lossless mix /\ forall p, getHashValue PointerInfo p = u32 (Z.lxor (mix p) (bswap64 (mix p)))) /\
  (DenseMapInfoOk DisguisedPtrInfo /\ forall p q, in_word 64 p -> in_word 64 q ->
     isEqual DisguisedPtrInfo (disguise p) (disguise q) = isEqual PointerInfo p q /\
     getHashValue DisguisedPtrInfo (disguise p) = getHashValue PointerInfo p) /\
  (DenseMapInfoOk (CStringInfo str) /\
   (forall p q, isEqual (CStringInfo str) p q = true <->
      p = q \/ (p <> u64 (-1) /\ q <> u64 (-1) /\ p <> u64 (-2) /\ q <> u64 (-2) /\ str p = str q)) /\
   (forall p q l a b r, str p = l ++ a :: r -> str q = l ++ b :: r -> -128 <= a < 128 -> -128 <= b < 128 -> a <> b ->
      getHashValue (CStringInfo str) p <> getHashValue (CStringInfo str) q)) /\
  (forall T U (I1 : DenseMapInfo T) (I2 : DenseMapInfo U), DenseMapInfoOk I1 -> DenseMapInfoOk I2 ->
     DenseMapInfoOk (PairInfo I1 I2) /\
     (forall k l, isEqual (PairInfo I1 I2) k l = true <-> isEqual I1 k.1 l.1 = true /\ isEqual I2 k.2 l.2 = true) /\
     exists mix, lossless mix /\
       forall k, getHashValue (PairInfo I1 I2) k = u32 (mix (Z.lor (Z.shiftl (getHashValue I1 k.1) 32) (getHashValue I2 k.2)))).
Proof.
  split_and!; try apply _; try done.
  - intros I HI. repeat apply elem_of_cons in HI as [->|HI]; try (by apply elem_of_nil in HI); (split; [apply _|]);
      [apply narrow_low_bits|apply narrow_low_bits|apply wide_low_bits|apply wide_low_bits|apply narrow_low_bits|apply wide_low_bits|apply wide_low_bits];
      reflexivity.
  - exists ptr_mix. split; [apply ptr_mix_lossless|]. intros k. cbn [getHashValue PointerInfo]. unfold ptr_hash, ptr_mix. cbv zeta. reflexivity.
  - intros p q Hp Hq. unfold DisguisedPtrInfo. cbn. by rewrite !undisguise_disguise.
  - apply CString_isEqual.
  - intros p q l a b r Hp Hq Ha Hb Hne E. apply Hne. cbn in E. rewrite Hp, Hq in E. by apply strhash_one_character in E.
  - intros T U I1 I2 H1 H2. split; [apply _|]. split; [intros k l; apply andb_true_iff|].
    exists pair_mix. split; [apply pair_mix_lossless|]. intros k. cbn [getHashValue PairInfo fst snd]. unfold pair_hash, pair_mix. cbv zeta. reflexivity.
Qed.
(** Two strings, a pair of one of them with a number, and a collision of long numbers. *)
Definition sample_strings (p : Z) : list Z := if p =? 1 then [104; 105] else [104; 106].
Lemma int_listed : IntInfo ∈ [CharInfo; UnsignedInfo; UnsignedLongInfo; UnsignedLongLongInfo; IntInfo; LongInfo; LongLongInfo].
Proof. do 4 right. left. Qed.
Lemma long_listed : LongInfo ∈ [CharInfo; UnsignedInfo; UnsignedLongInfo; UnsignedLongLongInfo; IntInfo; LongInfo; LongLongInfo].
Proof. do 5 right. left. Qed.
Lemma DenseMapInfo_specialisations_ok_witness :
  getHashValue (CStringInfo sample_strings) 1 <> getHashValue (CStringInfo sample_strings) 2 /\
  DenseMapInfoOk (PairInfo (CStringInfo sample_strings) IntInfo) /\
  getHashValue LongInfo (5 + 2 ^ 32) = getHashValue LongInfo 5.
Proof.
  destruct (DenseMapInfo_specialisations_ok sample_strings) as (Hi & _ & _ & (Hs & _ & Hc) & Hp). split; [|split].
  - exact (Hc 1 2 [104] 105 106 [] eq_refl eq_refl ltac:(lia) ltac:(lia) ltac:(lia)).
  - exact (proj1 (Hp Z Z (CStringInfo sample_strings) IntInfo Hs (proj1 (Hi IntInfo int_listed)))).
  - exact (proj2 (proj2 (proj2 (Hi LongInfo long_listed)) (5 + 2 ^ 32) 5) eq_refl).
Defined.
