(* ===== verification/DenseMap.v ===== *)
(** * llvm-DenseMap.h: the open-addressing hash table

    [table] is the state every derived map presents to [DenseMapBase] (bucket
    array, number of entries and tombstones, number of buckets); the base
    operations are written against [Derived], the interface of the two virtual
    operations [grow] and [shrink_and_clear], as the CRTP does. [Module
    DenseMap] and [Module SmallDenseMap] give the two implementations.
    Definitions only: the theorems are in DenseMapTheory.v and DenseMapOps.v. *)

From stdpp Require Import prelude numbers list.
From Stdlib Require Import ZArith Lia Bool.
From S2P Require Import Prelude MathExtras DenseMapInfo.
Import MathExtras.MathExtras.

Definition MIN_BUCKETS : Z := 4.
Definition MIN_COMPACT : Z := 1024.

(** The parameters of the template: the key operations, the predicate of
    [ValueInfoT], whether both types are trivially copyable, the garbage fresh
    memory holds, and [ValueT()]. *)
Record Template (K V : Type) := {
  KeyInfo : DenseMapInfo K;
  isPurgeable : V -> bool;
  trivially_copyable : bool;
  uninit : nat -> K * V;
  default_value : V;
}.
Arguments KeyInfo {K V} t.
Arguments isPurgeable {K V} t _.
Arguments trivially_copyable {K V} t.
Arguments uninit {K V} t _.
Arguments default_value {K V} t.

(** Where the bucket array lives: nowhere, in the inline storage of a
    [SmallDenseMap], or in an allocated block. *)
Inductive buckets (K V : Type) :=
  | Null
  | Inline (bs : list (K * V))
  | Heap (bs : list (K * V)).
Arguments Null {K V}.
Arguments Inline {K V} bs.
Arguments Heap {K V} bs.

Record table (K V : Type) := Table {
  Buckets : buckets K V;
  NumEntries : Z;
  NumTombstones : Z;
  NumBuckets : Z;
}.
Arguments Table {K V} _ _ _ _.
Arguments Buckets {K V} t.
Arguments NumEntries {K V} t.
Arguments NumTombstones {K V} t.
Arguments NumBuckets {K V} t.

(** What a class derived from [DenseMapBase] supplies. *)
Class Derived {K V : Type} (T : Template K V) := {
  grow : table K V -> Z -> res (table K V);
  shrink_and_clear : table K V -> res (table K V);
}.
Arguments grow {K V} T {_} _ _.
Arguments shrink_and_clear {K V} T {_} _.

Section Base.
Context {K V : Type} (T : Template K V).
Implicit Types (m : table K V) (bs : list (K * V)) (b : K * V).

Definition array_of (p : buckets K V) : list (K * V) :=
  match p with Null => [] | Inline bs | Heap bs => bs end.
Definition getBuckets m : list (K * V) := array_of (Buckets m).
(** Writes through the bucket pointer. *)
Definition store_buckets m (bs : list (K * V)) : table K V :=
  Table (match Buckets m with Null => Null | Inline _ => Inline bs | Heap _ => Heap bs end)
    (NumEntries m) (NumTombstones m) (NumBuckets m).
Definition setNumEntries m (Num : Z) : table K V :=
  Table (Buckets m) Num (NumTombstones m) (NumBuckets m).
Definition setNumTombstones m (Num : Z) : table K V :=
  Table (Buckets m) (NumEntries m) Num (NumBuckets m).
Definition incrementNumEntries m := setNumEntries m (u32 (NumEntries m + 1)).
Definition decrementNumEntries m := setNumEntries m (u32 (NumEntries m - 1)).
Definition incrementNumTombstones m := setNumTombstones m (u32 (NumTombstones m + 1)).
Definition decrementNumTombstones m := setNumTombstones m (u32 (NumTombstones m - 1)).

Definition getEmptyKey : K := DenseMapInfo.getEmptyKey (KeyInfo T).
Definition getTombstoneKey : K := DenseMapInfo.getTombstoneKey (KeyInfo T).
Definition getHashValue (Val : K) : Z := DenseMapInfo.getHashValue (KeyInfo T) Val.
Definition is_empty b : bool := isEqual (KeyInfo T) (fst b) getEmptyKey.
Definition is_tombstone b : bool := isEqual (KeyInfo T) (fst b) getTombstoneKey.
Definition is_live b : bool := negb (is_empty b) && negb (is_tombstone b).

Definition empty m : bool := NumEntries m =? 0.
Definition size m : Z := NumEntries m.
Definition getMemorySize (sizeof_bucket : Z) m : Z := u64 (NumBuckets m * sizeof_bucket).

(** A fresh array of [Num] buckets, its memory not initialised. *)
Definition fresh_array (Num : Z) : list (K * V) := map (uninit T) (seq 0 (Z.to_nat Num)).

Definition initEmpty m : res (table K V) :=
  let m := setNumTombstones (setNumEntries m 0) 0 in
  assert? (Z.land (NumBuckets m) (u32 (NumBuckets m - 1)) =? 0) in
  Ok (store_buckets m (map (fun b => (getEmptyKey, snd b)) (getBuckets m))).

Definition getMinBucketToReserveForEntries (NumEntries : Z) : Z :=
  if NumEntries =? 0 then 0
  else NextPowerOf2_32 (u32 (u32 (NumEntries * 4) / 3 + 1)).

(** The probing loop. A bucket is named by its index; [None] is [nullptr]. The
    loop ends by itself at [ProbeAmt > NumBuckets]; [fuel] bounds it. *)
Fixpoint LookupBucketFor_loop (fuel : nat) m (Val : K) (BucketNo ProbeAmt : Z)
    (FoundTombstone : option Z) : res (bool * option Z) :=
  match fuel with
  | O => Fault HashTableCorrupted
  | S fuel =>
    match getBuckets m !! Z.to_nat BucketNo with
    | None => Fault HashTableCorrupted
    | Some ThisBucket =>
      if isEqual (KeyInfo T) Val (fst ThisBucket) then Ok (true, Some BucketNo)
      else if is_empty ThisBucket then
        Ok (false, Some (match FoundTombstone with Some t => t | None => BucketNo end))
      else
        let FoundTombstone :=
          if is_tombstone ThisBucket && negb (bool_decide (is_Some FoundTombstone))
          then Some BucketNo else FoundTombstone in
        let FoundTombstone :=
          if isPurgeable T (snd ThisBucket) && negb (bool_decide (is_Some FoundTombstone))
          then Some BucketNo else FoundTombstone in
        if ProbeAmt >? NumBuckets m then Fault HashTableCorrupted
        else LookupBucketFor_loop fuel m Val
               (Z.land (u32 (BucketNo + ProbeAmt)) (u32 (NumBuckets m - 1)))
               (u32 (ProbeAmt + 1)) FoundTombstone
    end
  end.
Definition LookupBucketFor m (Val : K) : res (bool * option Z) :=
  if NumBuckets m =? 0 then Ok (false, None)
  else LookupBucketFor_loop (Z.to_nat (NumBuckets m + 1)) m Val
         (Z.land (getHashValue Val) (u32 (NumBuckets m - 1))) 1 None.

(** One bucket of the old array, inserted in the new one. *)
Definition moveBucket m b : res (table K V) :=
  if isPurgeable T (snd b) then Ok m
  else if is_live b then
    let? (FoundVal, DestBucket) := LookupBucketFor m (fst b) in
    assert? (negb FoundVal) in
    match DestBucket with
    | None => Fault HashTableCorrupted
    | Some i =>
      Ok (incrementNumEntries (store_buckets m (<[Z.to_nat i := b]> (getBuckets m))))
    end
  else Ok m.
Fixpoint moveBuckets m (Old : list (K * V)) : res (table K V) :=
  match Old with
  | [] => Ok m
  | b :: Old => let? m := moveBucket m b in moveBuckets m Old
  end.
Definition moveFromOldBuckets m (Old : list (K * V)) : res (table K V) :=
  let? m := initEmpty m in moveBuckets m Old.

(** [DenseMapBase::copyFrom]: [m] has as many buckets as [other]. *)
Definition copyFromBase m (other : table K V) : res (table K V) :=
  assert? (NumBuckets m =? NumBuckets other) in
  let m := setNumTombstones (setNumEntries m (NumEntries other)) (NumTombstones other) in
  if trivially_copyable T then Ok (store_buckets m (getBuckets other))
  else Ok (store_buckets m (zip_with (fun old new => (fst new, if is_live new then snd new else snd old))
                              (getBuckets m) (getBuckets other))).

(** The iterator: a bucket index, [End] being [NumBuckets]. *)
Fixpoint AdvancePastEmptyBuckets_loop (fuel : nat) m (Ptr : Z) : Z :=
  match fuel with
  | O => Ptr
  | S fuel =>
    match getBuckets m !! Z.to_nat Ptr with
    | Some b => if is_empty b || is_tombstone b then AdvancePastEmptyBuckets_loop fuel m (Ptr + 1) else Ptr
    | None => Ptr
    end
  end.
Definition AdvancePastEmptyBuckets m (Ptr : Z) : Z :=
  AdvancePastEmptyBuckets_loop (Z.to_nat (NumBuckets m - Ptr)) m Ptr.
Definition end_ m : Z := NumBuckets m.
Definition begin_ m : Z := if empty m then end_ m else AdvancePastEmptyBuckets m 0.
Definition preincrement m (Ptr : Z) : Z := AdvancePastEmptyBuckets m (Ptr + 1).
(** The buckets a [for] over the map visits from [Ptr] on. *)
Fixpoint iterate_loop (fuel : nat) m (Ptr : Z) : list (K * V) :=
  match fuel with
  | O => []
  | S fuel =>
    if Ptr =? end_ m then []
    else match getBuckets m !! Z.to_nat Ptr with
         | Some b => b :: iterate_loop fuel m (preincrement m Ptr)
         | None => []
         end
  end.
Definition iterate m : list (K * V) := iterate_loop (S (Z.to_nat (NumBuckets m))) m (begin_ m).

Definition find m (Val : K) : res Z :=
  let? (found, TheBucket) := LookupBucketFor m Val in
  match found, TheBucket with
  | true, Some i => Ok i
  | _, _ => Ok (end_ m)
  end.
Definition count m (Val : K) : res Z :=
  let? (found, _) := LookupBucketFor m Val in Ok (Zb found).
Definition bucket_at m (i : Z) : option (K * V) := getBuckets m !! Z.to_nat i.
Definition lookup m (Val : K) : res V :=
  let? (found, TheBucket) := LookupBucketFor m Val in
  match found, TheBucket with
  | true, Some i => Ok (match bucket_at m i with Some b => snd b | None => default_value T end)
  | _, _ => Ok (default_value T)
  end.

(** [operator==]: every pair of [LHS] is in [RHS]. *)
Fixpoint all_in (value_eq : V -> V -> bool) (l : list (K * V)) (RHS : table K V) : res bool :=
  match l with
  | [] => Ok true
  | KV :: l =>
    let? it := find RHS (fst KV) in
    if it =? end_ RHS then Ok false
    else match bucket_at RHS it with
         | Some b => if negb (value_eq (snd b) (snd KV)) then Ok false else all_in value_eq l RHS
         | None => Ok false
         end
  end.
Definition map_eq (value_eq : V -> V -> bool) (LHS RHS : table K V) : res bool :=
  if negb (size LHS =? size RHS) then Ok false else all_in value_eq (iterate LHS) RHS.

(** ** The operations that may resize, against the derived map *)
Context {D : Derived T}.

Definition reserve m (NumEntries : Z) : res (table K V) :=
  let NumBuckets' := getMinBucketToReserveForEntries NumEntries in
  if NumBuckets' >? NumBuckets m then grow T m NumBuckets' else Ok m.

(** The loop of [clear] over non-trivial types: keys reset, live ones counted. *)
Fixpoint clear_loop (bs : list (K * V)) (n : Z) : list (K * V) * Z :=
  match bs with
  | [] => ([], n)
  | b :: bs =>
    if is_empty b then let (bs', n') := clear_loop bs n in (b :: bs', n')
    else
      let (bs', n') := clear_loop bs (if is_tombstone b then n else u32 (n - 1)) in
      ((getEmptyKey, snd b) :: bs', n')
  end.
Definition clear m : res (table K V) :=
  if (NumEntries m =? 0) && (NumTombstones m =? 0) then Ok m
  else if (u32 (NumEntries m * 4) <? NumBuckets m) && (NumBuckets m >? MIN_BUCKETS) then shrink_and_clear T m
  else
    let? bs :=
      if trivially_copyable T then Ok (map (fun b => (getEmptyKey, snd b)) (getBuckets m))
      else let (bs, n) := clear_loop (getBuckets m) (NumEntries m) in
           assert? (n =? 0) in Ok bs in
    Ok (setNumTombstones (setNumEntries (store_buckets m bs) 0) 0).

Definition InsertIntoBucketImpl m (Lookup : K) (TheBucket : option Z) : res (table K V * Z) :=
  let NewNumEntries := u32 (NumEntries m + 1) in
  let? (m, TheBucket) :=
    if u32 (NewNumEntries * 4) >=? u32 (NumBuckets m * 3) then
      let? m := grow T m (u32 (NumBuckets m * 2)) in
      let? (_, TheBucket) := LookupBucketFor m Lookup in Ok (m, TheBucket)
    else if u32 (NumBuckets m - u32 (NewNumEntries + NumTombstones m)) <=? NumBuckets m / 8 then
      let? m := grow T m (NumBuckets m) in
      let? (_, TheBucket) := LookupBucketFor m Lookup in Ok (m, TheBucket)
    else Ok (m, TheBucket) in
  match TheBucket with
  | None => Fault AssertFailed
  | Some i =>
    match bucket_at m i with
    | None => Fault HashTableCorrupted
    | Some b =>
      if is_empty b then Ok (incrementNumEntries m, i)
      else if is_tombstone b then Ok (decrementNumTombstones (incrementNumEntries m), i)
      else assert? (isPurgeable T (snd b)) in Ok (m, i)
    end
  end.
Definition InsertIntoBucket m (TheBucket : option Z) (Key : K) (Value : V) : res (table K V * Z) :=
  let? (m, i) := InsertIntoBucketImpl m Key TheBucket in
  Ok (store_buckets m (<[Z.to_nat i := (Key, Value)]> (getBuckets m)), i).

Definition try_emplace m (Key : K) (Value : V) : res (table K V * Z * bool) :=
  let? (found, TheBucket) := LookupBucketFor m Key in
  match found, TheBucket with
  | true, Some i => Ok (m, i, false)
  | _, _ => let? (m, i) := InsertIntoBucket m TheBucket Key Value in Ok (m, i, true)
  end.
Definition insert m (KV : K * V) : res (table K V * Z * bool) := try_emplace m (fst KV) (snd KV).
Fixpoint insert_range m (l : list (K * V)) : res (table K V) :=
  match l with
  | [] => Ok m
  | KV :: l => let? (m, _, _) := insert m KV in insert_range m l
  end.

(** The bucket found, or a new one holding [ValueT()]. *)
Definition FindAndConstruct m (Key : K) : res (table K V * Z) :=
  let? (found, TheBucket) := LookupBucketFor m Key in
  match found, TheBucket with
  | true, Some i => Ok (m, i)
  | _, _ => InsertIntoBucket m TheBucket Key (default_value T)
  end.
(** [m[Key] = Value]. *)
Definition index_assign m (Key : K) (Value : V) : res (table K V) :=
  let? (m, i) := FindAndConstruct m Key in
  Ok (store_buckets m (alter (fun b => (fst b, Value)) (Z.to_nat i) (getBuckets m))).

Definition compact m : res (table K V) :=
  if NumEntries m =? 0 then shrink_and_clear T m
  else if (NumBuckets m / 16 >? NumEntries m) && (NumBuckets m >? MIN_COMPACT)
  then grow T m (u32 (NumEntries m * 2))
  else Ok m.
Definition erase_iterator m (i : Z) : res (table K V) :=
  let bs := alter (fun b => (getTombstoneKey, snd b)) (Z.to_nat i) (getBuckets m) in
  compact (incrementNumTombstones (decrementNumEntries (store_buckets m bs))).
Definition erase m (Val : K) : res (table K V * bool) :=
  let? (found, TheBucket) := LookupBucketFor m Val in
  match found, TheBucket with
  | true, Some i => let? m := erase_iterator m i in Ok (m, true)
  | _, _ => Ok (m, false)
  end.

End Base.

(** ** [class DenseMap] *)
Module DenseMap.
Section DenseMap.
Context {K V : Type} (T : Template K V).
Implicit Types (m : table K V).

Definition allocateBuckets m (Num : Z) : table K V * bool :=
  if Num =? 0 then (Table Null (NumEntries m) (NumTombstones m) 0, false)
  else (Table (Heap (fresh_array T Num)) (NumEntries m) (NumTombstones m) Num, true).
Definition init m (InitNumEntries : Z) : res (table K V) :=
  match allocateBuckets m (getMinBucketToReserveForEntries InitNumEntries) with
  | (m, true) => initEmpty T m
  | (m, false) => Ok (setNumTombstones (setNumEntries m 0) 0)
  end.
(** The fields hold garbage until [init] sets them. *)
Definition make (garbage : table K V) (InitialReserve : Z) : res (table K V) := init garbage InitialReserve.
Definition copyFrom m (other : table K V) : res (table K V) :=
  match allocateBuckets m (NumBuckets other) with
  | (m, true) => copyFromBase T m other
  | (m, false) => Ok (setNumTombstones (setNumEntries m 0) 0)
  end.
Definition swap m (RHS : table K V) : table K V * table K V := (RHS, m).
(** Copy construction; move construction and move assignment return the new
    state of [other] too. *)
Definition copy_construct (garbage other : table K V) : res (table K V) :=
  let? m := init garbage 0 in copyFrom m other.
Definition move_construct (garbage other : table K V) : res (table K V * table K V) :=
  let? m := init garbage 0 in Ok (swap m other).
Definition move_assign m (other : table K V) : res (table K V * table K V) :=
  let? m := init m 0 in Ok (swap m other).
Definition grow m (AtLeast : Z) : res (table K V) :=
  let OldBuckets := Buckets m in
  let (m, _) := allocateBuckets m (Z.max MIN_BUCKETS (NextPowerOf2_32 (u32 (AtLeast - 1)))) in
  match OldBuckets with
  | Null => initEmpty T m
  | Inline old | Heap old => moveFromOldBuckets T m old
  end.
Definition shrink_and_clear m : res (table K V) :=
  let NewNumBuckets :=
    if nz (NumEntries m) then Z.max MIN_BUCKETS (Z.shiftl 1 (Log2_32_Ceil (NumEntries m) + 1)) else 0 in
  if NewNumBuckets =? NumBuckets m then initEmpty T m else init m NewNumBuckets.

#[export] Instance DenseMap_derived : Derived T := Build_Derived _ _ T grow shrink_and_clear.
Definition construct_range (garbage : table K V) (l : list (K * V)) : res (table K V) :=
  let? m := init garbage (u32 (Z.of_nat (length l))) in insert_range T m l.
End DenseMap.
End DenseMap.
