(* ===== verification/DenseMapTheory.v ===== *)
(** * Probing, the table invariant and lookup

    The probe sequence of [LookupBucketFor] visits every bucket of a table with
    a power-of-two size ([probe_surjective]); [wf] is the invariant every
    operation keeps; [LookupBucketFor_spec] is the functional specification of
    the probing loop under it. *)

From stdpp Require Import prelude numbers list.
From Stdlib Require Import ZArith Lia Bool.
From S2P Require Import Prelude MathExtras DenseMapInfo DenseMap.

(** ** Triangular probing *)
Definition tri (j : Z) : Z := j * (j + 1) / 2.

Lemma tri_double j : 2 * tri j = j * (j + 1).
Proof.
  unfold tri. assert (E : (j * (j + 1)) mod 2 = 0).
  { rewrite Z.mul_mod by lia. rewrite (Z.add_mod j 1) by lia.
    pose proof (Z.mod_pos_bound j 2 ltac:(lia)).
    assert (j mod 2 = 0 \/ j mod 2 = 1) as [-> | ->] by lia; done. }
  rewrite (Z.div_mod (j * (j + 1)) 2) at 2 by lia. lia.
Qed.
Lemma tri_succ j : tri (j + 1) = tri j + (j + 1).
Proof. pose proof (tri_double j). pose proof (tri_double (j + 1)). lia. Qed.
Lemma tri_nonneg j : 0 <= j -> 0 <= tri j.
Proof. intros. pose proof (tri_double j). nia. Qed.

(** A power of two dividing a product with one odd factor divides the other. *)
Lemma odd_factor n a b : 0 <= n -> Z.odd a = true -> (2 ^ n | a * b) -> (2 ^ n | b).
Proof.
  intros Hn Ha. revert Hn. apply (natlike_ind (fun n => (2 ^ n | a * b) -> (2 ^ n | b))); clear n.
  { intros _. by exists b; rewrite Z.mul_1_r. }
  intros n Hn IH. rewrite Z.pow_succ_r by done. intros Hd.
  destruct IH as [c ->]; [by apply Z.divide_trans with (2 * 2 ^ n); [apply Z.divide_factor_r|]|].
  destruct Hd as [q Hq]. pose proof (pow2_pos n Hn).
  assert (E : a * c = 2 * q) by nia.
  destruct (Z.Even_or_Odd c) as [[d ->]|[d ->]]; [exists d; ring|].
  apply (f_equal Z.odd) in E. rewrite !Z.odd_mul, Ha, Z.odd_add, Z.odd_mul in E. done.
Qed.
Lemma tri_inj_lt k i j : 0 <= k -> 0 <= j < i -> i < 2 ^ k -> tri i mod 2 ^ k <> tri j mod 2 ^ k.
Proof.
  intros Hk Hj Hi E. assert (0 < 2 ^ k) by by apply pow2_pos.
  assert (Hd : (2 ^ (k + 1) | (i - j) * (i + j + 1))).
  { assert ((2 ^ k | tri i - tri j)) as [q Hq].
    { apply Z.mod_divide; [lia|]. rewrite Zminus_mod, E, Z.sub_diag. by apply Z.mod_0_l; lia. }
    exists q. rewrite Z.pow_add_r by lia. pose proof (tri_double i). pose proof (tri_double j).
    change (2 ^ 1) with 2. nia. }
  destruct (Z.odd (i - j)) eqn:Ho.
  - apply odd_factor in Hd; [|lia|done]. apply Z.divide_pos_le in Hd; [|lia].
    rewrite Z.pow_add_r in Hd by lia. lia.
  - rewrite Z.mul_comm in Hd. apply odd_factor in Hd; [|lia|].
    + apply Z.divide_pos_le in Hd; [|lia]. rewrite Z.pow_add_r in Hd by lia. lia.
    + replace (i + j + 1) with ((i - j) + 2 * j + 1) by lia.
      rewrite !Z.odd_add, Ho, Z.odd_mul. done.
Qed.
Lemma tri_inj k i j : 0 <= k -> 0 <= i < 2 ^ k -> 0 <= j < 2 ^ k ->
  tri i mod 2 ^ k = tri j mod 2 ^ k -> i = j.
Proof.
  intros Hk Hi Hj E. destruct (Z.lt_trichotomy i j) as [?|[?|?]]; [|done|].
  - by destruct (tri_inj_lt k j i Hk ltac:(lia) ltac:(lia)).
  - by destruct (tri_inj_lt k i j Hk ltac:(lia) ltac:(lia)).
Qed.

(** The bucket the probing loop looks at in its round [j], from hash [h]. *)
Definition probe (N h j : Z) : Z := (h + tri j) mod N.
Lemma probe_range N h j : 0 < N -> 0 <= probe N h j < N.
Proof. intros. by apply Z.mod_pos_bound. Qed.
Lemma probe_inj k h i j : 0 <= k -> 0 <= i < 2 ^ k -> 0 <= j < 2 ^ k ->
  probe (2 ^ k) h i = probe (2 ^ k) h j -> i = j.
Proof.
  unfold probe. intros Hk Hi Hj E. apply (tri_inj k); try done.
  assert (0 < 2 ^ k) by by apply pow2_pos.
  replace (tri i) with (h + tri i - h) by lia. replace (tri j) with (h + tri j - h) by lia.
  by rewrite (Zminus_mod (h + tri i)), (Zminus_mod (h + tri j)), E.
Qed.
(** The first [2^k] probes reach every bucket. *)
Lemma probe_surjective k h x : 0 <= k -> 0 <= x < 2 ^ k ->
  exists j, 0 <= j < 2 ^ k /\ probe (2 ^ k) h j = x.
Proof.
  intros Hk Hx. assert (0 < 2 ^ k) by by apply pow2_pos.
  set (n := Z.to_nat (2 ^ k)).
  set (f := fun j : nat => Z.to_nat (probe (2 ^ k) h (Z.of_nat j))).
  assert (Hincl : incl (seq 0 n) (map f (seq 0 n))).
  { apply NoDup_length_incl.
    - apply NoDup_ListNoDup. apply (NoDup_fmap_2_strong f); [|apply NoDup_seq].
      intros i j Hi%elem_of_seq Hj%elem_of_seq E. unfold f in E.
      pose proof (probe_range (2 ^ k) h (Z.of_nat i)). pose proof (probe_range (2 ^ k) h (Z.of_nat j)).
      apply Nat2Z.inj, (probe_inj k h); lia.
    - by rewrite length_map.
    - intros y. rewrite in_map_iff. intros (j & <- & _). apply in_seq. unfold f.
      pose proof (probe_range (2 ^ k) h (Z.of_nat j)). lia. }
  assert (Hin : In (Z.to_nat x) (seq 0 n)) by (apply in_seq; lia).
  apply Hincl, in_map_iff in Hin as (j & E & Hj%in_seq). unfold f in E.
  pose proof (probe_range (2 ^ k) h (Z.of_nat j)). exists (Z.of_nat j). split; lia.
Qed.

(** The first index below [n] a boolean predicate holds at. *)
Lemma first_true n (P : Z -> bool) x : 0 <= x < n -> P x = true ->
  exists j, 0 <= j < n /\ P j = true /\ forall j', 0 <= j' < j -> P j' = false.
Proof.
  intros Hx HP. assert (H : forall y, 0 <= y -> (forall j', 0 <= j' < y -> P j' = false) \/
    exists j, 0 <= j < y /\ P j = true /\ forall j', 0 <= j' < j -> P j' = false).
  { apply (natlike_ind (fun y => (forall j', 0 <= j' < y -> P j' = false) \/
      exists j, 0 <= j < y /\ P j = true /\ forall j', 0 <= j' < j -> P j' = false)); [left; lia|].
    intros y Hy [H|(j & ? & ? & ?)]; [|right; exists j; split; [lia|done]].
    destruct (P y) eqn:E; [right; exists y; split; [lia|done]|left].
    intros j' Hj. destruct (decide (j' = y)) as [->|]; [done|]. apply H. lia. }
  destruct (H (x + 1) ltac:(lia)) as [Hf|(j & ? & ? & ?)].
  - rewrite Hf in HP by lia. done.
  - exists j. split; [lia|done].
Qed.

(** ** Counting buckets *)
Definition cnt {A} (P : A -> bool) (l : list A) : Z := Z.of_nat (length (List.filter P l)).
Lemma cnt_cons {A} (P : A -> bool) x l : cnt P (x :: l) = Zb (P x) + cnt P l.
Proof. unfold cnt. simpl. destruct (P x); simpl; lia. Qed.
Lemma cnt_nonneg {A} (P : A -> bool) l : 0 <= cnt P l.
Proof. unfold cnt. lia. Qed.
Lemma cnt_insert {A} (P : A -> bool) l i x y : l !! i = Some x ->
  cnt P (<[i := y]> l) = cnt P l - Zb (P x) + Zb (P y).
Proof.
  revert i. induction l as [|z l IH]; intros [|i] E; try discriminate; simpl in *; rewrite !cnt_cons.
  - simplify_eq. lia.
  - rewrite IH by done. lia.
Qed.
Lemma cnt_zero {A} (P : A -> bool) l : cnt P l = 0 <-> Forall (fun x => P x = false) l.
Proof.
  induction l as [|x l IH]; [done|]. rewrite cnt_cons, Forall_cons, <- IH.
  pose proof (cnt_nonneg P l). destruct (P x); simpl; intuition (done || lia).
Qed.
Lemma cnt_all_false {A} (P : A -> bool) l : (forall x, P x = false) -> cnt P l = 0.
Proof. intros H. apply cnt_zero. by apply Forall_forall. Qed.

(** ** The invariant *)
(** Where the derived class keeps its buckets: the storages it uses for a number
    of buckets, and whether it ever has no buckets at all. *)
Class Storage (K V : Type) := {
  storage_ok : buckets K V -> Z -> Prop;
  allows_null : Prop;
  storage_alloc : forall p N, storage_ok p N -> p <> Null;
  storage_store : forall m bs, storage_ok (Buckets m) (NumBuckets m) ->
    storage_ok (Buckets (store_buckets m bs)) (NumBuckets (store_buckets m bs));
}.

Section Theory.
Context {K V : Type} (T : Template K V) {Hinfo : DenseMapInfoOk (KeyInfo T)}.
Context {St : Storage K V}.
Implicit Types (m : table K V) (bs : list (K * V)) (b : K * V) (k : K).
Abbreviation keyeq := (isEqual (KeyInfo T)).
Abbreviation hash := (getHashValue T).
Abbreviation is_live := (is_live T).
Abbreviation is_empty := (is_empty T).
Abbreviation is_tombstone := (is_tombstone T).

(** A key callers may use: not a sentinel. *)
Definition valid_key k : Prop := keyeq k (getEmptyKey T) = false /\ keyeq k (getTombstoneKey T) = false.

(** No bucket before round [j] of the probe of [k] is empty. *)
Definition unbroken N bs k j : Prop :=
  forall j', 0 <= j' < j -> exists b, bs !! Z.to_nat (probe N (hash k) j') = Some b /\ is_empty b = false.
Definition reachable N bs k (i : Z) : Prop :=
  exists j, 0 <= j < N /\ i = probe N (hash k) j /\ unbroken N bs k j.

(** The array part: a power of two of buckets, one bucket per key, each live
    bucket on the unbroken probe path of its key. *)
Record array_ok N bs : Prop := {
  ao_pow : exists p, 0 <= p <= 30 /\ N = 2 ^ p;
  ao_length : Z.of_nat (length bs) = N;
  ao_unique : forall i j b c, bs !! i = Some b -> bs !! j = Some c ->
    is_live b = true -> is_live c = true -> keyeq (fst b) (fst c) = true -> i = j;
  ao_reach : forall i b, bs !! i = Some b -> is_live b = true -> reachable N bs (fst b) (Z.of_nat i);
}.

(** The whole invariant: exact counters, the load bound and a bucket neither
    live nor a tombstone. *)
Record wf m : Prop := {
  wf_array : array_ok (NumBuckets m) (getBuckets m);
  wf_alloc : storage_ok (Buckets m) (NumBuckets m);
  wf_entries : NumEntries m = cnt is_live (getBuckets m);
  wf_tombstones : NumTombstones m = cnt is_tombstone (getBuckets m);
  wf_load : 4 * NumEntries m < 3 * NumBuckets m;
  wf_room : NumEntries m + NumTombstones m < NumBuckets m;
}.
(** An unallocated table is well formed too. *)
Definition null_table m : Prop :=
  Buckets m = Null /\ NumEntries m = 0 /\ NumTombstones m = 0 /\ NumBuckets m = 0 /\ allows_null.
Definition table_ok m : Prop := null_table m \/ wf m.

(** The map a bucket array stands for. *)
Definition denote_array bs k : option V := snd <$> List.find (fun b => is_live b && keyeq k (fst b)) bs.
Definition denote m k : option V := denote_array (getBuckets m) k.

(** *** Keys and sentinels *)
Lemma keyeq_refl k : keyeq k k = true.
Proof. apply isEqual_refl. Qed.
Lemma keyeq_sym k l : keyeq k l = keyeq l k.
Proof. apply isEqual_sym. Qed.
Lemma keyeq_trans k l x : keyeq k l = true -> keyeq l x = true -> keyeq k x = true.
Proof. apply isEqual_trans. Qed.
Lemma keyeq_rewrite k l x : keyeq k l = true -> keyeq k x = keyeq l x.
Proof.
  intros E. apply eq_true_iff_eq. split; intros H; (eapply keyeq_trans; [|exact H]); [by rewrite keyeq_sym|done].
Qed.
Lemma hash_eq k l : keyeq k l = true -> hash k = hash l.
Proof. apply hash_proper. Qed.

Lemma is_live_spec b : is_live b = true <-> is_empty b = false /\ is_tombstone b = false.
Proof. unfold DenseMap.is_live. rewrite andb_true_iff, !negb_true_iff. done. Qed.
Lemma live_valid b : is_live b = true <-> valid_key (fst b).
Proof. apply is_live_spec. Qed.
Lemma valid_live k v : valid_key k -> is_live (k, v) = true.
Proof. intros. by apply live_valid. Qed.
Lemma valid_keyeq k l : keyeq k l = true -> valid_key k -> valid_key l.
Proof. unfold valid_key. intros E. by rewrite !(keyeq_rewrite _ _ _ E). Qed.
Lemma valid_match_live b k : valid_key k -> keyeq k (fst b) = true -> is_live b = true.
Proof. intros Hv E. apply live_valid. by eapply valid_keyeq. Qed.
Lemma tombstone_not_empty b : is_tombstone b = true -> is_empty b = false.
Proof.
  unfold DenseMap.is_empty, DenseMap.is_tombstone. intros Ht.
  rewrite (keyeq_rewrite _ _ _ Ht), keyeq_sym. apply sentinels_differ.
Qed.
Lemma empty_key_empty v : is_empty (getEmptyKey T, v) = true.
Proof. apply keyeq_refl. Qed.
Lemma tombstone_key_tombstone v : is_tombstone (getTombstoneKey T, v) = true.
Proof. apply keyeq_refl. Qed.
Lemma empty_key_dead v : is_live (getEmptyKey T, v) = false /\ is_tombstone (getEmptyKey T, v) = false.
Proof.
  assert (is_tombstone (getEmptyKey T, v) = false) as Ht by apply sentinels_differ.
  unfold DenseMap.is_live. by rewrite empty_key_empty.
Qed.
Lemma tombstone_key_dead v : is_live (getTombstoneKey T, v) = false /\ is_empty (getTombstoneKey T, v) = false.
Proof.
  assert (is_empty (getTombstoneKey T, v) = false) as He by (apply tombstone_not_empty, tombstone_key_tombstone).
  unfold DenseMap.is_live. by rewrite tombstone_key_tombstone, andb_false_r.
Qed.
Lemma cnt_total bs : cnt is_live bs + cnt is_tombstone bs + cnt is_empty bs = Z.of_nat (length bs).
Proof.
  induction bs as [|b bs IH]; [done|]. rewrite !cnt_cons. cbn [length].
  assert (Zb (is_live b) + Zb (is_tombstone b) + Zb (is_empty b) = 1); [|lia].
  unfold DenseMap.is_live. pose proof (tombstone_not_empty b) as Ht.
  destruct (is_empty b), (is_tombstone b); try done. by specialize (Ht eq_refl).
Qed.

(** *** The map of an array *)
Lemma find_lookup {A} (P : A -> bool) l x : List.find P l = Some x -> exists i, l !! i = Some x /\ P x = true.
Proof. intros H. apply find_some in H as [Hi HP]. apply list_elem_of_In, list_elem_of_lookup in Hi as [i Hi]. by exists i. Qed.
Lemma denote_Some N bs k v : array_ok N bs ->
  denote_array bs k = Some v <-> exists i l, bs !! i = Some (l, v) /\ is_live (l, v) = true /\ keyeq k l = true.
Proof.
  intros [_ _ Hu _]. unfold denote_array. split.
  - destruct (List.find _ _) as [[l w]|] eqn:E; [|done]. intros [= <-].
    apply find_lookup in E as (i & Hi & [HL HE]%andb_true_iff). by exists i, l.
  - intros (i & l & Hi & HL & HE). destruct (List.find _ _) as [[l' w]|] eqn:E.
    + apply find_lookup in E as (i' & Hi' & [HL' HE']%andb_true_iff). cbn [fst] in *.
      assert (i = i') as <-; [|by simplify_eq].
      eapply (Hu i i' (l, v) (l', w)); try done. cbn [fst].
      apply keyeq_trans with k; [by rewrite keyeq_sym|done].
    + apply List.find_none with (x := (l, v)) in E.
      * cbn [fst] in E. by rewrite HL, HE in E.
      * apply list_elem_of_In. by eapply list_elem_of_lookup_2.
Qed.
Lemma denote_None bs k :
  denote_array bs k = None <-> forall i b, bs !! i = Some b -> is_live b = true -> keyeq k (fst b) = false.
Proof.
  unfold denote_array. split.
  - intros E i b Hi HL. destruct (List.find _ _) eqn:F; [done|].
    apply List.find_none with (x := b) in F; [by rewrite HL in F|].
    apply list_elem_of_In. by eapply list_elem_of_lookup_2.
  - intros H. destruct (List.find _ _) as [b|] eqn:F; [|done].
    apply find_lookup in F as (i & Hi & [HL HE]%andb_true_iff). by rewrite (H i b) in HE.
Qed.
Lemma denote_proper bs k l : keyeq k l = true -> denote_array bs k = denote_array bs l.
Proof.
  intros E. unfold denote_array. f_equal. induction bs as [|b bs IH]; [done|]. simpl.
  by rewrite IH, (keyeq_rewrite _ _ _ E).
Qed.

(** *** The probing loop *)
Lemma bucket_no_mask p a : 0 <= p <= 32 -> Z.land a (u32 (2 ^ p - 1)) = a mod 2 ^ p.
Proof.
  intros Hp. pose proof (pow2_pos p ltac:(lia)). pose proof (Z.pow_le_mono_r 2 p 32 ltac:(lia) ltac:(lia)).
  rewrite wrap_small by lia. apply land_mask. lia.
Qed.
Lemma mod_u32 p a : 0 <= p <= 32 -> u32 a mod 2 ^ p = a mod 2 ^ p.
Proof.
  intros Hp. unfold wrap. apply Z.mod_mod_divide.
  exists (2 ^ (32 - p)). rewrite <- Z.pow_add_r by lia. f_equal. lia.
Qed.
Lemma probe_next N h j : 0 < N -> (probe N h j + (j + 1)) mod N = probe N h (j + 1).
Proof. intros. unfold probe. rewrite tri_succ, Z.add_mod_idemp_l by lia. f_equal. lia. Qed.

Lemma probe_step p N h j : 0 <= p <= 32 -> N = 2 ^ p ->
  Z.land (u32 (probe N h j + (j + 1))) (u32 (N - 1)) = probe N h (j + 1).
Proof.
  intros Hp ->. rewrite bucket_no_mask, mod_u32 by lia. apply probe_next. apply pow2_pos. lia.
Qed.

(** A bucket an insertion of [k] may overwrite: on its unbroken path, and
    holding no entry that may not be dropped. *)
Definition free_slot N bs k (i : Z) : Prop :=
  exists b, reachable N bs k i /\ bs !! Z.to_nat i = Some b /\
    (is_live b = true -> isPurgeable T (snd b) = true).

Lemma LookupBucketFor_loop_spec m k fuel j js b ft :
  array_ok (NumBuckets m) (getBuckets m) ->
  0 <= j <= js -> js < NumBuckets m -> (Z.to_nat (js - j) < fuel)%nat ->
  unbroken (NumBuckets m) (getBuckets m) k js ->
  (forall j' b, j <= j' < js -> getBuckets m !! Z.to_nat (probe (NumBuckets m) (hash k) j') = Some b -> keyeq k (fst b) = false) ->
  getBuckets m !! Z.to_nat (probe (NumBuckets m) (hash k) js) = Some b ->
  (keyeq k (fst b) = true \/ is_empty b = true) ->
  (forall t, ft = Some t -> free_slot (NumBuckets m) (getBuckets m) k t) ->
  let r := LookupBucketFor_loop T fuel m k (probe (NumBuckets m) (hash k) j) (j + 1) ft in
  if keyeq k (fst b) then r = Ok (true, Some (probe (NumBuckets m) (hash k) js))
  else exists t, r = Ok (false, Some t) /\ free_slot (NumBuckets m) (getBuckets m) k t.
Proof.
  intros Hok. set (N := NumBuckets m). set (bs := getBuckets m).
  destruct (ao_pow _ _ Hok) as (p & Hp & HN). fold N in HN.
  pose proof (pow2_pos p ltac:(lia)). pose proof (Z.pow_le_mono_r 2 p 30 ltac:(lia) ltac:(lia)).
  intros Hj HjsN Hfuel Hub Hne Hjs Hstop. 
  revert j Hj Hfuel Hne ft. induction fuel as [|fuel IH]; intros j Hj Hfuel Hne ft Hft; [lia|].
  cbn [LookupBucketFor_loop]. fold bs N.
  destruct (decide (j = js)) as [->|Hlt].
  - rewrite Hjs. destruct (keyeq k (fst b)) eqn:E; [done|]. destruct Hstop as [|He]; [done|]. rewrite He.
    eexists. split; [done|]. destruct ft as [t|]; [by apply Hft|].
    exists b. split_and!; [|done|].
    + exists js. split_and!; (done || lia).
    + intros HL. apply is_live_spec in HL as [? _]. congruence.
  - destruct (Hub j ltac:(lia)) as (c & Hc & Hce). rewrite Hc, (Hne j c), Hce by (done || lia).
    destruct (Z.gtb_spec (j + 1) N); [lia|].
    rewrite (probe_step p), (wrap_small 32 (j + 1 + 1)) by lia.
    apply (IH (j + 1)); [lia|lia|intros j' ? ?; apply Hne; lia|].
    intros t Ht. destruct ft as [t'|]; cbn in Ht; rewrite ?andb_false_r in Ht; [by apply Hft|].
    assert (Hreach : reachable N bs k (probe N (hash k) j)).
    { exists j. split_and!; [lia|lia|done|]. intros j' ?. apply Hub. lia. }
    destruct (is_tombstone c) eqn:Hct; cbn in Ht; rewrite ?andb_false_r in Ht.
    + injection Ht as <-. exists c. split_and!; [done|done|]. intros [_ ?]%is_live_spec. congruence.
    + destruct (isPurgeable T (snd c)) eqn:Hp'; cbn in Ht; [|done]. injection Ht as <-. by exists c.
Qed.

Lemma wf_bounds m : wf m ->
  0 <= NumEntries m /\ 0 <= NumTombstones m /\ 0 < NumBuckets m <= 2 ^ 30 /\ 4 * NumEntries m < 3 * NumBuckets m /\
  NumEntries m + NumTombstones m < NumBuckets m.
Proof.
  intros [Hao _ He Ht Hl Hr]. destruct (ao_pow _ _ Hao) as (p & Hp & HN).
  pose proof (pow2_pos p ltac:(lia)). pose proof (Z.pow_le_mono_r 2 p 30 ltac:(lia) ltac:(lia)).
  rewrite He, Ht in *. pose proof (cnt_nonneg is_live (getBuckets m)). pose proof (cnt_nonneg is_tombstone (getBuckets m)).
  split_and!; lia.
Qed.

(** What a lookup of [k] in a well-formed table returns. *)
Inductive lookup_result m k : res (bool * option Z) -> Prop :=
  | found_at i l v : 0 <= i < NumBuckets m -> getBuckets m !! Z.to_nat i = Some (l, v) ->
      keyeq k l = true -> is_live (l, v) = true -> denote m k = Some v ->
      lookup_result m k (Ok (true, Some i))
  | free_at i : 0 <= i < NumBuckets m -> free_slot (NumBuckets m) (getBuckets m) k i ->
      denote m k = None -> lookup_result m k (Ok (false, Some i)).

Lemma array_has_empty m : wf m -> exists i b, getBuckets m !! i = Some b /\ is_empty b = true.
Proof.
  intros Hwf. pose proof (wf_bounds m Hwf). destruct Hwf as [[_ Hlen _ _] _ He Ht _ Hr].
  destruct (decide (cnt is_empty (getBuckets m) = 0)) as [E|E].
  - pose proof (cnt_total (getBuckets m)). lia.
  - destruct (List.find is_empty (getBuckets m)) as [b|] eqn:F.
    + apply find_lookup in F as (i & Hi & He'). by exists i, b.
    + destruct E. apply cnt_zero, Forall_forall. intros x Hx%list_elem_of_In. by eapply List.find_none.
Qed.

(** The round the probing for [k] stops in: the first bucket that matches or is
    empty. *)
Definition stops_at m k (js : Z) b : Prop :=
  0 <= js < NumBuckets m /\
  getBuckets m !! Z.to_nat (probe (NumBuckets m) (hash k) js) = Some b /\
  (keyeq k (fst b) = true \/ is_empty b = true) /\
  unbroken (NumBuckets m) (getBuckets m) k js /\
  forall j c, 0 <= j < js ->
    getBuckets m !! Z.to_nat (probe (NumBuckets m) (hash k) j) = Some c -> keyeq k (fst c) = false.
Lemma probe_bucket m k j : wf m -> exists b, getBuckets m !! Z.to_nat (probe (NumBuckets m) (hash k) j) = Some b.
Proof.
  intros Hwf. pose proof (wf_bounds _ Hwf). pose proof (ao_length _ _ (wf_array _ Hwf)).
  apply lookup_lt_is_Some_2. pose proof (probe_range (NumBuckets m) (hash k) j). lia.
Qed.
Lemma stops_somewhere m k : wf m -> exists js b, stops_at m k js b.
Proof.
  intros Hwf. pose proof (wf_bounds _ Hwf) as Hb. destruct (ao_pow _ _ (wf_array _ Hwf)) as (p & Hp & HN).
  destruct (array_has_empty _ Hwf) as (ie & be & Hie & Hbe).
  pose proof (lookup_lt_Some _ _ _ Hie). pose proof (ao_length _ _ (wf_array _ Hwf)).
  set (stop := fun j => match getBuckets m !! Z.to_nat (probe (NumBuckets m) (hash k) j) with
                         | Some b => keyeq k (fst b) || is_empty b | None => true end).
  destruct (probe_surjective p (hash k) (Z.of_nat ie)) as (je & Hje & Eje); [lia|lia|].
  rewrite <- HN in Hje, Eje.
  destruct (first_true (NumBuckets m) stop je Hje) as (js & Hjs & Hstop & Hfirst).
  { unfold stop. by rewrite Eje, Nat2Z.id, Hie, Hbe, orb_true_r. }
  assert (Hbefore : forall j c, 0 <= j < js ->
    getBuckets m !! Z.to_nat (probe (NumBuckets m) (hash k) j) = Some c ->
    keyeq k (fst c) = false /\ is_empty c = false).
  { intros j c Hj Hc. specialize (Hfirst j Hj). unfold stop in Hfirst. rewrite Hc in Hfirst. by apply orb_false_iff. }
  destruct (probe_bucket m k js Hwf) as (b & Hb'). unfold stop in Hstop. rewrite Hb' in Hstop.
  exists js, b. split_and!; [lia|lia|done|by apply orb_true_iff| |].
  - intros j Hj. destruct (probe_bucket m k j Hwf) as (c & Hc). exists c. split; [done|]. by eapply Hbefore.
  - intros j c Hj Hc. by eapply Hbefore.
Qed.
(** A key whose probing stops at an empty bucket is not in the table. *)
Lemma stops_empty_absent m k js b : wf m -> stops_at m k js b -> keyeq k (fst b) = false -> denote m k = None.
Proof.
  intros Hwf (Hjs & Hb' & Hstop & Hub & Hfirst) Hneq. destruct Hstop as [|He]; [congruence|].
  apply denote_None. intros i c Hi HL.
  destruct (keyeq k (fst c)) eqn:Ec; [|done]. exfalso.
  destruct (ao_reach _ _ (wf_array _ Hwf) _ _ Hi HL) as (jc & Hjc & Ejc & Hubc).
  rewrite <- (hash_eq _ _ Ec) in Ejc.
  destruct (Z.lt_trichotomy jc js) as [Hlt|[->|Hgt]].
  - rewrite (Hfirst jc c) in Ec; [done|lia|]. by rewrite <- Ejc, Nat2Z.id.
  - rewrite <- Ejc, Nat2Z.id, Hi in Hb'. congruence.
  - destruct (Hubc js ltac:(lia)) as (d & Hd & Hde). rewrite <- (hash_eq _ _ Ec), Hb' in Hd. congruence.
Qed.

Lemma LookupBucketFor_result m k : wf m -> valid_key k -> lookup_result m k (LookupBucketFor T m k).
Proof.
  intros Hwf Hk. pose proof (wf_array _ Hwf) as Hao. pose proof (wf_bounds _ Hwf) as Hb.
  destruct (ao_pow _ _ Hao) as (p & Hp & HN).
  destruct (stops_somewhere m k Hwf) as (js & b & Hst). pose proof Hst as (Hjs & Hb' & Hstop & Hub & Hfirst).
  assert (Hspec := LookupBucketFor_loop_spec m k (Z.to_nat (NumBuckets m + 1)) 0 js b None Hao
    ltac:(lia) ltac:(lia) ltac:(lia) Hub Hfirst Hb' Hstop ltac:(done)). cbv zeta in Hspec.
  unfold LookupBucketFor. rewrite (proj2 (Z.eqb_neq (NumBuckets m) 0)) by lia.
  replace (Z.land (hash k) (u32 (NumBuckets m - 1))) with (probe (NumBuckets m) (hash k) 0).
  2:{ rewrite HN, bucket_no_mask by lia. unfold probe, tri. by rewrite Z.add_0_r. }
  change (0 + 1) with 1 in Hspec.
  destruct (keyeq k (fst b)) eqn:E.
  - rewrite Hspec. pose proof (probe_range (NumBuckets m) (hash k) js). destruct b as [l v]. cbn [fst] in E.
    assert (is_live (l, v) = true) by by apply (valid_match_live (l, v) k).
    econstructor; [lia|done|done|done|]. unfold denote. rewrite denote_Some by done. by eexists _, _.
  - destruct Hspec as (t & -> & Hfree). constructor; [|done|by eapply stops_empty_absent].
    destruct Hfree as (c & (j & ? & -> & _) & _). apply probe_range. lia.
Qed.

(** *** Overwriting one bucket *)
Lemma unbroken_insert N bs k j (i : nat) b : is_empty b = false ->
  unbroken N bs k j -> unbroken N (<[i := b]> bs) k j.
Proof.
  intros He Hub j' Hj'. destruct (Hub j' Hj') as (c & Hc & Hce).
  destruct (decide (i = Z.to_nat (probe N (hash k) j'))) as [->|Hne].
  - exists b. split; [|done]. apply list_lookup_insert_eq. by eapply lookup_lt_Some.
  - exists c. by rewrite list_lookup_insert_ne.
Qed.
Lemma reachable_insert N bs k i (i' : nat) b : is_empty b = false ->
  reachable N bs k i -> reachable N (<[i' := b]> bs) k i.
Proof. intros He (j & ? & ? & ?). exists j. split_and!; [lia|lia|done|]. by apply unbroken_insert. Qed.
Lemma lookup_overwrite bs (i j : nat) b c d : bs !! i = Some c -> <[i := b]> bs !! j = Some d ->
  j = i /\ d = b \/ j <> i /\ bs !! j = Some d.
Proof.
  intros Hi. destruct (decide (j = i)) as [->|].
  - rewrite list_lookup_insert_eq; [intros [= ->]; by left|]. by eapply lookup_lt_Some.
  - rewrite list_lookup_insert_ne by done. by right.
Qed.
Lemma lookup_overwritten bs (i : nat) b c : bs !! i = Some c -> <[i := b]> bs !! i = Some b.
Proof. intros. apply list_lookup_insert_eq. by eapply lookup_lt_Some. Qed.

(** The new content is no empty bucket and, when it is live, on the path of its
    key, which no other bucket holds. *)
Lemma array_ok_overwrite N bs (i : nat) b c :
  array_ok N bs -> bs !! i = Some c -> is_empty b = false ->
  (is_live b = true -> reachable N bs (fst b) (Z.of_nat i) /\
     forall j d, j <> i -> bs !! j = Some d -> is_live d = true -> keyeq (fst b) (fst d) = false) ->
  array_ok N (<[i := b]> bs).
Proof.
  intros [Hp Hl Hu Hr] Hi He Hb. split; [done|by rewrite length_insert| |].
  - intros x y d e Hx Hy HLd HLe Heq.
    destruct (lookup_overwrite _ _ _ _ _ _ Hi Hx) as [[-> ->]|[Hnx Hx']],
      (lookup_overwrite _ _ _ _ _ _ Hi Hy) as [[-> ->]|[Hny Hy']]; [done| | |by eapply Hu].
    + destruct (Hb HLd) as [_ Hd]. rewrite (Hd y e) in Heq by done. done.
    + destruct (Hb HLe) as [_ Hd]. rewrite keyeq_sym, (Hd x d) in Heq by done. done.
  - intros x d Hx HLd. apply reachable_insert; [done|].
    destruct (lookup_overwrite _ _ _ _ _ _ Hi Hx) as [[-> ->]|[Hnx Hx']]; [by apply Hb|by apply Hr].
Qed.

Lemma denote_insert N bs (i : nat) k v c k' :
  array_ok N bs -> array_ok N (<[i := (k, v)]> bs) -> bs !! i = Some c -> is_live (k, v) = true ->
  denote_array (<[i := (k, v)]> bs) k' =
    if keyeq k k' then Some v
    else if is_live c && keyeq k' (fst c) then None else denote_array bs k'.
Proof.
  intros Hao Hao' Hi HL. apply option_eq. intros w. rewrite (denote_Some N) by done.
  pose proof (lookup_overwritten _ _ (k, v) _ Hi) as Hnew.
  destruct (keyeq k k') eqn:E; [|destruct (is_live c && keyeq k' (fst c)) eqn:Ec; [|rewrite (denote_Some N) by done]].
  - split.
    + intros (j & l & Hj & HL' & HE). assert (j = i) as ->.
      { eapply (ao_unique _ _ Hao' j i (l, w) (k, v)); try done. cbn [fst]. rewrite keyeq_sym.
        by apply keyeq_trans with k'. }
      rewrite Hnew in Hj. congruence.
    + intros [= <-]. exists i, k. by rewrite keyeq_sym.
  - split; [|done]. intros (j & l & Hj & HL' & HE). apply andb_true_iff in Ec as [HLc Ec].
    destruct (lookup_overwrite _ _ _ _ _ _ Hi Hj) as [[-> [= -> ->]]|[Hne Hj']].
    + by rewrite keyeq_sym, HE in E.
    + destruct Hne. eapply (ao_unique _ _ Hao j i (l, w) c); try done. cbn [fst]. rewrite keyeq_sym in HE.
      by apply keyeq_trans with k'.
  - split; intros (j & l & Hj & HL' & HE); exists j, l; split_and!; try done.
    + destruct (lookup_overwrite _ _ _ _ _ _ Hi Hj) as [[-> [= -> ->]]|[Hne Hj']]; [by rewrite keyeq_sym, HE in E|done].
    + rewrite list_lookup_insert_ne; [done|]. intros ->. rewrite Hi in Hj. simplify_eq. cbn [fst] in Ec. by rewrite HL', HE in Ec.
Qed.
Lemma denote_kill N bs (i : nat) b c k' :
  array_ok N bs -> array_ok N (<[i := b]> bs) -> bs !! i = Some c -> is_live b = false ->
  denote_array (<[i := b]> bs) k' = if is_live c && keyeq k' (fst c) then None else denote_array bs k'.
Proof.
  intros Hao Hao' Hi HL. apply option_eq. intros w. rewrite (denote_Some N) by done.
  destruct (is_live c && keyeq k' (fst c)) eqn:Ec; [|rewrite (denote_Some N) by done].
  - split; [|done]. intros (j & l & Hj & HL' & HE). apply andb_true_iff in Ec as [HLc Ec].
    destruct (lookup_overwrite _ _ _ _ _ _ Hi Hj) as [[-> <-]|[Hne Hj']]; [congruence|].
    destruct Hne. eapply (ao_unique _ _ Hao j i (l, w) c); try done. cbn [fst]. rewrite keyeq_sym in HE.
    by apply keyeq_trans with k'.
  - split; intros (j & l & Hj & HL' & HE); exists j, l; split_and!; try done.
    + destruct (lookup_overwrite _ _ _ _ _ _ Hi Hj) as [[-> <-]|[Hne Hj']]; [congruence|done].
    + rewrite list_lookup_insert_ne; [done|]. intros ->. rewrite Hi in Hj. simplify_eq. cbn [fst] in Ec. by rewrite HL', HE in Ec.
Qed.

(** A table that differs from a well-formed one in one bucket and its counters. *)
Lemma wf_overwrite m m' (i : nat) b c :
  wf m -> getBuckets m !! i = Some c -> array_ok (NumBuckets m) (<[i := b]> (getBuckets m)) ->
  getBuckets m' = <[i := b]> (getBuckets m) -> storage_ok (Buckets m') (NumBuckets m') -> NumBuckets m' = NumBuckets m ->
  NumEntries m' = NumEntries m - Zb (is_live c) + Zb (is_live b) ->
  NumTombstones m' = NumTombstones m - Zb (is_tombstone c) + Zb (is_tombstone b) ->
  4 * NumEntries m' < 3 * NumBuckets m -> NumEntries m' + NumTombstones m' < NumBuckets m -> wf m'.
Proof.
  intros Hwf Hi Hao HB Hnn HN HE HT Hl Hr. split.
  - by rewrite HN, HB.
  - done.
  - rewrite HB, (cnt_insert _ _ _ c), HE, (wf_entries _ Hwf) by done. lia.
  - rewrite HB, (cnt_insert _ _ _ c), HT, (wf_tombstones _ Hwf) by done. lia.
  - by rewrite HN.
  - by rewrite HN.
Qed.

(** *** A table with every bucket empty *)
Lemma empty_array_ok N bs : (exists p, 0 <= p <= 30 /\ N = 2 ^ p) -> Z.of_nat (length bs) = N ->
  Forall (fun b => is_empty b = true) bs ->
  array_ok N bs /\ cnt is_live bs = 0 /\ cnt is_tombstone bs = 0 /\ forall k, denote_array bs k = None.
Proof.
  intros Hp Hl He. assert (Hd : forall i b, bs !! i = Some b -> is_live b = false).
  { intros i b Hi. unfold DenseMap.is_live. by rewrite (proj1 (Forall_lookup _ _) He i b Hi). }
  split_and!.
  - split; [done|done| |]; intros; exfalso; by erewrite Hd in * by done.
  - apply cnt_zero. apply Forall_lookup. eauto.
  - apply cnt_zero. eapply Forall_impl; [exact He|]. cbv beta. intros b Hb.
    destruct (is_tombstone b) eqn:E; [|done]. by rewrite tombstone_not_empty in Hb.
  - intros k. apply denote_None. intros i b Hi HL. by rewrite (Hd i b) in HL.
Qed.
End Theory.
