(* ===== verification/DenseMapMove.v ===== *)
(** * Filling a bucket array: initEmpty, moveFromOldBuckets, placing an entry

    What the building blocks of [grow], [clear] and [insert] do to the map a
    table stands for: an initialised table is empty, an entry placed in a free
    slot is added (at most purging another), and rehashing keeps every entry
    whose value may not be purged. *)

From stdpp Require Import prelude numbers list.
From Stdlib Require Import ZArith Lia Bool.
From S2P Require Import Prelude MathExtras DenseMapInfo DenseMap DenseMapTheory.

Section Move.
Context {K V : Type} (T : Template K V) {Hinfo : DenseMapInfoOk (KeyInfo T)}.
Context {St : Storage K V}.
Implicit Types (m : table K V) (bs : list (K * V)) (b : K * V) (k : K) (f g : K -> option V).
Abbreviation keyeq := (isEqual (KeyInfo T)).
Abbreviation is_live := (is_live T).
Abbreviation is_empty := (is_empty T).
Abbreviation is_tombstone := (is_tombstone T).
Abbreviation wf := (wf T).
Abbreviation denote := (denote T).
Abbreviation denote_array := (denote_array T).

(** [g] is [f], except that entries with purgeable values may be gone. *)
Definition purged_at f g k : Prop :=
  g k = f k \/ (g k = None /\ exists v, f k = Some v /\ isPurgeable T v = true).
Definition purged f g : Prop := forall k, purged_at f g k.
Lemma purged_refl f : purged f f.
Proof. by left. Qed.
Lemma purged_at_trans f g (h : K -> option V) k : purged_at f g k -> purged_at g h k -> purged_at f h k.
Proof.
  intros [E|(E & v & Ev & ?)] [E'|(E' & v' & Ev' & ?)]; rewrite ?E in *; [by left|right|right|congruence].
  - split; [done|]. by exists v'.
  - split; [done|]. by exists v.
Qed.
Lemma purged_None f g k : purged_at f g k -> f k = None -> g k = None.
Proof. intros [E|(? & v & E & _)] ?; congruence. Qed.

(** A purged map has no purgeable entry left. *)
Definition no_purgeable f : Prop := forall k v, f k = Some v -> isPurgeable T v = false.
Definition drop_purgeable (o : option V) : option V := v ← o; if isPurgeable T v then None else Some v.
Lemma drop_purgeable_purged f : purged f (fun k => drop_purgeable (f k)).
Proof.
  intros k. unfold purged_at, drop_purgeable. destruct (f k) as [v|]; simpl; [|by left].
  destruct (isPurgeable T v) eqn:E; [right|by left]. by split; [|exists v].
Qed.

(** ** initEmpty *)
Definition power_of_two_size (N : Z) : Prop := exists p, 0 <= p <= 30 /\ N = 2 ^ p.
Record fresh_table m (N : Z) : Prop := {
  ft_wf : wf m;
  ft_size : NumBuckets m = N;
  ft_entries : NumEntries m = 0;
  ft_tombstones : NumTombstones m = 0;
  ft_denote : forall k, denote m k = None;
}.
Lemma size_mask N : power_of_two_size N -> Z.land N (u32 (N - 1)) = 0.
Proof.
  intros (p & Hp & ->). rewrite bucket_no_mask by lia. apply Z.mod_same.
  pose proof (pow2_pos p ltac:(lia)). lia.
Qed.
Lemma fresh_array_length N : 0 <= N -> Z.of_nat (length (fresh_array T N)) = N.
Proof. intros. unfold fresh_array. rewrite length_map, length_seq. lia. Qed.
Lemma length_store m bs : storage_ok (Buckets m) (NumBuckets m) -> getBuckets (store_buckets m bs) = bs.
Proof. intros H%storage_alloc. unfold getBuckets, store_buckets. by destruct (Buckets m). Qed.
Lemma empty_fresh m N : power_of_two_size N -> storage_ok (Buckets m) (NumBuckets m) -> NumBuckets m = N ->
  NumEntries m = 0 -> NumTombstones m = 0 -> Z.of_nat (length (getBuckets m)) = N ->
  Forall (fun b => is_empty b = true) (getBuckets m) -> fresh_table m N.
Proof.
  intros Hp Hnn HN HE HT Hl Hemp. destruct (empty_array_ok T N _ Hp Hl Hemp) as (Hao & Hcl & Hct & Hd).
  destruct Hp as (p & Hp & Hpow). pose proof (pow2_pos p ltac:(lia)).
  split; try done. split; try done; rewrite ?HN; try (done || lia).
Qed.
Lemma initEmpty_ok m : power_of_two_size (NumBuckets m) -> Z.of_nat (length (getBuckets m)) = NumBuckets m ->
  storage_ok (Buckets m) (NumBuckets m) -> exists m', initEmpty T m = Ok m' /\ fresh_table m' (NumBuckets m).
Proof.
  intros Hp Hl Hnn. unfold initEmpty. cbn [NumBuckets setNumTombstones setNumEntries].
  rewrite size_mask by done. eexists. split; [reflexivity|].
  apply empty_fresh; try done; [by apply storage_store|..]; rewrite length_store by done.
  - by rewrite length_map.
  - apply Forall_fmap, Forall_forall. intros b _. by apply empty_key_empty.
Qed.

(** ** Placing an entry in a free slot *)
Record placed f g k (v : V) : Prop := {
  pl_new : forall k', keyeq k k' = true -> g k' = Some v;
  pl_old : forall k', keyeq k k' = false -> purged_at f g k';
}.
Lemma place_ok m k v i : wf m -> valid_key T k -> denote m k = None -> 0 <= i ->
  free_slot T (NumBuckets m) (getBuckets m) k i ->
  array_ok T (NumBuckets m) (<[Z.to_nat i := (k, v)]> (getBuckets m)) /\
  placed (denote m) (denote_array (<[Z.to_nat i := (k, v)]> (getBuckets m))) k v.
Proof.
  intros Hwf Hk Hnone Hi (c & Hreach & Hc & Hpurge). pose proof (wf_array _ _ Hwf) as Hao.
  assert (HL : is_live (k, v) = true) by by apply valid_live.
  assert (Hao' : array_ok T (NumBuckets m) (<[Z.to_nat i := (k, v)]> (getBuckets m))).
  { eapply array_ok_overwrite; try done.
    - by apply is_live_spec in HL as [? _].
    - intros _. rewrite Z2Nat.id by done. split; [done|]. cbn [fst]. intros j d _ Hd HLd.
      by eapply denote_None. }
  split; [done|]. split; intros k' E; unfold purged_at; erewrite (denote_insert _ _ _ _ k v c) by done; rewrite E; [done|].
  destruct (is_live c && keyeq k' (fst c)) eqn:Ec; [right|by left].
  apply andb_true_iff in Ec as [HLc Ec]. split; [done|]. exists (snd c). split; [|by apply Hpurge].
  unfold DenseMapTheory.denote. rewrite (denote_Some T (NumBuckets m)) by done. destruct c. by eexists _, _.
Qed.

(** ** moveFromOldBuckets *)
Definition unique bs : Prop := forall i j b c, bs !! i = Some b -> bs !! j = Some c ->
  is_live b = true -> is_live c = true -> keyeq (fst b) (fst c) = true -> i = j.
Lemma unique_cons b bs : unique (b :: bs) -> unique bs /\
  (is_live b = true -> forall i c, bs !! i = Some c -> is_live c = true -> keyeq (fst b) (fst c) = false).
Proof.
  intros H. split.
  - intros i j c d Hi Hj. intros. enough (S i = S j) by lia. by apply (H (S i) (S j) c d).
  - intros HL i c Hi HLc. destruct (keyeq (fst b) (fst c)) eqn:E; [|done].
    by assert (0%nat = S i) by by apply (H 0%nat (S i) b c).
Qed.
Lemma denote_array_cons b bs k :
  denote_array (b :: bs) k = if is_live b && keyeq k (fst b) then Some (snd b) else denote_array bs k.
Proof. unfold DenseMapTheory.denote_array. simpl. by destruct (_ && _). Qed.

(** The state of a rehash: [m] has no tombstone and nothing purgeable. *)
Record rehashing m : Prop := {
  rh_wf : wf m;
  rh_tombstones : NumTombstones m = 0;
  rh_clean : no_purgeable (denote m);
}.
Definition kept b : bool := is_live b && negb (isPurgeable T (snd b)).

Lemma moveBucket_ok m b : rehashing m -> kept b = true -> denote m (fst b) = None ->
  4 * (NumEntries m + 1) < 3 * NumBuckets m ->
  exists m', moveBucket T m b = Ok m' /\ rehashing m' /\ NumBuckets m' = NumBuckets m /\
    NumEntries m' = NumEntries m + 1 /\
    forall k, denote m' k = if keyeq (fst b) k then Some (snd b) else denote m k.
Proof.
  intros [Hwf Ht Hclean] [HL Hpb%negb_true_iff]%andb_true_iff Hnone Hload. pose proof (wf_bounds _ _ Hwf) as Hb.
  assert (Hk : valid_key T (fst b)) by by apply live_valid. destruct b as [l v]. cbn [fst snd] in *.
  unfold moveBucket. cbn [fst snd]. rewrite Hpb, HL.
  destruct (LookupBucketFor_result T m l Hwf Hk) as [|i Hi Hfree _]; [congruence|].
  cbn [rbind rassert negb].
  destruct (place_ok m l v i) as [Hao [Hnew Hold]]; try (done || lia).
  destruct Hfree as (c & Hreach & Hc & Hpurge).
  assert (HLc : is_live c = false).
  { destruct (is_live c) eqn:E; [|done]. specialize (Hpurge eq_refl). rewrite (Hclean (fst c)) in Hpurge; [done|].
    unfold DenseMapTheory.denote. rewrite (denote_Some T (NumBuckets m)) by apply (wf_array _ _ Hwf).
    destruct c. eexists _, _. split_and!; [done|done|apply keyeq_refl]. done. }
  assert (Htc : is_tombstone c = false).
  { rewrite (wf_tombstones _ _ Hwf) in Ht. by apply cnt_zero, Forall_lookup with (i := Z.to_nat i) (x := c) in Ht. }
  assert (Htl : is_tombstone (l, v) = false) by by apply is_live_spec in HL as [_ ?].
  set (m' := incrementNumEntries _).
  assert (HB : getBuckets m' = <[Z.to_nat i := (l, v)]> (getBuckets m)) by (apply length_store, Hwf).
  assert (HE : NumEntries m' = NumEntries m + 1) by (apply wrap_small; cbn; lia).
  assert (HD : forall k, denote m' k = if keyeq l k then Some v else denote m k).
  { intros k. unfold DenseMapTheory.denote. rewrite HB. erewrite denote_insert by (try done; apply Hwf).
    by rewrite HLc. }
  exists m'. split; [done|]. split_and!; try done. split; [|done|].
  - eapply (wf_overwrite T m m' _ (l, v) c); try done.
    + by apply storage_store, Hwf.
    + rewrite HE, HLc, HL. simpl. lia.
    + rewrite Htc, Htl. cbn. lia.
    + lia.
    + rewrite HE. cbn. lia.
  - intros k w. rewrite HD. destruct (keyeq l k); [congruence|apply Hclean].
Qed.

Lemma moveBucket_skip m b : kept b = false -> moveBucket T m b = Ok m.
Proof. unfold kept, moveBucket. by destruct (isPurgeable T (snd b)), (is_live b). Qed.
Lemma kept_denote b bs k : unique (b :: bs) -> kept b = false ->
  drop_purgeable (denote_array (b :: bs) k) = drop_purgeable (denote_array bs k).
Proof.
  intros [_ Hsep]%unique_cons Hkept. rewrite denote_array_cons.
  destruct (is_live b && keyeq k (fst b)) eqn:E; [|done]. apply andb_true_iff in E as [HL E].
  unfold kept in Hkept. rewrite HL in Hkept. apply negb_false_iff in Hkept. cbn. rewrite Hkept.
  assert (denote_array bs k = None) as ->; [|done]. apply denote_None. intros i c Hi HLc.
  rewrite (keyeq_rewrite T _ _ _ E). by eapply Hsep.
Qed.
Lemma kept_unique b bs i c : unique (b :: bs) -> kept b = true -> bs !! i = Some c -> kept c = true ->
  keyeq (fst b) (fst c) = false.
Proof. intros [_ Hsep]%unique_cons [HL _]%andb_true_iff Hi [HLc _]%andb_true_iff. by eapply Hsep. Qed.

Lemma moveBuckets_ok Old m : rehashing m -> unique Old ->
  (forall i b, Old !! i = Some b -> kept b = true -> denote m (fst b) = None) ->
  4 * (NumEntries m + cnt kept Old) < 3 * NumBuckets m ->
  exists m', moveBuckets T m Old = Ok m' /\ rehashing m' /\ NumBuckets m' = NumBuckets m /\
    NumEntries m' = NumEntries m + cnt kept Old /\
    forall k, denote m' k = match denote m k with Some v => Some v | None => drop_purgeable (denote_array Old k) end.
Proof.
  revert m. induction Old as [|b Old IH]; intros m Hm Hu Habs Hload.
  { exists m. change (cnt kept []) with 0. split_and!; try (done || lia). intros k. by destruct (denote m k). }
  cbn [moveBuckets]. rewrite cnt_cons in *. pose proof (cnt_nonneg kept Old).
  destruct (kept b) eqn:Hkept; cbn [Zb] in *.
  - destruct (moveBucket_ok m b Hm Hkept) as (m1 & -> & Hm1 & HN1 & HE1 & HD1); [by apply (Habs 0%nat)|lia|].
    destruct (IH m1) as (m' & E & Hm' & HN' & HE' & HD'); [done|by apply unique_cons in Hu as [? _]|..|].
    + intros i c Hi Hc. rewrite HD1, (kept_unique b Old i c) by done. by apply (Habs (S i)).
    + rewrite HE1, HN1. lia.
    + exists m'. rewrite HN', HE'. split_and!; try (done || lia). intros k. rewrite HD', HD1, denote_array_cons.
      rewrite (keyeq_sym T k). apply andb_true_iff in Hkept as [HL Hp%negb_true_iff]. rewrite HL.
      destruct (keyeq (fst b) k) eqn:E'; cbn [andb]; [|done].
      assert (denote m k = None) as ->; [|cbn; by rewrite Hp].
      rewrite <- (Habs 0%nat b) by (try done; by unfold kept; rewrite HL, Hp).
      symmetry. by apply denote_proper.
  - rewrite moveBucket_skip by done. cbn [rbind].
    destruct (IH m) as (m' & E & Hm' & HN' & HE' & HD'); [done|by apply unique_cons in Hu as [? _]|..|].
    + intros i c Hi. by apply (Habs (S i)).
    + lia.
    + exists m'. split_and!; try (done || lia). intros k. by rewrite HD', (kept_denote b) by done.
Qed.

Lemma kept_le_live bs : cnt kept bs <= cnt is_live bs.
Proof. induction bs as [|b bs IH]; [done|]. rewrite !cnt_cons. unfold kept at 1. destruct (is_live b), (isPurgeable T (snd b)); simpl; lia. Qed.
Lemma moveFromOldBuckets_ok m Old : power_of_two_size (NumBuckets m) ->
  Z.of_nat (length (getBuckets m)) = NumBuckets m -> storage_ok (Buckets m) (NumBuckets m) -> unique Old ->
  4 * cnt kept Old < 3 * NumBuckets m ->
  exists m', moveFromOldBuckets T m Old = Ok m' /\ rehashing m' /\ NumBuckets m' = NumBuckets m /\
    NumEntries m' = cnt kept Old /\ forall k, denote m' k = drop_purgeable (denote_array Old k).
Proof.
  intros Hp Hl Hnn Hu Hload. unfold moveFromOldBuckets.
  destruct (initEmpty_ok m Hp Hl Hnn) as (m0 & -> & [Hwf HN HE HT HD]). cbn [rbind].
  destruct (moveBuckets_ok Old m0) as (m' & E & Hm' & HN' & HE' & HD'); [split; [done|done|]|done|..].
  - intros k v. by rewrite HD.
  - intros. apply HD.
  - rewrite HE, HN. lia.
  - exists m'. rewrite HN', HE', HE, HN. split_and!; try (done || lia). intros k. by rewrite HD', HD.
Qed.

(** ** copyFrom

    Arrays that agree but for what their dead buckets hold as values. *)
Definition same_bucket b c : Prop := fst b = fst c /\ (is_live b = true -> snd b = snd c).
Definition same_content bs bs' : Prop := Forall2 same_bucket bs bs'.
Lemma same_bucket_kind b c : same_bucket b c ->
  is_live b = is_live c /\ is_empty b = is_empty c /\ is_tombstone b = is_tombstone c.
Proof.
  intros [E _]. unfold DenseMap.is_live, DenseMap.is_empty, DenseMap.is_tombstone. by rewrite E.
Qed.
Lemma same_content_cnt bs bs' : same_content bs bs' ->
  cnt is_live bs = cnt is_live bs' /\ cnt is_tombstone bs = cnt is_tombstone bs'.
Proof.
  induction 1 as [|b c bs bs' Hs _ [IH1 IH2]]; [done|]. rewrite !cnt_cons, IH1, IH2.
  by destruct (same_bucket_kind b c Hs) as (-> & _ & ->).
Qed.
Lemma same_content_denote bs bs' k : same_content bs bs' -> denote_array bs k = denote_array bs' k.
Proof.
  induction 1 as [|b c bs bs' Hs _ IH]; [done|]. rewrite !denote_array_cons, IH.
  destruct (same_bucket_kind b c Hs) as (<- & _ & _), Hs as [<- Hv].
  destruct (is_live b); [|done]. by rewrite Hv.
Qed.
Lemma same_content_lookup bs bs' (i : nat) c : same_content bs bs' -> bs' !! i = Some c ->
  exists b, bs !! i = Some b /\ same_bucket b c.
Proof. intros Hs Hi. eapply Forall2_lookup_r in Hs as (b & ? & ?); [by exists b|done]. Qed.
Lemma same_content_array_ok N bs bs' : same_content bs bs' -> array_ok T N bs -> array_ok T N bs'.
Proof.
  intros Hs [Hp Hl Hu Hr]. split; [done|by rewrite <- (Forall2_length _ _ _ Hs)| |].
  - intros i j c d Hi Hj HLc HLd E.
    destruct (same_content_lookup _ _ _ _ Hs Hi) as (c' & Hi' & Hc), (same_content_lookup _ _ _ _ Hs Hj) as (d' & Hj' & Hd).
    apply (Hu i j c' d'); try done.
    + by rewrite (proj1 (same_bucket_kind _ _ Hc)).
    + by rewrite (proj1 (same_bucket_kind _ _ Hd)).
    + by destruct Hc as [-> _], Hd as [-> _].
  - intros i c Hi HLc. destruct (same_content_lookup _ _ _ _ Hs Hi) as (c' & Hi' & Hc).
    destruct (Hr i c' Hi') as (j & Hj & E & Hub); [by rewrite (proj1 (same_bucket_kind _ _ Hc))|].
    rewrite (proj1 Hc) in E, Hub. exists j. split_and!; [lia|lia|done|].
    intros j' Hj'. destruct (Hub j' Hj') as (b & Hb' & He). eapply Forall2_lookup_l in Hs as (b' & Hb'' & Hsb); [|done].
    exists b'. split; [done|]. by destruct (same_bucket_kind _ _ Hsb) as (_ & <- & _).
Qed.
Lemma wf_same_content m m' : wf m -> same_content (getBuckets m) (getBuckets m') -> storage_ok (Buckets m') (NumBuckets m') ->
  NumBuckets m' = NumBuckets m -> NumEntries m' = NumEntries m -> NumTombstones m' = NumTombstones m ->
  wf m' /\ forall k, denote m' k = denote m k.
Proof.
  intros [Hao _ He Ht Hl Hr] Hs Hnn HN HE HT. destruct (same_content_cnt _ _ Hs) as [C1 C2]. split.
  - split; try done; rewrite ?HN, ?HE, ?HT, <- ?C1, <- ?C2; try done. by eapply same_content_array_ok.
  - intros k. symmetry. by apply same_content_denote.
Qed.

Lemma copied_same bs bs' : length bs = length bs' ->
  same_content bs' (zip_with (fun old new => (fst new, if is_live new then snd new else snd old)) bs bs').
Proof.
  revert bs'. induction bs as [|b bs IH]; intros [|c bs'] Hl; try discriminate; [constructor|].
  simpl. constructor; [|apply IH; by injection Hl]. split; [done|]. cbn. by intros ->.
Qed.
Lemma same_content_refl bs : same_content bs bs.
Proof. induction bs; by constructor. Qed.
Lemma copyFromBase_ok m other : wf other -> NumBuckets m = NumBuckets other -> storage_ok (Buckets m) (NumBuckets m) ->
  length (getBuckets m) = length (getBuckets other) ->
  exists m', copyFromBase T m other = Ok m' /\ wf m' /\ NumBuckets m' = NumBuckets other /\
    NumEntries m' = NumEntries other /\ forall k, denote m' k = denote other k.
Proof.
  intros Hwf HN Hnn Hl. unfold copyFromBase. rewrite HN, Z.eqb_refl. cbn [rbind rassert].
  destruct (trivially_copyable T); eexists; (split; [reflexivity|]);
    (edestruct (wf_same_content other) as [Hwf' HD']; [done|..|split_and!; [exact Hwf'|done|done|exact HD']]);
    try done; try (by apply storage_store); rewrite length_store by done.
  - apply same_content_refl.
  - by apply copied_same.
Qed.
End Move.
