(* ===== verification/DenseMapOps.v ===== *)
(** * The operations of DenseMapBase, against its derived class

    [DerivedOk] states what [DenseMapBase] needs of the [grow] and
    [shrink_and_clear] of the class derived from it. Against it, the public
    operations refine a partial map from keys to values: no probe is endless,
    no fault is reported, and the invariant is kept. *)

From stdpp Require Import prelude numbers list.
From Stdlib Require Import ZArith Lia Bool.
From S2P Require Import Prelude MathExtras DenseMapInfo DenseMap DenseMapTheory DenseMapMove.

(** The largest table the operations below are proved for: no 32-bit
    computation of theirs wraps up to here. *)
Definition max_buckets : Z := 2 ^ 28.

Class DerivedOk {K V} {St : Storage K V} (T : Template K V) (D : Derived T) : Prop := {
  grow_ok : forall m AtLeast, table_ok T m -> 0 <= AtLeast <= 2 ^ 29 ->
    4 * NumEntries m < 3 * Z.max AtLeast 1 ->
    exists m', grow T m AtLeast = Ok m' /\ wf T m' /\ purged T (denote T m) (denote T m') /\
      NumEntries m' <= NumEntries m /\ AtLeast <= NumBuckets m' /\
      (NumBuckets m = 0 -> MIN_BUCKETS <= NumBuckets m') /\
      (NumBuckets m <= AtLeast -> NumTombstones m' = 0);
  shrink_and_clear_ok : forall m, table_ok T m -> NumBuckets m <= max_buckets ->
    4 * NumEntries m < NumBuckets m \/ NumEntries m = 0 ->
    exists m', shrink_and_clear T m = Ok m' /\ table_ok T m' /\ NumEntries m' = 0 /\
      forall k, denote T m' k = None;
}.

Section Ops.
Context {K V : Type} (T : Template K V) {Hinfo : DenseMapInfoOk (KeyInfo T)}.
Context {St : Storage K V}.
Context {D : Derived T} {HD : DerivedOk T D}.
Implicit Types (m : table K V) (bs : list (K * V)) (b c : K * V) (k : K).
Abbreviation keyeq := (isEqual (KeyInfo T)).
Abbreviation is_live := (is_live T).
Abbreviation is_empty := (is_empty T).
Abbreviation is_tombstone := (is_tombstone T).
Abbreviation wf := (wf T).
Abbreviation table_ok := (table_ok T).
Abbreviation denote := (denote T).

Definition usable m : Prop := table_ok m /\ NumBuckets m <= max_buckets.

(** *** Lookups *)
Lemma null_denote m k : null_table m -> denote m k = None.
Proof. intros (E & _). unfold DenseMapTheory.denote, getBuckets. by rewrite E. Qed.
Lemma null_lookup m k : null_table m -> LookupBucketFor T m k = Ok (false, None).
Proof. intros (_ & _ & _ & E & _). unfold LookupBucketFor. by rewrite E. Qed.

(** [LookupBucketFor] never faults, and finds exactly the keys of the map. *)
Lemma LookupBucketFor_denote m k : table_ok m -> valid_key T k ->
  (exists i l v, LookupBucketFor T m k = Ok (true, Some i) /\ 0 <= i < NumBuckets m /\
     bucket_at m i = Some (l, v) /\ keyeq k l = true /\ is_live (l, v) = true /\ denote m k = Some v) \/
  (exists t, LookupBucketFor T m k = Ok (false, t) /\ denote m k = None /\
     match t with
     | None => null_table m
     | Some i => wf m /\ 0 <= i /\ free_slot T (NumBuckets m) (getBuckets m) k i
     end).
Proof.
  intros [Hn|Hwf] Hk.
  - right. exists None. split; [by apply null_lookup|split; [by apply null_denote|done]].
  - destruct (LookupBucketFor_result T m k Hwf Hk) as [i l v|i Hi].
    + left. by exists i, l, v.
    + right. exists (Some i). by split_and!; [| |done|lia|].
Qed.

Lemma find_denote m k : table_ok m -> valid_key T k ->
  exists i, find T m k = Ok i /\
    match denote m k with
    | Some v => 0 <= i < NumBuckets m /\ exists l, bucket_at m i = Some (l, v) /\ keyeq k l = true
    | None => i = end_ m
    end.
Proof.
  intros Hok Hk. unfold find.
  destruct (LookupBucketFor_denote m k Hok Hk) as [(i & l & v & -> & Hi & Hb & He & _ & ->)|(t & -> & -> & _)];
    cbn [rbind].
  - exists i. split; [done|split; [done|by exists l]].
  - by exists (end_ m).
Qed.
Lemma lookup_denote m k : table_ok m -> valid_key T k ->
  lookup T m k = Ok (default (default_value T) (denote m k)).
Proof.
  intros Hok Hk. unfold lookup.
  destruct (LookupBucketFor_denote m k Hok Hk) as [(i & l & v & -> & _ & Hb & _ & _ & ->)|(t & -> & -> & _)];
    cbn [rbind]; [by rewrite Hb|done].
Qed.
Lemma count_denote m k : table_ok m -> valid_key T k ->
  count T m k = Ok (Zb (bool_decide (is_Some (denote m k)))).
Proof.
  intros Hok Hk. unfold count.
  destruct (LookupBucketFor_denote m k Hok Hk) as [(i & l & v & -> & _ & _ & _ & _ & ->)|(t & -> & -> & _)]; done.
Qed.

(** *** Insertion *)
Lemma table_counts m : table_ok m -> 0 <= NumEntries m /\ 0 <= NumTombstones m /\ 0 <= NumBuckets m <= 2 ^ 30 /\
  (NumBuckets m = 0 /\ NumEntries m = 0 /\ NumTombstones m = 0 /\ null_table m \/
   0 < NumBuckets m /\ 4 * NumEntries m < 3 * NumBuckets m /\ NumEntries m + NumTombstones m < NumBuckets m /\ wf m).
Proof.
  intros [Hn|Hwf].
  - pose proof Hn as (_ & -> & -> & -> & _). split_and!; try lia. left. by split_and!.
  - pose proof (wf_bounds T m Hwf). split_and!; try lia. right. split_and!; (done || lia).
Qed.

(** A table with room for one more entry in the slot a lookup returned. *)
Record has_slot m k (i : Z) : Prop := {
  hs_wf : wf m;
  hs_nonneg : 0 <= i;
  hs_free : free_slot T (NumBuckets m) (getBuckets m) k i;
  hs_absent : denote m k = None;
  hs_load : 4 * (NumEntries m + 1) < 3 * NumBuckets m;
  hs_room : NumEntries m + 1 + NumTombstones m < NumBuckets m;
}.

(** The resizing step of [InsertIntoBucketImpl]. *)
Definition make_room m (Lookup : K) (TheBucket : option Z) : res (table K V * option Z) :=
  let NewNumEntries := u32 (NumEntries m + 1) in
  if u32 (NewNumEntries * 4) >=? u32 (NumBuckets m * 3) then
    let? m := grow T m (u32 (NumBuckets m * 2)) in
    let? (_, TheBucket) := LookupBucketFor T m Lookup in Ok (m, TheBucket)
  else if u32 (NumBuckets m - u32 (NewNumEntries + NumTombstones m)) <=? NumBuckets m / 8 then
    let? m := grow T m (NumBuckets m) in
    let? (_, TheBucket) := LookupBucketFor T m Lookup in Ok (m, TheBucket)
  else Ok (m, TheBucket).

Lemma grown_slot m k AtLeast : usable m -> valid_key T k -> denote m k = None ->
  NumBuckets m <= AtLeast <= 2 ^ 29 -> 4 * (NumEntries m + 1) < 3 * Z.max AtLeast 2 \/ NumBuckets m = 0 ->
  4 * NumEntries m < 3 * Z.max AtLeast 1 -> AtLeast <> 1 ->
  exists m' i, (let? m := grow T m AtLeast in let? (_, TheBucket) := LookupBucketFor T m k in Ok (m, TheBucket))
    = Ok (m', Some i) /\ has_slot m' k i /\ purged T (denote m) (denote m').
Proof.
  intros [Hok HN] Hk Hnone HA Hload Hload1 H1. pose proof (table_counts m Hok) as Hc.
  destruct (grow_ok m AtLeast Hok) as (m' & -> & Hwf' & Hp & He' & HA' & Hz & Ht'); [lia|done|]. cbn [rbind].
  pose proof (purged_None T _ _ k (Hp k) Hnone) as Hnone'. pose proof (wf_bounds T m' Hwf') as Hb'.
  destruct (LookupBucketFor_result T m' k Hwf' Hk) as [i l v|i Hi Hfree _]; [congruence|]. cbn [rbind].
  specialize (Ht' ltac:(lia)). unfold MIN_BUCKETS in Hz.
  exists m', i. split_and!; try done. split; try (done || lia).
Qed.
Lemma make_room_ok m k t : usable m -> valid_key T k -> denote m k = None ->
  match t with
  | None => null_table m
  | Some i => wf m /\ 0 <= i /\ free_slot T (NumBuckets m) (getBuckets m) k i
  end ->
  exists m' i, make_room m k t = Ok (m', Some i) /\ has_slot m' k i /\ purged T (denote m) (denote m').
Proof.
  intros Hu Hk Hnone Ht. pose proof Hu as [Hok HN]. unfold max_buckets in HN.
  pose proof (table_counts m Hok) as Hc. unfold make_room.
  rewrite !(wrap_small 32) by (rewrite ?(wrap_small 32) by lia; lia).
  destruct (Z.geb_spec ((NumEntries m + 1) * 4) (NumBuckets m * 3)).
  { apply grown_slot; try done; lia. }
  destruct Hc as (He & HT & HB & [Hn|(Hpos & Hl & Hr & Hwf)]); [lia|].
  rewrite (wrap_small 32 (NumEntries m + 1 + NumTombstones m)), (wrap_small 32) by lia.
  destruct (Z.leb_spec (NumBuckets m - (NumEntries m + 1 + NumTombstones m)) (NumBuckets m / 8)).
  { apply grown_slot; try done; lia. }
  destruct t as [i|]; [|destruct Ht as (_ & _ & _ & ?); lia]. destruct Ht as (_ & Hi & Hfree).
  pose proof (Z.div_pos (NumBuckets m) 8 ltac:(lia) ltac:(lia)).
  exists m, i. split_and!; [done| |apply purged_refl]. split; (done || lia).
Qed.

Lemma purged_placed f g (h : K -> option V) k v : purged T f g -> placed T g h k v -> placed T f h k v.
Proof. intros Hp [Hn Ho]. split; [done|]. intros k' E. eapply purged_at_trans; [apply Hp|by apply Ho]. Qed.

(** [k] maps to [v] in [m'], stored in bucket [i]; other keys keep their values
    unless these were purgeable. *)
Record inserted m k v m' (i : Z) : Prop := {
  in_wf : wf m';
  in_nonneg : 0 <= i;
  in_bucket : bucket_at m' i = Some (k, v);
  in_map : placed T (denote m) (denote m') k v;
}.
(** The store of the entry, once the counters are right. *)
Lemma store_entry_ok m m1 k v i c : has_slot m k i -> valid_key T k ->
  getBuckets m !! Z.to_nat i = Some c ->
  getBuckets m1 = getBuckets m -> storage_ok (Buckets m1) (NumBuckets m1) -> NumBuckets m1 = NumBuckets m ->
  NumEntries m1 = NumEntries m - Zb (is_live c) + 1 -> NumTombstones m1 = NumTombstones m - Zb (is_tombstone c) ->
  inserted m k v (store_buckets m1 (<[Z.to_nat i := (k, v)]> (getBuckets m1))) i.
Proof.
  intros [Hwf Hi Hfree Hnone Hl Hr] Hk Hc HB Hnn HN HE HT.
  destruct (place_ok T m k v i) as [Hao Hpl]; try done.
  set (m' := store_buckets _ _).
  assert (HB' : getBuckets m' = <[Z.to_nat i := (k, v)]> (getBuckets m)).
  { unfold m'. rewrite HB. by apply length_store. }
  assert (HL : is_live (k, v) = true) by by apply valid_live.
  assert (Ht0 : is_tombstone (k, v) = false) by by apply is_live_spec in HL as [_ ?].
  assert (0 <= Zb (is_live c) /\ 0 <= Zb (is_tombstone c)) by (by destruct (is_live c), (is_tombstone c)).
  split.
  - eapply (wf_overwrite T m m' (Z.to_nat i) (k, v) c); try done; cbn.
    + by apply storage_store.
    + rewrite HL. cbn. lia.
    + rewrite Ht0. cbn. lia.
    + lia.
    + lia.
  - done.
  - unfold bucket_at. rewrite HB'. by eapply lookup_overwritten.
  - unfold DenseMapTheory.denote. by rewrite HB'.
Qed.
Lemma tombstones_pos m (i : nat) c : wf m -> getBuckets m !! i = Some c -> is_tombstone c = true -> 0 < NumTombstones m.
Proof.
  intros Hwf Hc Et. rewrite (wf_tombstones _ _ Hwf). pose proof (cnt_nonneg is_tombstone (getBuckets m)).
  destruct (decide (cnt is_tombstone (getBuckets m) = 0)) as [E|]; [|lia].
  eapply cnt_zero, Forall_lookup in E; [|done]. congruence.
Qed.
(** The accounting step of [InsertIntoBucketImpl]. *)
Lemma fill_slot m k v i : has_slot m k i -> valid_key T k ->
  exists m1, (match bucket_at m i with
    | None => Fault HashTableCorrupted
    | Some b =>
      if is_empty b then Ok (incrementNumEntries m, i)
      else if is_tombstone b then Ok (decrementNumTombstones (incrementNumEntries m), i)
      else assert? (isPurgeable T (snd b)) in Ok (m, i)
    end) = Ok (m1, i) /\ inserted m k v (store_buckets m1 (<[Z.to_nat i := (k, v)]> (getBuckets m1))) i.
Proof.
  intros Hs Hk. pose proof Hs as [Hwf Hi Hfree Hnone Hl Hr]. pose proof (wf_bounds T m Hwf) as Hb.
  pose proof Hfree as (c & _ & Hc & Hpurge). unfold bucket_at. rewrite Hc.
  assert (Hlt : is_live c = negb (is_empty c) && negb (is_tombstone c)) by done.
  pose proof (tombstones_pos m _ c Hwf Hc) as Hpos. pose proof (tombstone_not_empty T c) as Hte.
  assert (Hinc : u32 (NumEntries m + 1) = NumEntries m + 1) by (apply wrap_small; lia).
  pose proof (wf_alloc _ _ Hwf).
  destruct (is_empty c) eqn:Ee; [|destruct (is_tombstone c) eqn:Et].
  - eexists. split; [done|]. eapply store_entry_ok; try done; rewrite ?Hlt; cbn -[Z.add Z.sub]; [lia|].
    destruct (is_tombstone c); [by discriminate Hte|]. cbn. lia.
  - eexists. split; [done|]. eapply store_entry_ok; try done; rewrite ?Hlt, ?Et; cbn -[Z.add Z.sub]; [lia|].
    apply wrap_small. specialize (Hpos eq_refl). lia.
  - rewrite Hpurge by done. eexists. split; [done|].
    eapply store_entry_ok; try done; rewrite ?Hlt, ?Et; cbn -[Z.add Z.sub]; lia.
Qed.

Lemma InsertIntoBucket_ok m k v t : usable m -> valid_key T k -> denote m k = None ->
  match t with
  | None => null_table m
  | Some i => wf m /\ 0 <= i /\ free_slot T (NumBuckets m) (getBuckets m) k i
  end ->
  exists m' i, InsertIntoBucket T m t k v = Ok (m', i) /\ inserted m k v m' i.
Proof.
  intros Hu Hk Hnone Ht. destruct (make_room_ok m k t Hu Hk Hnone Ht) as (g & i & Hroom & Hslot & Hp).
  destruct (fill_slot g k v i Hslot Hk) as (m1 & Hfill & [Hwf' Hi' Hb' Hpl]).
  unfold InsertIntoBucket, InsertIntoBucketImpl. cbv zeta. fold (make_room m k t). rewrite Hroom. cbn [rbind].
  rewrite Hfill. cbn [rbind]. eexists _, i. split; [done|].
  split; [done|done|done|]. by eapply purged_placed.
Qed.

(** [try_emplace]: an existing key keeps its value and its bucket, a new one is
    inserted. *)
Lemma try_emplace_ok m k v : usable m -> valid_key T k ->
  exists m' i fresh, try_emplace T m k v = Ok (m', i, fresh) /\
    match denote m k with
    | Some w => fresh = false /\ m' = m /\ exists l, bucket_at m i = Some (l, w) /\ keyeq k l = true
    | None => fresh = true /\ inserted m k v m' i
    end.
Proof.
  intros Hu Hk. unfold try_emplace.
  destruct (LookupBucketFor_denote m k) as [(i & l & w & -> & Hi & Hb & He & _ & ->)|(t & -> & Hnone & Ht)];
    [apply Hu|done| |]; cbn [rbind].
  - exists m, i, false. split; [done|]. split; [done|]. split; [done|]. by exists l.
  - destruct (InsertIntoBucket_ok m k v t Hu Hk Hnone Ht) as (m' & i & E & Hin). rewrite Hnone.
    destruct t; rewrite E; by exists m', i, true.
Qed.

(** *** Values in place *)
Lemma insert_keeps_ok m k v : usable m -> valid_key T k ->
  table_ok (match insert T m (k, v) with Ok (m', _, _) => m' | Fault _ => m end).
Proof.
  intros Hu Hk. destruct (try_emplace_ok m k v Hu Hk) as (m1 & i1 & f1 & E1 & H).
  unfold insert. cbn [fst snd]. rewrite E1.
  destruct (denote m k); [destruct H as (_ & -> & _); apply Hu|right; apply H].
Qed.
Lemma alter_as_insert {A} (h : A -> A) (l : list A) (i : nat) x :
  l !! i = Some x -> alter h i l = <[i := h x]> l.
Proof. revert i. induction l as [|y l IH]; intros [|i] E; try discriminate; [by injection E as ->|]. cbn. f_equal. by apply IH. Qed.
Lemma set_value_ok m i l w v : wf m -> 0 <= i -> bucket_at m i = Some (l, w) -> is_live (l, w) = true ->
  let m' := store_buckets m (alter (fun b => (fst b, v)) (Z.to_nat i) (getBuckets m)) in
  wf m' /\ bucket_at m' i = Some (l, v) /\ forall k, denote m' k = if keyeq l k then Some v else denote m k.
Proof.
  intros Hwf Hi Hb HL m'. pose proof (wf_bounds T m Hwf). unfold bucket_at in *.
  assert (HB : getBuckets m' = <[Z.to_nat i := (l, v)]> (getBuckets m)).
  { unfold m'. rewrite (alter_as_insert _ _ _ _ Hb). apply length_store, Hwf. }
  assert (HLv : is_live (l, v) = true) by by apply live_valid, (live_valid T (l, w)).
  pose proof (wf_array _ _ Hwf) as Hao.
  assert (Hao' : array_ok T (NumBuckets m) (<[Z.to_nat i := (l, v)]> (getBuckets m))).
  { eapply array_ok_overwrite; try done; [by apply is_live_spec in HLv as [? _]|]. intros _. split.
    - by eapply (ao_reach _ _ _ Hao _ (l, w)).
    - intros j d Hne Hd HLd. cbn [fst]. destruct (keyeq l (fst d)) eqn:E; [|done].
      destruct Hne. symmetry. by apply (ao_unique _ _ _ Hao (Z.to_nat i) j (l, w) d). }
  assert (Ht : is_tombstone (l, v) = is_tombstone (l, w)) by done.
  split_and!.
  - eapply (wf_overwrite T m m' _ (l, v) (l, w)); try done; cbn; rewrite ?HL, ?HLv, ?Ht; try lia.
    by apply storage_store, Hwf.
  - rewrite HB. by eapply lookup_overwritten.
  - intros k. unfold DenseMapTheory.denote. rewrite HB. erewrite denote_insert by done. cbn [fst].
    rewrite HL, (keyeq_sym T k l). by destruct (keyeq l k).
Qed.
Lemma live_slot m i b : wf m -> bucket_at m i = Some b -> is_live b = true -> denote m (fst b) = Some (snd b).
Proof.
  intros Hwf Hb HL. unfold DenseMapTheory.denote. rewrite (denote_Some T (NumBuckets m)) by apply (wf_array _ _ Hwf).
  destruct b as [l v]. eexists _, l. split; [exact Hb|]. split; [done|]. by apply keyeq_refl.
Qed.

(** Bucket [i] holds the entry of [k]. *)
Definition entry_at m k (i : Z) (v : V) : Prop :=
  0 <= i /\ exists l, bucket_at m i = Some (l, v) /\ keyeq k l = true /\ is_live (l, v) = true.
Lemma entry_denote m k i v : wf m -> entry_at m k i v -> denote m k = Some v.
Proof.
  intros Hwf (_ & l & Hb & He & HL). transitivity (denote m l); [by apply denote_proper|].
  exact (live_slot m i (l, v) Hwf Hb HL).
Qed.
Lemma entry_store m k i w v : wf m -> entry_at m k i w ->
  let m' := store_buckets m (alter (fun b => (fst b, v)) (Z.to_nat i) (getBuckets m)) in
  wf m' /\ entry_at m' k i v /\ forall k', denote m' k' = if keyeq k k' then Some v else denote m k'.
Proof.
  intros Hwf (Hi & l & Hb & He & HL) m'. destruct (set_value_ok m i l w v Hwf Hi Hb HL) as (Hwf' & Hb' & Hd).
  split; [done|]. split.
  - split; [done|]. by exists l.
  - intros k'. unfold m'. by rewrite Hd, (keyeq_rewrite T _ _ _ He).
Qed.
Lemma table_wf m i b : table_ok m -> bucket_at m i = Some b -> wf m.
Proof.
  intros [(E & _)|Hwf] Hb; [|done]. unfold bucket_at, getBuckets in Hb. rewrite E in Hb. by destruct (Z.to_nat i).
Qed.
Lemma LookupBucketFor_entry m k : table_ok m -> valid_key T k ->
  (exists i v, LookupBucketFor T m k = Ok (true, Some i) /\ wf m /\ entry_at m k i v /\ denote m k = Some v) \/
  (exists t, LookupBucketFor T m k = Ok (false, t) /\ denote m k = None /\
     match t with
     | None => null_table m
     | Some i => wf m /\ 0 <= i /\ free_slot T (NumBuckets m) (getBuckets m) k i
     end).
Proof.
  intros Hok Hk.
  destruct (LookupBucketFor_denote m k Hok Hk) as [(i & l & v & E & Hi & Hb & He & HL & Hd)|?]; [left|by right].
  exists i, v. split; [done|]. split; [by eapply table_wf|]. split; [split; [lia|by exists l]|done].
Qed.
(** [m[k]], as a reference to the value of a bucket. *)
Lemma FindAndConstruct_ok m k : usable m -> valid_key T k ->
  exists m' i, FindAndConstruct T m k = Ok (m', i) /\ wf m' /\
    entry_at m' k i (default (default_value T) (denote m k)) /\
    forall k', keyeq k k' = false -> purged_at T (denote m) (denote m') k'.
Proof.
  intros Hu Hk. unfold FindAndConstruct.
  destruct (LookupBucketFor_entry m k) as [(i & v & -> & Hwf & He & ->)|(t & -> & Hnone & Ht)];
    [apply Hu|done| |]; cbn [rbind].
  - exists m, i. split_and!; try done. by left.
  - destruct (InsertIntoBucket_ok m k (default_value T) t Hu Hk Hnone Ht) as (m' & i & E & [Hwf' Hi Hb' [Hn Ho]]).
    exists m', i. rewrite Hnone. split; [by destruct t|]. split; [done|]. split; [|done].
    split; [done|]. exists k. split_and!; [done|by apply keyeq_refl|by apply valid_live].
Qed.
Lemma FindAndConstruct_same m k v : table_ok m -> valid_key T k -> denote m k = Some v ->
  exists i, FindAndConstruct T m k = Ok (m, i) /\ entry_at m k i v.
Proof.
  intros Hm Hk Hd. unfold FindAndConstruct.
  destruct (LookupBucketFor_entry m k Hm Hk) as [(i & w & -> & Hwf & He & E)|(t & -> & Hnone & Ht)]; [|congruence].
  rewrite Hd in E. injection E as ->. by exists i.
Qed.
Lemma index_assign_ok m k v : usable m -> valid_key T k ->
  exists m', index_assign T m k v = Ok m' /\ wf m' /\ placed T (denote m) (denote m') k v.
Proof.
  intros Hu Hk. unfold index_assign. destruct (FindAndConstruct_ok m k Hu Hk) as (m1 & i & -> & Hwf & He & Ho).
  destruct (entry_store m1 k i _ v Hwf He) as (Hwf' & _ & Hd). cbn [rbind]. eexists. split; [done|]. split; [done|].
  split; intros k' E; unfold purged_at; rewrite Hd, E; [done|by apply Ho].
Qed.
(** [try_emplace], with the entry it returns. *)
Lemma try_emplace_entry m k v : usable m -> valid_key T k ->
  exists m' i fresh, try_emplace T m k v = Ok (m', i, fresh) /\ wf m' /\
    match denote m k with
    | Some w => fresh = false /\ m' = m /\ entry_at m k i w
    | None => fresh = true /\ entry_at m' k i v /\
        forall k', keyeq k k' = false -> purged_at T (denote m) (denote m') k'
    end.
Proof.
  intros Hu Hk. unfold try_emplace.
  destruct (LookupBucketFor_entry m k) as [(i & w & -> & Hwf & He & ->)|(t & -> & Hnone & Ht)];
    [apply Hu|done| |]; cbn [rbind].
  - exists m, i, false. by split_and!.
  - destruct (InsertIntoBucket_ok m k v t Hu Hk Hnone Ht) as (m' & i & E & [Hwf' Hi Hb' [Hn Ho]]). rewrite Hnone.
    exists m', i, true. split; [by destruct t; rewrite E|]. split; [done|]. split; [done|]. split; [|done].
    split; [done|]. exists k. split_and!; [done|by apply keyeq_refl|by apply valid_live].
Qed.
Lemma find_entry m k : table_ok m -> valid_key T k ->
  (exists i v, find T m k = Ok i /\ wf m /\ entry_at m k i v /\ denote m k = Some v /\ (i =? end_ m) = false) \/
  (find T m k = Ok (end_ m) /\ denote m k = None).
Proof.
  intros Hok Hk. unfold find.
  destruct (LookupBucketFor_denote m k Hok Hk) as [(i & l & v & -> & Hi & Hb & He & HL & ->)|(t & -> & -> & _)];
    cbn [rbind]; [left|by right].
  exists i, v. split; [done|]. split; [by eapply table_wf|]. split; [split; [lia|by exists l]|].
  split; [done|]. apply Z.eqb_neq. unfold end_. lia.
Qed.

(** *** Erasure and compaction *)
Lemma no_entries m k : wf m -> NumEntries m = 0 -> denote m k = None.
Proof.
  intros Hwf E. rewrite (wf_entries _ _ Hwf) in E. apply denote_None. intros i b Hi HL.
  eapply cnt_zero, Forall_lookup in E; [|done]. congruence.
Qed.
Lemma compact_ok m : wf m -> NumBuckets m <= max_buckets ->
  exists m', compact T m = Ok m' /\ table_ok m' /\ purged T (denote m) (denote m').
Proof.
  intros Hwf HN. unfold max_buckets in HN. pose proof (wf_bounds T m Hwf) as Hb. unfold compact.
  destruct (Z.eqb_spec (NumEntries m) 0) as [E|E].
  { destruct (shrink_and_clear_ok m) as (m' & -> & Hok & _ & Hd); [by right|done|by right|].
    exists m'. split_and!; try done. intros k. left. by rewrite Hd, no_entries. }
  destruct (Z.gtb_spec (NumBuckets m / 16) (NumEntries m)) as [Hs|Hs]; cbn [andb].
  2:{ exists m. split_and!; [done|by right|apply purged_refl]. }
  destruct (Z.gtb_spec (NumBuckets m) MIN_COMPACT); cbn [andb].
  2:{ exists m. split_and!; [done|by right|apply purged_refl]. }
  rewrite wrap_small by lia.
  destruct (grow_ok m (NumEntries m * 2)) as (m' & -> & Hwf' & Hp & _); [by right|lia|lia|].
  exists m'. split_and!; try done. by right.
Qed.
Lemma erase_iterator_ok m i b : wf m -> NumBuckets m <= max_buckets -> bucket_at m i = Some b ->
  is_live b = true -> exists m', erase_iterator T m i = Ok m' /\ table_ok m' /\
    (forall k, keyeq k (fst b) = true -> denote m' k = None) /\
    (forall k, keyeq k (fst b) = false -> purged_at T (denote m) (denote m') k).
Proof.
  intros Hwf HN Hb HL. pose proof (wf_bounds T m Hwf). unfold max_buckets, bucket_at in *. unfold erase_iterator.
  rewrite (alter_as_insert _ _ _ _ Hb).
  set (m1 := incrementNumTombstones _). set (b' := (getTombstoneKey T, snd b)) in *.
  destruct (tombstone_key_dead T (snd b)) as [Hd He]. fold b' in Hd, He.
  assert (HB : getBuckets m1 = <[Z.to_nat i := b']> (getBuckets m)) by apply length_store, Hwf.
  pose proof (wf_array _ _ Hwf) as Hao.
  assert (Hao' : array_ok T (NumBuckets m) (<[Z.to_nat i := b']> (getBuckets m))).
  { eapply array_ok_overwrite; try done. by rewrite Hd. }
  assert (Hpos : 0 < NumEntries m).
  { rewrite (wf_entries _ _ Hwf). pose proof (cnt_nonneg is_live (getBuckets m)).
    destruct (decide (cnt is_live (getBuckets m) = 0)) as [E|]; [|lia].
    eapply cnt_zero, Forall_lookup in E; [|exact Hb]. congruence. }
  assert (Hdm : forall k, denote m1 k = if keyeq k (fst b) then None else denote m k).
  { intros k. unfold DenseMapTheory.denote. rewrite HB. erewrite denote_kill by done. by rewrite HL. }
  assert (Hb'' := HL). apply is_live_spec in Hb'' as [_ Hbt].
  assert (Hwf1 : wf m1).
  { eapply (wf_overwrite T m m1 _ b' b); try done; cbn; rewrite ?Hd, ?HL, ?Hbt, ?(wrap_small 32) by lia.
    - by apply storage_store, Hwf.
    - cbn. lia.
    - unfold b'. rewrite tombstone_key_tombstone by done. cbn. lia.
    - lia.
    - lia. }
  destruct (compact_ok m1 Hwf1 HN) as (m' & E & Hok' & Hp). exists m'. split_and!; try done; intros k Ek.
  - apply (purged_None T (denote m1)); [apply Hp|]. by rewrite Hdm, Ek.
  - specialize (Hp k). unfold purged_at in *. rewrite Hdm, Ek in Hp. done.
Qed.
Lemma erase_ok m k : usable m -> valid_key T k ->
  exists m', erase T m k = Ok (m', bool_decide (is_Some (denote m k))) /\ table_ok m' /\
    (forall k', keyeq k k' = true -> denote m' k' = None) /\
    (forall k', keyeq k k' = false -> purged_at T (denote m) (denote m') k').
Proof.
  intros [Hok HN] Hk. unfold erase.
  destruct (LookupBucketFor_denote m k Hok Hk) as [(i & l & w & -> & Hi & Hb & He & HL & ->)|(t & -> & Hnone & Ht)];
    cbn [rbind].
  - assert (Hwf : wf m) by (destruct Hok as [(_ & _ & _ & ?)|?]; [lia|done]).
    destruct (erase_iterator_ok m i (l, w) Hwf HN Hb HL) as (m' & -> & Hok' & Hin & Hout). cbn [rbind fst] in *.
    exists m'. split; [done|]. split; [done|].
    split; intros k' E; [apply Hin|apply Hout]; by rewrite (keyeq_sym T k' l), <- (keyeq_rewrite T _ _ _ He).
  - exists m. rewrite Hnone. split; [by destruct t|]. split; [done|]. split.
    + intros k' E. unfold DenseMapTheory.denote. rewrite <- (denote_proper T _ k k') by done. done.
    + by left.
Qed.

(** *** clear and reserve *)
Lemma clear_loop_ok bs n : cnt is_live bs <= n < 2 ^ 32 ->
  clear_loop T bs n = (map (fun b => if is_empty b then b else (getEmptyKey T, snd b)) bs, n - cnt is_live bs).
Proof.
  revert n. induction bs as [|b bs IH]; intros n Hn; [change (cnt is_live []) with 0; cbn; f_equal; lia|].
  rewrite cnt_cons in *. pose proof (cnt_nonneg is_live bs). cbn [clear_loop map].
  assert (HL : is_live b = negb (is_empty b) && negb (is_tombstone b)) by done. rewrite HL in *. clear HL.
  destruct (is_empty b) eqn:He; cbn [negb andb Zb] in *; [rewrite IH by lia; f_equal; lia|].
  destruct (is_tombstone b); cbn [negb Zb] in *.
  - rewrite IH by lia. f_equal; lia.
  - rewrite wrap_small by lia. rewrite IH by lia. f_equal; lia.
Qed.
Lemma cleared_empty bs :
  Forall (fun b => is_empty b = true) (map (fun b => if is_empty b then b else (getEmptyKey T, snd b)) bs).
Proof.
  apply Forall_fmap, Forall_forall. intros b _. cbn. destruct (is_empty b) eqn:E; [done|]. by apply empty_key_empty.
Qed.
Lemma keyed_empty bs : Forall (fun b => is_empty b = true) (map (fun b => (getEmptyKey T, snd b)) bs).
Proof. apply Forall_fmap, Forall_forall. intros b _. by apply empty_key_empty. Qed.
Lemma wf_size m : wf m -> power_of_two_size (NumBuckets m).
Proof. intros Hwf. apply (ao_pow _ _ _ (wf_array _ _ Hwf)). Qed.

Lemma clear_ok m : usable m ->
  exists m', clear T m = Ok m' /\ table_ok m' /\ NumEntries m' = 0 /\ forall k, denote m' k = None.
Proof.
  intros [Hok HN]. unfold max_buckets in HN. unfold clear. pose proof (table_counts m Hok) as (He & Ht & HB & Hc).
  destruct ((NumEntries m =? 0) && (NumTombstones m =? 0)) eqn:E0.
  { apply andb_true_iff in E0 as [?%Z.eqb_eq ?%Z.eqb_eq]. exists m. split; [done|]. split; [done|]. split; [done|].
    intros k. destruct Hok; [by apply null_denote|by apply no_entries]. }
  destruct Hc as [(? & ? & ? & _)|(Hpos & Hl & Hr & Hwf)].
  { by replace (NumEntries m) with 0 in E0; replace (NumTombstones m) with 0 in E0. }
  rewrite wrap_small by lia.
  destruct ((NumEntries m * 4 <? NumBuckets m) && (NumBuckets m >? MIN_BUCKETS)) eqn:E1.
  { apply andb_true_iff in E1 as [?%Z.ltb_lt _]. 
    destruct (shrink_and_clear_ok m Hok HN) as (m' & E & Hok' & HE' & Hd); [left; lia|]. by exists m'. }
  assert (Hgen : forall bs, length bs = length (getBuckets m) -> Forall (fun b => is_empty b = true) bs ->
    let m' := setNumTombstones (setNumEntries (store_buckets m bs) 0) 0 in
    table_ok m' /\ NumEntries m' = 0 /\ forall k, denote m' k = None).
  { intros bs Hlen Hemp m'. assert (HB' : getBuckets m' = bs) by apply length_store, Hwf.
    destruct (empty_fresh T m' (NumBuckets m)) as [Hwf' _ HE' _ Hd]; try done.
    - by apply wf_size.
    - apply storage_store, Hwf.
    - rewrite HB', Hlen. apply (ao_length _ _ _ (wf_array _ _ Hwf)).
    - by rewrite HB'.
    - split; [by right|done]. }
  destruct (trivially_copyable T); cbn [rbind].
  - eexists. split; [done|]. apply Hgen; [by rewrite length_map|apply keyed_empty].
  - rewrite clear_loop_ok by (rewrite <- (wf_entries _ _ Hwf); lia).
    rewrite <- (wf_entries _ _ Hwf), Z.sub_diag. cbn [rbind rassert Z.eqb].
    eexists. split; [done|]. apply Hgen; [by rewrite length_map|apply cleared_empty].
Qed.

Lemma min_buckets_spec n : 0 < n <= 2 ^ 27 ->
  4 * n < 3 * getMinBucketToReserveForEntries n /\ 0 < getMinBucketToReserveForEntries n <= 2 ^ 29 /\
  power_of_two_size (getMinBucketToReserveForEntries n).
Proof.
  intros Hn. unfold getMinBucketToReserveForEntries. destruct (Z.eqb_spec n 0); [lia|].
  rewrite (wrap_small 32 (n * 4)) by lia.
  assert (Hq : 4 * n < 3 * (n * 4 / 3 + 1) /\ n * 4 / 3 + 1 < 2 ^ 28 /\ 1 < n * 4 / 3 + 1) by dlia.
  set (x := n * 4 / 3 + 1) in *. rewrite (wrap_small 32 x), NextPowerOf2_32_pos by lia.
  destruct (Z.log2_spec x) as [Hlo Hhi]; [lia|]. rewrite <- Z.add_1_r in Hhi.
  assert (0 <= Z.log2 x < 28) by (split; [apply Z.log2_nonneg|apply Z.log2_lt_pow2; lia]).
  pose proof (Z.pow_le_mono_r 2 (Z.log2 x + 1) 28 ltac:(lia) ltac:(lia)).
  rewrite wrap_small by lia. split_and!; try lia. exists (Z.log2 x + 1). split; [lia|done].
Qed.
Lemma reserve_ok m n : usable m -> 0 <= n <= 2 ^ 27 ->
  exists m', reserve T m n = Ok m' /\ table_ok m' /\ purged T (denote m) (denote m') /\
    (0 < n -> 4 * n < 3 * NumBuckets m').
Proof.
  intros [Hok HN] Hn. pose proof (table_counts m Hok) as Hc. unfold reserve, max_buckets in *.
  destruct (decide (n = 0)) as [->|].
  { exists m. change (getMinBucketToReserveForEntries 0) with 0. destruct (Z.gtb_spec 0 (NumBuckets m)); [lia|].
    split; [done|]. split; [done|]. split; [apply purged_refl|lia]. }
  destruct (min_buckets_spec n) as (Hgt & Hb & _); [lia|].
  destruct (Z.gtb_spec (getMinBucketToReserveForEntries n) (NumBuckets m)).
  - destruct (grow_ok m (getMinBucketToReserveForEntries n)) as (m' & -> & Hwf' & Hp & _ & HA & _); [done|lia|lia|].
    exists m'. split; [done|]. split; [by right|]. split; [done|lia].
  - exists m. split; [done|]. split; [done|]. split; [apply purged_refl|lia].
Qed.

(** *** Iteration *)
Lemma advance_spec fuel m (p : nat) : (Z.to_nat (NumBuckets m) <= p + fuel)%nat ->
  Z.of_nat (length (getBuckets m)) = NumBuckets m -> (p <= length (getBuckets m))%nat ->
  exists q : nat, AdvancePastEmptyBuckets_loop T fuel m (Z.of_nat p) = Z.of_nat q /\
    (p <= q <= length (getBuckets m))%nat /\
    List.filter is_live (drop p (getBuckets m)) = List.filter is_live (drop q (getBuckets m)) /\
    (forall b, getBuckets m !! q = Some b -> is_live b = true).
Proof.
  revert p. induction fuel as [|fuel IH]; intros p Hf Hlen Hp.
  { exists p. split_and!; try (done || lia). intros b Hb%lookup_lt_Some. lia. }
  cbn [AdvancePastEmptyBuckets_loop]. rewrite Nat2Z.id.
  destruct (getBuckets m !! p) as [b|] eqn:Hb.
  2:{ exists p. split_and!; try (done || lia). congruence. }
  pose proof (lookup_lt_Some _ _ _ Hb). rewrite (drop_S _ b) by done.
  destruct (is_empty b || is_tombstone b) eqn:Hd.
  - destruct (IH (S p)) as (q & E & Hq & Hf' & HL); [lia|done|lia|].
    exists q. rewrite <- E. split; [f_equal; lia|]. split; [lia|]. split; [|done]. rewrite <- Hf'. cbn.
    assert (is_live b = false) as ->; [|done]. unfold DenseMap.is_live. by rewrite <- negb_orb, Hd.
  - exists p. split; [done|]. split; [lia|]. split.
    + by rewrite (drop_S (getBuckets m) b p).
    + intros c Hc. rewrite Hb in Hc. injection Hc as <-. unfold DenseMap.is_live. by rewrite <- negb_orb, Hd.
Qed.
Lemma iterate_loop_spec fuel m (p : nat) : (length (getBuckets m) < p + fuel)%nat ->
  Z.of_nat (length (getBuckets m)) = NumBuckets m -> (p <= length (getBuckets m))%nat ->
  iterate_loop T fuel m (AdvancePastEmptyBuckets T m (Z.of_nat p)) = List.filter is_live (drop p (getBuckets m)).
Proof.
  revert p. induction fuel as [|fuel IH]; intros p Hf Hlen Hp; [lia|].
  unfold AdvancePastEmptyBuckets.
  destruct (advance_spec (Z.to_nat (NumBuckets m - Z.of_nat p)) m p) as (q & -> & Hq & -> & HL); [lia|done|done|].
  cbn [iterate_loop]. unfold end_. destruct (Z.eqb_spec (Z.of_nat q) (NumBuckets m)).
  { by rewrite drop_ge by lia. }
  rewrite Nat2Z.id. destruct (lookup_lt_is_Some_2 (getBuckets m) q) as [b Hb]; [lia|].
  rewrite Hb, (drop_S _ b) by done. cbn [List.filter]. rewrite (HL b Hb). f_equal.
  unfold preincrement. replace (Z.of_nat q + 1) with (Z.of_nat (S q)) by lia. apply IH; lia.
Qed.
(** A [for] loop over a map visits its live buckets, once each. *)
Lemma iterate_live m : table_ok m -> iterate T m = List.filter is_live (getBuckets m).
Proof.
  intros [Hn|Hwf]; unfold iterate, begin_, empty.
  - destruct Hn as (HB & HE & _ & HN & _). rewrite HE. cbn [iterate_loop Z.eqb]. rewrite Z.eqb_refl. unfold getBuckets. by rewrite HB.
  - pose proof (wf_array _ _ Hwf) as Hao. pose proof (ao_length _ _ _ Hao) as Hlen.
    destruct (Z.eqb_spec (NumEntries m) 0) as [E|E].
    + cbn [iterate_loop]. rewrite Z.eqb_refl. rewrite (wf_entries _ _ Hwf) in E. unfold cnt in E.
      destruct (List.filter is_live (getBuckets m)); [done|cbn in E; lia].
    + change 0 with (Z.of_nat 0). rewrite iterate_loop_spec by lia. done.
Qed.

(** *** Equality *)
Definition apart (b c : K * V) : Prop := keyeq (fst b) (fst c) = false.
Lemma live_apart bs : unique T bs -> ForallOrdPairs apart (List.filter is_live bs).
Proof.
  induction bs as [|b bs IH]; [constructor|]. intros Hu. apply unique_cons in Hu as [Hu Hsep]. cbn.
  destruct (is_live b) eqn:E; [|by apply IH]. constructor; [|by apply IH].
  apply List.Forall_forall. intros c [Hc HL]%filter_In. apply list_elem_of_In, list_elem_of_lookup in Hc as [i Hi].
  by eapply Hsep.
Qed.
(** Pairwise different keys all matched in a list: the list is no shorter, and
    when it is no longer, all its keys are matched back. *)
Lemma matched_length l1 l2 : ForallOrdPairs apart l1 ->
  (forall b, In b l1 -> exists c, In c l2 /\ keyeq (fst b) (fst c) = true) ->
  (length l1 <= length l2)%nat /\
  (length l1 = length l2 -> forall c, In c l2 -> exists b, In b l1 /\ keyeq (fst b) (fst c) = true).
Proof.
  intros Hap. revert l2. induction Hap as [|b l1 Hb Hap IH]; intros l2 Hin.
  { cbn. split; [lia|]. intros E c Hc. by destruct l2. }
  destruct (Hin b) as (c & Hc & E); [by left|]. apply in_split in Hc as (x & y & ->).
  destruct (IH (x ++ y)) as [Hlen Hback].
  { intros b' Hb'. destruct (Hin b') as (c' & Hc' & E'); [by right|]. exists c'. split; [|done].
    apply in_elt_inv in Hc' as [<-|Hc']; [|done]. eapply List.Forall_forall in Hb; [|done]. unfold apart in Hb.
    rewrite (keyeq_rewrite T _ _ _ E), (keyeq_sym T), E' in Hb. done. }
  rewrite !length_app in *. cbn [length]. split; [lia|]. intros El c' Hc'.
  apply in_elt_inv in Hc' as [<-|Hc']; [exists b; split; [by left|done]|].
  destruct (Hback ltac:(lia) c' Hc') as (b' & ? & ?). exists b'. split; [by right|done].
Qed.

Lemma table_unique m : table_ok m -> unique T (getBuckets m).
Proof.
  intros [(E & _)|Hwf]; [|exact (ao_unique _ _ _ (wf_array _ _ Hwf))].
  unfold getBuckets. rewrite E. intros i j b c Hi. by destruct i.
Qed.
Lemma denote_live m k v : table_ok m ->
  denote m k = Some v <-> exists l, In (l, v) (List.filter is_live (getBuckets m)) /\ keyeq k l = true.
Proof.
  intros [(E & _)|Hwf].
  { unfold DenseMapTheory.denote, getBuckets. rewrite E. split; [done|]. by intros (l & [] & _). }
  unfold DenseMapTheory.denote. rewrite (denote_Some T (NumBuckets m)) by apply (wf_array _ _ Hwf). split.
  - intros (i & l & Hi & HL & He). exists l. split; [|done]. apply filter_In. split; [|done].
    apply list_elem_of_In. by eapply list_elem_of_lookup_2.
  - intros (l & [Hi HL]%filter_In & He). apply list_elem_of_In, list_elem_of_lookup in Hi as [i Hi]. by exists i, l.
Qed.
Lemma entries_length m : table_ok m -> NumEntries m = Z.of_nat (length (List.filter is_live (getBuckets m))).
Proof.
  intros [(E & -> & _)|Hwf]; [|apply (wf_entries _ _ Hwf)]. unfold getBuckets. by rewrite E.
Qed.

(** One table's keys all in another. *)
Lemma included_counts m m' : table_ok m -> table_ok m' ->
  (forall k v, denote m k = Some v -> is_Some (denote m' k)) ->
  NumEntries m <= NumEntries m' /\
  (NumEntries m = NumEntries m' -> forall k, is_Some (denote m' k) -> is_Some (denote m k)).
Proof.
  intros Hm Hm' Hin. rewrite !entries_length by done.
  destruct (matched_length (List.filter is_live (getBuckets m)) (List.filter is_live (getBuckets m'))) as [Hl Hb].
  - by apply live_apart, table_unique.
  - intros [l v] Hb. destruct (Hin l v) as [w Hw].
    + apply denote_live; [done|]. exists l. split; [done|]. by apply keyeq_refl.
    + apply denote_live in Hw as (l' & ? & ?); [|done]. by exists (l', w).
  - split; [lia|]. intros E k [w Hw]. apply denote_live in Hw as (l & Hc & He); [|done].
    destruct (Hb ltac:(lia) (l, w) Hc) as ([l' v] & Hb' & E'). exists v. apply denote_live; [done|].
    exists l'. split; [done|]. cbn in E'. rewrite (keyeq_sym T) in E'. by eapply keyeq_trans.
Qed.

Lemma all_in_ok veq l m : table_ok m -> (forall v w, veq v w = true <-> v = w) ->
  (forall b, In b l -> is_live b = true) ->
  exists r, all_in T veq l m = Ok r /\ (r = true <-> forall b, In b l -> denote m (fst b) = Some (snd b)).
Proof.
  intros Hok Hveq. induction l as [|b l IH]; intros HL; [by exists true|].
  cbn [all_in]. assert (Hk : valid_key T (fst b)) by (apply live_valid, HL; by left).
  destruct IH as (r & E & Hr); [intros; apply HL; by right|].
  destruct (find_denote m (fst b) Hok Hk) as (i & -> & Hi). cbn [rbind]. unfold end_.
  destruct (denote m (fst b)) as [w|] eqn:Hd.
  - destruct Hi as (Hi & l' & -> & _). rewrite (proj2 (Z.eqb_neq i (NumBuckets m))) by lia. cbn [snd].
    destruct (veq w (snd b)) eqn:Ev; cbn [negb].
    + apply Hveq in Ev. exists r. split; [done|]. rewrite Hr. split.
      * intros H c [<-|Hc]; [congruence|by apply H].
      * intros H c Hc. apply H. by right.
    + exists false. split; [done|]. split; [done|]. intros H. specialize (H b (or_introl eq_refl)).
      assert (w = snd b) as E' by congruence. apply Hveq in E'. congruence.
  - rewrite Hi. unfold end_. rewrite Z.eqb_refl. exists false. split; [done|]. split; [done|].
    intros H. specialize (H b (or_introl eq_refl)). congruence.
Qed.
(** [operator==] decides equality of the maps. *)
Lemma map_eq_ok veq m m' : table_ok m -> table_ok m' -> (forall v w, veq v w = true <-> v = w) ->
  exists r, map_eq T veq m m' = Ok r /\ (r = true <-> forall k, denote m k = denote m' k).
Proof.
  intros Hm Hm' Hveq. unfold map_eq, size. rewrite iterate_live by done.
  destruct (all_in_ok veq (List.filter is_live (getBuckets m)) m' Hm' Hveq) as (r & -> & Hr).
  { intros b [_ ?]%filter_In. done. }
  assert (Hiff : (forall b, In b (List.filter is_live (getBuckets m)) -> denote m' (fst b) = Some (snd b)) <->
    forall k v, denote m k = Some v -> denote m' k = Some v).
  { split.
    - intros H k v (l & Hl & He)%denote_live; [|done]. transitivity (denote m' l); [by apply denote_proper|exact (H _ Hl)].
    - intros H [l v] Hb. apply H, denote_live; [done|]. exists l. split; [done|]. by apply keyeq_refl. }
  destruct (Z.eqb_spec (NumEntries m) (NumEntries m')) as [E|E]; cbn [negb].
  - exists r. split; [done|]. rewrite Hr, Hiff. split; [|by intros H k v; rewrite H]. intros H k.
    destruct (included_counts m m' Hm Hm') as [_ Hback]; [intros ? v ?; exists v; by apply H|].
    destruct (denote m k) as [v|] eqn:Hd; [by rewrite (H k v)|].
    destruct (denote m' k) as [w|] eqn:Hd'; [|done]. destruct (Hback E k) as [? ?]; [by rewrite Hd'|congruence].
  - exists false. split; [done|]. split; [done|]. intros H. destruct E.
    destruct (included_counts m m' Hm Hm') as [? _]; [intros k v; rewrite H; by exists v|].
    destruct (included_counts m' m Hm' Hm) as [? _]; [intros k v; rewrite H; by exists v|]. lia.
Qed.
End Ops.
