(* ===== verification/DenseMapImpl.v ===== *)
(** * class DenseMap keeps the promise, and the properties of its operations

    The [grow] and [shrink_and_clear] of [DenseMap] satisfy [DerivedOk]; with
    the theorems of DenseMapOps.v this gives the correctness of the public
    operations of a [DenseMap], stated on the map a table denotes. *)

From stdpp Require Import prelude numbers list.
From Stdlib Require Import ZArith Lia Bool.
From S2P Require Import Prelude MathExtras ObjcOS DenseMapInfo DenseMap DenseMapTheory DenseMapMove DenseMapOps.
Import MathExtras.MathExtras DenseMap.DenseMap.

(** A [DenseMap] has an allocated block of buckets, or none. *)
#[export] #[refine] Instance DenseMap_storage {K V} : Storage K V := {
  storage_ok p _ := p <> Null;
  allows_null := True;
}.
Proof.
  - done.
  - intros m bs. unfold store_buckets. by destruct (Buckets m).
Defined.

Section Impl.
Context {K V : Type} (T : Template K V) {Hinfo : DenseMapInfoOk (KeyInfo T)}.
Implicit Types (m : table K V) (bs : list (K * V)) (k : K).
Abbreviation wf := (wf T).
Abbreviation table_ok := (table_ok T).
Abbreviation denote := (denote T).

Lemma grow_size AtLeast : 0 <= AtLeast <= 2 ^ 29 ->
  let N := Z.max MIN_BUCKETS (NextPowerOf2_32 (u32 (AtLeast - 1))) in
  power_of_two_size N /\ AtLeast <= N /\ MIN_BUCKETS <= N <= 2 ^ 30.
Proof.
  intros HA. unfold MIN_BUCKETS. cbv zeta.
  destruct (decide (AtLeast = 0)) as [->|]; [split; [by exists 2|by vm_compute]|].
  destruct (decide (AtLeast = 1)) as [->|]; [split; [by exists 2|by vm_compute]|].
  rewrite (wrap_small 32 (AtLeast - 1)), NextPowerOf2_32_pos by lia.
  destruct (Z.log2_spec (AtLeast - 1)) as [Hlo Hhi]; [lia|]. rewrite <- Z.add_1_r in Hhi.
  assert (0 <= Z.log2 (AtLeast - 1) < 29) by (split; [apply Z.log2_nonneg|apply Z.log2_lt_pow2; lia]).
  pose proof (Z.pow_le_mono_r 2 (Z.log2 (AtLeast - 1) + 1) 29 ltac:(lia) ltac:(lia)).
  rewrite wrap_small by lia.
  split; [|lia]. destruct (Z.max_spec 4 (2 ^ (Z.log2 (AtLeast - 1) + 1))) as [[_ ->]|[_ ->]];
    [exists (Z.log2 (AtLeast - 1) + 1)|exists 2]; (split; [lia|done]).
Qed.
Lemma allocateBuckets_pos m N : 0 < N ->
  allocateBuckets T m N = (Table (Heap (fresh_array T N)) (NumEntries m) (NumTombstones m) N, true).
Proof. intros. unfold allocateBuckets. by rewrite (proj2 (Z.eqb_neq N 0)) by lia. Qed.
Lemma allocated_initEmpty e t N : power_of_two_size N ->
  exists m', initEmpty T (Table (Heap (fresh_array T N)) e t N) = Ok m' /\ fresh_table T m' N.
Proof.
  intros Hp. apply initEmpty_ok; try done. apply (fresh_array_length T).
  destruct Hp as (p & ? & ->). pose proof (pow2_pos p). cbn. lia.
Qed.

Lemma DenseMap_grow_ok m AtLeast : table_ok m -> 0 <= AtLeast <= 2 ^ 29 ->
  4 * NumEntries m < 3 * Z.max AtLeast 1 ->
  exists m', grow T m AtLeast = Ok m' /\ wf m' /\ purged T (denote m) (denote m') /\
    NumEntries m' <= NumEntries m /\ AtLeast <= NumBuckets m' /\
    (NumBuckets m = 0 -> MIN_BUCKETS <= NumBuckets m') /\
    (NumBuckets m <= AtLeast -> NumTombstones m' = 0).
Proof.
  intros Hok HA Hload. unfold grow.
  destruct (grow_size AtLeast HA) as (Hp & HAN & HN). unfold MIN_BUCKETS in *.
  set (N := Z.max 4 _) in *.
  rewrite allocateBuckets_pos by lia.
  assert (Hcase : Buckets m = Null \/ Buckets m <> Null) by (destruct (Buckets m); [by left|by right..]).
  destruct Hcase as [E|Hnn].
  - rewrite E. destruct (allocated_initEmpty (NumEntries m) (NumTombstones m) N Hp) as (m' & -> & [Hwf HN' HE HT HD]).
    assert (Hn : null_table m) by (destruct Hok as [?|Hwf']; [done|by destruct (wf_alloc _ _ Hwf' E)]).
    pose proof Hn as (_ & HE0 & _). exists m'. split_and!; try (done || lia).
    intros k. left. rewrite HD. symmetry. by apply (null_denote T m).
  - destruct (moveFromOldBuckets_ok T (Table (Heap (fresh_array T N)) (NumEntries m) (NumTombstones m) N) (getBuckets m))
      as (m' & E & [Hwf HT _] & HN' & HE & HD); try done.
    + cbn. apply (fresh_array_length T). lia.
    + apply (table_unique T m Hok).
    + pose proof (kept_le_live T (getBuckets m)). rewrite (entries_length T m Hok) in Hload. unfold cnt in *. cbn. lia.
    + exists m'. pose proof (kept_le_live T (getBuckets m)). cbn [NumBuckets] in HN'. split_and!; try (done || lia).
      * unfold getBuckets, array_of in E. by destruct (Buckets m).
      * intros k. unfold purged_at. rewrite HD. apply (drop_purgeable_purged T (denote m)).
      * rewrite (entries_length T m Hok), HE. done.
Qed.

Lemma init_ok m n : 0 <= n <= 2 ^ 27 ->
  exists m', init T m n = Ok m' /\ table_ok m' /\ NumEntries m' = 0 /\ NumTombstones m' = 0 /\
    NumBuckets m' = getMinBucketToReserveForEntries n /\ forall k, denote m' k = None.
Proof.
  intros Hn. unfold init. destruct (decide (n = 0)) as [->|].
  { change (getMinBucketToReserveForEntries 0) with 0. eexists. split; [reflexivity|].
    split; [by left|]. by split_and!. }
  destruct (min_buckets_spec n) as (_ & HN & Hp); [lia|]. rewrite allocateBuckets_pos by lia.
  destruct (allocated_initEmpty (NumEntries m) (NumTombstones m) _ Hp) as (m' & -> & [Hwf HN' HE HT HD]).
  exists m'. split; [done|]. split; [by right|]. by split_and!.
Qed.
Lemma DenseMap_shrink_ok m : table_ok m -> NumBuckets m <= max_buckets ->
  4 * NumEntries m < NumBuckets m \/ NumEntries m = 0 ->
  exists m', shrink_and_clear T m = Ok m' /\ table_ok m' /\ NumEntries m' = 0 /\ forall k, denote m' k = None.
Proof.
  intros Hok HN Hsmall. unfold shrink_and_clear, max_buckets in *. pose proof (table_counts T m Hok) as (He & _ & Hb & Hc).
  set (New := if nz _ then _ else _).
  assert (HNew : 0 <= New <= 2 ^ 27).
  { unfold New. destruct (nz (NumEntries m)) eqn:E; [|lia]. apply nz_true in E. unfold MIN_BUCKETS.
    rewrite Log2_32_Ceil_correct, Z.shiftl_1_l by lia.
    assert (0 <= Z.log2_up (NumEntries m) <= 26).
    { split; [apply Z.log2_up_nonneg|]. apply Z.log2_up_le_pow2; lia. }
    pose proof (Z.pow_le_mono_r 2 (Z.log2_up (NumEntries m) + 1) 27 ltac:(lia) ltac:(lia)). lia. }
  destruct (Z.eqb_spec New (NumBuckets m)) as [E|E].
  - destruct Hc as [(HN0 & HE0 & HT0 & Hn)|(Hpos & _ & _ & Hwf)].
    + unfold initEmpty. cbn [NumBuckets setNumTombstones setNumEntries]. rewrite HN0. cbn [rbind rassert Z.land Z.eqb].
      eexists. split; [reflexivity|]. assert (Hn' : null_table (store_buckets (setNumTombstones (setNumEntries m 0) 0)
        (map (fun b => (getEmptyKey T, snd b)) (getBuckets (setNumTombstones (setNumEntries m 0) 0))))).
      { destruct Hn as (HB & _). unfold null_table. cbn. rewrite HB, HN0. done. }
      split; [by left|]. split; [done|]. intros k. apply (null_denote T _ _ Hn').
    + destruct (initEmpty_ok T m) as (m' & -> & [Hwf' _ HE' _ HD']).
      * apply (wf_size T m Hwf).
      * apply (ao_length _ _ _ (wf_array _ _ Hwf)).
      * apply (wf_alloc _ _ Hwf).
      * exists m'. split; [done|]. split; [by right|done].
  - destruct (init_ok m New HNew) as (m' & -> & Hok' & HE' & _ & _ & HD'). by exists m'.
Qed.
#[export] Instance DenseMap_ok : DerivedOk T (DenseMap_derived T).
Proof. split; [exact DenseMap_grow_ok|exact DenseMap_shrink_ok]. Qed.

(** ** Copies and moves *)
Lemma copyFrom_ok m other : table_ok other ->
  exists m', copyFrom T m other = Ok m' /\ table_ok m' /\ NumEntries m' = NumEntries other /\
    forall k, denote m' k = denote other k.
Proof.
  intros [Hn|Hwf]; unfold copyFrom.
  - pose proof Hn as (HB & HE & HT & HN & _). rewrite HN. eexists. split; [reflexivity|]. rewrite HE.
    split; [by left|]. split; [done|]. intros k. by rewrite (null_denote T other).
  - pose proof (wf_bounds T other Hwf) as Hb. rewrite allocateBuckets_pos by lia.
    destruct (copyFromBase_ok T (Table (Heap (fresh_array T (NumBuckets other))) (NumEntries m) (NumTombstones m)
      (NumBuckets other)) other) as (m' & -> & Hwf' & _ & HE & HD); try done.
    + cbn. pose proof (ao_length _ _ _ (wf_array _ _ Hwf)). pose proof (fresh_array_length T (NumBuckets other) ltac:(lia)). lia.
    + exists m'. split; [done|]. split; [by right|done].
Qed.
End Impl.

(** ** A concrete map

    Unsigned keys, zero values purgeable, as in the table of reference counts. *)
Import DenseMapInfos.
Definition sample_template : Template Z Z := {|
  KeyInfo := UnsignedInfo;
  isPurgeable v := v =? 0;
  trivially_copyable := true;
  uninit n := (7, 0);
  default_value := 0;
|}.
Definition garbage_table : table Z Z := Table Null 11 12 13.
Definition null_sample : table Z Z := Table Null 0 0 0.
Definition insert_sample (m : table Z Z) (kv : Z * Z) : table Z Z :=
  match insert sample_template m (fst kv, snd kv) with Ok (m', _, _) => m' | Fault _ => m end.
Definition sample : table Z Z := insert_sample (insert_sample (insert_sample null_sample (1, 10)) (65, 0)) (2, 20).

Section Properties.
Context {K V : Type} (T : Template K V) {Hinfo : DenseMapInfoOk (KeyInfo T)}.
Implicit Types (m : table K V) (k : K) (v : V).
Abbreviation keyeq := (isEqual (KeyInfo T)).

(** C21: lookups. On a well-formed map of up to 2^28 buckets, [find], [count] and
    [lookup] of any key that is not a sentinel terminate without reporting a
    corrupted table, and answer as the map the table denotes: [find] gives the
    bucket holding the key, or [end()]; [lookup] the value, or [ValueT()]. *)
Theorem DenseMap_lookup_correct m k : usable T m -> valid_key T k ->
  lookup T m k = Ok (default (default_value T) (denote T m k)) /\
  count T m k = Ok (Zb (bool_decide (is_Some (denote T m k)))) /\
  exists i, find T m k = Ok i /\
    match denote T m k with
    | Some v => 0 <= i < NumBuckets m /\ exists l, bucket_at m i = Some (l, v) /\ keyeq k l = true
    | None => i = end_ m
    end.
Proof.
  intros [Hok _] Hk. split; [by apply (lookup_denote T)|]. split; [by apply (count_denote T)|by apply (find_denote T)].
Qed.

(** C20: insertion. [insert] of a new key stores it, growing or rehashing the
    table when it is too full, and returns its bucket; every other key keeps its
    value, except that entries with purgeable values may be dropped. Inserting a
    key already present changes nothing and returns false. [m[k] = v] maps [k] to
    [v] whether or not it was present, and keeps the other entries likewise. *)
Theorem DenseMap_insert_correct m k v : usable T m -> valid_key T k ->
  (exists m' i fresh, insert T m (k, v) = Ok (m', i, fresh) /\ table_ok T m' /\
    match denote T m k with
    | Some w => fresh = false /\ m' = m /\ exists l, bucket_at m i = Some (l, w) /\ keyeq k l = true
    | None => fresh = true /\ bucket_at m' i = Some (k, v) /\
        (forall k', keyeq k k' = true -> denote T m' k' = Some v) /\
        (forall k', keyeq k k' = false -> purged_at T (denote T m) (denote T m') k')
    end) /\
  (exists m', index_assign T m k v = Ok m' /\ table_ok T m' /\
    (forall k', keyeq k k' = true -> denote T m' k' = Some v) /\
    (forall k', keyeq k k' = false -> purged_at T (denote T m) (denote T m') k')).
Proof.
  intros Hu Hk. split.
  - destruct (try_emplace_ok T m k v Hu Hk) as (m' & i & fresh & E & H).
    exists m', i, fresh. split; [exact E|].
    destruct (denote T m k); [destruct H as (-> & -> & H)|destruct H as (-> & [Hwf _ Hb [Hn Ho]])].
    + split; [apply Hu|done].
    + split; [by right|done].
  - destruct (index_assign_ok T m k v Hu Hk) as (m' & E & Hwf & [Hn Ho]).
    exists m'. split; [done|]. split; [by right|done].
Qed.

(** C22: [erase] removes the key and reports whether it was present; the
    compaction it triggers keeps every other entry that may not be purged. *)
Theorem DenseMap_erase_correct m k : usable T m -> valid_key T k ->
  exists m', erase T m k = Ok (m', bool_decide (is_Some (denote T m k))) /\ table_ok T m' /\
    (forall k', keyeq k k' = true -> denote T m' k' = None) /\
    (forall k', keyeq k k' = false -> purged_at T (denote T m) (denote T m') k').
Proof. apply erase_ok; apply _. Qed.

(** Resizing. [grow], [reserve] and [compact] keep the map but for
    purgeable values, [grow] leaves no tombstone when it does not shrink and at
    least the buckets asked for, [reserve n] leaves room for [n] entries below
    the load limit; [clear] empties the map. *)
Lemma resize_ok m n : usable T m -> 0 <= n <= 2 ^ 27 ->
  (4 * NumEntries m < 3 * n -> exists m', DenseMap.grow T m n = Ok m' /\ table_ok T m' /\
     purged T (denote T m) (denote T m') /\ n <= NumBuckets m' /\ (NumBuckets m <= n -> NumTombstones m' = 0)) /\
  (exists m', reserve T m n = Ok m' /\ table_ok T m' /\ purged T (denote T m) (denote T m') /\
     (0 < n -> 4 * n < 3 * NumBuckets m')) /\
  (wf T m -> exists m', compact T m = Ok m' /\ table_ok T m' /\ purged T (denote T m) (denote T m')) /\
  (exists m', clear T m = Ok m' /\ table_ok T m' /\ forall k, denote T m' k = None).
Proof.
  intros Hu Hn. split_and!.
  - intros Hl. destruct (DenseMap_grow_ok T m n) as (m' & E & Hwf & Hp & _ & HA & _ & Ht); [apply Hu|lia|lia|].
    exists m'. split; [done|]. split; [by right|]. by split_and!.
  - by apply reserve_ok; [apply _|..].
  - intros Hwf. apply compact_ok; [apply _|done|apply Hu].
  - destruct (clear_ok T m Hu) as (m' & E & Hok & _ & Hd). by exists m'.
Qed.

(** Construction. A new map is empty and well formed and has room for the
    entries reserved; a copy denotes the map of its source, also when values are
    copied one by one; moving hands the table over and leaves an empty map. *)
Lemma construct_ok garbage m n : table_ok T m -> 0 <= n <= 2 ^ 27 ->
  (exists m', make T garbage n = Ok m' /\ table_ok T m' /\ (forall k, denote T m' k = None) /\
     (0 < n -> 4 * n < 3 * NumBuckets m')) /\
  (exists m', copy_construct T garbage m = Ok m' /\ table_ok T m' /\ forall k, denote T m' k = denote T m k) /\
  (exists e, move_construct T garbage m = Ok (m, e) /\ table_ok T e /\ forall k, denote T e k = None) /\
  (exists e, move_assign T garbage m = Ok (m, e) /\ table_ok T e /\ forall k, denote T e k = None).
Proof.
  intros Hok Hn. unfold make, copy_construct, move_construct, move_assign.
  destruct (init_ok T garbage 0) as (m0 & -> & Hok0 & _ & _ & _ & Hd0); [lia|]. cbn [rbind]. split_and!.
  - destruct (init_ok T garbage n Hn) as (m' & -> & Hok' & _ & _ & HN & Hd). exists m'. split_and!; try done.
    intros. rewrite HN. by apply min_buckets_spec; lia.
  - destruct (copyFrom_ok T m0 m Hok) as (m' & -> & Hok' & _ & Hd). by exists m'.
  - by exists m0.
  - by exists m0.
Qed.
(** C23: construction and resizing. A new map is empty and well formed and has
    room for the entries reserved; a copy denotes the map of its source, also when
    values are copied one by one; moving hands the table over and leaves an empty
    map. [grow], [reserve] and [compact] keep the map but for purgeable values,
    [grow] leaves no tombstone when it does not shrink and at least the buckets
    asked for, [reserve n] leaves room for [n] entries below the load limit; [clear]
    empties the map. *)
Theorem DenseMap_resize_correct garbage m n : usable T m -> 0 <= n <= 2 ^ 27 ->
  (4 * NumEntries m < 3 * n -> exists m', DenseMap.grow T m n = Ok m' /\ table_ok T m' /\
     purged T (denote T m) (denote T m') /\ n <= NumBuckets m' /\ (NumBuckets m <= n -> NumTombstones m' = 0)) /\
  (exists m', reserve T m n = Ok m' /\ table_ok T m' /\ purged T (denote T m) (denote T m') /\
     (0 < n -> 4 * n < 3 * NumBuckets m')) /\
  (wf T m -> exists m', compact T m = Ok m' /\ table_ok T m' /\ purged T (denote T m) (denote T m')) /\
  (exists m', clear T m = Ok m' /\ table_ok T m' /\ forall k, denote T m' k = None) /\
  (exists m', make T garbage n = Ok m' /\ table_ok T m' /\ (forall k, denote T m' k = None) /\
     (0 < n -> 4 * n < 3 * NumBuckets m')) /\
  (exists m', copy_construct T garbage m = Ok m' /\ table_ok T m' /\ forall k, denote T m' k = denote T m k) /\
  (exists e, move_construct T garbage m = Ok (m, e) /\ table_ok T e /\ forall k, denote T e k = None) /\
  (exists e, move_assign T garbage m = Ok (m, e) /\ table_ok T e /\ forall k, denote T e k = None).
Proof.
  intros Hu Hn. destruct (resize_ok m n Hu Hn) as (H1 & H2 & H3 & H4). do 4 (split; [done|]).
  apply construct_ok; [apply Hu|done].
Qed.

(** C24: iteration and equality. A [for] loop from [begin()] to [end()] visits
    [size()] buckets with pairwise different keys, and these are exactly the
    entries of the map. [operator==] holds exactly when the two tables denote the
    same map, whatever their layouts, when values are compared by a true
    equality. *)
Theorem DenseMap_iterate_correct m : table_ok T m ->
  Z.of_nat (length (iterate T m)) = size m /\ ForallOrdPairs (apart T) (iterate T m) /\
  (forall k v, denote T m k = Some v <-> exists l, In (l, v) (iterate T m) /\ keyeq k l = true) /\
  forall value_eq m', table_ok T m' -> (forall v w, value_eq v w = true <-> v = w) ->
    exists r, map_eq T value_eq m m' = Ok r /\ (r = true <-> forall k, denote T m k = denote T m' k).
Proof.
  intros Hok. rewrite (iterate_live T m Hok). unfold size. rewrite (entries_length T m Hok).
  split; [done|]. split; [by apply (live_apart T), (table_unique T m)|]. split; [intros; by apply (denote_live T)|].
  intros value_eq m' Hok' Hv. by apply (map_eq_ok T).
Qed.

End Properties.

(** ** Witnesses *)
Lemma null_sample_ok : table_ok sample_template null_sample.
Proof. left. by split_and!. Qed.
Lemma insert_sample_ok m kv : table_ok sample_template m -> (NumBuckets m <=? max_buckets) = true ->
  valid_key sample_template (fst kv) -> table_ok sample_template (insert_sample m kv).
Proof. intros Hok Hb%Z.leb_le Hk. apply (insert_keeps_ok sample_template); [by split|done]. Qed.
Lemma sample_ok : usable sample_template sample.
Proof.
  split; [|by vm_compute]. unfold sample.
  do 3 (apply insert_sample_ok; [|by vm_compute|by vm_compute]). apply null_sample_ok.
Qed.
Lemma DenseMap_lookup_correct_witness :
  lookup sample_template sample 2 = Ok 20 /\ count sample_template sample 3 = Ok 0.
Proof.
  split.
  - exact (proj1 (DenseMap_lookup_correct sample_template sample 2 sample_ok ltac:(by vm_compute))).
  - exact (proj1 (proj2 (DenseMap_lookup_correct sample_template sample 3 sample_ok ltac:(by vm_compute)))).
Defined.
Lemma DenseMap_insert_correct_witness : exists m' i, insert sample_template sample (129, 5) = Ok (m', i, true) /\
  table_ok sample_template m'.
Proof.
  destruct (DenseMap_insert_correct sample_template sample 129 5 sample_ok ltac:(by vm_compute))
    as ((m' & i & fresh & E & Hok & H) & _).
  exists m', i. split; [|exact Hok]. replace true with fresh; [exact E|].
  vm_compute (denote _ _ _) in H. exact (proj1 H).
Defined.
Lemma DenseMap_erase_correct_witness : exists m', erase sample_template sample 1 = Ok (m', true) /\
  denote sample_template m' 1 = None.
Proof.
  destruct (DenseMap_erase_correct sample_template sample 1 sample_ok ltac:(by vm_compute)) as (m' & E & _ & H & _).
  exists m'. split; [exact E|]. by apply H.
Defined.
Lemma DenseMap_resize_correct_witness : (exists m', reserve sample_template sample 100 = Ok m' /\
  400 < 3 * NumBuckets m') /\
  exists m', copy_construct sample_template garbage_table sample = Ok m' /\
    forall k, denote sample_template m' k = denote sample_template sample k.
Proof.
  destruct (DenseMap_resize_correct sample_template garbage_table sample 100 sample_ok ltac:(lia))
    as (_ & (m' & E & _ & _ & H) & _ & _ & _ & (m2 & E2 & _ & H2) & _).
  split; [exists m'; split; [exact E|lia]|]. exists m2. split; [exact E2|exact H2].
Defined.
Lemma DenseMap_iterate_correct_witness : Z.of_nat (length (iterate sample_template sample)) = size sample /\
  iterate sample_template sample = [(2, 20); (1, 10)].
Proof.
  split; [|by vm_compute]. apply (DenseMap_iterate_correct sample_template sample). apply sample_ok.
Defined.
