(* ===== verification/SmallDenseMap.v ===== *)
(** * llvm-DenseMap.h: class SmallDenseMap

    A [SmallDenseMap] keeps up to [InlineBuckets] buckets in the object itself
    ([Inline], the bit [Small] set) and moves to an allocated block ([Heap])
    when it needs more. A [table] with an [Inline] array has [InlineBuckets] as
    its [NumBuckets], which is what [getNumBuckets] answers for it.

    The class keeps the promise [DerivedOk] of DenseMapOps.v, so everything
    proved there against that interface holds of it; its own operations are the
    constructors, the copies and [swap]. *)

From stdpp Require Import prelude numbers list.
From Stdlib Require Import ZArith Lia Bool.
From S2P Require Import Prelude MathExtras ObjcOS DenseMapInfo DenseMap DenseMapTheory DenseMapMove DenseMapOps.
Import MathExtras.MathExtras.

Module SmallDenseMap.
Section SmallDenseMap.
Context {K V : Type} (T : Template K V) (InlineBuckets : Z).
Implicit Types (m : table K V) (bs : list (K * V)).

Record LargeRep := { rep_Buckets : list (K * V); rep_NumBuckets : Z }.

Definition Small m : bool := match Buckets m with Inline _ => true | _ => false end.
(** [Small = false], the large representation built in the storage. *)
Definition set_large m (Rep : LargeRep) : table K V :=
  Table (Heap (rep_Buckets Rep)) (NumEntries m) (NumTombstones m) (rep_NumBuckets Rep).
(** [Small = true]: the inline buckets are what the storage holds, garbage when
    it held a large representation. *)
Definition set_small m : table K V :=
  Table (match Buckets m with Inline bs => Inline bs | _ => Inline (fresh_array T InlineBuckets) end)
    (NumEntries m) (NumTombstones m) InlineBuckets.
Definition allocateBuckets (Num : Z) : res LargeRep :=
  assert? (Num >? InlineBuckets) in
  Ok {| rep_Buckets := fresh_array T Num; rep_NumBuckets := Num |}.

Definition init m (InitBuckets : Z) : res (table K V) :=
  let m := set_small m in
  let? m := if InitBuckets >? InlineBuckets
            then let? Rep := allocateBuckets InitBuckets in Ok (set_large m Rep)
            else Ok m in
  initEmpty T m.
(** The constructors; [garbage] is the object before construction. *)
Definition make (garbage : table K V) (NumInitBuckets : Z) : res (table K V) := init garbage NumInitBuckets.
Definition copyFrom m (other : table K V) : res (table K V) :=
  let m := set_small m in
  let? m := if NumBuckets other >? InlineBuckets
            then let? Rep := allocateBuckets (NumBuckets other) in Ok (set_large m Rep)
            else Ok m in
  copyFromBase T m other.
Definition copy_construct (garbage other : table K V) : res (table K V) :=
  let? m := init garbage 0 in copyFrom m other.
(** [operator=(const SmallDenseMap &)]; [same] is [&other == this]. *)
Definition copy_assign (same : bool) m (other : table K V) : res (table K V) :=
  if same then Ok m else copyFrom m other.

(** One round of the loop that swaps two inline arrays: keys are swapped, values
    only as far as there are any. *)
Definition swap_bucket (LHSB RHSB : K * V) : (K * V) * (K * V) :=
  let hasLHSValue := is_live T LHSB in
  let hasRHSValue := is_live T RHSB in
  if hasLHSValue && hasRHSValue then (RHSB, LHSB)
  else
    let '(LHSB', RHSB') := ((fst RHSB, snd LHSB), (fst LHSB, snd RHSB)) in
    if hasLHSValue then (LHSB', (fst RHSB', snd LHSB))
    else if hasRHSValue then ((fst LHSB', snd RHSB), RHSB')
    else (LHSB', RHSB').
Fixpoint swap_inline (l r : list (K * V)) : list (K * V) * list (K * V) :=
  match l, r with
  | LHSB :: l, RHSB :: r =>
    let (LHSB', RHSB') := swap_bucket LHSB RHSB in
    let (l', r') := swap_inline l r in (LHSB' :: l', RHSB' :: r')
  | _, _ => (l, r)
  end.
(** One bucket moved into the storage of the side that was large: the value
    only when there is one. *)
Definition move_inline (NewB OldB : K * V) : K * V :=
  (fst OldB, if is_live T OldB then snd OldB else snd NewB).
(** The storages after a swap: (this, RHS). *)
Definition swap_storage m (RHS : table K V) : buckets K V * Z * (buckets K V * Z) :=
  match Small m, Small RHS with
  | true, true =>
    let (l, r) := swap_inline (getBuckets m) (getBuckets RHS) in
    (Inline l, NumBuckets m, (Inline r, NumBuckets RHS))
  | false, false =>
    (Heap (getBuckets RHS), NumBuckets RHS, (Heap (getBuckets m), NumBuckets m))
  | true, false =>
    (Heap (getBuckets RHS), NumBuckets RHS,
     (Inline (zip_with move_inline (fresh_array T InlineBuckets) (getBuckets m)), InlineBuckets))
  | false, true =>
    (Inline (zip_with move_inline (fresh_array T InlineBuckets) (getBuckets RHS)), InlineBuckets,
     (Heap (getBuckets m), NumBuckets m))
  end.
Definition swap m (RHS : table K V) : table K V * table K V :=
  let '(s, N, (s', N')) := swap_storage m RHS in
  (Table s (NumEntries RHS) (NumTombstones RHS) N, Table s' (NumEntries m) (NumTombstones m) N').
Definition move_construct (garbage other : table K V) : res (table K V * table K V) :=
  let? m := init garbage 0 in Ok (swap m other).
Definition move_assign m (other : table K V) : res (table K V * table K V) :=
  let? m := init m 0 in Ok (swap m other).

(** The live inline buckets, moved to temporary storage in order. *)
Fixpoint move_to_tmp bs (Tmp : list (K * V)) : res (list (K * V)) :=
  match bs with
  | [] => Ok Tmp
  | P :: bs =>
    if is_live T P then
      assert? (Z.of_nat (length Tmp) <? InlineBuckets) in move_to_tmp bs (Tmp ++ [P])
    else move_to_tmp bs Tmp
  end.
Definition grow m (AtLeast : Z) : res (table K V) :=
  let AtLeast := if AtLeast >=? InlineBuckets then Z.max MIN_BUCKETS (NextPowerOf2_32 AtLeast) else AtLeast in
  if Small m then
    if AtLeast <? InlineBuckets then Ok m
    else
      let? Tmp := move_to_tmp (getBuckets m) [] in
      let? Rep := allocateBuckets AtLeast in
      moveFromOldBuckets T (set_large m Rep) Tmp
  else
    let OldRep := {| rep_Buckets := getBuckets m; rep_NumBuckets := NumBuckets m |} in
    let? m := if AtLeast <=? InlineBuckets then Ok (set_small m)
              else let? Rep := allocateBuckets AtLeast in Ok (set_large m Rep) in
    moveFromOldBuckets T m (rep_Buckets OldRep).
Definition shrink_and_clear m : res (table K V) :=
  let OldSize := size m in
  let NewNumBuckets :=
    if nz OldSize then
      let N := u32 (Z.shiftl 1 (Log2_32_Ceil OldSize + 1)) in
      if (N >? InlineBuckets) && (N <? MIN_BUCKETS) then MIN_BUCKETS else N
    else 0 in
  if Small m && (NewNumBuckets <=? InlineBuckets) || negb (Small m) && (NewNumBuckets =? NumBuckets m)
  then initEmpty T m
  else init m NewNumBuckets.

Definition SmallDenseMap_derived : Derived T := Build_Derived _ _ T grow shrink_and_clear.
End SmallDenseMap.
End SmallDenseMap.
Import SmallDenseMap.

(** ** The promise of DenseMapOps.v *)

(** The storages of a [SmallDenseMap]; it always has buckets. *)
#[refine] Definition SmallDenseMap_storage (K V : Type) (InlineBuckets : Z) : Storage K V := {|
  storage_ok p N := match p with
                    | Null => False
                    | Inline _ => N = InlineBuckets
                    | Heap _ => InlineBuckets < N
                    end;
  allows_null := False;
|}.
Proof.
  - by intros [].
  - intros m bs. unfold store_buckets. by destruct (Buckets m).
Defined.

Section Small.
Context {K V : Type} (T : Template K V) {Hinfo : DenseMapInfoOk (KeyInfo T)}.
Context (InlineBuckets : Z) (Hinline : exists p, 0 <= p <= 28 /\ InlineBuckets = 2 ^ p).
Implicit Types (m : table K V) (bs : list (K * V)) (b : K * V) (k : K).
#[local] Instance St : Storage K V := SmallDenseMap_storage K V InlineBuckets.
#[local] Instance D : Derived T := SmallDenseMap_derived T InlineBuckets.
Abbreviation wf := (wf T).
Abbreviation table_ok := (table_ok T).
Abbreviation denote := (denote T).
Abbreviation denote_array := (denote_array T).
Abbreviation is_live := (is_live T).

Lemma inline_bounds : 0 < InlineBuckets <= 2 ^ 28.
Proof.
  destruct Hinline as (p & Hp & ->). pose proof (pow2_pos p ltac:(lia)).
  pose proof (Z.pow_le_mono_r 2 p 28 ltac:(lia) ltac:(lia)). lia.
Qed.
Lemma inline_size : power_of_two_size InlineBuckets.
Proof. destruct Hinline as (p & Hp & ->). exists p. split; [lia|done]. Qed.

Lemma table_ok_wf m : table_ok m <-> wf m.
Proof. split; [intros [(_ & _ & _ & _ & [])|?]; done|by right]. Qed.

(** Which representation a well-formed table has. *)
Lemma wf_small m : wf m -> Small m = true -> exists bs, Buckets m = Inline bs /\ NumBuckets m = InlineBuckets.
Proof.
  intros Hwf. pose proof (wf_alloc _ _ Hwf) as Ha. unfold Small. destruct (Buckets m) as [|bs|bs]; try done.
  intros _. by exists bs.
Qed.
Lemma wf_large m : wf m -> Small m = false -> exists bs, Buckets m = Heap bs /\ InlineBuckets < NumBuckets m.
Proof.
  intros Hwf. pose proof (wf_alloc _ _ Hwf) as Ha. unfold Small. destruct (Buckets m) as [|bs|bs]; try done.
  intros _. by exists bs.
Qed.

(** A table whose storage is ready for [N] buckets. *)
Record ready m (N : Z) : Prop := {
  rd_length : Z.of_nat (length (getBuckets m)) = N;
  rd_buckets : NumBuckets m = N;
  rd_storage : storage_ok (Buckets m) (NumBuckets m);
}.
Lemma set_large_ready m N : InlineBuckets < N -> exists Rep, allocateBuckets T InlineBuckets N = Ok Rep /\
  ready (set_large m Rep) N.
Proof.
  intros HN. pose proof inline_bounds. unfold allocateBuckets.
  destruct (Z.gtb_spec N InlineBuckets); [|lia]. cbn [rbind rassert]. eexists. split; [done|].
  split; [cbn; apply (fresh_array_length T); lia|done|done].
Qed.
(** The inline storage, of a sound object or of one whose fields are garbage. *)
Definition sound_storage m : Prop :=
  match Buckets m with Inline bs => Z.of_nat (length bs) = InlineBuckets | _ => True end.
Lemma set_small_ready m : sound_storage m -> ready (set_small T InlineBuckets m) InlineBuckets.
Proof.
  pose proof inline_bounds. unfold sound_storage, set_small, getBuckets. intros Hs.
  destruct (Buckets m) eqn:E; split; try done; cbn; try done; apply (fresh_array_length T); lia.
Qed.
Lemma wf_sound m : wf m -> sound_storage m.
Proof.
  intros Hwf. pose proof (ao_length _ _ _ (wf_array _ _ Hwf)) as Hl. pose proof (wf_alloc _ _ Hwf) as Ha.
  unfold sound_storage, getBuckets in *. destruct (Buckets m); cbn in *; [done|congruence|done].
Qed.

(** *** init, grow and shrink_and_clear *)
Lemma ready_initEmpty m N : power_of_two_size N -> ready m N ->
  exists m', initEmpty T m = Ok m' /\ fresh_table T m' N.
Proof. intros Hp [Hl HN Hs]. rewrite <- HN in *. by apply (initEmpty_ok T). Qed.
Lemma small_init_ok m n : sound_storage m -> n <= 2 ^ 30 -> (n <= InlineBuckets \/ power_of_two_size n) ->
  exists m', init T InlineBuckets m n = Ok m' /\ fresh_table T m' (Z.max n InlineBuckets).
Proof.
  intros Hs Hn Hp. unfold init. destruct (Z.gtb_spec n InlineBuckets).
  - destruct (set_large_ready (set_small T InlineBuckets m) n) as (Rep & -> & Hr); [lia|]. cbn [rbind].
    rewrite Z.max_l by lia. apply ready_initEmpty; [|done]. destruct Hp; [lia|done].
  - cbn [rbind]. rewrite Z.max_r by lia. apply ready_initEmpty; [apply inline_size|by apply set_small_ready].
Qed.

Lemma move_to_tmp_ok bs Tmp : Z.of_nat (length Tmp + length bs) <= InlineBuckets ->
  move_to_tmp T InlineBuckets bs Tmp = Ok (Tmp ++ List.filter is_live bs).
Proof.
  revert Tmp. induction bs as [|b bs IH]; intros Tmp Hl; cbn [move_to_tmp List.filter length] in *.
  { by rewrite app_nil_r. }
  destruct (is_live b).
  - destruct (Z.ltb_spec (Z.of_nat (length Tmp)) InlineBuckets); [|lia]. cbn [rbind rassert].
    rewrite IH, <- app_assoc; [done|]. rewrite length_app. simpl. lia.
  - apply IH. lia.
Qed.
Lemma filter_denote bs k : denote_array (List.filter is_live bs) k = denote_array bs k.
Proof.
  induction bs as [|b bs IH]; [done|]. cbn [List.filter]. rewrite (denote_array_cons T b bs).
  destruct (is_live b) eqn:E; [|done]. by rewrite (denote_array_cons T b), E, IH.
Qed.
Lemma filter_unique bs : unique T bs -> unique T (List.filter is_live bs).
Proof.
  induction bs as [|b bs IH]; [done|]. intros [Hu Hb]%unique_cons. cbn [List.filter].
  destruct (is_live b) eqn:E; [|by apply IH]. specialize (IH Hu). specialize (Hb eq_refl).
  assert (Hin : forall i c, List.filter is_live bs !! i = Some c -> isEqual (KeyInfo T) (fst b) (fst c) = false).
  { intros i c Hc. apply list_elem_of_lookup_2, list_elem_of_In, filter_In in Hc as [Hc HL].
    apply list_elem_of_In, list_elem_of_lookup in Hc as [j Hj]. by apply (Hb j). }
  intros [|i] [|j] c d Hc Hd HLc HLd Eq; simplify_eq/=; [done|..].
  - by rewrite (Hin j d) in Eq.
  - rewrite (keyeq_sym T) in Eq. by rewrite (Hin i c) in Eq.
  - f_equal. by apply (IH i j c d).
Qed.
Lemma filter_kept bs : cnt (kept T) (List.filter is_live bs) = cnt (kept T) bs.
Proof.
  induction bs as [|b bs IH]; [done|]. cbn [List.filter]. rewrite cnt_cons. unfold kept at 2.
  destruct (is_live b) eqn:E; [|done]. rewrite cnt_cons, IH. unfold kept at 1. by rewrite E.
Qed.

(** The entries of [m] moved into a storage that is ready. *)
Lemma move_entries m m1 N Old : wf m -> ready m1 N -> power_of_two_size N -> unique T Old ->
  cnt (kept T) Old = cnt (kept T) (getBuckets m) -> (forall k, denote_array Old k = denote m k) ->
  4 * NumEntries m < 3 * N ->
  exists m', moveFromOldBuckets T m1 Old = Ok m' /\ wf m' /\ purged T (denote m) (denote m') /\
    NumEntries m' <= NumEntries m /\ NumBuckets m' = N /\ NumTombstones m' = 0.
Proof.
  intros Hwf [Hl HN Hs] Hp Hu Hc Hd Hload. pose proof (wf_entries _ _ Hwf) as He.
  pose proof (kept_le_live T (getBuckets m)) as Hkl.
  destruct (moveFromOldBuckets_ok T m1 Old) as (m' & E & [Hwf' Ht _] & HN' & HE' & HD'); try done.
  - by rewrite HN.
  - congruence.
  - rewrite Hc, HN. lia.
  - exists m'. split; [done|]. split; [done|]. split; [|split_and!; try lia; congruence].
    intros k. unfold purged_at. rewrite HD', Hd. apply (drop_purgeable_purged T (denote m)).
Qed.

Lemma grown_size AtLeast : InlineBuckets <= AtLeast <= 2 ^ 29 ->
  let N := Z.max MIN_BUCKETS (NextPowerOf2_32 AtLeast) in power_of_two_size N /\ AtLeast < N.
Proof.
  intros HA. pose proof inline_bounds. cbv zeta. unfold MIN_BUCKETS. rewrite NextPowerOf2_32_pos by lia.
  destruct (Z.log2_spec AtLeast) as [Hlo Hhi]; [lia|]. rewrite <- Z.add_1_r in Hhi.
  assert (0 <= Z.log2 AtLeast < 30) by (split; [apply Z.log2_nonneg|apply Z.log2_lt_pow2; lia]).
  pose proof (Z.pow_le_mono_r 2 (Z.log2 AtLeast + 1) 30 ltac:(lia) ltac:(lia)).
  rewrite wrap_small by lia. split; [|lia].
  destruct (Z.max_spec 4 (2 ^ (Z.log2 AtLeast + 1))) as [[_ ->]|[_ ->]];
    [exists (Z.log2 AtLeast + 1)|exists 2]; (split; [lia|done]).
Qed.

Lemma SmallDenseMap_grow_ok m AtLeast : table_ok m -> 0 <= AtLeast <= 2 ^ 29 ->
  4 * NumEntries m < 3 * Z.max AtLeast 1 ->
  exists m', grow T InlineBuckets m AtLeast = Ok m' /\ wf m' /\ purged T (denote m) (denote m') /\
    NumEntries m' <= NumEntries m /\ AtLeast <= NumBuckets m' /\
    (NumBuckets m = 0 -> MIN_BUCKETS <= NumBuckets m') /\
    (NumBuckets m <= AtLeast -> NumTombstones m' = 0).
Proof.
  intros Hwf%table_ok_wf HA Hload. pose proof inline_bounds as HI. pose proof (wf_bounds T m Hwf) as Hb.
  pose proof (table_unique T m (or_intror Hwf)) as Hu.
  pose proof (grown_size AtLeast) as Hg. cbv zeta in Hg. unfold grow.
  set (N := if AtLeast >=? InlineBuckets then _ else _).
  assert (HN : AtLeast < InlineBuckets /\ N = AtLeast \/
               InlineBuckets <= AtLeast < N /\ power_of_two_size N).
  { unfold N. destruct (Z.geb_spec AtLeast InlineBuckets); [right|left; split; lia].
    destruct Hg; [lia|]. split; [lia|done]. }
  clearbody N. clear Hg. destruct (Small m) eqn:ES.
  - destruct (wf_small m Hwf ES) as (bs & EB & ENB). destruct (Z.ltb_spec N InlineBuckets).
    { exists m. split; [done|]. split; [done|]. split; [apply purged_refl|]. lia. }
    destruct HN as [|[HN Hp]]; [lia|].
    rewrite move_to_tmp_ok by (pose proof (ao_length _ _ _ (wf_array _ _ Hwf)); simpl; lia). cbn [rbind app].
    destruct (set_large_ready m N) as (Rep & -> & Hr); [lia|]. cbn [rbind].
    destruct (move_entries m (set_large m Rep) N (List.filter is_live (getBuckets m))) as (m' & E & H'); try done.
    + by apply filter_unique.
    + apply filter_kept.
    + intros k. apply filter_denote.
    + lia.
    + exists m'. split; [exact E|]. destruct H' as (? & ? & ? & ? & ?). split_and!; try (done || lia).
  - destruct (wf_large m Hwf ES) as (bs & EB & ENB).
    assert (Hready : exists m1 N1, (if N <=? InlineBuckets then Ok (set_small T InlineBuckets m)
      else let? Rep := allocateBuckets T InlineBuckets N in Ok (set_large m Rep)) = Ok m1 /\ ready m1 N1 /\
      power_of_two_size N1 /\ AtLeast <= N1 /\ 4 * NumEntries m < 3 * N1).
    { destruct (Z.leb_spec N InlineBuckets).
      - exists (set_small T InlineBuckets m), InlineBuckets. split; [done|].
        split; [by apply set_small_ready, wf_sound|]. split; [apply inline_size|]. destruct HN; lia.
      - destruct HN as [|[HN Hp]]; [lia|]. destruct (set_large_ready m N) as (Rep & -> & Hr); [lia|].
        exists (set_large m Rep), N. split; [done|]. split; [done|]. split; [done|]. lia. }
    destruct Hready as (m1 & N1 & -> & Hr & Hp & HA1 & Hl1). cbn [rbind rep_Buckets].
    destruct (move_entries m m1 N1 (getBuckets m)) as (m' & E & H'); try done.
    exists m'. split; [exact E|]. destruct H' as (? & ? & ? & ? & ?). split_and!; try (done || lia).
Qed.

Lemma shrunk_size n : 0 < n <= 2 ^ 26 ->
  power_of_two_size (u32 (Z.shiftl 1 (Log2_32_Ceil n + 1))) /\ u32 (Z.shiftl 1 (Log2_32_Ceil n + 1)) <= 2 ^ 27.
Proof.
  intros Hn. rewrite Log2_32_Ceil_correct, Z.shiftl_1_l by lia.
  assert (0 <= Z.log2_up n <= 26).
  { split; [apply Z.log2_up_nonneg|]. apply Z.log2_up_le_pow2; lia. }
  pose proof (Z.pow_le_mono_r 2 (Z.log2_up n + 1) 27 ltac:(lia) ltac:(lia)).
  rewrite wrap_small by (pose proof (pow2_pos (Z.log2_up n + 1)); lia). split; [|done].
  exists (Z.log2_up n + 1). split; [lia|done].
Qed.
Lemma SmallDenseMap_shrink_ok m : table_ok m -> NumBuckets m <= max_buckets ->
  4 * NumEntries m < NumBuckets m \/ NumEntries m = 0 ->
  exists m', shrink_and_clear T InlineBuckets m = Ok m' /\ table_ok m' /\ NumEntries m' = 0 /\
    forall k, denote m' k = None.
Proof.
  intros Hwf%table_ok_wf HN Hsmall. unfold max_buckets in *. pose proof inline_bounds as HI.
  pose proof (wf_bounds T m Hwf) as Hb. unfold shrink_and_clear, size.
  set (New := if nz _ then _ else _).
  assert (HNew : New <= 2 ^ 27 /\ (New <= InlineBuckets \/ power_of_two_size New)).
  { unfold New. destruct (nz (NumEntries m)) eqn:E; [|lia]. apply nz_true in E.
    destruct (shrunk_size (NumEntries m)) as [Hp Hle]; [lia|]. cbv zeta. unfold MIN_BUCKETS.
    destruct (_ && _); [|by auto]. split; [lia|]. right. by exists 2. }
  clearbody New.
  assert (Hfresh : exists m' N, (if Small m && (New <=? InlineBuckets) || negb (Small m) && (New =? NumBuckets m)
    then initEmpty T m else init T InlineBuckets m New) = Ok m' /\ fresh_table T m' N).
  { destruct (_ || _).
    - destruct (ready_initEmpty m (NumBuckets m)) as (m' & -> & Hf); [by apply (wf_size T m Hwf)| |by exists m', (NumBuckets m)].
      split; [apply (ao_length _ _ _ (wf_array _ _ Hwf))|done|apply (wf_alloc _ _ Hwf)].
    - destruct (small_init_ok m New) as (m' & -> & Hf); [by apply wf_sound|lia|apply HNew|]. by eexists _, _. }
  destruct Hfresh as (m' & N & -> & [Hwf' _ HE _ HD]). exists m'. split; [done|]. by split; [right|].
Qed.
#[local] Instance SmallDenseMap_ok : DerivedOk T D.
Proof. split; [exact SmallDenseMap_grow_ok|exact SmallDenseMap_shrink_ok]. Qed.

(** *** Copies and swaps *)
Lemma small_copyFrom_ok m other : sound_storage m -> wf other ->
  exists m', copyFrom T InlineBuckets m other = Ok m' /\ wf m' /\ NumEntries m' = NumEntries other /\
    forall k, denote m' k = denote other k.
Proof.
  intros Hs Hwf. pose proof (wf_alloc _ _ Hwf) as Ha. pose proof (ao_length _ _ _ (wf_array _ _ Hwf)) as Hl.
  assert (Hready : exists m1, (if NumBuckets other >? InlineBuckets
    then let? Rep := allocateBuckets T InlineBuckets (NumBuckets other) in Ok (set_large (set_small T InlineBuckets m) Rep)
    else Ok (set_small T InlineBuckets m)) = Ok m1 /\ ready m1 (NumBuckets other)).
  { destruct (Z.gtb_spec (NumBuckets other) InlineBuckets).
    - destruct (set_large_ready (set_small T InlineBuckets m) (NumBuckets other)) as (Rep & -> & Hr); [lia|].
      by eexists.
    - eexists. split; [done|]. cbn in Ha. replace (NumBuckets other) with InlineBuckets; [by apply set_small_ready|].
      destruct (Buckets other); [done|done|lia]. }
  unfold copyFrom. destruct Hready as (m1 & -> & [Hl1 HN1 Hs1]). cbn [rbind].
  destruct (copyFromBase_ok T m1 other) as (m' & E & Hwf' & _ & HE & HD); try done; [lia|]. by exists m'.
Qed.

Lemma swap_bucket_same b c :
  same_bucket T c (fst (swap_bucket T b c)) /\ same_bucket T b (snd (swap_bucket T b c)).
Proof.
  unfold swap_bucket, same_bucket. destruct (is_live b) eqn:Eb, (is_live c) eqn:Ec; cbn; split; done.
Qed.
Lemma swap_inline_same l r : length l = length r ->
  same_content T r (fst (swap_inline T l r)) /\ same_content T l (snd (swap_inline T l r)).
Proof.
  revert r. induction l as [|b l IH]; intros [|c r] Hl; try discriminate; [split; constructor|].
  injection Hl as Hl. destruct (IH r Hl) as [IH1 IH2]. destruct (swap_bucket_same b c) as [H1 H2].
  cbn [swap_inline]. destruct (swap_bucket T b c) as [b' c'], (swap_inline T l r) as [l' r'].
  split; by constructor.
Qed.

(** What a table becomes when it gets the contents of [m]. *)
Definition holds_contents_of m m' : Prop :=
  wf m' /\ NumEntries m' = NumEntries m /\ forall k, denote m' k = denote m k.
Lemma same_contents m p N : wf m -> same_content T (getBuckets m) (array_of p) -> storage_ok p N ->
  N = NumBuckets m -> holds_contents_of m (Table p (NumEntries m) (NumTombstones m) N).
Proof.
  intros Hwf Hs Hp HN.
  destruct (wf_same_content T m (Table p (NumEntries m) (NumTombstones m) N)) as [Hwf' HD]; done.
Qed.
Lemma moved_inline m : wf m -> Small m = true ->
  holds_contents_of m (Table (Inline (zip_with (move_inline T) (fresh_array T InlineBuckets) (getBuckets m)))
    (NumEntries m) (NumTombstones m) InlineBuckets).
Proof.
  intros Hwf Hs. pose proof inline_bounds. destruct (wf_small m Hwf Hs) as (bs & _ & HN).
  apply same_contents; try done. cbn [array_of].
  apply (copied_same T). pose proof (ao_length _ _ _ (wf_array _ _ Hwf)).
  pose proof (fresh_array_length T InlineBuckets). lia.
Qed.
Lemma moved_large m : wf m -> Small m = false ->
  holds_contents_of m (Table (Heap (getBuckets m)) (NumEntries m) (NumTombstones m) (NumBuckets m)).
Proof.
  intros Hwf Hs. destruct (wf_large m Hwf Hs) as (bs & _ & HN). apply same_contents; try done.
  apply (same_content_refl T).
Qed.
Lemma swap_ok m RHS : wf m -> wf RHS ->
  holds_contents_of RHS (fst (swap T InlineBuckets m RHS)) /\ holds_contents_of m (snd (swap T InlineBuckets m RHS)).
Proof.
  intros Hm HR. unfold swap, swap_storage. destruct (Small m) eqn:Em, (Small RHS) eqn:ER.
  - destruct (wf_small m Hm Em) as (l & El & Nl). destruct (wf_small RHS HR ER) as (r & Er & Nr).
    pose proof (ao_length _ _ _ (wf_array _ _ Hm)). pose proof (ao_length _ _ _ (wf_array _ _ HR)).
    destruct (swap_inline_same (getBuckets m) (getBuckets RHS)) as [H1 H2]; [lia|].
    destruct (swap_inline T (getBuckets m) (getBuckets RHS)) as [l' r']. cbn [fst snd] in *.
    split; apply same_contents; try done; lia.
  - split; [by apply moved_large|by apply moved_inline].
  - split; [by apply moved_inline|by apply moved_large].
  - split; by apply moved_large.
Qed.
End Small.

(** ** Properties *)
Section Properties.
Context {K V : Type} (T : Template K V) {Hinfo : DenseMapInfoOk (KeyInfo T)}.
Context (InlineBuckets : Z) (Hinline : exists p, 0 <= p <= 28 /\ InlineBuckets = 2 ^ p).
#[local] Instance St' : Storage K V := SmallDenseMap_storage K V InlineBuckets.
#[local] Instance D' : Derived T := SmallDenseMap_derived T InlineBuckets.
#[local] Instance D_ok' : DerivedOk T D' := SmallDenseMap_ok T InlineBuckets Hinline.
Implicit Types (m : table K V) (k : K).
Abbreviation keyeq := (isEqual (KeyInfo T)).

(** C32: the operations of a [SmallDenseMap], whatever its representation. On a sound
    map of up to 2^28 buckets a lookup answers as the map denoted; [insert] of a
    new key and [m[k] = v] store the value, moving the entries out of the object
    when the inline buckets get too full; [erase] removes the key, moving the
    entries back in when few are left; [clear] empties the map. All keep the map
    sound and the other entries, but for purgeable values, and none reports a
    corrupted table. A map constructed with a power of two of buckets (or none) is
    empty; it lives in the object exactly when that many buckets fit. A copy
    denotes the map of its source, also over an existing map; [swap] exchanges the
    two maps in every combination of the two representations, and a move hands the
    map over and leaves an empty one. *)
Theorem SmallDenseMap_correct m : table_ok T m ->
  (NumBuckets m <= max_buckets -> forall k v n, valid_key T k -> 0 <= n <= 2 ^ 27 ->
    lookup T m k = Ok (default (default_value T) (denote T m k)) /\
    (exists m' i, insert T m (k, v) = Ok (m', i, bool_decide (denote T m k = None)) /\ table_ok T m' /\
       (forall k', keyeq k k' = true -> denote T m' k' = Some (default v (denote T m k))) /\
       (forall k', keyeq k k' = false -> purged_at T (denote T m) (denote T m') k')) /\
    (exists m', index_assign T m k v = Ok m' /\ table_ok T m' /\
       (forall k', keyeq k k' = true -> denote T m' k' = Some v) /\
       (forall k', keyeq k k' = false -> purged_at T (denote T m) (denote T m') k')) /\
    (exists m', erase T m k = Ok (m', bool_decide (is_Some (denote T m k))) /\ table_ok T m' /\
       (forall k', keyeq k k' = true -> denote T m' k' = None) /\
       (forall k', keyeq k k' = false -> purged_at T (denote T m) (denote T m') k')) /\
    (exists m', reserve T m n = Ok m' /\ table_ok T m' /\ purged T (denote T m) (denote T m') /\
       (0 < n -> 4 * n < 3 * NumBuckets m')) /\
    (exists m', clear T m = Ok m' /\ table_ok T m' /\ forall k', denote T m' k' = None)) /\
  (forall garbage m1 n, sound_storage InlineBuckets garbage -> table_ok T m1 ->
    n = 0 \/ (exists p, 0 <= p <= 30 /\ n = 2 ^ p) ->
    (exists m', make T InlineBuckets garbage n = Ok m' /\ table_ok T m' /\ (forall k, denote T m' k = None) /\
       Small m' = (n <=? InlineBuckets)) /\
    (exists m', copy_construct T InlineBuckets garbage m = Ok m' /\ holds_contents_of T InlineBuckets m m') /\
    (forall same : bool, (same = true -> m = m1) ->
       exists m', copy_assign T InlineBuckets same m1 m = Ok m' /\ holds_contents_of T InlineBuckets m m') /\
    (holds_contents_of T InlineBuckets m1 (fst (swap T InlineBuckets m m1)) /\
     holds_contents_of T InlineBuckets m (snd (swap T InlineBuckets m m1))) /\
    (exists m' e, move_construct T InlineBuckets garbage m = Ok (m', e) /\ holds_contents_of T InlineBuckets m m' /\
       table_ok T e /\ forall k, denote T e k = None) /\
    (exists m' e, move_assign T InlineBuckets m1 m = Ok (m', e) /\ holds_contents_of T InlineBuckets m m' /\
       table_ok T e /\ forall k, denote T e k = None)).
Proof.
  intros Hok. split.
  - intros HN k v n Hk Hn. assert (Hu : usable T m) by by split.
    split; [by apply (lookup_denote T)|]. split_and!.
    * destruct (try_emplace_ok T m k v Hu Hk) as (m' & i & fresh & E & H). exists m', i. unfold insert. cbn [fst snd].
      rewrite E. destruct (denote T m k) as [w|] eqn:Ed; [destruct H as (-> & -> & _)|destruct H as (-> & [Hwf _ _ [Hn' Ho]])].
      + split; [done|]. split; [done|]. split; [|by left]. intros k' Hk'.  transitivity (denote T m k); [|exact Ed].
        symmetry. by apply (denote_proper T).
      + split; [done|]. split; [by right|]. by split.
    * destruct (index_assign_ok T m k v Hu Hk) as (m' & E & Hwf & [Hn' Ho]). exists m'. split; [done|]. by split; [right|].
    * by apply (erase_ok T).
    * by apply (reserve_ok T).
    * destruct (clear_ok T m Hu) as (m' & E & Hok' & _ & Hd). by exists m'.
  - apply (table_ok_wf T) in Hok as Hm. intros garbage m1 n Hg Hm1%(table_ok_wf T) Hn. pose proof (inline_bounds InlineBuckets Hinline).
    destruct (small_init_ok T InlineBuckets Hinline garbage 0 Hg) as (m0 & E0 & [Hwf0 HN0 HE0 HT0 HD0]); [lia|lia|].
    assert (Hn' : n <= 2 ^ 30 /\ (n <= InlineBuckets \/ power_of_two_size n)).
    { destruct Hn as [->|(p & Hp & ->)]; [lia|]. pose proof (Z.pow_le_mono_r 2 p 30 ltac:(lia) ltac:(lia)).
      split; [done|]. right. by exists p. }
    split.
    { destruct (small_init_ok T InlineBuckets Hinline garbage n Hg) as (m' & E & [Hwf' HN' HE' HT' HD']); [apply Hn'..|].
      exists m'. split; [done|]. split; [by right|]. split; [done|]. pose proof (wf_alloc _ _ Hwf') as Ha.
      unfold Small. cbn in Ha. destruct (Buckets m'), (Z.leb_spec n InlineBuckets); (done || lia). }
    split; [|split; [|split; [|split]]].
    * unfold copy_construct. rewrite E0. cbn [rbind].
      destruct (small_copyFrom_ok T InlineBuckets Hinline m0 m) as (m' & E & H'); [by apply (wf_sound T)|done|]. by exists m'.
    * intros [] Hs; cbn [copy_assign].
      + rewrite <- (Hs eq_refl). by exists m.
      + destruct (small_copyFrom_ok T InlineBuckets Hinline m1 m) as (m' & E & H'); [by apply (wf_sound T)|done|]. by exists m'.
    * by apply (swap_ok T).
    * unfold move_construct. rewrite E0. cbn [rbind].
      destruct (swap_ok T InlineBuckets Hinline m0 m Hwf0 Hm) as [H1 (Hw & HE & HD)].
      destruct (swap T InlineBuckets m0 m) as [m' e] eqn:Es. exists m', e. split; [done|]. split; [done|].
      split; [by right|]. intros k. cbn [snd] in HD. by rewrite HD.
    * unfold move_assign.
      destruct (small_init_ok T InlineBuckets Hinline m1 0) as (m2 & -> & [Hwf2 _ _ _ HD2]); [by apply (wf_sound T)|lia|lia|].
      cbn [rbind]. destruct (swap_ok T InlineBuckets Hinline m2 m Hwf2 Hm) as [H1 (Hw & HE & HD)].
      destruct (swap T InlineBuckets m2 m) as [m' e] eqn:Es. exists m', e. split; [done|]. split; [done|].
      split; [by right|]. intros k. cbn [snd] in HD. by rewrite HD.
Qed.
End Properties.

(** ** Witnesses

    Two inline buckets, unsigned keys, zero values purgeable. *)
Module SmallWitness.
Definition template : Template Z Z := {|
  KeyInfo := DenseMapInfos.UnsignedInfo;
  isPurgeable v := v =? 0;
  trivially_copyable := false;
  uninit n := (7, 0);
  default_value := 0;
|}.
Definition raw : table Z Z := Table Null 11 12 13.
Definition get (r : res (table Z Z)) : table Z Z := match r with Ok m => m | Fault _ => raw end.
#[local] Instance derived : Derived template := SmallDenseMap_derived template 2.
Definition put (m : table Z Z) (k v : Z) : table Z Z :=
  match insert template m (k, v) with Ok (m', _, _) => m' | Fault _ => raw end.
Definition empty_map : table Z Z := get (make template 2 raw 0).
Definition one : table Z Z := put empty_map 1 10.
Definition three : table Z Z := put (put one 2 20) 3 30.

Example moves_out : (Small one, Small three, NumBuckets three) = (true, false, 8).
Proof. by vm_compute. Qed.
Example swaps_both_ways :
  let '(a, b) := swap template 2 one three in (Small a, Small b, denote template a 3, denote template b 1)
  = (false, true, Some 30, Some 10).
Proof. by vm_compute. Qed.

#[local] Instance storage : Storage Z Z := SmallDenseMap_storage Z Z 2.
Lemma two_inline : exists p, 0 <= p <= 28 /\ 2 = 2 ^ p.
Proof. by exists 1. Qed.
#[local] Instance derived_ok : DerivedOk template derived := SmallDenseMap_ok template 2 two_inline.
Lemma empty_map_ok : table_ok template empty_map.
Proof. destruct (small_init_ok template 2 two_inline raw 0) as (m' & E & [Hwf _ _ _ _]); [done|lia|lia|].
  unfold empty_map, make. rewrite E. by right.
Qed.
Lemma put_ok m k v : table_ok template m -> (NumBuckets m <=? max_buckets) = true -> valid_key template k ->
  (if insert template m (k, v) is Ok _ then true else false) = true -> table_ok template (put m k v).
Proof.
  intros Hok Hb%Z.leb_le Hk. pose proof (insert_keeps_ok template m k v (conj Hok Hb) Hk) as H. unfold put.
  by destruct (insert template m (k, v)) as [[[? ?] ?]|].
Qed.
Lemma one_ok : table_ok template one.
Proof. apply put_ok; [apply empty_map_ok|by vm_compute..]. Qed.
Lemma three_ok : table_ok template three.
Proof. unfold three. do 2 (apply put_ok; [|by vm_compute..]). apply one_ok. Qed.

Lemma SmallDenseMap_correct_witness :
  lookup template three 2 = Ok 20 /\ (exists m', erase template three 2 = Ok (m', true) /\ denote template m' 2 = None) /\
  denote template (fst (swap template 2 one three)) 3 = Some 30 /\
  exists m', copy_construct template 2 raw three = Ok m' /\ denote template m' 2 = Some 20.
Proof.
  destruct (SmallDenseMap_correct template 2 two_inline three three_ok) as [Hops Hcons].
  destruct (Hops ltac:(by vm_compute) 2 5 9) as (Hl & _ & _ & He & _); [by vm_compute|lia|].
  destruct (Hcons raw one 0 I one_ok (or_introl eq_refl)) as (_ & (m' & E & _ & _ & HD) & _).
  split; [exact Hl|]. split; [|split; [by vm_compute|]].
  - destruct He as (m'' & E' & _ & Hn & _). exists m''. split; [exact E'|]. by apply Hn.
  - exists m'. split; [exact E|]. rewrite HD. by vm_compute.
Defined.
End SmallWitness.
