(* ===== verification/Isa.v ===== *)
(** * isa.h and isa_t: the bit fields of an object's first word

    A [layout] gives the bit fields of one of the configurations of isa.h;
    [layout_ok] is the list of conditions isa.h states in its comments
    ([extra_rc] is the most significant field, [nonpointer] the least, [RC_ONE]
    is a unit of [extra_rc], ...), checked by evaluation for each. The rest of
    the runtime is proved against any layout that satisfies them. *)

From stdpp Require Import prelude numbers list.
From Stdlib Require Import ZArith Lia Bool Btauto.
From S2P Require Import Prelude ObjcOS.

(** ** Bit fields *)
Record field := Field { offset : Z; width : Z }.
Definition field_mask (f : field) : Z := 2 ^ width f - 1.
Definition get (f : field) (bits : Z) : Z := Z.land (Z.shiftr bits (offset f)) (field_mask f).
(** Assignment truncates the value to the field. *)
Definition set (f : field) (v bits : Z) : Z :=
  Z.lor (Z.ldiff bits (Z.shiftl (field_mask f) (offset f)))
        (Z.shiftl (Z.land v (field_mask f)) (offset f)).
Definition flag (f : field) (bits : Z) : bool := nz (get f bits).
Definition set_flag (f : field) (b : bool) (bits : Z) : Z := set f (Zb b) bits.

Record layout := {
  word : Z;                      (* width of uintptr_t *)
  ISA_MASK : Z;
  ISA_MAGIC_MASK : Z;
  ISA_MAGIC_VALUE : Z;
  RC_ONE : Z;
  RC_HALF : Z;
  f_nonpointer : field;
  f_has_assoc : field;
  f_has_cxx_dtor : option field; (* ISA_HAS_CXX_DTOR_BIT *)
  f_shiftcls : field;            (* shiftcls, shiftcls_and_sig or indexcls *)
  f_weakly_referenced : field;
  f_has_sidetable_rc : field;
  f_extra_rc : field;
  indexed : bool;                (* SUPPORT_INDEXED_ISA *)
}.

(** The four configurations of the header. *)
Definition arm64e_isa : layout := {|
  word := 64;
  ISA_MASK := 0x007ffffffffffff8; ISA_MAGIC_MASK := 0x0000000000000001; ISA_MAGIC_VALUE := 0x0000000000000001;
  RC_ONE := Z.shiftl 1 56; RC_HALF := Z.shiftl 1 7;
  f_nonpointer := Field 0 1; f_has_assoc := Field 1 1; f_weakly_referenced := Field 2 1;
  f_shiftcls := Field 3 52; f_has_sidetable_rc := Field 55 1; f_extra_rc := Field 56 8;
  f_has_cxx_dtor := None; indexed := false;
|}.
Definition arm64_isa : layout := {|
  word := 64;
  ISA_MASK := 0x0000000ffffffff8; ISA_MAGIC_MASK := 0x000003f000000001; ISA_MAGIC_VALUE := 0x000001a000000001;
  RC_ONE := Z.shiftl 1 45; RC_HALF := Z.shiftl 1 18;
  f_nonpointer := Field 0 1; f_has_assoc := Field 1 1; f_has_cxx_dtor := Some (Field 2 1);
  f_shiftcls := Field 3 33; f_weakly_referenced := Field 42 1;
  f_has_sidetable_rc := Field 44 1; f_extra_rc := Field 45 19; indexed := false;
|}.
Definition x86_64_isa : layout := {|
  word := 64;
  ISA_MASK := 0x00007ffffffffff8; ISA_MAGIC_MASK := 0x001f800000000001; ISA_MAGIC_VALUE := 0x001d800000000001;
  RC_ONE := Z.shiftl 1 56; RC_HALF := Z.shiftl 1 7;
  f_nonpointer := Field 0 1; f_has_assoc := Field 1 1; f_has_cxx_dtor := Some (Field 2 1);
  f_shiftcls := Field 3 44; f_weakly_referenced := Field 53 1;
  f_has_sidetable_rc := Field 55 1; f_extra_rc := Field 56 8; indexed := false;
|}.
Definition indexed_isa : layout := {|
  word := 32;
  ISA_MASK := 0x0001FFFC; ISA_MAGIC_MASK := 0x001E0001; ISA_MAGIC_VALUE := 0x001C0001;
  RC_ONE := Z.shiftl 1 25; RC_HALF := Z.shiftl 1 6;
  f_nonpointer := Field 0 1; f_has_assoc := Field 1 1; f_shiftcls := Field 2 15;
  f_has_cxx_dtor := Some (Field 21 1); f_weakly_referenced := Field 22 1;
  f_has_sidetable_rc := Field 24 1; f_extra_rc := Field 25 7; indexed := true;
|}.

(** ** isa_t *)
Section IsaT.
Context (L : layout).

Definition nonpointer (bits : Z) : bool := flag (f_nonpointer L) bits.
Definition has_assoc (bits : Z) : bool := flag (f_has_assoc L) bits.
Definition weakly_referenced (bits : Z) : bool := flag (f_weakly_referenced L) bits.
Definition has_sidetable_rc (bits : Z) : bool := flag (f_has_sidetable_rc L) bits.
Definition extra_rc (bits : Z) : Z := get (f_extra_rc L) bits.
Definition has_cxx_dtor_bit (bits : Z) : bool :=
  match f_has_cxx_dtor L with Some f => flag f bits | None => false end.
(** The assignment is compiled only with [ISA_HAS_CXX_DTOR_BIT]. *)
Definition set_cxx_dtor (b : bool) (bits : Z) : Z :=
  match f_has_cxx_dtor L with Some f => set_flag f b bits | None => bits end.

Definition isDeallocating (bits : Z) : bool := (extra_rc bits =? 0) && negb (has_sidetable_rc bits).
Definition setDeallocating (bits : Z) : Z :=
  set_flag (f_has_sidetable_rc L) false (set (f_extra_rc L) 0 bits).

(** Pointer signing ([ptrauth]): [sign cls obj] is the pointer stored for a
    class, the identity without signing, and [class_mask] strips a stored
    pointer ([ISA_MASK], or [objc_debug_isa_class_mask]). *)
Record signing := { sign : Z -> Z -> Z; class_mask : Z }.
Context (S : signing).

Definition setClass (newCls obj bits : Z) : Z :=
  if indexed L then newCls
  else set (f_shiftcls L) (Z.shiftr (sign S newCls obj) 3) bits.
Definition getClass (bits : Z) : Z := if indexed L then bits else Z.land bits (class_mask S).
(** [objc_indexed_classes] and its count; the bound is an assertion. *)
Record class_table := { indexed_classes : Z -> Z; indexed_classes_count : Z }.
Definition classForIndex (C : class_table) (index : Z) : res Z :=
  assert? (index >? 0) in assert? (index <? indexed_classes_count C) in Ok (indexed_classes C index).
Definition getDecodedClass (C : class_table) (bits : Z) : res Z :=
  if indexed L then
    if nonpointer bits then classForIndex C (get (f_shiftcls L) bits) else Ok bits
  else Ok (getClass bits).
End IsaT.

(** No signing: the simulators, arm64 and x86_64. *)
Definition no_signing (L : layout) : signing := {| sign := fun cls _ => cls; class_mask := ISA_MASK L |}.

(** ** The conditions on a layout *)
Definition disjoint (f g : field) : bool :=
  (offset f + width f <=? offset g) || (offset g + width g <=? offset f).
Fixpoint pairwise_disjoint (l : list field) : bool :=
  match l with [] => true | f :: l => forallb (disjoint f) l && pairwise_disjoint l end.
Definition fields (L : layout) : list field :=
  [f_nonpointer L; f_has_assoc L; f_weakly_referenced L; f_has_sidetable_rc L; f_extra_rc L; f_shiftcls L] ++
  match f_has_cxx_dtor L with Some f => [f] | None => [] end.
Definition field_ok (w : Z) (f : field) : bool :=
  (0 <=? offset f) && (0 <? width f) && (offset f + width f <=? w).
Definition layout_ok (L : layout) : bool :=
  (0 <? word L) && forallb (field_ok (word L)) (fields L) && pairwise_disjoint (fields L) &&
  (* extra_rc is the MSB-most field, nonpointer the LSB *)
  (offset (f_extra_rc L) + width (f_extra_rc L) =? word L) && (1 <? width (f_extra_rc L)) &&
  (offset (f_nonpointer L) =? 0) &&
  forallb (fun f => width f =? 1) [f_nonpointer L; f_has_assoc L; f_weakly_referenced L; f_has_sidetable_rc L] &&
  match f_has_cxx_dtor L with Some f => width f =? 1 | None => true end &&
  (* bits + RC_ONE is equivalent to extra_rc + 1; RC_HALF is the high bit of extra_rc *)
  (RC_ONE L =? 2 ^ offset (f_extra_rc L)) && (RC_HALF L =? 2 ^ (width (f_extra_rc L) - 1)) &&
  (* the class field is where a class pointer has its bits *)
  (indexed L || (offset (f_shiftcls L) =? 3)) &&
  (ISA_MASK L =? Z.shiftl (field_mask (f_shiftcls L)) (offset (f_shiftcls L))) &&
  (* the magic value makes an isa nonpointer and sets no other field *)
  is_word (word L) (ISA_MAGIC_VALUE L) && nonpointer L (ISA_MAGIC_VALUE L) &&
  (Z.land (ISA_MAGIC_VALUE L) (ISA_MAGIC_MASK L) =? ISA_MAGIC_VALUE L) &&
  forallb (fun f => get f (ISA_MAGIC_VALUE L) =? 0) (tail (fields L)).

(** ** Reading and writing bit fields *)
Lemma get_range f bits : 0 <= width f -> 0 <= get f bits < 2 ^ width f.
Proof. intros. unfold get, field_mask. rewrite land_mask by done. by apply wrap_range. Qed.
Lemma get_testbit f bits i : 0 <= offset f -> 0 <= width f -> 0 <= i ->
  Z.testbit (get f bits) i = (i <? width f) && Z.testbit bits (i + offset f).
Proof.
  intros Ho Hw Hi. unfold get, field_mask.
  rewrite Z.land_spec, Z.shiftr_spec, testbit_pow2m1 by done. apply andb_comm.
Qed.
Lemma set_testbit f v bits i : 0 <= offset f -> 0 <= width f -> 0 <= i ->
  Z.testbit (set f v bits) i =
    if (offset f <=? i) && (i <? offset f + width f) then Z.testbit v (i - offset f) else Z.testbit bits i.
Proof.
  intros Ho Hw Hi. unfold set, field_mask.
  rewrite Z.lor_spec, Z.ldiff_spec, !testbit_shiftl by done.
  destruct (Z.leb_spec (offset f) i); cbn [andb].
  - rewrite Z.land_spec, testbit_pow2m1 by lia.
    destruct (Z.ltb_spec (i - offset f) (width f)), (Z.ltb_spec i (offset f + width f)); try lia;
      cbn; rewrite ?andb_false_r, ?andb_true_r, ?orb_false_r; done.
  - cbn. by rewrite andb_true_r, orb_false_r.
Qed.
Lemma get_set f v bits : 0 <= offset f -> 0 <= width f -> get f (set f v bits) = wrap (width f) v.
Proof.
  intros Ho Hw. apply Z.bits_inj'. intros i Hi.
  rewrite get_testbit, testbit_wrap, set_testbit by lia.
  destruct (Z.ltb_spec i (width f)), (Z.leb_spec (offset f) (i + offset f)), (Z.ltb_spec (i + offset f) (offset f + width f));
    try lia; cbn; try done. f_equal. lia.
Qed.
Lemma get_set_other f g v bits : 0 <= offset f -> 0 <= width f -> 0 <= offset g -> 0 <= width g ->
  disjoint f g = true -> get f (set g v bits) = get f bits.
Proof.
  intros ? ? ? ? Hd. apply orb_true_iff in Hd as [Hd|Hd]; apply Z.leb_le in Hd;
    apply Z.bits_inj'; intros i Hi; rewrite !get_testbit, set_testbit by lia;
    destruct (Z.ltb_spec i (width f)), (Z.leb_spec (offset g) (i + offset f)), (Z.ltb_spec (i + offset f) (offset g + width g));
    try lia; done.
Qed.
Lemma in_word_bits w x : 0 <= w -> 0 <= x -> (forall i, w <= i -> Z.testbit x i = false) -> in_word w x.
Proof.
  intros Hw Hx H. split; [done|]. destruct (decide (x = 0)) as [->|]; [by apply pow2_pos|].
  apply Z.log2_lt_pow2; [lia|]. destruct (decide (Z.log2 x < w)); [done|].
  pose proof (Z.bit_log2 x ltac:(lia)) as E. rewrite H in E by lia. done.
Qed.
Lemma set_in_word w f v bits : 0 <= offset f -> 0 <= width f -> offset f + width f <= w ->
  in_word w bits -> in_word w (set f v bits).
Proof.
  intros Ho Hw Hf Hb. unfold in_word in Hb. apply in_word_bits; [lia| |].
  - unfold set. apply Z.lor_nonneg. split; [apply Z.ldiff_nonneg; lia|].
    apply Z.shiftl_nonneg, Z.land_nonneg. right. unfold field_mask. pose proof (pow2_pos (width f)). lia.
  - intros i Hi. rewrite set_testbit by lia. rewrite (testbit_high w bits) by lia.
    by destruct (Z.leb_spec (offset f) i), (Z.ltb_spec i (offset f + width f)); try lia.
Qed.
Lemma set_same f v bits : 0 <= offset f -> 0 <= width f -> get f bits = v -> set f v bits = bits.
Proof.
  intros Ho Hw <-. apply Z.bits_inj'. intros i Hi. rewrite set_testbit by done.
  destruct (Z.leb_spec (offset f) i), (Z.ltb_spec i (offset f + width f)); cbn; try done.
  rewrite get_testbit by lia. destruct (Z.ltb_spec (i - offset f) (width f)); [|lia]. cbn. f_equal. lia.
Qed.

(** The topmost field is a quotient. *)
Lemma get_top f w bits : 0 <= offset f -> 0 <= width f -> offset f + width f = w -> in_word w bits ->
  get f bits = bits / 2 ^ offset f.
Proof.
  intros Ho Hw Hf Hb. unfold get, field_mask. rewrite land_mask, Z.shiftr_div_pow2 by done.
  apply Z.mod_small. pose proof (pow2_pos (offset f) Ho). unfold in_word in Hb.
  split; [apply Z.div_pos; lia|]. apply Z.div_lt_upper_bound; [done|]. rewrite <- Z.pow_add_r by done. rewrite Hf. lia.
Qed.
Lemma get_low f n bits : 0 <= offset f -> 0 <= width f -> offset f + width f <= n ->
  get f (bits mod 2 ^ n) = get f bits.
Proof.
  intros Ho Hw Hf. apply Z.bits_inj'. intros i Hi. rewrite !get_testbit by done.
  destruct (Z.ltb_spec i (width f)); [|done]. by rewrite Z.mod_pow2_bits_low by lia.
Qed.

(** ** Any good layout *)
Class LayoutOk (L : layout) : Prop := layout_is_ok : layout_ok L = true.
#[export] Instance arm64e_ok : LayoutOk arm64e_isa.
Proof. by vm_compute. Qed.
#[export] Instance arm64_ok : LayoutOk arm64_isa.
Proof. by vm_compute. Qed.
#[export] Instance x86_64_ok : LayoutOk x86_64_isa.
Proof. by vm_compute. Qed.
#[export] Instance indexed_ok : LayoutOk indexed_isa.
Proof. by vm_compute. Qed.

Section Layout.
Context (L : layout) {HL : LayoutOk L}.

(** The conditions of [layout_ok], as propositions. *)
Record layout_facts : Prop := {
  lf_word : 0 < word L;
  lf_fields : forall f, In f (fields L) -> 0 <= offset f /\ 0 < width f /\ offset f + width f <= word L;
  lf_disjoint : pairwise_disjoint (fields L) = true;
  lf_top : offset (f_extra_rc L) + width (f_extra_rc L) = word L;
  lf_extra_width : 1 < width (f_extra_rc L);
  lf_flags : width (f_nonpointer L) = 1 /\ width (f_has_assoc L) = 1 /\ width (f_weakly_referenced L) = 1 /\
    width (f_has_sidetable_rc L) = 1;
  lf_lsb : offset (f_nonpointer L) = 0;
  lf_dtor : forall f, f_has_cxx_dtor L = Some f -> width f = 1;
  lf_rc_one : RC_ONE L = 2 ^ offset (f_extra_rc L);
  lf_rc_half : RC_HALF L = 2 ^ (width (f_extra_rc L) - 1);
  lf_shift : indexed L = false -> offset (f_shiftcls L) = 3;
  lf_isa_mask : ISA_MASK L = Z.shiftl (field_mask (f_shiftcls L)) (offset (f_shiftcls L));
  lf_magic_word : in_word (word L) (ISA_MAGIC_VALUE L);
  lf_magic_nonpointer : nonpointer L (ISA_MAGIC_VALUE L) = true;
  lf_magic_clear : forall f, In f (tail (fields L)) -> get f (ISA_MAGIC_VALUE L) = 0;
}.
Lemma layout_good : layout_facts.
Proof.
  pose proof HL as H. unfold LayoutOk, layout_ok in H. rewrite !andb_true_iff in H.
  destruct H as (((((((((((((((H1 & H2) & H3) & H4) & H5) & H6) & H7) & H8) & H9) & H10) & H11) & H12) & H13) & H14) & H15) & H16).
  rewrite forallb_forall in H2, H16. cbn [forallb] in H7. rewrite !andb_true_iff, !Z.eqb_eq in H7.
  rewrite Z.ltb_lt in H1, H5. rewrite Z.eqb_eq in H4, H6, H9, H10, H12. apply is_word_spec in H13.
  split; try done; try tauto.
  - intros f Hf. apply H2 in Hf. unfold field_ok in Hf. rewrite !andb_true_iff, !Z.leb_le, Z.ltb_lt in Hf. lia.
  - intros f E. rewrite E in H8. by apply Z.eqb_eq.
  - intros E. rewrite E in H11. by apply Z.eqb_eq.
  - intros f Hf. by apply Z.eqb_eq, H16.
Qed.

Lemma fields_disjoint i j f g : (i < j)%nat -> fields L !! i = Some f -> fields L !! j = Some g ->
  disjoint f g = true /\ disjoint g f = true.
Proof.
  intros Hij Hi Hj. pose proof (lf_disjoint layout_good) as H. revert i j Hij Hi Hj H.
  induction (fields L) as [|h l IH]; intros i j Hij Hi Hj H; [by destruct i|].
  cbn [pairwise_disjoint] in H. apply andb_true_iff in H as [Hh Hl].
  destruct i as [|i], j as [|j]; try lia; simpl in *.
  - injection Hi as ->. rewrite forallb_forall in Hh.
    assert (In g l) as Hin by (by apply list_elem_of_In, (list_elem_of_lookup_2 _ j)).
    apply Hh in Hin. split; [done|]. unfold disjoint in *. by rewrite orb_comm.
  - apply (IH i j); [lia|done..].
Qed.
Lemma fields_range i f : fields L !! i = Some f -> 0 <= offset f /\ 0 < width f /\ offset f + width f <= word L.
Proof. intros Hi. apply (lf_fields layout_good), list_elem_of_In. by eapply list_elem_of_lookup_2. Qed.
(** Fields by their position in [fields]: reads see the last write, and only to
    their own field. *)
Lemma get_set_field i j f g v bits : fields L !! i = Some f -> fields L !! j = Some g ->
  get f (set g v bits) = if decide (i = j) then wrap (width f) v else get f bits.
Proof.
  intros Hi Hj. pose proof (fields_range _ _ Hi). pose proof (fields_range _ _ Hj). destruct (decide (i = j)) as [->|Hne].
  - rewrite Hi in Hj. injection Hj as ->. apply get_set; lia.
  - apply get_set_other; try lia. destruct (decide (i < j)%nat).
    + by apply (fields_disjoint i j f g).
    + apply (fields_disjoint j i g f); [lia|done..].
Qed.
Lemma set_field_in_word i f v bits : fields L !! i = Some f -> in_word (word L) bits -> in_word (word L) (set f v bits).
Proof. intros Hi Hb. pose proof (fields_range _ _ Hi). apply set_in_word; (lia || done). Qed.
Lemma flag_set_flag b : nz (wrap 1 (Zb b)) = b.
Proof. by destruct b. Qed.

(** *** What each write leaves of the other members *)
Ltac member_eq :=
  unfold nonpointer, has_assoc, weakly_referenced, has_sidetable_rc, extra_rc, flag, set_flag;
  match goal with
  | |- context [get ?f (set ?g ?v ?b)] =>
    let find f k := (lazymatch f with
      | f_nonpointer L => k 0%nat | f_has_assoc L => k 1%nat | f_weakly_referenced L => k 2%nat
      | f_has_sidetable_rc L => k 3%nat | f_extra_rc L => k 4%nat | f_shiftcls L => k 5%nat end) in
    find f ltac:(fun i => find g ltac:(fun j => rewrite (get_set_field i j f g v b eq_refl eq_refl)))
  end; cbn [decide]; try reflexivity.
Lemma set_extra_spec v b : 0 <= v < 2 ^ width (f_extra_rc L) ->
  let b' := set (f_extra_rc L) v b in
  extra_rc L b' = v /\ nonpointer L b' = nonpointer L b /\ has_assoc L b' = has_assoc L b /\
  weakly_referenced L b' = weakly_referenced L b /\ has_sidetable_rc L b' = has_sidetable_rc L b /\
  get (f_shiftcls L) b' = get (f_shiftcls L) b /\ (in_word (word L) b -> in_word (word L) b').
Proof.
  intros Hv b'. unfold b'. split_and!; try member_eq.
  - by apply wrap_small.
  - by apply (set_field_in_word 4).
Qed.
Lemma set_sidetable_rc_spec v b : let b' := set_flag (f_has_sidetable_rc L) v b in
  has_sidetable_rc L b' = v /\ nonpointer L b' = nonpointer L b /\ has_assoc L b' = has_assoc L b /\
  weakly_referenced L b' = weakly_referenced L b /\ extra_rc L b' = extra_rc L b /\
  get (f_shiftcls L) b' = get (f_shiftcls L) b /\ (in_word (word L) b -> in_word (word L) b').
Proof.
  intros b'. unfold b'. split_and!; try member_eq.
  - destruct (lf_flags layout_good) as (_ & _ & _ & ->). apply flag_set_flag.
  - by apply (set_field_in_word 3).
Qed.
Lemma set_assoc_spec v b : let b' := set_flag (f_has_assoc L) v b in
  has_assoc L b' = v /\ nonpointer L b' = nonpointer L b /\ has_sidetable_rc L b' = has_sidetable_rc L b /\
  weakly_referenced L b' = weakly_referenced L b /\ extra_rc L b' = extra_rc L b /\
  get (f_shiftcls L) b' = get (f_shiftcls L) b /\ (in_word (word L) b -> in_word (word L) b').
Proof.
  intros b'. unfold b'. split_and!; try member_eq.
  - destruct (lf_flags layout_good) as (_ & -> & _ & _). apply flag_set_flag.
  - by apply (set_field_in_word 1).
Qed.
Lemma set_weakly_spec v b : let b' := set_flag (f_weakly_referenced L) v b in
  weakly_referenced L b' = v /\ nonpointer L b' = nonpointer L b /\ has_sidetable_rc L b' = has_sidetable_rc L b /\
  has_assoc L b' = has_assoc L b /\ extra_rc L b' = extra_rc L b /\
  get (f_shiftcls L) b' = get (f_shiftcls L) b /\ (in_word (word L) b -> in_word (word L) b').
Proof.
  intros b'. unfold b'. split_and!; try member_eq.
  - destruct (lf_flags layout_good) as (_ & _ & -> & _). apply flag_set_flag.
  - by apply (set_field_in_word 2).
Qed.
Lemma set_shiftcls_spec v b : let b' := set (f_shiftcls L) v b in
  get (f_shiftcls L) b' = wrap (width (f_shiftcls L)) v /\ nonpointer L b' = nonpointer L b /\
  has_sidetable_rc L b' = has_sidetable_rc L b /\ has_assoc L b' = has_assoc L b /\
  weakly_referenced L b' = weakly_referenced L b /\ extra_rc L b' = extra_rc L b /\
  (in_word (word L) b -> in_word (word L) b').
Proof.
  intros b'. unfold b'. split_and!; try member_eq. by apply (set_field_in_word 5).
Qed.

(** *** Arithmetic on extra_rc *)
Definition rc_limit : Z := 2 ^ width (f_extra_rc L).
(** Everything but [extra_rc]. *)
Definition low (bits : Z) : Z := bits mod 2 ^ offset (f_extra_rc L).
Lemma extra_range b : 0 <= extra_rc L b < rc_limit.
Proof. apply get_range. pose proof (fields_range 4 _ eq_refl). lia. Qed.
Lemma rc_half_facts : 0 < RC_HALF L /\ 2 * RC_HALF L = rc_limit.
Proof.
  rewrite (lf_rc_half layout_good). pose proof (lf_extra_width layout_good). unfold rc_limit. split; [apply pow2_pos; lia|].
  rewrite <- Z.pow_succ_r by lia. f_equal. lia.
Qed.
Lemma word_split b : in_word (word L) b -> b = low b + extra_rc L b * RC_ONE L.
Proof.
  intros Hb. pose proof (fields_range 4 _ eq_refl) as (Ho & Hw & _).
  unfold extra_rc. rewrite (get_top _ (word L)) by (try lia; done || apply (lf_top layout_good)).
  rewrite (lf_rc_one layout_good). unfold low. pose proof (Z.div_mod b (2 ^ offset (f_extra_rc L))).
  pose proof (pow2_pos (offset (f_extra_rc L)) Ho). lia.
Qed.
Lemma rc_one_facts : 0 < RC_ONE L /\ RC_ONE L * rc_limit = 2 ^ word L.
Proof.
  pose proof (fields_range 4 _ eq_refl) as (Ho & Hw & _). rewrite (lf_rc_one layout_good). unfold rc_limit.
  split; [by apply pow2_pos|]. rewrite <- Z.pow_add_r by lia. by rewrite (lf_top layout_good).
Qed.
Lemma low_range b : 0 <= low b < RC_ONE L.
Proof. rewrite (lf_rc_one layout_good). apply Z.mod_pos_bound, pow2_pos, (fields_range 4 _ eq_refl). Qed.
(** A word with the same low part reads the same in every other field. *)
Lemma low_fields f i b b' : fields L !! i = Some f -> i <> 4%nat -> low b = low b' -> get f b = get f b'.
Proof.
  intros Hi Hne E. pose proof (fields_range _ _ Hi) as Hr. pose proof (fields_range 4 _ eq_refl) as He.
  assert (Hd : disjoint f (f_extra_rc L) = true).
  { destruct (decide (i < 4)%nat); [by apply (fields_disjoint i 4 f (f_extra_rc L))|].
    apply (fields_disjoint 4 i (f_extra_rc L) f); [lia|done..]. }
  pose proof (lf_top layout_good). apply orb_true_iff in Hd as [Hd|Hd]; apply Z.leb_le in Hd; [|lia].
  unfold low in E. rewrite <- (get_low f (offset (f_extra_rc L)) b), E by lia. apply get_low; lia.
Qed.
Definition same_but_rc (b b' : Z) : Prop :=
  nonpointer L b' = nonpointer L b /\ has_assoc L b' = has_assoc L b /\
  weakly_referenced L b' = weakly_referenced L b /\ has_sidetable_rc L b' = has_sidetable_rc L b /\
  get (f_shiftcls L) b' = get (f_shiftcls L) b /\ has_cxx_dtor_bit L b' = has_cxx_dtor_bit L b.
Lemma low_same b b' : low b' = low b -> same_but_rc b b'.
Proof.
  intros E. unfold same_but_rc, nonpointer, has_assoc, weakly_referenced, has_sidetable_rc, has_cxx_dtor_bit, flag.
  rewrite !(low_fields (f_nonpointer L) 0 b' b), !(low_fields (f_has_assoc L) 1 b' b),
    !(low_fields (f_weakly_referenced L) 2 b' b), !(low_fields (f_has_sidetable_rc L) 3 b' b),
    !(low_fields (f_shiftcls L) 5 b' b) by done.
  split_and!; try done. destruct (f_has_cxx_dtor L) as [f|] eqn:Ef; [|done].
  rewrite (low_fields f 6 b' b); [done| |done|done]. unfold fields. by rewrite Ef.
Qed.
Lemma add_extra n b : in_word (word L) b -> 0 <= extra_rc L b + n < rc_limit ->
  in_word (word L) (b + n * RC_ONE L) /\ extra_rc L (b + n * RC_ONE L) = extra_rc L b + n /\
  same_but_rc b (b + n * RC_ONE L).
Proof.
  intros Hb Hn. pose proof (word_split b Hb) as E. pose proof (low_range b) as Hl.
  destruct rc_one_facts as [Hp Hw]. pose proof (fields_range 4 _ eq_refl) as (Ho & Hwd & _).
  assert (E' : b + n * RC_ONE L = low b + (extra_rc L b + n) * RC_ONE L) by lia.
  assert (Hb' : in_word (word L) (b + n * RC_ONE L)) by (unfold in_word; rewrite E'; nia).
  split; [done|]. split.
  - unfold extra_rc at 1. rewrite (get_top _ (word L)) by (try lia; done || apply (lf_top layout_good)).
    rewrite E', <- (lf_rc_one layout_good). rewrite Z.div_add by lia. rewrite Z.div_small by lia. lia.
  - apply low_same. rewrite E'. unfold low at 1. rewrite <- (lf_rc_one layout_good), Z.mod_add by lia.
    apply Z.mod_small. lia.
Qed.

(** [extra_rc++] and [extra_rc--]: the carry is the overflow of the field. *)
Lemma addc_rc_one b : in_word (word L) b ->
  let (b', carry) := addc (word L) b (RC_ONE L) 0 in
  carry = (extra_rc L b + 1 =? rc_limit) /\
  (carry = false -> in_word (word L) b' /\ extra_rc L b' = extra_rc L b + 1 /\ same_but_rc b b').
Proof.
  intros Hb. unfold addc. rewrite Z.add_0_r. pose proof (word_split b Hb) as E. pose proof (low_range b).
  destruct rc_one_facts as [Hp Hw]. pose proof (extra_range b).
  destruct (Z.eqb_spec (extra_rc L b + 1) rc_limit), (Z.leb_spec (2 ^ word L) (b + RC_ONE L)); try nia.
  split; [done|]. intros _. destruct (add_extra 1 b Hb ltac:(lia)) as (Hb' & ? & ?).
  rewrite Z.mul_1_l in *. by rewrite wrap_small.
Qed.
Lemma subc_rc_one b : in_word (word L) b ->
  let (b', carry) := subc (word L) b (RC_ONE L) 0 in
  carry = (extra_rc L b =? 0) /\
  (carry = false -> in_word (word L) b' /\ extra_rc L b' = extra_rc L b - 1 /\ same_but_rc b b').
Proof.
  intros Hb. unfold subc. rewrite Z.sub_0_r. pose proof (word_split b Hb) as E. pose proof (low_range b).
  destruct rc_one_facts as [Hp Hw]. pose proof (extra_range b).
  destruct (Z.eqb_spec (extra_rc L b) 0), (Z.ltb_spec (b - RC_ONE L) 0); try nia.
  split; [done|]. intros _. destruct (add_extra (-1) b Hb ltac:(lia)) as (Hb' & ? & ?).
  replace (b + -1 * RC_ONE L) with (b - RC_ONE L) in * by lia. by rewrite wrap_small.
Qed.
Lemma not_overflow b : in_word (word L) b -> forall n, 0 <= n -> extra_rc L b + n < rc_limit ->
  addc (word L) b (n * RC_ONE L) 0 = (b + n * RC_ONE L, false).
Proof.
  intros Hb n Hn Hl. destruct (add_extra n b Hb) as (Hb' & _); [pose proof (extra_range b); lia|].
  unfold addc. rewrite Z.add_0_r, wrap_small by done. f_equal. apply Z.leb_gt. apply Hb'.
Qed.
End Layout.

Lemma setClass_spec L (HL : LayoutOk L) S cls obj b : indexed L = false ->
  in_word (word L) b -> Z.land cls 7 = 0 ->
  in_word (offset (f_shiftcls L) + width (f_shiftcls L)) (sign S cls obj) ->
  Z.land (sign S cls obj) (class_mask S) = cls ->
  Z.land (class_mask S) (ISA_MASK L) = class_mask S -> Z.land (sign S cls obj) 7 = 0 ->
  let b' := setClass L S cls obj b in
  getClass L S b' = cls /\ nonpointer L b' = nonpointer L b /\ extra_rc L b' = extra_rc L b /\
  has_sidetable_rc L b' = has_sidetable_rc L b /\ weakly_referenced L b' = weakly_referenced L b /\
  has_assoc L b' = has_assoc L b /\ setClass L S cls obj 0 = sign S cls obj.
Proof.
  intros Hi Hb Hal Hs Hm Hmm Hsa b'. unfold b', setClass, getClass. rewrite Hi.
  destruct (set_shiftcls_spec L (Z.shiftr (sign S cls obj) 3) b) as (_ & -> & -> & -> & -> & -> & _).
  pose proof (lf_shift L (layout_good L) Hi) as Ho. pose proof (fields_range L 5 _ eq_refl) as (_ & Hw & _).
  assert (Hlow : forall i, 0 <= i < 3 -> Z.testbit (sign S cls obj) i = false).
  { intros i Hii. assert (E : Z.testbit (Z.land (sign S cls obj) 7) i = false) by (rewrite Hsa; apply Z.bits_0).
    rewrite Z.land_spec in E. assert (Z.testbit 7 i = true) as E7 by (assert (i = 0 \/ i = 1 \/ i = 2) as [->|[->| ->]] by lia; done).
    by rewrite E7, andb_true_r in E. }
  assert (Hset : forall c i, 0 <= i -> 3 <= i < 3 + width (f_shiftcls L) ->
    Z.testbit (set (f_shiftcls L) (Z.shiftr (sign S cls obj) 3) c) i = Z.testbit (sign S cls obj) i).
  { intros c i Hii Hr. rewrite set_testbit, Ho by lia.
    destruct (Z.leb_spec 3 i), (Z.ltb_spec i (3 + width (f_shiftcls L))); try lia. cbn [andb].
    rewrite Z.shiftr_spec by lia. f_equal. lia. }
  assert (Hmask : forall i, 0 <= i -> Z.testbit (class_mask S) i = true -> 3 <= i < 3 + width (f_shiftcls L)).
  { intros i Hii Ht. rewrite <- Hmm, Z.land_spec, (lf_isa_mask L (layout_good L)), Ho, testbit_shiftl in Ht by done.
    apply andb_true_iff in Ht as [_ Ht]. apply andb_true_iff in Ht as [Hle Ht]. apply Z.leb_le in Hle.
    unfold field_mask in Ht. rewrite testbit_pow2m1 in Ht by lia. apply Z.ltb_lt in Ht. lia. }
  split_and!; try done.
  - transitivity (Z.land (sign S cls obj) (class_mask S)); [|exact Hm].
    apply Z.bits_inj'. intros i Hii. rewrite !Z.land_spec.
    destruct (Z.testbit (class_mask S) i) eqn:Et; [|by rewrite !andb_false_r].
    rewrite !andb_true_r. apply Hset; [done|by apply Hmask].
  - apply Z.bits_inj'. intros i Hii. destruct (decide (3 <= i < 3 + width (f_shiftcls L))); [by apply Hset|].
    rewrite set_testbit, Ho by lia.
    destruct (Z.leb_spec 3 i), (Z.ltb_spec i (3 + width (f_shiftcls L))); try lia; cbn [andb]; rewrite Z.bits_0; symmetry.
    + apply (testbit_high (offset (f_shiftcls L) + width (f_shiftcls L))); unfold in_word in Hs; lia.
    + apply Hlow. lia.
Qed.

