(* ===== verification/SideTable.v ===== *)
(** * NSObject.mm: the side table of retain counts

    A [SideTable] holds a lock, the [RefcountMap] (a [DenseMap] from disguised
    object pointers to words, whose zero values may be purged) and the weak
    table. The word of an object holds two flags and, from bit 2, its retain
    count beyond the one it is born with (raw isa) or beyond its inline count
    (nonpointer isa). [rc] is that word, zero when the map has no entry; the
    operations are proved to be functions of it, so an entry purged or never
    made behaves as a zero one. *)

From stdpp Require Import prelude numbers list.
From Stdlib Require Import ZArith Lia Bool.
From S2P Require Import Prelude ObjcOS DenseMapInfo DenseMap DenseMapTheory DenseMapMove DenseMapOps DenseMapImpl.
Import DenseMap.DenseMap DenseMapInfos.

Definition SIDE_TABLE_WEAKLY_REFERENCED : Z := Z.shiftl 1 0.
Definition SIDE_TABLE_DEALLOCATING : Z := Z.shiftl 1 1.
Definition SIDE_TABLE_RC_ONE : Z := Z.shiftl 1 2.
Definition SIDE_TABLE_RC_PINNED : Z := Z.shiftl 1 (WORD_BITS - 1).
Definition SIDE_TABLE_RC_SHIFT : Z := 2.
Definition SIDE_TABLE_FLAG_MASK : Z := SIDE_TABLE_RC_ONE - 1.

(** [RefcountMap]; [garbage] is what fresh memory holds. *)
Definition RefcountMap_isPurgeable (x : Z) : bool := x =? 0.
Definition RefcountMap (garbage : nat -> Z * Z) : Template Z Z := {|
  KeyInfo := DisguisedPtrInfo;
  isPurgeable := RefcountMap_isPurgeable;
  trivially_copyable := false;
  uninit := garbage;
  default_value := 0;
|}.

(** What the side table calls on its weak table. *)
Class WeakTableOps (W : Type) := {
  weak_clear_no_lock : W -> Z -> res W;
  weak_is_registered_no_lock : W -> Z -> res bool;
}.

Record SideTable (W : Type) := {
  slock : bool;
  refcnts : table Z Z;
  weak_table : W;
}.
Arguments slock {W} s.
Arguments refcnts {W} s.
Arguments weak_table {W} s.

Section SideTableOps.
Context {W : Type} {HW : WeakTableOps W} (garbage : nat -> Z * Z).
Implicit Types (t : SideTable W) (m : table Z Z).
Abbreviation RT := (RefcountMap garbage).

Definition with_refcnts t m : SideTable W := {| slock := slock t; refcnts := m; weak_table := weak_table t |}.
Definition with_weak t w : SideTable W := {| slock := slock t; refcnts := refcnts t; weak_table := w |}.
Definition with_lock t b : SideTable W := {| slock := b; refcnts := refcnts t; weak_table := weak_table t |}.
(** The lock is not recursive, and only a held lock is released. *)
Definition lock t : res (SideTable W) := if slock t then Fault LockMisuse else Ok (with_lock t true).
Definition unlock t : res (SideTable W) := if slock t then Ok (with_lock t false) else Fault LockMisuse.

(** [it->second], read and written. *)
Definition second m (i : Z) : Z := match bucket_at m i with Some b => snd b | None => 0 end.
Definition set_second m (i v : Z) : table Z Z :=
  store_buckets m (alter (fun b => (fst b, v)) (Z.to_nat i) (getBuckets m)).

Definition sidetable_lock t : res (SideTable W) := lock t.
Definition sidetable_unlock t : res (SideTable W) := unlock t.

(** [np] is [isa.nonpointer], which the functions assert. *)
Definition sidetable_moveExtraRC_nolock t (obj : Z) (np : bool) (extra_rc : Z) (isDeallocating weaklyReferenced : bool)
    : res (SideTable W) :=
  assert? (negb np) in
  let? (m, i) := FindAndConstruct RT (refcnts t) (disguise obj) in
  let oldRefcnt := second m i in
  assert? (Z.land oldRefcnt SIDE_TABLE_DEALLOCATING =? 0) in
  assert? (Z.land oldRefcnt SIDE_TABLE_WEAKLY_REFERENCED =? 0) in
  let (refcnt, carry) := addc 64 oldRefcnt (u64 (Z.shiftl (u64 (extra_rc - 1)) SIDE_TABLE_RC_SHIFT)) 0 in
  let refcnt := if carry then SIDE_TABLE_RC_PINNED else refcnt in
  let refcnt := if isDeallocating then Z.lor refcnt SIDE_TABLE_DEALLOCATING else refcnt in
  let refcnt := if weaklyReferenced then Z.lor refcnt SIDE_TABLE_WEAKLY_REFERENCED else refcnt in
  Ok (with_refcnts t (set_second m i refcnt)).

Definition sidetable_addExtraRC_nolock t (obj : Z) (np : bool) (delta_rc : Z) : res (SideTable W * bool) :=
  assert? np in
  let? (m, i) := FindAndConstruct RT (refcnts t) (disguise obj) in
  let oldRefcnt := second m i in
  assert? (Z.land oldRefcnt SIDE_TABLE_DEALLOCATING =? 0) in
  assert? (Z.land oldRefcnt SIDE_TABLE_WEAKLY_REFERENCED =? 0) in
  if nz (Z.land oldRefcnt SIDE_TABLE_RC_PINNED) then Ok (with_refcnts t m, true)
  else
    let (newRefcnt, carry) := addc 64 oldRefcnt (u64 (Z.shiftl delta_rc SIDE_TABLE_RC_SHIFT)) 0 in
    if carry then
      Ok (with_refcnts t (set_second m i (Z.lor SIDE_TABLE_RC_PINNED (Z.land oldRefcnt SIDE_TABLE_FLAG_MASK))), true)
    else Ok (with_refcnts t (set_second m i newRefcnt), false).

(** [SidetableBorrow] is the pair of [borrowed] and [remaining]. *)
Definition sidetable_subExtraRC_nolock t (obj : Z) (np : bool) (delta_rc : Z) : res (SideTable W * (Z * Z)) :=
  assert? np in
  let? it := find RT (refcnts t) (disguise obj) in
  if (it =? end_ (refcnts t)) || (second (refcnts t) it =? 0) then Ok (t, (0, 0))
  else
    let oldRefcnt := second (refcnts t) it in
    assert? (Z.land oldRefcnt SIDE_TABLE_DEALLOCATING =? 0) in
    assert? (Z.land oldRefcnt SIDE_TABLE_WEAKLY_REFERENCED =? 0) in
    let newRefcnt := u64 (oldRefcnt - u64 (Z.shiftl delta_rc SIDE_TABLE_RC_SHIFT)) in
    assert? (oldRefcnt >? newRefcnt) in
    Ok (with_refcnts t (set_second (refcnts t) it newRefcnt), (delta_rc, Z.shiftr newRefcnt SIDE_TABLE_RC_SHIFT)).

Definition sidetable_getExtraRC_nolock t (obj : Z) (np : bool) : res Z :=
  assert? np in
  let? it := find RT (refcnts t) (disguise obj) in
  if it =? end_ (refcnts t) then Ok 0 else Ok (Z.shiftr (second (refcnts t) it) SIDE_TABLE_RC_SHIFT).

(** Erasing [end()] is undefined; the model reports it. *)
Definition sidetable_clearExtraRC_nolock t (obj : Z) (np : bool) : res (SideTable W) :=
  assert? np in
  let? it := find RT (refcnts t) (disguise obj) in
  if it =? end_ (refcnts t) then Fault HashTableCorrupted
  else let? m := erase_iterator RT (refcnts t) it in Ok (with_refcnts t m).

(** Raw-isa operations; [locked]: the caller holds the lock. *)
Definition sidetable_retain t (obj : Z) (np locked : bool) : res (SideTable W) :=
  assert? (negb np) in
  let? t := if locked then Ok t else lock t in
  let? (m, i) := FindAndConstruct RT (refcnts t) (disguise obj) in
  let m := if nz (Z.land (second m i) SIDE_TABLE_RC_PINNED) then m
           else set_second m i (u64 (second m i + SIDE_TABLE_RC_ONE)) in
  unlock (with_refcnts t m).

Definition sidetable_tryRetain t (obj : Z) (np : bool) : res (SideTable W * bool) :=
  assert? (negb np) in
  let? (m, i, fresh) := try_emplace RT (refcnts t) (disguise obj) SIDE_TABLE_RC_ONE in
  let refcnt := second m i in
  if fresh then Ok (with_refcnts t m, true)
  else if nz (Z.land refcnt SIDE_TABLE_DEALLOCATING) then Ok (with_refcnts t m, false)
  else if negb (nz (Z.land refcnt SIDE_TABLE_RC_PINNED)) then
    Ok (with_refcnts t (set_second m i (u64 (refcnt + SIDE_TABLE_RC_ONE))), true)
  else Ok (with_refcnts t m, true).

Definition sidetable_retainCount t (obj : Z) : res (SideTable W * Z) :=
  let? t := lock t in
  let? it := find RT (refcnts t) (disguise obj) in
  let refcnt_result :=
    if it =? end_ (refcnts t) then 1 else u64 (1 + Z.shiftr (second (refcnts t) it) SIDE_TABLE_RC_SHIFT) in
  let? t := unlock t in Ok (t, refcnt_result).

Definition sidetable_isDeallocating t (obj : Z) : res bool :=
  let? it := find RT (refcnts t) (disguise obj) in
  Ok (negb (it =? end_ (refcnts t)) && nz (Z.land (second (refcnts t) it) SIDE_TABLE_DEALLOCATING)).

Definition sidetable_isWeaklyReferenced t (obj : Z) : res (SideTable W * bool) :=
  let? t := lock t in
  let? it := find RT (refcnts t) (disguise obj) in
  let result := negb (it =? end_ (refcnts t)) && nz (Z.land (second (refcnts t) it) SIDE_TABLE_WEAKLY_REFERENCED) in
  let? t := unlock t in Ok (t, result).

Definition sidetable_setWeaklyReferenced_nolock t (obj : Z) (np : bool) : res (SideTable W) :=
  assert? (negb np) in
  let? (m, i) := FindAndConstruct RT (refcnts t) (disguise obj) in
  Ok (with_refcnts t (set_second m i (Z.lor (second m i) SIDE_TABLE_WEAKLY_REFERENCED))).

(** Returns whether the object should be deallocated; sending [dealloc] is left
    to the caller. *)
Definition sidetable_release t (obj : Z) (np locked : bool) : res (SideTable W * bool) :=
  assert? (negb np) in
  let? t := if locked then Ok t else lock t in
  let? (m, i, fresh) := try_emplace RT (refcnts t) (disguise obj) SIDE_TABLE_DEALLOCATING in
  let refcnt := second m i in
  let '(m, do_dealloc) :=
    if fresh then (m, true)
    else if refcnt <? SIDE_TABLE_DEALLOCATING then (set_second m i (Z.lor refcnt SIDE_TABLE_DEALLOCATING), true)
    else if negb (nz (Z.land refcnt SIDE_TABLE_RC_PINNED)) then (set_second m i (u64 (refcnt - SIDE_TABLE_RC_ONE)), false)
    else (m, false) in
  let? t := unlock (with_refcnts t m) in Ok (t, do_dealloc).

Definition sidetable_clearDeallocating t (obj : Z) : res (SideTable W) :=
  let? t := lock t in
  let? it := find RT (refcnts t) (disguise obj) in
  let? t :=
    if it =? end_ (refcnts t) then Ok t
    else
      let? t := if nz (Z.land (second (refcnts t) it) SIDE_TABLE_WEAKLY_REFERENCED)
                then let? w := weak_clear_no_lock (weak_table t) obj in Ok (with_weak t w) else Ok t in
      let? m := erase_iterator RT (refcnts t) it in
      Ok (with_refcnts t m) in
  unlock t.

(** [DEBUG] only. *)
Definition sidetable_present t (obj : Z) : res (SideTable W * bool) :=
  let? t := lock t in
  let? it := find RT (refcnts t) (disguise obj) in
  let? reg := weak_is_registered_no_lock (weak_table t) obj in
  let? t := unlock t in Ok (t, negb (it =? end_ (refcnts t)) || reg).

(** The part of [clearDeallocating_slow] under the lock. *)
Definition clearDeallocating_slow_nolock t (obj : Z) (weakly_referenced has_sidetable_rc : bool) : res (SideTable W) :=
  let? t := if weakly_referenced
            then let? w := weak_clear_no_lock (weak_table t) obj in Ok (with_weak t w) else Ok t in
  if has_sidetable_rc then let? (m, _) := erase RT (refcnts t) (disguise obj) in Ok (with_refcnts t m)
  else Ok t.

(** ** Words and entries *)
Abbreviation key obj := (disguise obj).
Definition rc m (obj : Z) : Z := default 0 (denote RT m (key obj)).
(** An object pointer; the two sentinels of the map are not objects. *)
Definition valid_obj (obj : Z) : Prop := in_word 64 obj /\ valid_key RT (key obj).
(** The map is well formed and holds words. *)
Record refs m : Prop := {
  refs_table : table_ok RT m;
  refs_words : forall k v, denote RT m k = Some v -> in_word 64 v;
}.
Definition roomy m : Prop := NumBuckets m <= max_buckets.
(** [obj]'s word became [v], and no other. *)
Record updated m m' (obj v : Z) : Prop := {
  up_new : rc m' obj = v;
  up_old : forall o, in_word 64 o -> o <> obj -> rc m' o = rc m o;
}.
Lemma updated_trans m m1 m2 obj v w : updated m m1 obj v -> updated m1 m2 obj w -> updated m m2 obj w.
Proof. intros [_ H1] [H2 H3]. split; [done|]. intros. by rewrite H3, H1. Qed.
Lemma updated_refl m obj : updated m m obj (rc m obj).
Proof. by split. Qed.

Lemma key_eq o obj : in_word 64 o -> in_word 64 obj -> isEqual (KeyInfo RT) (key obj) (key o) = (obj =? o).
Proof. intros Ho Hobj. cbn. by rewrite !undisguise_disguise. Qed.
Lemma purged_default f g k : purged_at RT f g k -> default 0 (g k) = default 0 (f k).
Proof. intros [->|(-> & v & -> & Hv)]; [done|]. apply Z.eqb_eq in Hv. by subst. Qed.
Lemma rc_word m obj : refs m -> in_word 64 (rc m obj).
Proof.
  intros [_ Hw]. unfold rc. destruct (denote RT m (key obj)) eqn:E; [by eapply Hw|]. by unfold in_word.
Qed.
Lemma purged_words f g : (forall k, purged_at RT f g k) -> (forall k v, f k = Some v -> in_word 64 v) ->
  forall k v, g k = Some v -> in_word 64 v.
Proof. intros Hp Hf k v Hg. destruct (Hp k) as [E|(E & _)]; [apply (Hf k); congruence|congruence]. Qed.
(** The effect of placing [v] under the object's key. *)
Lemma placed_updated m m' obj v : in_word 64 obj -> table_ok RT m' ->
  (forall k v, denote RT m k = Some v -> in_word 64 v) -> in_word 64 v ->
  denote RT m' (key obj) = Some v ->
  (forall k', isEqual (KeyInfo RT) (key obj) k' = false -> purged_at RT (denote RT m) (denote RT m') k') ->
  refs m' /\ updated m m' obj v.
Proof.
  intros Hobj Hok Hw Hv Hd Ho. split; [split; [done|]|split].
  - intros k w Hk. destruct (isEqual (KeyInfo RT) (key obj) k) eqn:E.
    + rewrite (denote_proper RT _ _ _ E : denote RT m' (key obj) = denote RT m' k) in Hd. congruence.
    + destruct (Ho k E) as [E'|(E' & _)]; [apply (Hw k); congruence|congruence].
  - unfold rc. by rewrite Hd.
  - intros o Hwo Hne. apply purged_default, Ho. rewrite key_eq by done. by apply Z.eqb_neq.
Qed.

(** A reference to the word of an object. *)
Record cell m (obj i v : Z) : Prop := {
  cell_wf : wf RT m;
  cell_entry : entry_at RT m (key obj) i v;
}.
Lemma cell_second m obj i v : cell m obj i v -> second m i = v.
Proof. intros [_ (_ & l & Hb & _)]. unfold second. by rewrite Hb. Qed.
Lemma cell_rc m obj i v : cell m obj i v -> rc m obj = v.
Proof. intros [Hwf He]. unfold rc. by rewrite (entry_denote RT m _ i v Hwf He). Qed.
Lemma cell_set m obj i v w : valid_obj obj -> refs m -> cell m obj i v -> in_word 64 w ->
  let m' := set_second m i w in cell m' obj i w /\ refs m' /\ updated m m' obj w.
Proof.
  intros [Hobj _] [Hok Hw] [Hwf He] Hword m'.
  destruct (entry_store RT m (key obj) i v w Hwf He) as (Hwf' & He' & Hd). split; [done|].
  apply placed_updated; try done.
  - by right.
  - rewrite Hd. by rewrite (keyeq_refl RT).
  - intros k' E. left. by rewrite Hd, E.
Qed.
Lemma ref_index m obj : refs m -> roomy m -> valid_obj obj ->
  exists m' i, FindAndConstruct RT m (key obj) = Ok (m', i) /\ cell m' obj i (rc m obj) /\ refs m' /\
    updated m m' obj (rc m obj).
Proof.
  intros Hr Hroom [Hobj Hk]. pose proof Hr as [Hok Hw].
  destruct (FindAndConstruct_ok RT m (key obj)) as (m' & i & E & Hwf & He & Ho); [by split|done|].
  exists m', i. split; [done|]. split; [done|]. apply placed_updated; try done.
  - by right.
  - by apply rc_word.
  - by apply (entry_denote RT m' _ i).
Qed.
Lemma ref_emplace m obj v : refs m -> roomy m -> valid_obj obj -> in_word 64 v ->
  exists m' i fresh, try_emplace RT m (key obj) v = Ok (m', i, fresh) /\ refs m' /\
    if fresh then rc m obj = 0 /\ cell m' obj i v /\ updated m m' obj v
    else m' = m /\ cell m obj i (rc m obj).
Proof.
  intros Hr Hroom [Hobj Hk] Hv. pose proof Hr as [Hok Hw].
  destruct (try_emplace_entry RT m (key obj) v) as (m' & i & fresh & E & Hwf & H); [by split|done|].
  exists m', i, fresh. split; [done|]. unfold rc. destruct (denote RT m (key obj)) as [w|].
  - destruct H as (-> & -> & He). done.
  - destruct H as (-> & He & Ho).
    destruct (placed_updated m m' obj v) as [Hr' Hu]; try done.
    + by right.
    + by apply (entry_denote RT m' _ i).
Qed.
Lemma ref_find m obj : refs m -> valid_obj obj ->
  (exists i, find RT m (key obj) = Ok i /\ cell m obj i (rc m obj) /\ (i =? end_ m) = false) \/
  (find RT m (key obj) = Ok (end_ m) /\ rc m obj = 0).
Proof.
  intros [Hok Hw] [Hobj Hk]. unfold rc.
  destruct (find_entry RT m (key obj) Hok Hk) as [(i & v & E & Hwf & He & -> & Hi)|(E & ->)]; [left|by right].
  by exists i.
Qed.
(** Removing the entry. *)
Lemma gone_updated m m' obj : in_word 64 obj -> refs m -> table_ok RT m' ->
  (forall k', isEqual (KeyInfo RT) (key obj) k' = true -> denote RT m' k' = None) ->
  (forall k', isEqual (KeyInfo RT) (key obj) k' = false -> purged_at RT (denote RT m) (denote RT m') k') ->
  refs m' /\ updated m m' obj 0.
Proof.
  intros Hobj [_ Hw] Hok Hin Hout. split; [split; [done|]|split].
  - intros k v Hk. destruct (isEqual (KeyInfo RT) (key obj) k) eqn:E; [by rewrite Hin in Hk|].
    destruct (Hout k E) as [E'|(E' & _)]; [apply (Hw k); congruence|congruence].
  - unfold rc. rewrite Hin; [done|]. by apply (keyeq_refl RT).
  - intros o Hwo Hne. apply purged_default, Hout. rewrite key_eq by done. by apply Z.eqb_neq.
Qed.
Lemma ref_erase_iterator m obj i v : refs m -> roomy m -> valid_obj obj -> cell m obj i v ->
  exists m', erase_iterator RT m i = Ok m' /\ refs m' /\ updated m m' obj 0.
Proof.
  intros Hr Hroom [Hobj _] [Hwf (Hi & l & Hb & He & HL)].
  destruct (erase_iterator_ok RT m i (l, v) Hwf Hroom Hb HL) as (m' & E & Hok & Hin & Hout). exists m'. split; [done|].
  cbn [fst] in *. apply gone_updated; try done; intros k' Ek; [apply Hin|apply Hout];
    by rewrite (keyeq_sym RT k' l), <- (keyeq_rewrite RT _ _ _ He).
Qed.
Lemma ref_erase m obj : refs m -> roomy m -> valid_obj obj ->
  exists m' b, erase RT m (key obj) = Ok (m', b) /\ refs m' /\ updated m m' obj 0.
Proof.
  intros Hr Hroom [Hobj Hk].
  destruct (erase_ok RT m (key obj)) as (m' & E & Hok & Hin & Hout); [split; [apply Hr|done]|done|].
  exists m', (bool_decide (is_Some (denote RT m (key obj)))). split; [done|]. by apply gone_updated.
Qed.

(** ** The operations as functions of the object's word *)
Definition pinned (r : Z) : bool := nz (Z.land r SIDE_TABLE_RC_PINNED).
Lemma pinned_spec r : in_word 64 r -> pinned r = (2 ^ 63 <=? r).
Proof.
  intros Hr. unfold pinned, SIDE_TABLE_RC_PINNED, WORD_BITS. rewrite Z.shiftl_1_l. change (64 - 1) with 63.
  unfold in_word in Hr. destruct (Z.leb_spec (2 ^ 63) r) as [H|H].
  - apply nz_true. intros E. assert (Z.testbit (Z.land r (2 ^ 63)) 63 = false) as E' by (by rewrite E, Z.bits_0).
    rewrite Z.land_spec, Z.pow2_bits_true, andb_true_r in E' by lia.
    assert (Z.testbit r 63 = true); [|congruence]. rewrite Z.testbit_true by lia.
    replace (r / 2 ^ 63) with 1; [done|]. apply Z.div_unique with (r - 2 ^ 63); lia.
  - apply nz_false. apply Z.bits_inj'. intros j Hj. rewrite Z.land_spec, testbit_pow2, Z.bits_0 by lia.
    destruct (Z.eqb_spec j 63) as [->|]; [|by rewrite andb_false_r].
    by rewrite (testbit_high 63 r) by lia.
Qed.
Definition dealloc_flag (r : Z) : bool := nz (Z.land r SIDE_TABLE_DEALLOCATING).
Definition weak_flag (r : Z) : bool := nz (Z.land r SIDE_TABLE_WEAKLY_REFERENCED).
Definition retain_word (r : Z) : Z := if pinned r then r else u64 (r + SIDE_TABLE_RC_ONE).
Definition release_word (r : Z) : Z * bool :=
  if r <? SIDE_TABLE_DEALLOCATING then (Z.lor r SIDE_TABLE_DEALLOCATING, true)
  else if pinned r then (r, false) else (u64 (r - SIDE_TABLE_RC_ONE), false).
Definition tryRetain_word (r : Z) : Z * bool := if dealloc_flag r then (r, false) else (retain_word r, true).

(** What an operation on an object finds and leaves. *)
Record ready t obj (held : bool) : Prop := {
  rd_refs : refs (refcnts t);
  rd_roomy : roomy (refcnts t);
  rd_obj : valid_obj obj;
  rd_lock : slock t = held;
}.
Definition word_of t obj : Z := rc (refcnts t) obj.
Record stepped t t' obj (held : bool) (v : Z) : Prop := {
  st_refs : refs (refcnts t');
  st_updated : updated (refcnts t) (refcnts t') obj v;
  st_lock : slock t' = held;
  st_weak : weak_table t' = weak_table t;
}.
Lemma stepped_word t t' obj held v : stepped t t' obj held v -> word_of t' obj = v.
Proof. intros [_ [H _] _ _]. done. Qed.
Lemma ready_word t obj held : ready t obj held -> in_word 64 (word_of t obj).
Proof. intros [Hr _ _ _]. by apply rc_word. Qed.
Lemma lor_dealloc_word r : in_word 64 r -> in_word 64 (Z.lor r SIDE_TABLE_DEALLOCATING).
Proof. intros. apply lor_range; [lia|done|]. by unfold in_word. Qed.

Lemma take_lock t (locked : bool) : slock t = locked ->
  exists t1, (if locked then Ok t else lock t) = Ok t1 /\ refcnts t1 = refcnts t /\ weak_table t1 = weak_table t /\
    slock t1 = true.
Proof. intros E. unfold lock. destruct locked; [by exists t|]. rewrite E. by eexists. Qed.
Lemma give_lock t : slock t = true -> unlock t = Ok (with_lock t false).
Proof. intros E. unfold unlock. by rewrite E. Qed.

Lemma sidetable_retain_ok t obj locked : ready t obj locked ->
  exists t', sidetable_retain t obj false locked = Ok t' /\ stepped t t' obj false (retain_word (word_of t obj)).
Proof.
  intros Hrd. pose proof (ready_word _ _ _ Hrd) as Hw. destruct Hrd as [Hr Hroom Ho Hl]. unfold sidetable_retain.
  destruct (take_lock t locked Hl) as (t1 & -> & E1 & Ew & Hl1). cbn [rbind rassert negb]. rewrite E1.
  destruct (ref_index (refcnts t) obj Hr Hroom Ho) as (m & i & -> & Hc & Hrm & Hum). cbn [rbind].
  rewrite (cell_second m obj i _ Hc). unfold word_of, retain_word, pinned in *.
  destruct (nz (Z.land (rc (refcnts t) obj) SIDE_TABLE_RC_PINNED)); rewrite give_lock by done; eexists;
    (split; [done|]).
  - by split.
  - destruct (cell_set m obj i _ (u64 (rc (refcnts t) obj + SIDE_TABLE_RC_ONE)) Ho Hrm Hc) as (_ & Hr' & Hu');
      [by apply wrap_in_word|]. split; try done. by eapply updated_trans.
Qed.
Lemma sidetable_tryRetain_ok t obj held : ready t obj held ->
  exists t', sidetable_tryRetain t obj false = Ok (t', snd (tryRetain_word (word_of t obj))) /\
    stepped t t' obj held (fst (tryRetain_word (word_of t obj))).
Proof.
  intros Hrd. pose proof (ready_word _ _ _ Hrd) as Hw. destruct Hrd as [Hr Hroom Ho Hl].
  unfold sidetable_tryRetain. cbn [rbind rassert negb].
  destruct (ref_emplace (refcnts t) obj SIDE_TABLE_RC_ONE Hr Hroom Ho) as (m & i & fresh & -> & Hrm & H);
    [by unfold in_word|]. cbn [rbind]. unfold tryRetain_word, word_of, retain_word in *.
  destruct fresh.
  - destruct H as (-> & Hc & Hu). eexists. split; [done|]. by split.
  - destruct H as (-> & Hc). rewrite (cell_second _ obj i _ Hc). unfold dealloc_flag, pinned.
    destruct (nz (Z.land (rc (refcnts t) obj) SIDE_TABLE_DEALLOCATING)); cbn [fst snd].
    { eexists. split; [done|]. by split. }
    destruct (nz (Z.land (rc (refcnts t) obj) SIDE_TABLE_RC_PINNED)); cbn [negb].
    + eexists. split; [done|]. by split.
    + eexists. split; [done|].
      destruct (cell_set (refcnts t) obj i _ (u64 (rc (refcnts t) obj + SIDE_TABLE_RC_ONE)) Ho Hr Hc) as (_ & Hr' & Hu');
        [by apply wrap_in_word|]. by split.
Qed.
Lemma sidetable_release_ok t obj locked : ready t obj locked ->
  exists t', sidetable_release t obj false locked = Ok (t', snd (release_word (word_of t obj))) /\
    stepped t t' obj false (fst (release_word (word_of t obj))).
Proof.
  intros Hrd. pose proof (ready_word _ _ _ Hrd) as Hw. destruct Hrd as [Hr Hroom Ho Hl]. unfold sidetable_release.
  destruct (take_lock t locked Hl) as (t1 & -> & E1 & Ew & Hl1). cbn [rbind rassert negb]. rewrite E1.
  destruct (ref_emplace (refcnts t) obj SIDE_TABLE_DEALLOCATING Hr Hroom Ho) as (m & i & fresh & -> & Hrm & H);
    [by unfold in_word|]. cbn [rbind]. unfold release_word, word_of, pinned in *.
  destruct fresh.
  { destruct H as (-> & Hc & Hu). rewrite give_lock by done. eexists. split; [done|]. by split. }
  destruct H as (-> & Hc). rewrite (cell_second _ obj i _ Hc).
  destruct (rc (refcnts t) obj <? SIDE_TABLE_DEALLOCATING);
    [|destruct (nz (Z.land (rc (refcnts t) obj) SIDE_TABLE_RC_PINNED)); cbn [negb]];
    rewrite give_lock by done; eexists; (split; [done|]); try by split.
  - destruct (cell_set (refcnts t) obj i _ _ Ho Hr Hc (lor_dealloc_word _ Hw)) as (_ & Hr' & Hu'). by split.
  - destruct (cell_set (refcnts t) obj i _ (u64 (rc (refcnts t) obj - SIDE_TABLE_RC_ONE)) Ho Hr Hc) as (_ & Hr' & Hu');
      [by apply wrap_in_word|]. by split.
Qed.

(** *** Moving counts between the isa and the side table *)
Definition no_flags (r : Z) : Prop := dealloc_flag r = false /\ weak_flag r = false.
Lemma no_flags_asserts r : no_flags r ->
  (Z.land r SIDE_TABLE_DEALLOCATING =? 0) = true /\ (Z.land r SIDE_TABLE_WEAKLY_REFERENCED =? 0) = true.
Proof. intros [Hd Hw]. by rewrite !Z.eqb_eq, <- !nz_false. Qed.
Definition delta (n : Z) : Z := u64 (Z.shiftl n SIDE_TABLE_RC_SHIFT).
Definition addExtraRC_word (r n : Z) : Z * bool :=
  if pinned r then (r, true)
  else if 2 ^ 64 <=? r + delta n then (Z.lor SIDE_TABLE_RC_PINNED (Z.land r SIDE_TABLE_FLAG_MASK), true)
  else (r + delta n, false).
Definition moveExtraRC_word (r n : Z) (isDeallocating weaklyReferenced : bool) : Z :=
  let r := if 2 ^ 64 <=? r + delta (u64 (n - 1)) then SIDE_TABLE_RC_PINNED else r + delta (u64 (n - 1)) in
  let r := if isDeallocating then Z.lor r SIDE_TABLE_DEALLOCATING else r in
  if weaklyReferenced then Z.lor r SIDE_TABLE_WEAKLY_REFERENCED else r.
Definition present t obj : Prop := exists i v, cell (refcnts t) obj i v.

Lemma addc_word r d : in_word 64 r -> in_word 64 d ->
  addc 64 r d 0 = (if 2 ^ 64 <=? r + d then r + d - 2 ^ 64 else r + d, 2 ^ 64 <=? r + d).
Proof.
  unfold in_word, addc. intros Hr Hd. rewrite Z.add_0_r. f_equal.
  destruct (Z.leb_spec (2 ^ 64) (r + d)); [|apply wrap_small; lia].
  unfold wrap. symmetry. apply Z.mod_unique with 1; lia.
Qed.
Lemma delta_word n : in_word 64 (delta n).
Proof. by apply wrap_in_word. Qed.

Lemma sidetable_addExtraRC_ok t obj held n : ready t obj held -> no_flags (word_of t obj) ->
  exists t', sidetable_addExtraRC_nolock t obj true n = Ok (t', snd (addExtraRC_word (word_of t obj) n)) /\
    stepped t t' obj held (fst (addExtraRC_word (word_of t obj) n)) /\ present t' obj.
Proof.
  intros Hrd Hnf. pose proof (ready_word _ _ _ Hrd) as Hw. destruct Hrd as [Hr Hroom Ho Hl].
  unfold sidetable_addExtraRC_nolock. cbn [rbind rassert].
  destruct (ref_index (refcnts t) obj Hr Hroom Ho) as (m & i & -> & Hc & Hrm & Hum). cbn [rbind].
  rewrite (cell_second m obj i _ Hc). destruct (no_flags_asserts _ Hnf) as [E1 E2]. unfold word_of in *.
  rewrite E1, E2. cbn [rbind rassert]. unfold addExtraRC_word, pinned.
  fold (delta n). pose proof (delta_word n) as Hd. rewrite (addc_word _ _ Hw Hd). 
  destruct (nz (Z.land (rc (refcnts t) obj) SIDE_TABLE_RC_PINNED)).
  { eexists. split; [done|]. split; [by split|]. by exists i, (rc (refcnts t) obj). }
  assert (Hset : forall v, in_word 64 v -> stepped t (with_refcnts t (set_second m i v)) obj held v /\
    present (with_refcnts t (set_second m i v)) obj).
  { intros v Hv. destruct (cell_set m obj i _ v Ho Hrm Hc Hv) as (Hc' & Hr' & Hu'). split.
    - split; try done. by eapply updated_trans.
    - by exists i, v. }
  destruct (Z.leb_spec (2 ^ 64) (rc (refcnts t) obj + delta n)); eexists; (split; [done|]); apply Hset.
  - apply lor_range; [lia|by unfold in_word|]. apply land_range; [lia|done].
  - unfold in_word in *. lia.
Qed.
Lemma sidetable_subExtraRC_ok t obj held n : ready t obj held -> no_flags (word_of t obj) ->
  word_of t obj = 0 \/ 0 < delta n <= word_of t obj ->
  exists t', sidetable_subExtraRC_nolock t obj true n =
      Ok (t', if word_of t obj =? 0 then (0, 0) else (n, (word_of t obj - delta n) / 4)) /\
    stepped t t' obj held (if word_of t obj =? 0 then 0 else word_of t obj - delta n) /\
    (word_of t obj <> 0 -> present t' obj).
Proof.
  intros Hrd Hnf Hn. pose proof (ready_word _ _ _ Hrd) as Hw. destruct Hrd as [Hr Hroom Ho Hl].
  unfold sidetable_subExtraRC_nolock, word_of in *. cbn [rbind rassert].
  destruct (ref_find (refcnts t) obj Hr Ho) as [(i & -> & Hc & Hi)|(-> & E)]; cbn [rbind].
  - rewrite Hi, (cell_second _ obj i _ Hc). cbn [orb].
    destruct (Z.eqb_spec (rc (refcnts t) obj) 0) as [E|E].
    { exists t. split; [done|]. split; [|by rewrite E]. rewrite <- E. by split. }
    destruct (no_flags_asserts _ Hnf) as [E1 E2]. rewrite E1, E2. cbn [rbind rassert]. fold (delta n).
    unfold in_word in Hw. rewrite (wrap_small 64) by lia.
    destruct (Z.gtb_spec (rc (refcnts t) obj) (rc (refcnts t) obj - delta n)); [|lia]. cbn [rbind rassert].
    rewrite Z.shiftr_div_pow2 by (unfold SIDE_TABLE_RC_SHIFT; lia). eexists. split; [done|].
    destruct (cell_set (refcnts t) obj i _ (rc (refcnts t) obj - delta n) Ho Hr Hc) as (Hc' & Hr' & Hu');
      [unfold in_word; lia|]. split; [by split|]. intros _. by exists i, (rc (refcnts t) obj - delta n).
  - pose proof (updated_refl (refcnts t) obj) as Hu. rewrite E in Hu. rewrite Z.eqb_refl, E. cbn [orb].
    exists t. split; [done|]. by split; [split|].
Qed.
(** Less than is asked for cannot be borrowed. *)
Lemma sidetable_subExtraRC_short t obj held n : ready t obj held -> no_flags (word_of t obj) ->
  0 < word_of t obj < delta n -> sidetable_subExtraRC_nolock t obj true n = Fault AssertFailed.
Proof.
  intros Hrd Hnf Hn. pose proof (ready_word _ _ _ Hrd) as Hw. pose proof (delta_word n) as Hd. destruct Hrd as [Hr Hroom Ho Hl].
  unfold sidetable_subExtraRC_nolock, word_of in *. cbn [rbind rassert].
  destruct (ref_find (refcnts t) obj Hr Ho) as [(i & -> & Hc & Hi)|(-> & E)]; cbn [rbind]; [|lia].
  rewrite Hi, (cell_second _ obj i _ Hc). cbn [orb]. destruct (Z.eqb_spec (rc (refcnts t) obj) 0); [lia|].
  destruct (no_flags_asserts _ Hnf) as [E1 E2]. rewrite E1, E2. cbn [rbind rassert]. fold (delta n). unfold in_word in *.
  assert (wrap 64 (rc (refcnts t) obj - delta n) = rc (refcnts t) obj - delta n + 2 ^ 64) as ->.
  { unfold wrap. symmetry. apply (Z.mod_unique _ _ (-1)); lia. }
  destruct (Z.gtb_spec (rc (refcnts t) obj) (rc (refcnts t) obj - delta n + 2 ^ 64)); [lia|done].
Qed.
Lemma sidetable_getExtraRC_ok t obj held : ready t obj held ->
  sidetable_getExtraRC_nolock t obj true = Ok (word_of t obj / 4).
Proof.
  intros [Hr Hroom Ho Hl]. unfold sidetable_getExtraRC_nolock, word_of. cbn [rbind rassert].
  destruct (ref_find (refcnts t) obj Hr Ho) as [(i & -> & Hc & Hi)|(-> & E)]; cbn [rbind].
  - by rewrite Hi, (cell_second _ obj i _ Hc), Z.shiftr_div_pow2.
  - by rewrite Z.eqb_refl, E.
Qed.
Lemma present_find t obj : refs (refcnts t) -> valid_obj obj -> present t obj ->
  exists i, find RT (refcnts t) (key obj) = Ok i /\ cell (refcnts t) obj i (rc (refcnts t) obj) /\
    (i =? end_ (refcnts t)) = false.
Proof.
  intros [Hok _] [_ Hk] (i & v & Hc). destruct (find_entry RT (refcnts t) (key obj) Hok Hk) as [(j & w & E & Hwf & He & Hd & Hi)|(_ & E)].
  - exists j. split; [done|]. split; [|done]. unfold rc. rewrite Hd. done.
  - destruct Hc as [Hwf He]. by rewrite (entry_denote RT _ _ i v Hwf He) in E.
Qed.
Lemma sidetable_clearExtraRC_ok t obj held : ready t obj held -> present t obj ->
  exists t', sidetable_clearExtraRC_nolock t obj true = Ok t' /\ stepped t t' obj held 0.
Proof.
  intros [Hr Hroom Ho Hl] Hp. unfold sidetable_clearExtraRC_nolock. cbn [rbind rassert].
  destruct (present_find t obj Hr Ho Hp) as (i & -> & Hc & Hi). cbn [rbind]. rewrite Hi.
  destruct (ref_erase_iterator (refcnts t) obj i _ Hr Hroom Ho Hc) as (m & -> & Hr' & Hu). cbn [rbind].
  eexists. split; [done|]. by split.
Qed.
Lemma sidetable_moveExtraRC_ok t obj held n d w : ready t obj held -> no_flags (word_of t obj) ->
  exists t', sidetable_moveExtraRC_nolock t obj false n d w = Ok t' /\
    stepped t t' obj held (moveExtraRC_word (word_of t obj) n d w).
Proof.
  intros Hrd Hnf. pose proof (ready_word _ _ _ Hrd) as Hw. destruct Hrd as [Hr Hroom Ho Hl].
  unfold sidetable_moveExtraRC_nolock. cbn [rbind rassert negb].
  destruct (ref_index (refcnts t) obj Hr Hroom Ho) as (m & i & -> & Hc & Hrm & Hum). cbn [rbind].
  rewrite (cell_second m obj i _ Hc). destruct (no_flags_asserts _ Hnf) as [E1 E2]. unfold word_of in *.
  rewrite E1, E2. cbn [rbind rassert]. fold (delta (u64 (n - 1))). pose proof (delta_word (u64 (n - 1))) as Hd.
  rewrite (addc_word _ _ Hw Hd). set (v := moveExtraRC_word _ _ _ _).
  assert (Hv : in_word 64 v).
  { unfold v, moveExtraRC_word. assert (H0 : in_word 64 (if 2 ^ 64 <=? rc (refcnts t) obj + delta (u64 (n - 1))
      then SIDE_TABLE_RC_PINNED else rc (refcnts t) obj + delta (u64 (n - 1)))).
    { unfold in_word in *. destruct (Z.leb_spec (2 ^ 64) (rc (refcnts t) obj + delta (u64 (n - 1)))); [done|lia]. }
    assert (H1 : forall x, in_word 64 x -> in_word 64 (Z.lor x SIDE_TABLE_WEAKLY_REFERENCED)).
    { intros. apply lor_range; [lia|done|by unfold in_word]. }
    destruct d, w; auto using lor_dealloc_word. }
  destruct (cell_set m obj i _ v Ho Hrm Hc Hv) as (_ & Hr' & Hu').
  exists (with_refcnts t (set_second m i v)). split.
  - unfold v, moveExtraRC_word. destruct (2 ^ 64 <=? _); reflexivity.
  - split; try done. by eapply updated_trans.
Qed.

(** The table grows only for a new entry. *)
Lemma sidetable_addExtraRC_roomy t obj held n t' b : ready t obj held -> present t obj ->
  sidetable_addExtraRC_nolock t obj true n = Ok (t', b) -> roomy (refcnts t').
Proof.
  intros [Hr Hroom [Hobj Hk] Hl] (i & v & [Hwf He]). pose proof (entry_denote RT _ _ i v Hwf He) as Hd.
  unfold sidetable_addExtraRC_nolock. cbn [rbind rassert].
  destruct (FindAndConstruct_same RT (refcnts t) (key obj) v) as (j & E & _); [apply Hr|done|done|].
  rewrite E. cbn [rbind]. destruct (_ =? 0); [|done]. cbn [rbind rassert]. destruct (_ =? 0); [|done]. cbn [rbind rassert].
  destruct (nz _); [by intros [= <- _]|]. destruct (addc _ _ _ _) as [x []]; by intros [= <- _].
Qed.
Lemma sidetable_subExtraRC_roomy t obj held n t' b : ready t obj held ->
  sidetable_subExtraRC_nolock t obj true n = Ok (t', b) -> roomy (refcnts t').
Proof.
  intros [_ Hroom _ _]. unfold sidetable_subExtraRC_nolock. cbn [rbind rassert].
  destruct (find RT (refcnts t) (disguise obj)) as [it|]; [|done]. cbn [rbind].
  destruct (_ || _); [by intros [= <- _]|]. destruct (_ =? 0); [|done]. cbn [rbind rassert]. destruct (_ =? 0); [|done].
  cbn [rbind rassert]. destruct (_ >? _); [|done]. by intros [= <- _].
Qed.
(** Taking and giving the lock. *)
Lemma stepped_refl t obj held : ready t obj held -> stepped t t obj held (word_of t obj).
Proof. intros [Hr _ _ Hl]. by split. Qed.
Lemma stepped_trans t t1 t2 obj h1 h2 v1 v2 : stepped t t1 obj h1 v1 -> stepped t1 t2 obj h2 v2 -> stepped t t2 obj h2 v2.
Proof. intros [_ Hu1 _ Hw1] [Hr2 Hu2 Hl2 Hw2]. split; try done; [by eapply updated_trans|congruence]. Qed.
Lemma lock_ok t obj : ready t obj false ->
  exists t', lock t = Ok t' /\ ready t' obj true /\ stepped t t' obj true (word_of t obj).
Proof.
  intros [Hr Hroom Ho Hl]. unfold lock. rewrite Hl. eexists. split; [done|]. split; by split.
Qed.
Lemma unlock_ok t obj : ready t obj true ->
  exists t', unlock t = Ok t' /\ ready t' obj false /\ stepped t t' obj false (word_of t obj).
Proof.
  intros [Hr Hroom Ho Hl]. unfold unlock. rewrite Hl. eexists. split; [done|]. split; by split.
Qed.

(** *** Flags and counts *)
Lemma sidetable_setWeaklyReferenced_ok t obj held : ready t obj held ->
  exists t', sidetable_setWeaklyReferenced_nolock t obj false = Ok t' /\
    stepped t t' obj held (Z.lor (word_of t obj) SIDE_TABLE_WEAKLY_REFERENCED).
Proof.
  intros Hrd. pose proof (ready_word _ _ _ Hrd) as Hw. destruct Hrd as [Hr Hroom Ho Hl].
  unfold sidetable_setWeaklyReferenced_nolock. cbn [rbind rassert negb].
  destruct (ref_index (refcnts t) obj Hr Hroom Ho) as (m & i & -> & Hc & Hrm & Hum). cbn [rbind].
  rewrite (cell_second m obj i _ Hc). eexists. split; [done|].
  destruct (cell_set m obj i _ (Z.lor (rc (refcnts t) obj) SIDE_TABLE_WEAKLY_REFERENCED) Ho Hrm Hc) as (_ & Hr' & Hu').
  { apply lor_range; [lia|done|by unfold in_word]. }
  split; try done. by eapply updated_trans.
Qed.
Lemma sidetable_isDeallocating_ok t obj held : ready t obj held ->
  sidetable_isDeallocating t obj = Ok (dealloc_flag (word_of t obj)).
Proof.
  intros [Hr Hroom Ho Hl]. unfold sidetable_isDeallocating, word_of, dealloc_flag.
  destruct (ref_find (refcnts t) obj Hr Ho) as [(i & -> & Hc & Hi)|(-> & E)]; cbn [rbind].
  - by rewrite Hi, (cell_second _ obj i _ Hc).
  - by rewrite Z.eqb_refl, E.
Qed.
Lemma sidetable_isWeaklyReferenced_ok t obj : ready t obj false ->
  sidetable_isWeaklyReferenced t obj = Ok (t, weak_flag (word_of t obj)).
Proof.
  intros [Hr Hroom Ho Hl]. unfold sidetable_isWeaklyReferenced, word_of, weak_flag, lock, unlock.
  rewrite Hl. cbn [rbind slock refcnts with_lock].
  destruct (ref_find (refcnts t) obj Hr Ho) as [(i & -> & Hc & Hi)|(-> & E)]; cbn [rbind].
  - rewrite Hi, (cell_second _ obj i _ Hc). destruct t; simpl in *; by subst.
  - rewrite Z.eqb_refl, E. destruct t; simpl in *; by subst.
Qed.
Lemma sidetable_retainCount_ok t obj : ready t obj false ->
  sidetable_retainCount t obj = Ok (t, 1 + word_of t obj / 4).
Proof.
  intros Hrd. pose proof (ready_word _ _ _ Hrd) as Hw. destruct Hrd as [Hr Hroom Ho Hl].
  unfold sidetable_retainCount, word_of, lock, unlock in *.
  rewrite Hl. cbn [rbind slock refcnts with_lock].
  destruct (ref_find (refcnts t) obj Hr Ho) as [(i & -> & Hc & Hi)|(-> & E)]; cbn [rbind].
  - rewrite Hi, (cell_second _ obj i _ Hc), Z.shiftr_div_pow2 by (unfold SIDE_TABLE_RC_SHIFT; lia).
    change (2 ^ SIDE_TABLE_RC_SHIFT) with 4. unfold in_word in Hw.
    rewrite wrap_small by dlia. destruct t; simpl in *; by subst.
  - rewrite Z.eqb_refl, E. destruct t; simpl in *; by subst.
Qed.
(** The weak table is cleared exactly when the weak flag is set, and the word is
    dropped. *)
Lemma sidetable_clearDeallocating_ok t obj w : ready t obj false ->
  (if weak_flag (word_of t obj) then weak_clear_no_lock (weak_table t) obj = Ok w else w = weak_table t) ->
  exists t', sidetable_clearDeallocating t obj = Ok t' /\ stepped (with_weak t w) t' obj false 0.
Proof.
  intros [Hr Hroom Ho Hl] Hweak. unfold sidetable_clearDeallocating, lock. rewrite Hl. cbn [rbind refcnts with_lock].
  unfold word_of, weak_flag in Hweak.
  destruct (ref_find (refcnts t) obj Hr Ho) as [(i & -> & Hc & Hi)|(-> & E)]; cbn [rbind].
  - rewrite Hi, (cell_second _ obj i _ Hc).
    destruct (ref_erase_iterator (refcnts t) obj i _ Hr Hroom Ho Hc) as (m & Em & Hr' & Hu).
    destruct (nz (Z.land (rc (refcnts t) obj) SIDE_TABLE_WEAKLY_REFERENCED)); cbn [rbind weak_table with_lock];
      rewrite ?Hweak; cbn [rbind refcnts with_lock with_weak]; rewrite Em; cbn [rbind];
      eexists; (split; [done|]); by split.
  - rewrite Z.eqb_refl. cbn [rbind]. rewrite E in Hweak. change (w = weak_table t) in Hweak. pose proof (updated_refl (refcnts t) obj) as Hu. rewrite E in Hu.
    eexists. split; [done|]. subst w. by split.
Qed.
Lemma clearDeallocating_slow_ok t obj weakly side held w : ready t obj held ->
  (if weakly : bool then weak_clear_no_lock (weak_table t) obj = Ok w else w = weak_table t) ->
  exists t', clearDeallocating_slow_nolock t obj weakly side = Ok t' /\
    stepped (with_weak t w) t' obj held (if side : bool then 0 else word_of t obj).
Proof.
  intros [Hr Hroom Ho Hl] Hweak. unfold clearDeallocating_slow_nolock.
  destruct (ref_erase (refcnts t) obj Hr Hroom Ho) as (m & b & Em & Hr' & Hu).
  destruct weakly; [|cbn in Hweak; subst w]; cbn [rbind]; rewrite ?Hweak; cbn [rbind refcnts with_weak];
    (destruct side; [rewrite Em; cbn [rbind]|]; eexists; (split; [done|])); by split.
Qed.

(** ** The counter a word represents

    A raw-isa object is alive with [n] retains beyond the first, or
    deallocating; the weak flag goes along. *)
Inductive obj_state := Live (n : Z) (weak : bool) | Deallocating (n : Z) (weak : bool).
Definition encode (s : obj_state) : Z :=
  match s with
  | Live n w => 4 * n + Zb w
  | Deallocating n w => 4 * n + 2 + Zb w
  end.
Definition retains (s : obj_state) : Z := match s with Live n _ | Deallocating n _ => n end.
(** Counts below the point where the word saturates. *)
Definition countable (s : obj_state) : Prop := 0 <= retains s < 2 ^ 61.
Definition more (s : obj_state) : obj_state :=
  match s with Live n w => Live (n + 1) w | Deallocating n w => Deallocating (n + 1) w end.
(** The effect of a release and whether the object should be deallocated. *)
Definition less (s : obj_state) : obj_state * bool :=
  match s with
  | Live n w => if n =? 0 then (Deallocating 0 w, true) else (Live (n - 1) w, false)
  | Deallocating n w => (Deallocating (n - 1) w, false)
  end.
Definition is_deallocating (s : obj_state) : bool := match s with Live _ _ => false | Deallocating _ _ => true end.
Definition is_weak (s : obj_state) : bool := match s with Live _ w | Deallocating _ w => w end.
Definition set_weak (s : obj_state) : obj_state :=
  match s with Live n _ => Live n true | Deallocating n _ => Deallocating n true end.

Lemma encode_range s : countable s -> 0 <= encode s < 2 ^ 63.
Proof. unfold countable. destruct s as [n w|n w], w; simpl; lia. Qed.
Lemma encode_bits s : countable s -> Z.testbit (encode s) 0 = is_weak s /\ Z.testbit (encode s) 1 = is_deallocating s.
Proof.
  intros Hs. pose proof (encode_range s Hs). rewrite Z.bit0_odd, (Z.testbit_odd _ 1), Z.shiftr_div_pow2 by lia.
  unfold countable in Hs. change (2 ^ 1) with 2. destruct s as [n w|n w]; cbn [encode is_weak is_deallocating retains] in *.
  - replace ((4 * n + Zb w) / 2) with (2 * n) by (destruct w; cbn; dlia).
    replace (4 * n + Zb w) with (Zb w + 2 * (2 * n)) by lia. rewrite Z.odd_add_mul_2. split; [by destruct w|].
    replace (2 * n) with (0 + 2 * n) by lia. by rewrite Z.odd_add_mul_2.
  - replace ((4 * n + 2 + Zb w) / 2) with (1 + 2 * n) by (destruct w; cbn; dlia).
    replace (4 * n + 2 + Zb w) with (Zb w + 2 * (2 * n + 1)) by lia. rewrite !Z.odd_add_mul_2. by destruct w.
Qed.
Lemma encode_flags s : countable s ->
  weak_flag (encode s) = is_weak s /\ dealloc_flag (encode s) = is_deallocating s /\ pinned (encode s) = false.
Proof.
  intros Hs. pose proof (encode_range s Hs). destruct (encode_bits s Hs) as [E0 E1].
  unfold weak_flag, dealloc_flag. split; [|split].
  - rewrite <- E0. by apply (nz_bit _ 0).
  - rewrite <- E1. by apply (nz_bit _ 1).
  - rewrite pinned_spec by (unfold in_word; lia). apply Z.leb_gt. lia.
Qed.
Lemma encode_more s : countable s -> retain_word (encode s) = encode (more s).
Proof.
  intros Hs. pose proof (encode_range s Hs). destruct (encode_flags s Hs) as (_ & _ & Hp).
  unfold retain_word. rewrite Hp. change SIDE_TABLE_RC_ONE with 4.
  rewrite wrap_small by lia. destruct s; cbn [encode more]; lia.
Qed.
(** Releasing an object that is deallocating and has no retain left to undo is
    an over-release; it is the one case left out. *)
Lemma encode_less s : countable s -> s <> Deallocating 0 (is_weak s) ->
  release_word (encode s) = (encode (fst (less s)), snd (less s)).
Proof.
  intros Hs Hne. pose proof (encode_range s Hs) as Hr. destruct (encode_flags s Hs) as (_ & _ & Hp).
  destruct (encode_bits s Hs) as [_ E1].
  unfold release_word. rewrite Hp. unfold countable in Hs. change SIDE_TABLE_DEALLOCATING with (2 ^ 1).
  change SIDE_TABLE_RC_ONE with 4. destruct s as [n w|n w]; cbn [less retains encode is_weak] in *.
  - destruct (Z.eqb_spec n 0) as [->|]; cbn [fst snd encode].
    + destruct (Z.ltb_spec (4 * 0 + Zb w) (2 ^ 1)) as [|H]; [|destruct w; simpl in H; lia].
      rewrite lor_bit by done. f_equal. lia.
    + destruct (Z.ltb_spec (4 * n + Zb w) (2 ^ 1)) as [H|]; [destruct w; simpl in H; lia|].
      rewrite wrap_small by (destruct w; simpl in *; lia). f_equal. lia.
  - assert (n <> 0) by (intros ->; by apply Hne).
    destruct (Z.ltb_spec (4 * n + 2 + Zb w) (2 ^ 1)) as [H'|]; [destruct w; simpl in H'; lia|].
    rewrite wrap_small by (destruct w; simpl in *; lia). cbn [fst snd encode]. f_equal. lia.
Qed.
(** The over-release takes a count from a word that has none. *)
Lemma release_word_over w : release_word (encode (Deallocating 0 w)) = (2 ^ 64 - 2 + Zb w, false).
Proof. by destruct w. Qed.
Lemma encode_set_weak s : countable s -> Z.lor (encode s) SIDE_TABLE_WEAKLY_REFERENCED = encode (set_weak s).
Proof.
  intros Hs. destruct (encode_bits s Hs) as [E0 _]. change SIDE_TABLE_WEAKLY_REFERENCED with (2 ^ 0).
  destruct (is_weak s) eqn:Ew.
  - replace (set_weak s) with s by (destruct s; simpl in *; by subst). apply Z.bits_inj'. intros j Hj.
    rewrite Z.lor_spec, testbit_pow2 by done. destruct (Z.eqb_spec j 0) as [->|]; [by rewrite E0|by rewrite orb_false_r].
  - rewrite lor_bit by done. destruct s; simpl in *; subst; simpl; lia.
Qed.

(** C28: the side table is a reference counter. For an object of a well-formed side
    table with at most 2^28 buckets, whose word represents a state [s] with a count
    below 2^61, where the word is pinned, retain, tryRetain and release, setting the weak
    flag and reading the flags and the count are the corresponding operations on [s]: a
    retain adds one; a try-retain adds one unless the object is deallocating; releasing
    the last reference, and only that, reports that the object is to be deallocated.
    One release is not an operation on [s]: that of a deallocating object without counts,
    an over-release, subtracts past zero and leaves all the bits of the count set, the
    pinned one among them. The lock is released, no other object's word changes; a missing
    entry counts as a zero word. Clearing a deallocating object drops its word and
    clears its weak references exactly when its weak flag is set (raw isa) or the
    isa says so (nonpointer isa). *)
Theorem sidetable_refines_counter t obj s : ready t obj false -> word_of t obj = encode s -> countable s ->
  (exists t', sidetable_retain t obj false false = Ok t' /\ stepped t t' obj false (encode (more s))) /\
  (s <> Deallocating 0 (is_weak s) ->
   exists t', sidetable_release t obj false false = Ok (t', snd (less s)) /\
     stepped t t' obj false (encode (fst (less s)))) /\
  (s = Deallocating 0 (is_weak s) ->
   exists t', sidetable_release t obj false false = Ok (t', false) /\
     stepped t t' obj false (2 ^ 64 - 2 + Zb (is_weak s)) /\ 2 ^ 63 <= word_of t' obj) /\
  (exists t', sidetable_tryRetain t obj false = Ok (t', negb (is_deallocating s)) /\
     stepped t t' obj false (encode (if is_deallocating s then s else more s))) /\
  (exists t', sidetable_setWeaklyReferenced_nolock t obj false = Ok t' /\ stepped t t' obj false (encode (set_weak s))) /\
  sidetable_isDeallocating t obj = Ok (is_deallocating s) /\
  sidetable_isWeaklyReferenced t obj = Ok (t, is_weak s) /\
  sidetable_retainCount t obj = Ok (t, 1 + retains s) /\
  (forall w,
    (if is_weak s then weak_clear_no_lock (weak_table t) obj = Ok w else w = weak_table t) ->
    exists t', sidetable_clearDeallocating t obj = Ok t' /\ stepped (with_weak t w) t' obj false 0) /\
  (forall w weakly side, (if weakly : bool then weak_clear_no_lock (weak_table t) obj = Ok w else w = weak_table t) ->
    exists t', clearDeallocating_slow_nolock t obj weakly side = Ok t' /\
      stepped (with_weak t w) t' obj false (if side : bool then 0 else word_of t obj)).
Proof.
  intros Hrd Hw Hs. destruct (encode_flags s Hs) as (Fw & Fd & _). split_and!.
  - destruct (sidetable_retain_ok t obj false Hrd) as (t' & E & H). rewrite Hw, encode_more in H by done. by exists t'.
  - intros Hne. destruct (sidetable_release_ok t obj false Hrd) as (t' & E & H).
    rewrite Hw, encode_less in E, H by done. by exists t'.
  - intros Es. destruct (sidetable_release_ok t obj false Hrd) as (t' & E & H).
    rewrite Hw, Es, release_word_over in E, H. exists t'. split; [done|]. split; [done|].
    rewrite (stepped_word _ _ _ _ _ H). cbn [fst]. destruct (is_weak s); cbn [Zb]; lia.
  - destruct (sidetable_tryRetain_ok t obj false Hrd) as (t' & E & H). unfold tryRetain_word in E, H.
    rewrite Hw, Fd in E, H. exists t'. destruct (is_deallocating s); [done|]. cbn [fst snd] in *.
    by rewrite encode_more in H.
  - destruct (sidetable_setWeaklyReferenced_ok t obj false Hrd) as (t' & E & H).
    rewrite Hw, encode_set_weak in H by done. by exists t'.
  - by rewrite (sidetable_isDeallocating_ok t obj false Hrd), Hw, Fd.
  - by rewrite (sidetable_isWeaklyReferenced_ok t obj Hrd), Hw, Fw.
  - rewrite (sidetable_retainCount_ok t obj Hrd), Hw. unfold countable in Hs. do 3 f_equal.
    destruct s as [n w|n w], w; simpl in *; dlia.
  - intros w Hweak. apply sidetable_clearDeallocating_ok; [done|]. by rewrite Hw, Fw.
  - intros w weakly side Hweak. by apply clearDeallocating_slow_ok.
Qed.

Lemma plain_no_flags c : 0 <= c < 2 ^ 61 -> no_flags (4 * c).
Proof.
  intros Hc. destruct (encode_flags (Live c false)) as (H1 & H2 & _); [by unfold countable|].
  cbn [encode Zb is_weak is_deallocating] in *. rewrite Z.add_0_r in *. by split.
Qed.
Lemma delta_small n : 0 <= n < 2 ^ 62 -> delta n = 4 * n.
Proof.
  intros Hn. unfold delta, SIDE_TABLE_RC_SHIFT. rewrite Z.shiftl_mul_pow2 by lia. rewrite wrap_small by lia. lia.
Qed.
Lemma move_word_live c e w : 0 <= c -> 0 < e -> c + e < 2 ^ 61 -> moveExtraRC_word (4 * c) e false w = encode (Live (c + e - 1) w).
Proof.
  intros Hc He Hlim. unfold moveExtraRC_word. rewrite (wrap_small 64), delta_small by lia.
  destruct (Z.leb_spec (2 ^ 64) (4 * c + 4 * (e - 1))); [lia|].
  replace (4 * c + 4 * (e - 1)) with (encode (Live (c + e - 1) false)) by (cbn [encode Zb]; lia).
  destruct w; [|done]. rewrite encode_set_weak; [done|]. unfold countable. simpl. lia.
Qed.
Lemma move_cases t obj c : ready t obj true -> word_of t obj = 4 * c -> 0 <= c ->
  forall e w, 0 <= e -> c + e < 2 ^ 61 ->
    (0 < e -> exists t', sidetable_moveExtraRC_nolock t obj false e false w = Ok t' /\
       stepped t t' obj true (encode (Live (c + e - 1) w))) /\
    (e = 0 -> 0 < c -> exists t', sidetable_moveExtraRC_nolock t obj false e false w = Ok t' /\
       stepped t t' obj true (2 ^ 63 + Zb w)) /\
    (e = 0 -> c = 0 -> exists t', sidetable_moveExtraRC_nolock t obj false e true w = Ok t' /\
       stepped t t' obj true (2 ^ 64 - 2 + Zb w)).
Proof.
  intros Hrd Hw Hc e w He Hlim. assert (Hnf : no_flags (word_of t obj)) by (rewrite Hw; apply plain_no_flags; lia). split_and!.
  - intros Hpos. destruct (sidetable_moveExtraRC_ok t obj true e false w Hrd Hnf) as (t' & E & H). exists t'. split; [done|].
    by rewrite Hw, move_word_live in H.
  - intros -> Hpos. destruct (sidetable_moveExtraRC_ok t obj true 0 false w Hrd Hnf) as (t' & E & H). exists t'. split; [done|].
    unfold moveExtraRC_word in H. rewrite Hw in H.
    change (delta (u64 (0 - 1))) with (2 ^ 64 - 4) in H. destruct (Z.leb_spec (2 ^ 64) (4 * c + (2 ^ 64 - 4))); [|lia].
    by destruct w.
  - intros -> ->. destruct (sidetable_moveExtraRC_ok t obj true 0 true w Hrd Hnf) as (t' & E & H). exists t'. split; [done|].
    unfold moveExtraRC_word in H. rewrite Hw in H. by destruct w.
Qed.

(** C29: moving counts to and from the isa, and saturation, under the lock. For an
    object whose side count is [c] and [c + n] below 2^61, adding [n] makes it [c + n];
    borrowing [n] of at least [n] makes it [c - n], reports [n] borrowed and [c - n]
    remaining; borrowing from an empty count changes nothing and reports zero; borrowing
    from a count between these fails the assertion, although the comment on the function
    says that less than the request may be subtracted; the count reads back; clearing
    the entry makes it zero. When an object whose inline count is [e] gets a raw isa, and
    [e] is not zero, its word takes the same retain count and the weak flag. With an inline
    count of zero the function goes wrong: with a side count above zero the computation
    carries, which pins the word and loses the count; and a deallocating object, which
    has neither count, gets all the bits of the count, the pinned one among them, beside its
    flags: 2^64 - 2 and the weak flag. A word with the pinned bit and no flags is left
    alone by retain, release, try-retain and by added counts. Borrowing, of fewer than
    2^60, is the exception: it takes counts from a pinned word like from any other. *)
Theorem sidetable_borrow_correct t obj n : ready t obj true -> 0 < n ->
  (forall c, word_of t obj = 4 * c -> 0 <= c -> c + n < 2 ^ 61 ->
   (exists t', sidetable_addExtraRC_nolock t obj true n = Ok (t', false) /\ stepped t t' obj true (4 * (c + n)) /\
      (roomy (refcnts t') -> exists t'', sidetable_clearExtraRC_nolock t' obj true = Ok t'' /\ stepped t' t'' obj true 0)) /\
   (n <= c -> exists t', sidetable_subExtraRC_nolock t obj true n = Ok (t', (n, c - n)) /\
      stepped t t' obj true (4 * (c - n))) /\
   (0 < c < n -> sidetable_subExtraRC_nolock t obj true n = Fault AssertFailed) /\
   (c = 0 -> exists t', sidetable_subExtraRC_nolock t obj true n = Ok (t', (0, 0)) /\ stepped t t' obj true 0) /\
   sidetable_getExtraRC_nolock t obj true = Ok c /\
   (forall e w, 0 <= e -> c + e < 2 ^ 61 ->
     (0 < e -> exists t', sidetable_moveExtraRC_nolock t obj false e false w = Ok t' /\
        stepped t t' obj true (encode (Live (c + e - 1) w))) /\
     (e = 0 -> 0 < c -> exists t', sidetable_moveExtraRC_nolock t obj false e false w = Ok t' /\
        stepped t t' obj true (2 ^ 63 + Zb w)) /\
     (e = 0 -> c = 0 -> exists t', sidetable_moveExtraRC_nolock t obj false e true w = Ok t' /\
        stepped t t' obj true (2 ^ 64 - 2 + Zb w)))) /\
  (2 ^ 63 <= word_of t obj -> dealloc_flag (word_of t obj) = false -> weak_flag (word_of t obj) = false -> n < 2 ^ 60 ->
   (exists t', sidetable_retain t obj false true = Ok t' /\ word_of t' obj = word_of t obj) /\
   (exists t', sidetable_release t obj false true = Ok (t', false) /\ word_of t' obj = word_of t obj) /\
   (exists t', sidetable_tryRetain t obj false = Ok (t', true) /\ word_of t' obj = word_of t obj) /\
   (exists t', sidetable_addExtraRC_nolock t obj true n = Ok (t', true) /\ word_of t' obj = word_of t obj) /\
   (exists t' k, sidetable_subExtraRC_nolock t obj true n = Ok (t', (n, k)) /\
      word_of t' obj = word_of t obj - 4 * n)).
Proof.
  intros Hrd Hn. split.
  - intros c Hw Hc Hlim. assert (Hnf : no_flags (word_of t obj)) by (rewrite Hw; apply plain_no_flags; lia).
    pose proof (delta_small n ltac:(lia)) as Hd.
    destruct (encode_flags (Live c false)) as (_ & _ & Hp); [unfold countable; simpl; lia|].
    cbn [encode Zb] in Hp. rewrite Z.add_0_r in Hp. split_and!.
    * destruct (sidetable_addExtraRC_ok t obj true n Hrd Hnf) as (t' & E & Hst & Hpres).
      unfold addExtraRC_word in E, Hst. rewrite Hw, Hp, Hd in E, Hst.
      destruct (Z.leb_spec (2 ^ 64) (4 * c + 4 * n)); [lia|]. cbn [fst snd] in E, Hst.
      replace (4 * c + 4 * n) with (4 * (c + n)) in Hst by lia. exists t'. split; [done|]. split; [done|].
      intros Hroom. apply sidetable_clearExtraRC_ok; [|done]. destruct Hst as [Hr' _ Hl' _], Hrd as [_ _ Ho _]. by split.
    * intros Hle. destruct (sidetable_subExtraRC_ok t obj true n Hrd Hnf) as (t' & E & Hst & _); [right; rewrite Hw, Hd; lia|].
      rewrite Hw, Hd in E, Hst. destruct (Z.eqb_spec (4 * c) 0); [lia|]. exists t'.
      replace ((4 * c - 4 * n) / 4) with (c - n) in E by dlia. replace (4 * c - 4 * n) with (4 * (c - n)) in Hst by lia. done.
    * intros Hlt. apply (sidetable_subExtraRC_short t obj true n Hrd Hnf). rewrite Hw, Hd. lia.
    * intros ->. destruct (sidetable_subExtraRC_ok t obj true n Hrd Hnf) as (t' & E & Hst & _); [left; rewrite Hw; lia|].
      rewrite Hw in E, Hst. cbn in E, Hst. by exists t'.
    * rewrite (sidetable_getExtraRC_ok t obj true Hrd), Hw. f_equal. dlia.
    * exact (move_cases t obj c Hrd Hw Hc).
  - intros Hpin Hd Hw Hn60. pose proof (ready_word _ _ _ Hrd) as Hword. pose proof (delta_small n ltac:(lia)) as Hdel.
    assert (Hp : pinned (word_of t obj) = true) by (rewrite pinned_spec by done; by apply Z.leb_le).
    assert (Hnf : no_flags (word_of t obj)) by done. split_and!.
    * destruct (sidetable_retain_ok t obj true Hrd) as (t' & E & H). apply stepped_word in H. unfold retain_word in H.
      rewrite Hp in H. by exists t'.
    * destruct (sidetable_release_ok t obj true Hrd) as (t' & E & H). apply stepped_word in H. unfold release_word in E, H.
      change SIDE_TABLE_DEALLOCATING with 2 in E, H.
      destruct (Z.ltb_spec (word_of t obj) 2); [lia|]. rewrite Hp in E, H. by exists t'.
    * destruct (sidetable_tryRetain_ok t obj true Hrd) as (t' & E & H). apply stepped_word in H.
      unfold tryRetain_word, retain_word in E, H. rewrite Hd, Hp in E, H. by exists t'.
    * destruct (sidetable_addExtraRC_ok t obj true n Hrd Hnf) as (t' & E & H & _). apply stepped_word in H.
      unfold addExtraRC_word in E, H. rewrite Hp in E, H. by exists t'.
    * destruct (sidetable_subExtraRC_ok t obj true n Hrd Hnf) as (t' & E & H & _); [right; rewrite Hdel; lia|].
      apply stepped_word in H. rewrite Hdel in E, H. destruct (Z.eqb_spec (word_of t obj) 0); [lia|]. by exists t', ((word_of t obj - 4 * n) / 4).
Qed.

End SideTableOps.

(** ** Witnesses *)
Module SideTableWitness.
#[local] Instance no_weak_table : WeakTableOps unit :=
  {| weak_clear_no_lock w _ := Ok w; weak_is_registered_no_lock _ _ := Ok false |}.
Definition memory (n : nat) : Z * Z := (7, 0).
Definition empty_side (held : bool) : SideTable unit :=
  {| slock := held; refcnts := Table Null 0 0 0; weak_table := tt |}.
Definition object : Z := 0x1000.
Lemma object_ready held : ready memory (empty_side held) object held.
Proof.
  split; try done.
  split; [left; by split_and!|done].
Qed.
(** An object with a pinned word. *)
Definition pinned_side : SideTable unit := Eval vm_compute in
  match sidetable_moveExtraRC_nolock memory (empty_side true) object false (2 ^ 61 + 1) false false with
  | Ok t => t | Fault _ => empty_side true end.
Lemma pinned_made :
  sidetable_moveExtraRC_nolock memory (empty_side true) object false (2 ^ 61 + 1) false false = Ok pinned_side.
Proof. by vm_compute. Qed.
Lemma pinned_ready : ready memory pinned_side object true /\ word_of memory pinned_side object = 2 ^ 63.
Proof.
  destruct (sidetable_moveExtraRC_ok memory (empty_side true) object true (2 ^ 61 + 1) false false (object_ready true))
    as (t' & E & [Hr Hu Hl _]); [by vm_compute|].
  rewrite pinned_made in E. injection E as <-. split; [|by vm_compute].
  split; [exact Hr|by vm_compute|exact (rd_obj _ _ _ _ (object_ready true))|exact Hl].
Qed.

Lemma sidetable_refines_counter_witness :
  exists t', sidetable_retain memory (empty_side false) object false false = Ok t' /\
    word_of memory t' object = 4.
Proof.
  destruct (sidetable_refines_counter memory (empty_side false) object (Live 0 false) (object_ready false))
    as ((t' & E & H) & _); [by vm_compute|by vm_compute|].
  exists t'. split; [exact E|]. exact (stepped_word _ _ _ _ _ _ H).
Defined.
Lemma sidetable_borrow_correct_witness :
  (exists t', sidetable_addExtraRC_nolock memory (empty_side true) object true 128 = Ok (t', false) /\
    word_of memory t' object = 512) /\
  (exists t', sidetable_retain memory pinned_side object false true = Ok t' /\ word_of memory t' object = 2 ^ 63).
Proof.
  split.
  - destruct (sidetable_borrow_correct memory (empty_side true) object 128 (object_ready true)) as [Hb _]; [lia|].
    destruct (Hb 0) as ((t' & E & H & _) & _); [by vm_compute|lia|lia|].
    exists t'. split; [exact E|]. exact (stepped_word _ _ _ _ _ _ H).
  - destruct pinned_ready as [Hr Hw].
    destruct (sidetable_borrow_correct memory pinned_side object 128 Hr) as [_ Hs]; [lia|].
    destruct Hs as ((t' & E & H) & _); [rewrite Hw; lia|rewrite Hw; by vm_compute|rewrite Hw; by vm_compute|lia|].
    exists t'. split; [exact E|congruence].
Defined.
End SideTableWitness.
