(* ===== verification/TaggedPointer.v ===== *)
(** * objc-internal.h: tagged pointers

    Objects whose value is in the pointer itself. A [tag_config] holds the
    constants of one of the three representations (split on arm64, most or least
    significant tag bit elsewhere); pointers are built, obfuscated, decoded and
    taken apart here, and the class tables that dispatch uses are registered. *)

From stdpp Require Import prelude numbers list.
From Stdlib Require Import ZArith Lia Bool Btauto.
From S2P Require Import Prelude.

Record tag_config := {
  SPLIT_TAGGED_POINTERS : bool;
  MSB_TAGGED_POINTERS : bool;
  TAG_SLOT_MASK : Z;
  TAG_MASK : Z;
  TAG_INDEX_SHIFT : Z;
  TAG_SLOT_SHIFT : Z;
  TAG_PAYLOAD_LSHIFT : Z;
  TAG_PAYLOAD_RSHIFT : Z;
  TAG_EXT_MASK : Z;
  TAG_NO_OBFUSCATION_MASK : Z;
  TAG_EXT_INDEX_SHIFT : Z;
  TAG_EXT_SLOT_SHIFT : Z;
  TAG_EXT_PAYLOAD_LSHIFT : Z;
  TAG_EXT_PAYLOAD_RSHIFT : Z;
}.
Definition TAG_INDEX_MASK : Z := 0x7.
Definition TAG_EXT_INDEX_MASK : Z := 0xff.
Definition TAG_EXT_SLOT_MASK : Z := 0xff.
(** The split representation (arm64). *)
Definition split_tags : tag_config := {|
  SPLIT_TAGGED_POINTERS := true; MSB_TAGGED_POINTERS := true; TAG_SLOT_MASK := 0x7;
  TAG_MASK := Z.shiftl 1 63; TAG_INDEX_SHIFT := 0; TAG_SLOT_SHIFT := 0;
  TAG_PAYLOAD_LSHIFT := 1; TAG_PAYLOAD_RSHIFT := 4;
  TAG_EXT_MASK := Z.lor (Z.shiftl 1 63) 0x7;
  TAG_NO_OBFUSCATION_MASK := Z.lor (Z.shiftl 1 62) (Z.lor (Z.shiftl 1 63) 0x7);
  TAG_EXT_INDEX_SHIFT := 55; TAG_EXT_SLOT_SHIFT := 55;
  TAG_EXT_PAYLOAD_LSHIFT := 9; TAG_EXT_PAYLOAD_RSHIFT := 12;
|}.
(** Tag in the most significant bits. The no-obfuscation mask is not defined
    there, and not used. *)
Definition msb_tags : tag_config := {|
  SPLIT_TAGGED_POINTERS := false; MSB_TAGGED_POINTERS := true; TAG_SLOT_MASK := 0xf;
  TAG_MASK := Z.shiftl 1 63; TAG_INDEX_SHIFT := 60; TAG_SLOT_SHIFT := 60;
  TAG_PAYLOAD_LSHIFT := 4; TAG_PAYLOAD_RSHIFT := 4;
  TAG_EXT_MASK := Z.shiftl 0xf 60; TAG_NO_OBFUSCATION_MASK := 0;
  TAG_EXT_INDEX_SHIFT := 52; TAG_EXT_SLOT_SHIFT := 52;
  TAG_EXT_PAYLOAD_LSHIFT := 12; TAG_EXT_PAYLOAD_RSHIFT := 12;
|}.
(** Tag in the least significant bits (64-bit Mac). *)
Definition lsb_tags : tag_config := {|
  SPLIT_TAGGED_POINTERS := false; MSB_TAGGED_POINTERS := false; TAG_SLOT_MASK := 0xf;
  TAG_MASK := 1; TAG_INDEX_SHIFT := 1; TAG_SLOT_SHIFT := 0;
  TAG_PAYLOAD_LSHIFT := 0; TAG_PAYLOAD_RSHIFT := 4;
  TAG_EXT_MASK := 0xf; TAG_NO_OBFUSCATION_MASK := 0;
  TAG_EXT_INDEX_SHIFT := 4; TAG_EXT_SLOT_SHIFT := 4;
  TAG_EXT_PAYLOAD_LSHIFT := 0; TAG_EXT_PAYLOAD_RSHIFT := 12;
|}.

(** [objc_tag_index_t]: the bounds. *)
Definition OBJC_TAG_First60BitPayload : Z := 0.
Definition OBJC_TAG_Last60BitPayload : Z := 6.
Definition OBJC_TAG_RESERVED_7 : Z := 7.
Definition OBJC_TAG_First52BitPayload : Z := 8.
Definition OBJC_TAG_Last52BitPayload : Z := 263.
Definition OBJC_TAG_FirstUnobfuscatedSplitTag : Z := 136.

(** The process-wide randomness: [objc_debug_taggedpointer_obfuscator] and
    [objc_debug_tag60_permutations]. *)
Record obfuscation := { obfuscator : Z; tag60_permutations : list Z }.

Section Tagged.
Context (G : tag_config) (O : obfuscation).

Definition basicTagToObfuscatedTag (tag : Z) : Z := nth (Z.to_nat tag) (tag60_permutations O) 0.
Fixpoint find_tag (l : list Z) (i tag : Z) : Z :=
  match l with
  | [] => 7
  | p :: l => if i <? 7 then if p =? tag then i else find_tag l (i + 1) tag else 7
  end.
Definition obfuscatedTagToBasicTag (tag : Z) : Z := find_tag (tag60_permutations O) 0 tag.

Definition encodeTaggedPointer (ptr : Z) : Z :=
  let value := Z.lxor (obfuscator O) ptr in
  if SPLIT_TAGGED_POINTERS G then
    if Z.land value (TAG_NO_OBFUSCATION_MASK G) =? TAG_NO_OBFUSCATION_MASK G then ptr
    else
      let basicTag := Z.land (Z.shiftr value (TAG_INDEX_SHIFT G)) TAG_INDEX_MASK in
      let permutedTag := basicTagToObfuscatedTag basicTag in
      let value := Z.land value (unot 64 (Z.shiftl TAG_INDEX_MASK (TAG_INDEX_SHIFT G))) in
      Z.lor value (Z.shiftl permutedTag (TAG_INDEX_SHIFT G))
  else value.
Definition decodeTaggedPointer_noPermute (ptr : Z) : Z :=
  if SPLIT_TAGGED_POINTERS G && (Z.land ptr (TAG_NO_OBFUSCATION_MASK G) =? TAG_NO_OBFUSCATION_MASK G) then ptr
  else Z.lxor ptr (obfuscator O).
Definition decodeTaggedPointer (ptr : Z) : Z :=
  let value := decodeTaggedPointer_noPermute ptr in
  if SPLIT_TAGGED_POINTERS G then
    let basicTag := Z.land (Z.shiftr value (TAG_INDEX_SHIFT G)) TAG_INDEX_MASK in
    let value := Z.land value (unot 64 (Z.shiftl TAG_INDEX_MASK (TAG_INDEX_SHIFT G))) in
    Z.lor value (Z.shiftl (obfuscatedTagToBasicTag basicTag) (TAG_INDEX_SHIFT G))
  else value.

Definition makeTaggedPointer (tag value : Z) : Z :=
  if tag <=? OBJC_TAG_Last60BitPayload then
    encodeTaggedPointer (Z.lor (Z.lor (TAG_MASK G) (Z.shiftl tag (TAG_INDEX_SHIFT G)))
      (Z.shiftr (u64 (Z.shiftl value (TAG_PAYLOAD_RSHIFT G))) (TAG_PAYLOAD_LSHIFT G)))
  else
    encodeTaggedPointer (Z.lor (Z.lor (TAG_EXT_MASK G)
        (Z.shiftl (tag - OBJC_TAG_First52BitPayload) (TAG_EXT_INDEX_SHIFT G)))
      (Z.shiftr (u64 (Z.shiftl value (TAG_EXT_PAYLOAD_RSHIFT G))) (TAG_EXT_PAYLOAD_LSHIFT G))).

Definition isTaggedPointer (ptr : Z) : bool := Z.land ptr (TAG_MASK G) =? TAG_MASK G.
Definition isTaggedPointerOrNil (ptr : Z) : bool := negb (nz ptr) || (Z.land ptr (TAG_MASK G) =? TAG_MASK G).
Definition isExtTaggedPointer (ptr : Z) : bool :=
  Z.land (decodeTaggedPointer ptr) (TAG_EXT_MASK G) =? TAG_EXT_MASK G.
Definition isBasicTaggedPointer (ptr : Z) : bool := isTaggedPointer ptr && negb (isExtTaggedPointer ptr).

Definition getTaggedPointerTag (ptr : Z) : Z :=
  let value := decodeTaggedPointer ptr in
  let basicTag := Z.land (Z.shiftr value (TAG_INDEX_SHIFT G)) TAG_INDEX_MASK in
  let extTag := Z.land (Z.shiftr value (TAG_EXT_INDEX_SHIFT G)) TAG_EXT_INDEX_MASK in
  if basicTag =? TAG_INDEX_MASK then extTag + OBJC_TAG_First52BitPayload else basicTag.
Definition getTaggedPointerValue (ptr : Z) : Z :=
  let value := decodeTaggedPointer_noPermute ptr in
  let basicTag := Z.land (Z.shiftr value (TAG_INDEX_SHIFT G)) TAG_INDEX_MASK in
  if basicTag =? TAG_INDEX_MASK
  then Z.shiftr (u64 (Z.shiftl value (TAG_EXT_PAYLOAD_LSHIFT G))) (TAG_EXT_PAYLOAD_RSHIFT G)
  else Z.shiftr (u64 (Z.shiftl value (TAG_PAYLOAD_LSHIFT G))) (TAG_PAYLOAD_RSHIFT G).
(** The right shift is arithmetic. *)
Definition getTaggedPointerSignedValue (ptr : Z) : Z :=
  let value := decodeTaggedPointer_noPermute ptr in
  let basicTag := Z.land (Z.shiftr value (TAG_INDEX_SHIFT G)) TAG_INDEX_MASK in
  if basicTag =? TAG_INDEX_MASK
  then Z.shiftr (sint 64 (Z.shiftl value (TAG_EXT_PAYLOAD_LSHIFT G))) (TAG_EXT_PAYLOAD_RSHIFT G)
  else Z.shiftr (sint 64 (Z.shiftl value (TAG_PAYLOAD_LSHIFT G))) (TAG_PAYLOAD_RSHIFT G).
(** Split representation only. *)
Definition TAG_CONSTANT_POINTER_MASK : Z :=
  unot 64 (Z.lor (TAG_EXT_MASK G) (Z.shiftl TAG_EXT_SLOT_MASK (TAG_EXT_SLOT_SHIFT G))).
Definition getTaggedPointerRawPointerValue (ptr : Z) : Z := Z.land ptr TAG_CONSTANT_POINTER_MASK.

(** ** Class tables

    A slot is an index in [objc_tag_classes] or in [objc_tag_ext_classes]. *)
Inductive slot := BasicSlot (i : Z) | ExtSlot (i : Z).
#[export] Instance slot_eq_dec : EqDecision slot.
Proof. solve_decision. Defined.

Definition classSlotForBasicTagIndex (tag : Z) : slot :=
  if SPLIT_TAGGED_POINTERS G then BasicSlot (basicTagToObfuscatedTag tag)
  else
    let tagObfuscator := Z.land (Z.shiftr (obfuscator O) (TAG_INDEX_SHIFT G)) TAG_INDEX_MASK in
    let obfuscatedTag := Z.lxor tag tagObfuscator in
    if MSB_TAGGED_POINTERS G then BasicSlot (Z.lor 0x8 obfuscatedTag)
    else BasicSlot (Z.lor (Z.shiftl obfuscatedTag 1) 1).
Definition classSlotForTagIndex (tag : Z) : option slot :=
  if (OBJC_TAG_First60BitPayload <=? tag) && (tag <=? OBJC_TAG_Last60BitPayload) then
    Some (classSlotForBasicTagIndex tag)
  else if (OBJC_TAG_First52BitPayload <=? tag) && (tag <=? OBJC_TAG_Last52BitPayload) then
    let index := tag - OBJC_TAG_First52BitPayload in
    if SPLIT_TAGGED_POINTERS G && (OBJC_TAG_FirstUnobfuscatedSplitTag <=? tag) then Some (ExtSlot index)
    else
      let tagObfuscator := Z.land (Z.shiftr (obfuscator O) (TAG_EXT_INDEX_SHIFT G)) TAG_EXT_INDEX_MASK in
      Some (ExtSlot (Z.lxor index tagObfuscator))
  else None.

(** The tables, nil where nothing is registered; [unrecognized] is the address of
    the placeholder class. *)
Definition classes : Type := slot -> Z.
Definition store_slot (T : classes) (s : slot) (cls : Z) : classes := fun s' => if decide (s' = s) then cls else T s'.
Definition registerTaggedPointerClass (enabled : bool) (unrecognized : Z) (T : classes) (tag cls : Z) : res classes :=
  if negb enabled then Fault FatalError
  else match classSlotForTagIndex tag with
  | None => Fault FatalError
  | Some s =>
    let oldCls := T s in
    if nz cls && nz oldCls && negb (cls =? oldCls) then Fault FatalError
    else
      let T := store_slot T s cls in
      if (tag <? OBJC_TAG_First60BitPayload) || (tag >? OBJC_TAG_Last60BitPayload) then
        let extSlot := classSlotForBasicTagIndex OBJC_TAG_RESERVED_7 in
        if T extSlot =? 0 then Ok (store_slot T extSlot unrecognized) else Ok T
      else Ok T
  end.
Definition getClassForTag (T : classes) (tag : Z) : Z :=
  match classSlotForTagIndex tag with Some s => T s | None => 0 end.
(** [objc_object::getIsa] of a tagged pointer. *)
Definition tagged_getIsa (unrecognized : Z) (T : classes) (ptr : Z) : Z :=
  let cls := T (BasicSlot (Z.land (Z.shiftr ptr (TAG_SLOT_SHIFT G)) (TAG_SLOT_MASK G))) in
  if cls =? unrecognized
  then T (ExtSlot (Z.land (Z.shiftr ptr (TAG_EXT_SLOT_SHIFT G)) TAG_EXT_SLOT_MASK))
  else cls.
End Tagged.

(** ** initializeTaggedPointerObfuscator

    [random] is what [arc4random_buf] wrote, [targets] the results of
    [arc4random_uniform(i + 1)] for [i] from 6 down to 0. *)
Definition swap_at (l : list Z) (i j : nat) : list Z :=
  match l !! i, l !! j with Some x, Some y => <[j := x]> (<[i := y]> l) | _, _ => l end.
Fixpoint shuffle (i : nat) (targets : list nat) (l : list Z) : list Z :=
  match targets with
  | [] => l
  | t :: targets => shuffle (pred i) targets (swap_at l i t)
  end.
Definition initial_permutations : list Z := [0; 1; 2; 3; 4; 5; 6; 7].
Definition initializeTaggedPointerObfuscator (G : tag_config) (enabled : bool) (random : Z) (targets : list nat) : obfuscation :=
  if enabled then
    let obf := Z.land random (unot 64 (TAG_MASK G)) in
    if SPLIT_TAGGED_POINTERS G then
      {| obfuscator := Z.land obf (unot 64 (Z.lor (TAG_EXT_MASK G) (TAG_NO_OBFUSCATION_MASK G)));
         tag60_permutations := shuffle 6 targets initial_permutations |}
    else {| obfuscator := obf; tag60_permutations := initial_permutations |}
  else {| obfuscator := 0; tag60_permutations := initial_permutations |}.

(** ** The configurations, and an admissible obfuscation *)
Definition tag_configs : list tag_config := [split_tags; msb_tags; lsb_tags].
(** What [initializeTaggedPointerObfuscator] establishes. *)
Record obfuscation_ok (G : tag_config) (O : obfuscation) : Prop := {
  ok_word : in_word 64 (obfuscator O);
  ok_tag : Z.land (obfuscator O) (TAG_MASK G) = 0;
  ok_unobfuscated : SPLIT_TAGGED_POINTERS G = true -> Z.land (obfuscator O) (TAG_NO_OBFUSCATION_MASK G) = 0;
  ok_permutation : tag60_permutations O ≡ₚ initial_permutations;
  ok_fixed : tag60_permutations O !! 7%nat = Some 7;
}.

(** ** The permutation of the basic tags *)
Lemma swap_at_Permutation l i j : swap_at l i j ≡ₚ l.
Proof.
  unfold swap_at. destruct (l !! i) as [x|] eqn:Hi; [|done]. destruct (l !! j) as [y|] eqn:Hj; [|done].
  destruct (decide (i = j)) as [->|Hne].
  - rewrite Hi in Hj. injection Hj as ->. rewrite list_insert_insert_eq. by rewrite list_insert_id.
  - apply (Permutation_inj _ l). pose proof (lookup_lt_Some _ _ _ Hi). pose proof (lookup_lt_Some _ _ _ Hj).
    split; [by rewrite !length_insert|].
    set (f := fun k : nat => if decide (k = i) then j else if decide (k = j) then i else k).
    exists f. split.
    + intros a b. unfold f. repeat case_decide; congruence.
    + intros k. unfold f. repeat case_decide; subst.
      * by rewrite list_lookup_insert_ne, list_lookup_insert_eq by done.
      * by rewrite list_lookup_insert_eq by (by rewrite length_insert).
      * by rewrite !list_lookup_insert_ne by done.
Qed.
Lemma swap_at_above l i j k : (i < k)%nat -> (j < k)%nat -> swap_at l i j !! k = l !! k.
Proof.
  intros. unfold swap_at. destruct (l !! i), (l !! j); try done. by rewrite !list_lookup_insert_ne by lia.
Qed.
Lemma shuffle_spec targets : forall i l, (i < 7)%nat -> Forall (fun t => t < 7)%nat targets ->
  shuffle i targets l ≡ₚ l /\ shuffle i targets l !! 7%nat = l !! 7%nat.
Proof.
  induction targets as [|t targets IH]; intros i l Hi Ht; [done|]. cbn [shuffle]. apply Forall_cons in Ht as [Ht Hts].
  destruct (IH (pred i) (swap_at l i t) ltac:(lia) Hts) as [Hp E]. split.
  - by rewrite Hp, swap_at_Permutation.
  - rewrite E. by apply swap_at_above.
Qed.

Lemma find_tag_nth l : forall i k, NoDup l -> (k < length l)%nat ->
  find_tag l i (nth k l 0) = if i + Z.of_nat k <? 7 then i + Z.of_nat k else 7.
Proof.
  induction l as [|p l IH]; intros i k Hnd Hk; [simpl in Hk; lia|].
  apply NoDup_cons in Hnd as [Hp Hnd]. cbn [find_tag]. destruct k as [|k]; cbn [nth].
  - rewrite Z.eqb_refl. by rewrite Z.add_0_r.
  - simpl in Hk. rewrite IH by (done || lia).
    assert (p <> nth k l 0).
    { intros ->. apply Hp. rewrite nth_lookup. apply list_elem_of_lookup. exists k.
      destruct (l !! k) eqn:E; [done|]. apply lookup_ge_None in E. lia. }
    zcmp; lia.
Qed.

Section Permutation.
Context (G : tag_config) (O : obfuscation) (HO : obfuscation_ok G O).
Lemma permutation_NoDup : NoDup (tag60_permutations O) /\ length (tag60_permutations O) = 8%nat.
Proof.
  rewrite (ok_permutation _ _ HO). split; [|done]. apply (bool_decide_unpack _). by vm_compute.
Qed.
Lemma permuted_range t : 0 <= t < 8 -> 0 <= basicTagToObfuscatedTag O t < 8.
Proof.
  intros Ht. destruct permutation_NoDup as [_ Hl]. unfold basicTagToObfuscatedTag.
  assert (H : Forall (fun x => 0 <= x < 8) (tag60_permutations O)).
  { rewrite (ok_permutation _ _ HO). unfold initial_permutations. repeat (apply Forall_cons; split; [lia|]). constructor. }
  rewrite Forall_nth in H. apply H. lia.
Qed.
Lemma permute_inverse t : 0 <= t < 8 -> obfuscatedTagToBasicTag O (basicTagToObfuscatedTag O t) = t.
Proof.
  intros Ht. destruct permutation_NoDup as [Hnd Hl]. unfold obfuscatedTagToBasicTag, basicTagToObfuscatedTag.
  rewrite find_tag_nth by (done || lia). zcmp; lia.
Qed.
Lemma permuted_7 : basicTagToObfuscatedTag O 7 = 7.
Proof. unfold basicTagToObfuscatedTag. change (Z.to_nat 7) with 7%nat. by rewrite (nth_lookup_Some _ _ _ _ (ok_fixed _ _ HO)). Qed.
Lemma permuted_is_7 t : 0 <= t < 8 -> basicTagToObfuscatedTag O t = 7 <-> t = 7.
Proof.
  intros Ht. split; [|intros ->; apply permuted_7]. intros E. rewrite <- permuted_7 in E.
  rewrite <- (permute_inverse t Ht), E. by apply permute_inverse.
Qed.
Lemma permuted_inj t t' : 0 <= t < 8 -> 0 <= t' < 8 ->
  basicTagToObfuscatedTag O t = basicTagToObfuscatedTag O t' -> t = t'.
Proof. intros Ht Ht' E. rewrite <- (permute_inverse t Ht), E. by apply permute_inverse. Qed.
End Permutation.

(** ** Words by their three low bits and the rest *)
Lemma testbit_low3 x i : 0 <= i -> Z.testbit x i = if i <? 3 then Z.testbit (Z.land x 7) i else Z.testbit (Z.shiftr x 3) (i - 3).
Proof.
  intros Hi. change 7 with (2 ^ 3 - 1). rewrite Z.land_spec, testbit_pow2m1 by lia.
  destruct (Z.ltb_spec i 3); [by rewrite andb_true_r|]. rewrite Z.shiftr_spec by lia. f_equal. lia.
Qed.
Lemma low3_ext x y : Z.land x 7 = Z.land y 7 -> Z.shiftr x 3 = Z.shiftr y 3 -> x = y.
Proof. intros E1 E2. apply Z.bits_inj'. intros i Hi. by rewrite (testbit_low3 x), (testbit_low3 y), E1, E2 by done. Qed.
Lemma land7_range x : 0 <= Z.land x 7 < 8.
Proof. change 7 with (2 ^ 3 - 1). rewrite land_mask by lia. apply Z.mod_pos_bound. lia. Qed.
Lemma retag_spec v t : in_word 64 v -> 0 <= t < 8 ->
  let r := Z.lor (Z.land v (unot 64 (Z.shiftl TAG_INDEX_MASK 0))) (Z.shiftl t 0) in
  Z.land r 7 = t /\ Z.shiftr r 3 = Z.shiftr v 3 /\ in_word 64 r.
Proof.
  intros Hv Ht r. unfold r, TAG_INDEX_MASK, unot. rewrite !Z.shiftl_0_r. change 7 with (2 ^ 3 - 1). split_and!.
  - rewrite <- (Z.mod_small t (2 ^ 3)) at 2 by lia. rewrite <- land_mask by lia. zbits.
  - unfold in_word in Hv. zbits; repeat first [rewrite (testbit_high 3 t) by lia | rewrite (testbit_high 64 v) by lia];
    by rewrite ?orb_false_r, ?andb_true_r, ?andb_false_r.
  - apply lor_range; [lia| |unfold in_word; lia]. by apply land_range.
Qed.
(** Bits that [m] selects. *)
Lemma land_eq_mask x m : Z.land x m = m <-> forall i, 0 <= i -> Z.testbit m i = true -> Z.testbit x i = true.
Proof.
  split.
  - intros E i Hi Hm. assert (H : Z.testbit (Z.land x m) i = true) by (by rewrite E).
    rewrite Z.land_spec in H. by apply andb_true_iff in H as [? _].
  - intros H. apply Z.bits_inj'. intros i Hi. rewrite Z.land_spec. specialize (H i Hi).
    destruct (Z.testbit m i); [by rewrite H|apply andb_false_r].
Qed.
Lemma land_clear x m i : 0 <= i -> Z.land x m = 0 -> Z.testbit m i = true -> Z.testbit x i = false.
Proof.
  intros Hi E Hm. assert (H : Z.testbit (Z.land x m) i = false) by (by rewrite E, Z.bits_0).
  by rewrite Z.land_spec, Hm, andb_true_r in H.
Qed.

(** The mask of the unobfuscated extended tags. *)
Lemma no_obfuscation_mask v : Z.land v (TAG_NO_OBFUSCATION_MASK split_tags) = TAG_NO_OBFUSCATION_MASK split_tags <->
  Z.testbit (Z.shiftr v 3) 59 = true /\ Z.testbit (Z.shiftr v 3) 60 = true /\ Z.land v 7 = 7.
Proof.
  rewrite !land_eq_mask, !Z.shiftr_spec by lia. cbn -[Z.testbit TAG_NO_OBFUSCATION_MASK]. split.
  - intros H. split_and!; [by apply H|by apply H|]. intros i Hi Hb. apply H; [done|].
    rewrite testbit_low3 in Hb |- * by done. zcmp; [done|]. by rewrite Z.bits_0 in Hb.
  - intros (H62 & H63 & H7) i Hi Hb.
    assert (C : i = 62 \/ i = 63 \/ 0 <= i < 3).
    { assert (i < 64).
      { apply Z.nle_gt. intros Hge. rewrite (testbit_high 64) in Hb; [done|vm_compute; split; congruence|lia|lia]. }
      pose proof (forall_below 64 (fun i => negb (Z.testbit (TAG_NO_OBFUSCATION_MASK split_tags) i) || (i =? 62) || (i =? 63) || (i <? 3))
        eq_refl i ltac:(lia)) as F. cbn beta in F. rewrite Hb in F. cbn [negb orb] in F.
      apply orb_true_iff in F as [F|F]; [apply orb_true_iff in F as [F|F]|]; apply Z.eqb_eq in F || apply Z.ltb_lt in F; lia. }
    destruct C as [->|[->|C]]; [done|done|]. apply H7; [done|]. change 7 with (2 ^ 3 - 1). rewrite testbit_pow2m1 by lia. lia.
Qed.

(** ** Encoding and decoding *)
Lemma split_config G : In G tag_configs -> SPLIT_TAGGED_POINTERS G = true -> G = split_tags.
Proof. intros [<-|[<-|[<-|[]]]]; done. Qed.
Definition unobfuscated (v : Z) : bool :=
  Z.land v (TAG_NO_OBFUSCATION_MASK split_tags) =? TAG_NO_OBFUSCATION_MASK split_tags.
Lemma encode_in_word G O p : In G tag_configs -> obfuscation_ok G O -> in_word 64 p ->
  in_word 64 (encodeTaggedPointer G O p).
Proof.
  intros HG HO Hp. pose proof (lxor_range 64 _ _ ltac:(lia) (ok_word _ _ HO) Hp) as Hv.
  unfold encodeTaggedPointer. destruct (SPLIT_TAGGED_POINTERS G) eqn:Es; [|done].
  rewrite (split_config G HG Es) in *. destruct (_ =? _); [done|].
  apply retag_spec; [done|]. eapply permuted_range; [done|]. apply land7_range.
Qed.

Section Split.
Context (O : obfuscation) (HO : obfuscation_ok split_tags O).
Lemma obfuscator_clear i : 0 <= i -> Z.testbit (TAG_NO_OBFUSCATION_MASK split_tags) i = true -> Z.testbit (obfuscator O) i = false.
Proof. intros Hi. apply land_clear; [done|by apply (ok_unobfuscated _ _ HO)]. Qed.
Lemma lxor_low3 x : Z.land (Z.lxor (obfuscator O) x) 7 = Z.land x 7.
Proof.
  apply Z.bits_inj'. intros i Hi. rewrite !Z.land_spec, Z.lxor_spec.
  destruct (Z.testbit 7 i) eqn:E7; [|by rewrite !andb_false_r].
  rewrite obfuscator_clear; [by destruct (Z.testbit x i)|done|].
  cbn [TAG_NO_OBFUSCATION_MASK split_tags]. by rewrite !Z.lor_spec, E7, !orb_true_r.
Qed.
Lemma lxor_unobfuscated x : unobfuscated (Z.lxor (obfuscator O) x) = unobfuscated x.
Proof.
  apply eq_true_iff_eq. unfold unobfuscated. rewrite !Z.eqb_eq, !land_eq_mask.
  assert (H : forall i, 0 <= i -> Z.testbit (TAG_NO_OBFUSCATION_MASK split_tags) i = true ->
    Z.testbit (Z.lxor (obfuscator O) x) i = Z.testbit x i)
    by (intros i Hi Hb; by rewrite Z.lxor_spec, obfuscator_clear, xorb_false_l).
  split; intros Hall i Hi Hb; specialize (Hall i Hi Hb); by rewrite H in *.
Qed.
Lemma encode_split p : in_word 64 p -> let e := encodeTaggedPointer split_tags O p in
  Z.land e 7 = basicTagToObfuscatedTag O (Z.land p 7) /\
  Z.shiftr e 3 = (if unobfuscated p then Z.shiftr p 3 else Z.lxor (Z.shiftr (obfuscator O) 3) (Z.shiftr p 3)) /\
  unobfuscated e = unobfuscated p.
Proof.
  intros Hp e. unfold e, encodeTaggedPointer. cbn [SPLIT_TAGGED_POINTERS split_tags].
  change (_ =? TAG_NO_OBFUSCATION_MASK _) with (unobfuscated (Z.lxor (obfuscator O) p)). rewrite lxor_unobfuscated.
  destruct (unobfuscated p) eqn:Eu.
  - pose proof Eu as Eu'. apply Z.eqb_eq, no_obfuscation_mask in Eu' as (_ & _ & E7). rewrite E7. split_and!; [|done|done]. symmetry. by eapply permuted_7.
  - cbn [TAG_INDEX_SHIFT split_tags]. rewrite Z.shiftr_0_r.
    assert (Z.land (Z.lxor (obfuscator O) p) TAG_INDEX_MASK = Z.land p 7) as -> by apply lxor_low3. pose proof (land7_range p) as Ht.
    destruct (retag_spec (Z.lxor (obfuscator O) p) (basicTagToObfuscatedTag O (Z.land p 7))) as (E1 & E2 & E3);
      [apply lxor_range; [lia|apply HO|exact Hp]|by eapply permuted_range|].
    split_and!; [done|by rewrite E2, Z.shiftr_lxor|].
    rewrite <- Eu, <- (lxor_unobfuscated p). apply eq_true_iff_eq. unfold unobfuscated.
    rewrite !Z.eqb_eq, !no_obfuscation_mask, E1, E2, lxor_low3. by rewrite (permuted_is_7 _ _ HO) by done.
Qed.
End Split.

(** Decoding without the permutation restores every bit but the basic tag's. *)
Lemma decode_encode_noPermute G O p : In G tag_configs -> obfuscation_ok G O -> in_word 64 p ->
  let d := decodeTaggedPointer_noPermute G O (encodeTaggedPointer G O p) in
  in_word 64 d /\
  (SPLIT_TAGGED_POINTERS G = false -> d = p) /\
  (SPLIT_TAGGED_POINTERS G = true -> Z.shiftr d 3 = Z.shiftr p 3 /\ Z.land d 7 = basicTagToObfuscatedTag O (Z.land p 7)).
Proof.
  intros HG HO Hp d. pose proof (encode_in_word G O p HG HO Hp) as He. pose proof (ok_word _ _ HO) as Ho.
  assert (in_word 64 d).
  { unfold d, decodeTaggedPointer_noPermute. destruct (_ && _); [done|by apply lxor_range]. }
  split; [done|]. split; intros Es; unfold d, decodeTaggedPointer_noPermute.
  - unfold encodeTaggedPointer. rewrite Es. cbn [andb].
    by rewrite (Z.lxor_comm (obfuscator O)), Z.lxor_assoc, Z.lxor_nilpotent, Z.lxor_0_r.
  - rewrite (split_config G HG Es) in *. destruct (encode_split O HO p Hp) as (E1 & E2 & E3).
    set (e := encodeTaggedPointer split_tags O p) in *. cbn [SPLIT_TAGGED_POINTERS split_tags andb].
    change (_ =? TAG_NO_OBFUSCATION_MASK _) with (unobfuscated e). rewrite E3. destruct (unobfuscated p); [done|].
    rewrite Z.lxor_comm, Z.shiftr_lxor, lxor_low3, E2, <- Z.lxor_assoc, Z.lxor_nilpotent by done. by rewrite Z.lxor_0_l.
Qed.
Lemma decode_encode G O p : In G tag_configs -> obfuscation_ok G O -> in_word 64 p ->
  decodeTaggedPointer G O (encodeTaggedPointer G O p) = p.
Proof.
  intros HG HO Hp. destruct (decode_encode_noPermute G O p HG HO Hp) as (Hd & Hn & Hs). unfold decodeTaggedPointer.
  destruct (SPLIT_TAGGED_POINTERS G) eqn:Es; [|by apply Hn]. destruct (Hs eq_refl) as [Hh Ht].
  rewrite (split_config G HG Es) in *. change (TAG_INDEX_SHIFT split_tags) with 0.
  rewrite Z.shiftr_0_r. change TAG_INDEX_MASK with 7 at 2. rewrite Ht, (permute_inverse _ _ HO) by apply land7_range.
  destruct (retag_spec _ (Z.land p 7) Hd (land7_range p)) as (E1 & E2 & _). apply low3_ext; congruence.
Qed.

(** ** Pointers as sums of disjoint fields *)
Lemma lor_disj n a b : 0 <= n -> a mod 2 ^ n = 0 -> 0 <= b < 2 ^ n -> Z.lor a b = a + b.
Proof.
  intros Hn Ha Hb. symmetry. apply Z.add_nocarry_lor. apply Z.bits_inj'. intros i Hi. rewrite Z.land_spec, Z.bits_0.
  destruct (decide (i < n)).
  - rewrite <- (Z.mod_pow2_bits_low a n) by lia. by rewrite Ha, Z.bits_0.
  - by rewrite (testbit_high n b), andb_false_r by lia.
Qed.
Definition valid_tag (tag : Z) : Prop := 0 <= tag <= 6 \/ 8 <= tag <= 263.
Definition payload_bits (tag : Z) : Z := if tag <=? OBJC_TAG_Last60BitPayload then 60 else 52.
(** What [makeTaggedPointer] obfuscates. *)
Definition plain (G : tag_config) (tag value : Z) : Z :=
  let w := wrap (payload_bits tag) value in
  if tag <=? OBJC_TAG_Last60BitPayload then
    if SPLIT_TAGGED_POINTERS G then 2 ^ 63 + 8 * w + tag
    else if MSB_TAGGED_POINTERS G then 2 ^ 63 + tag * 2 ^ 60 + w else 16 * w + 2 * tag + 1
  else
    let index := tag - OBJC_TAG_First52BitPayload in
    if SPLIT_TAGGED_POINTERS G then 2 ^ 63 + index * 2 ^ 55 + 8 * w + 7
    else if MSB_TAGGED_POINTERS G then 15 * 2 ^ 60 + index * 2 ^ 52 + w else 2 ^ 12 * w + 16 * index + 15.
Lemma lor_disj3 n m a b c : 0 <= m <= n -> a mod 2 ^ n = 0 -> 0 <= b < 2 ^ n -> b mod 2 ^ m = 0 -> 0 <= c < 2 ^ m ->
  Z.lor (Z.lor a b) c = a + b + c.
Proof.
  intros Hm Ha Hb Hbm Hc. rewrite (lor_disj n a b), (lor_disj m); [done|lia| |done|lia|done|done].
  rewrite Z.add_mod, Hbm by (pose proof (pow2_pos m); lia).
  apply Z.mod_divide in Ha as [k ->]; [|pose proof (pow2_pos n); lia].
  replace n with (n - m + m) by lia. rewrite Z.pow_add_r, Z.mul_assoc, Z.mod_mul by (try pose proof (pow2_pos m); lia).
  by apply Z.mod_0_l; pose proof (pow2_pos m); lia.
Qed.
Lemma make_plain G O tag value : In G tag_configs -> valid_tag tag ->
  makeTaggedPointer G O tag value = encodeTaggedPointer G O (plain G tag value).
Proof.
  intros HG Ht. unfold makeTaggedPointer, plain, payload_bits, OBJC_TAG_Last60BitPayload, OBJC_TAG_First52BitPayload.
  assert (C : (tag <=? 6) = true /\ 0 <= tag <= 6 \/ (tag <=? 6) = false /\ 0 <= tag - 8 < 256) by (unfold valid_tag in Ht; zcmp; lia).
  destruct C as [[-> Hr]|[-> Hr]]; f_equal; destruct HG as [<-|[<-|[<-|[]]]];
    cbn -[Z.lor Z.shiftl Z.shiftr Z.mul Z.pow Z.add wrap]; set (index := tag - 8) in *; clearbody index;
    repeat rewrite Z.shiftl_mul_pow2 by lia; repeat rewrite Z.shiftr_div_pow2 by lia; unfold wrap.
  - rewrite <- Z.lor_assoc, (Z.lor_comm (tag * _)), Z.lor_assoc. rewrite (lor_disj3 63 3) by dlia. dlia.
  - rewrite (lor_disj3 63 60) by dlia. dlia.
  - rewrite (Z.lor_comm (Z.lor _ _)), (Z.lor_comm 1), Z.lor_assoc. rewrite (lor_disj3 4 1) by dlia. dlia.
  - rewrite (Z.lor_comm _ 7), <- (Z.lor_assoc 7), <- (Z.lor_assoc 7), (Z.lor_comm 7).
    rewrite (lor_disj 63 (1 * 2 ^ 63)), (lor_disj3 55 3) by dlia. dlia.
  - rewrite (lor_disj3 60 52) by dlia. dlia.
  - rewrite (Z.lor_comm (Z.lor _ _)), (Z.lor_comm 15), Z.lor_assoc. rewrite (lor_disj3 12 4) by dlia. dlia.
Qed.
(** Whether a word has every bit of a mask. *)
Lemma field_mask_eq x n k : 0 <= n -> 0 <= k ->
  (Z.land x (Z.shiftl (2 ^ n - 1) k) =? Z.shiftl (2 ^ n - 1) k) = ((x / 2 ^ k) mod 2 ^ n =? 2 ^ n - 1).
Proof.
  intros Hn Hk. rewrite <- Z.shiftr_div_pow2, <- land_mask by done. apply eq_true_iff_eq. rewrite !Z.eqb_eq, !land_eq_mask. split.
  - intros H i Hi Hb. rewrite Z.shiftr_spec by done. apply H; [lia|]. rewrite Z.shiftl_spec by lia. by rewrite Z.add_simpl_r.
  - intros H i Hi Hb. rewrite testbit_shiftl in Hb by done. apply andb_true_iff in Hb as [Hle Hb]. apply Z.leb_le in Hle.
    specialize (H (i - k) ltac:(lia) Hb). rewrite Z.shiftr_spec in H by lia. by rewrite Z.sub_add in H.
Qed.
Lemma mask_union x a b : (Z.land x (Z.lor a b) =? Z.lor a b) = (Z.land x a =? a) && (Z.land x b =? b).
Proof.
  apply eq_true_iff_eq. rewrite andb_true_iff, !Z.eqb_eq, !land_eq_mask. split.
  - intros H. split; intros i Hi Hb; apply H; try done; by rewrite Z.lor_spec, Hb, ?orb_true_r.
  - intros [Ha Hb] i Hi Hm. rewrite Z.lor_spec, orb_true_iff in Hm. destruct Hm; auto.
Qed.
Lemma tag_mask_bits G x : In G tag_configs ->
  (Z.land x (TAG_MASK G) =? TAG_MASK G) = (if MSB_TAGGED_POINTERS G then (x / 2 ^ 63) mod 2 =? 1 else x mod 2 =? 1) /\
  (Z.land x (TAG_EXT_MASK G) =? TAG_EXT_MASK G) =
    (if SPLIT_TAGGED_POINTERS G then ((x / 2 ^ 63) mod 2 =? 1) && (x mod 8 =? 7)
     else if MSB_TAGGED_POINTERS G then (x / 2 ^ 60) mod 16 =? 15 else x mod 16 =? 15).
Proof.
  intros HG.
  assert (H63 := field_mask_eq x 1 63 ltac:(lia) ltac:(lia)). assert (H0 := field_mask_eq x 1 0 ltac:(lia) ltac:(lia)).
  assert (H3 := field_mask_eq x 3 0 ltac:(lia) ltac:(lia)). assert (H4 := field_mask_eq x 4 0 ltac:(lia) ltac:(lia)).
  assert (H60 := field_mask_eq x 4 60 ltac:(lia) ltac:(lia)). rewrite Z.div_1_r in H0, H3, H4.
  destruct HG as [<-|[<-|[<-|[]]]]; cbn [TAG_MASK TAG_EXT_MASK MSB_TAGGED_POINTERS SPLIT_TAGGED_POINTERS split_tags msb_tags lsb_tags];
    split; try rewrite mask_union; first [exact H63|exact H0|exact H60|exact H4|idtac].
  f_equal; [exact H63|exact H3].
Qed.
Lemma land7_mod x : Z.land x 7 = x mod 8.
Proof. by apply (land_mask 3). Qed.
Lemma land255_mod x : Z.land x 255 = x mod 256.
Proof. by apply (land_mask 8). Qed.
(** The parts of a pointer before obfuscation. *)
Lemma plain_parts G tag value : In G tag_configs -> valid_tag tag -> let p := plain G tag value in
  in_word 64 p /\ (Z.land p (TAG_MASK G) =? TAG_MASK G) = true /\
  Z.land (Z.shiftr p (TAG_INDEX_SHIFT G)) 7 = (if tag <=? 6 then tag else 7) /\
  (6 < tag -> Z.land (Z.shiftr p (TAG_EXT_INDEX_SHIFT G)) 255 = tag - 8) /\
  (Z.land p (TAG_EXT_MASK G) =? TAG_EXT_MASK G) = negb (tag <=? 6).
Proof.
  intros HG Ht p. destruct (tag_mask_bits G p HG) as [-> ->].
  unfold p, plain, payload_bits, OBJC_TAG_Last60BitPayload, OBJC_TAG_First52BitPayload, in_word.
  assert (C : (tag <=? 6) = true /\ 0 <= tag <= 6 \/ (tag <=? 6) = false /\ 6 < tag /\ 0 <= tag - 8 < 256)
    by (unfold valid_tag in Ht; zcmp; lia).
  rewrite land7_mod, land255_mod.
  destruct C as [[-> Hr]|[-> Hr]]; cbv zeta; destruct HG as [<-|[<-|[<-|[]]]];
    cbn -[Z.lor Z.land Z.shiftl Z.shiftr Z.mul Z.pow Z.add wrap Z.modulo Z.div]; set (index := tag - 8) in *; clearbody index;
    repeat rewrite Z.shiftr_div_pow2 by lia; unfold wrap; split_and!; zcmp; try reflexivity; try (intros; dlia).
Qed.
(** The payload is read from a word that agrees with the pointer but for the
    basic tag of the split representation. *)
Lemma payload_parts G tag value d : In G tag_configs -> valid_tag tag ->
  (SPLIT_TAGGED_POINTERS G = false -> d = plain G tag value) ->
  (SPLIT_TAGGED_POINTERS G = true -> Z.shiftr d 3 = Z.shiftr (plain G tag value) 3) ->
  (let l := if tag <=? 6 then TAG_PAYLOAD_LSHIFT G else TAG_EXT_PAYLOAD_LSHIFT G in
   let r := if tag <=? 6 then TAG_PAYLOAD_RSHIFT G else TAG_EXT_PAYLOAD_RSHIFT G in
   Z.shiftr (u64 (Z.shiftl d l)) r = wrap (payload_bits tag) value /\
   Z.shiftr (sint 64 (Z.shiftl d l)) r = sint (payload_bits tag) value).
Proof.
  intros HG Ht Hn Hs. unfold plain, payload_bits, OBJC_TAG_Last60BitPayload, OBJC_TAG_First52BitPayload, sint, wrap in *.
  assert (C : (tag <=? 6) = true /\ 0 <= tag <= 6 \/ (tag <=? 6) = false /\ 6 < tag /\ 0 <= tag - 8 < 256)
    by (unfold valid_tag in Ht; zcmp; lia).
  destruct C as [[E Hr]|[E Hr]]; rewrite E in *; cbv zeta in *; destruct HG as [<-|[<-|[<-|[]]]];
    cbn -[Z.lor Z.land Z.shiftl Z.shiftr Z.mul Z.pow Z.add Z.modulo Z.div] in *; set (index := tag - 8) in *; clearbody index.
  all: first [specialize (Hn eq_refl); subst d|specialize (Hs eq_refl); rewrite !Z.shiftr_div_pow2 in Hs by lia];
    rewrite !Z.shiftl_mul_pow2, !Z.shiftr_div_pow2 by lia; clear - Hr Hs; split.
  all: pose proof (Z.mod_pos_bound value (2 ^ 60) ltac:(lia)); pose proof (Z.mod_pos_bound value (2 ^ 52) ltac:(lia));
    generalize dependent (value mod 2 ^ 60); generalize dependent (value mod 2 ^ 52); intros; zcmp; dlia.
Qed.
(** The slot field of a pointer, the tag bit with the basic tag, and the test for an unobfuscated tag. *)
Lemma plain_tag_field G tag value : In G tag_configs -> valid_tag tag -> SPLIT_TAGGED_POINTERS G = false ->
  let t := if tag <=? 6 then tag else 7 in
  (MSB_TAGGED_POINTERS G = true -> Z.land (Z.shiftr (plain G tag value) 60) 15 = 8 + t) /\
  (MSB_TAGGED_POINTERS G = false -> Z.land (plain G tag value) 15 = 2 * t + 1).
Proof.
  intros HG Ht Es t. change 15 with (2 ^ 4 - 1). rewrite !land_mask, Z.shiftr_div_pow2 by lia.
  unfold t, plain, payload_bits, OBJC_TAG_Last60BitPayload, OBJC_TAG_First52BitPayload. rewrite Es.
  assert (C : (tag <=? 6) = true /\ 0 <= tag <= 6 \/ (tag <=? 6) = false /\ 6 < tag /\ 0 <= tag - 8 < 256)
    by (unfold valid_tag in Ht; zcmp; lia).
  destruct C as [[-> Hr]|[-> Hr]]; cbv zeta; set (index := tag - 8) in *; clearbody index; unfold wrap;
    split; intros ->; dlia.
Qed.
Lemma plain_unobfuscated tag value : 8 <= tag <= 263 -> unobfuscated (plain split_tags tag value) = (136 <=? tag).
Proof.
  intros Hr. apply eq_true_iff_eq. unfold unobfuscated. rewrite Z.eqb_eq, no_obfuscation_mask, Z.leb_le, land7_mod, !Z.shiftr_spec by lia.
  rewrite !Z.testbit_true by lia. unfold plain, payload_bits, OBJC_TAG_Last60BitPayload, OBJC_TAG_First52BitPayload.
  destruct (Z.leb_spec tag 6); [lia|]. cbn [SPLIT_TAGGED_POINTERS split_tags]. cbv zeta. unfold wrap.
  remember (tag - 8) as index eqn:Ei. assert (tag = index + 8) as -> by lia. clear Ei. split; [intros (? & ? & ?); dlia|intros; split_and!; dlia].
Qed.
(** Encoding keeps the tag bit. *)
Lemma encode_tagged G O p : In G tag_configs -> obfuscation_ok G O -> in_word 64 p ->
  (Z.land p (TAG_MASK G) =? TAG_MASK G) = true -> isTaggedPointer G (encodeTaggedPointer G O p) = true.
Proof.
  intros HG HO Hp Ht. unfold isTaggedPointer. apply Z.eqb_eq in Ht. apply Z.eqb_eq. rewrite land_eq_mask in Ht |- *.
  intros i Hi Hb. specialize (Ht i Hi Hb). pose proof (land_clear _ _ i Hi (ok_tag _ _ HO) Hb) as Hc.
  destruct (SPLIT_TAGGED_POINTERS G) eqn:Es.
  - rewrite (split_config G HG Es) in *. destruct (encode_split O HO p Hp) as (_ & E & _).
    assert (3 <= i).
    { apply Z.nlt_ge. intros Hlt. cbn [TAG_MASK split_tags] in Hb. rewrite testbit_shiftl in Hb by done.
      by destruct (Z.leb_spec 63 i); [lia|]. }
    replace i with (i - 3 + 3) by lia. rewrite <- Z.shiftr_spec, E by lia.
    destruct (unobfuscated p); rewrite ?Z.lxor_spec, !Z.shiftr_spec by lia; rewrite Z.sub_add, ?Hc, Ht; done.
  - unfold encodeTaggedPointer. by rewrite Es, Z.lxor_spec, Hc, Ht.
Qed.

(** ** Class slots *)
Lemma land_lxor_distr a b m : Z.land (Z.lxor a b) m = Z.lxor (Z.land a m) (Z.land b m).
Proof. zbits. Qed.
Lemma lxor_inj_r a b c : Z.lxor a c = Z.lxor b c -> a = b.
Proof.
  intros E. apply (f_equal (fun x => Z.lxor x c)) in E. by rewrite !Z.lxor_assoc, Z.lxor_nilpotent, !Z.lxor_0_r in E.
Qed.
(** A fact of two three-bit words, by evaluation. *)
Lemma forall_8x8 (f : Z -> Z -> bool) :
  forallb (fun a => forallb (f a) (map Z.of_nat (seq 0 8))) (map Z.of_nat (seq 0 8)) = true ->
  forall a b, 0 <= a < 8 -> 0 <= b < 8 -> f a b = true.
Proof.
  intros H a b Ha Hb. apply (forall_below 8 (f a)); [|done].
  by apply (forall_below 8 (fun a => forallb (f a) (map Z.of_nat (seq 0 8)))).
Qed.
Lemma slot_msb a t : 0 <= a < 8 -> 0 <= t < 8 -> Z.lxor a (8 + t) = Z.lor 8 (Z.lxor t a).
Proof. intros. by apply Z.eqb_eq, (forall_8x8 (fun a t => Z.lxor a (8 + t) =? Z.lor 8 (Z.lxor t a))). Qed.
Lemma slot_lsb a t : 0 <= a < 8 -> 0 <= t < 8 -> Z.lxor (2 * a) (2 * t + 1) = Z.lor (Z.shiftl (Z.lxor t a) 1) 1.
Proof. intros. by apply Z.eqb_eq, (forall_8x8 (fun a t => Z.lxor (2 * a) (2 * t + 1) =? Z.lor (Z.shiftl (Z.lxor t a) 1) 1)). Qed.

(** The obfuscator's bits under a slot. *)
Lemma obfuscator_top O : in_word 64 (obfuscator O) -> Z.land (obfuscator O) (TAG_MASK msb_tags) = 0 ->
  Z.land (Z.shiftr (obfuscator O) 60) 15 = Z.land (Z.shiftr (obfuscator O) 60) 7.
Proof.
  intros Hw Hc. pose proof (land_clear _ _ 63 ltac:(lia) Hc eq_refl) as Hb.
  change 15 with (2 ^ 4 - 1). change 7 with (2 ^ 3 - 1). apply Z.bits_inj'. intros i Hi.
  rewrite !Z.land_spec, !testbit_pow2m1, Z.shiftr_spec by lia. zcmp; try lia; rewrite ?andb_true_r, ?andb_false_r; try done.
  replace (i + 60) with 63 by lia. by rewrite Hb.
Qed.
Lemma obfuscator_bottom O : Z.land (obfuscator O) (TAG_MASK lsb_tags) = 0 ->
  Z.land (obfuscator O) 15 = 2 * Z.land (Z.shiftr (obfuscator O) 1) 7.
Proof.
  intros Hc. change 15 with (2 ^ 4 - 1). change 7 with (2 ^ 3 - 1). cbn [TAG_MASK lsb_tags] in Hc. change 1 with (2 ^ 1 - 1) in Hc at 1.
  rewrite !land_mask, Z.shiftr_div_pow2 in * by lia. dlia.
Qed.

Section Slots.
Context (G : tag_config) (O : obfuscation) (HG : In G tag_configs) (HO : obfuscation_ok G O).
Lemma basic_slot tag value : valid_tag tag ->
  BasicSlot (Z.land (Z.shiftr (makeTaggedPointer G O tag value) (TAG_SLOT_SHIFT G)) (TAG_SLOT_MASK G)) =
  classSlotForBasicTagIndex G O (if tag <=? 6 then tag else 7).
Proof.
  intros Ht. rewrite make_plain by done. destruct (plain_parts G tag value HG Ht) as (Hw & _ & Hi & _ & Hm).
  destruct (tag_mask_bits G (plain G tag value) HG) as [_ Hm']. set (q := plain G tag value) in *.
  set (t := if tag <=? 6 then tag else 7) in *.
  assert (Hr : 0 <= t < 8) by (unfold t, valid_tag in *; zcmp; lia).
  unfold classSlotForBasicTagIndex. destruct (SPLIT_TAGGED_POINTERS G) eqn:Es.
  - rewrite (split_config G HG Es) in *. destruct (encode_split O HO q Hw) as (E & _ & _).
    cbn [TAG_SLOT_SHIFT TAG_SLOT_MASK TAG_INDEX_SHIFT split_tags] in *. rewrite Z.shiftr_0_r in *. by rewrite E, Hi.
  - destruct (plain_tag_field G tag value HG Ht Es) as [Hmsb Hlsb]. fold q t in Hmsb, Hlsb.
    unfold encodeTaggedPointer. rewrite Es, Z.shiftr_lxor, land_lxor_distr.
    pose proof (land7_range (Z.shiftr (obfuscator O) (TAG_INDEX_SHIFT G))) as Ha. pose proof (ok_tag _ _ HO) as Hc.
    destruct (MSB_TAGGED_POINTERS G) eqn:Em.
    + destruct HG as [<-|[<-|[<-|[]]]]; try discriminate. cbn [TAG_SLOT_SHIFT TAG_SLOT_MASK TAG_INDEX_SHIFT msb_tags] in *.
      rewrite obfuscator_top, (Hmsb eq_refl) by (done || apply HO). by rewrite slot_msb.
    + destruct HG as [<-|[<-|[<-|[]]]]; try discriminate. cbn [TAG_SLOT_SHIFT TAG_SLOT_MASK TAG_INDEX_SHIFT lsb_tags] in *.
      rewrite !Z.shiftr_0_r, obfuscator_bottom, (Hlsb eq_refl) by done. by rewrite slot_lsb.
Qed.
Lemma ext_slot tag value : 8 <= tag <= 263 ->
  classSlotForTagIndex G O tag =
  Some (ExtSlot (Z.land (Z.shiftr (makeTaggedPointer G O tag value) (TAG_EXT_SLOT_SHIFT G)) TAG_EXT_SLOT_MASK)).
Proof.
  intros Hr. assert (Ht : valid_tag tag) by (unfold valid_tag; lia).
  rewrite make_plain by done. destruct (plain_parts G tag value HG Ht) as (Hw & _ & _ & Hi & _).
  specialize (Hi ltac:(lia)).
  assert (Hu : SPLIT_TAGGED_POINTERS G = true -> unobfuscated (plain G tag value) = (136 <=? tag))
    by (intros Es; rewrite (split_config G HG Es); by apply plain_unobfuscated).
  set (q := plain G tag value) in *.
  unfold classSlotForTagIndex, OBJC_TAG_First60BitPayload, OBJC_TAG_Last60BitPayload, OBJC_TAG_First52BitPayload, OBJC_TAG_Last52BitPayload,
    OBJC_TAG_FirstUnobfuscatedSplitTag.
  destruct (Z.leb_spec 0 tag), (Z.leb_spec tag 6), (Z.leb_spec 8 tag), (Z.leb_spec tag 263); try lia. cbn [andb].
  change TAG_EXT_SLOT_MASK with 255. change TAG_EXT_INDEX_MASK with 255.
  assert (Esh : TAG_EXT_SLOT_SHIFT G = TAG_EXT_INDEX_SHIFT G) by (destruct HG as [<-|[<-|[<-|[]]]]; done). rewrite Esh.
  destruct (SPLIT_TAGGED_POINTERS G) eqn:Es; cbn [andb].
  - rewrite (split_config G HG Es) in *. destruct (encode_split O HO q Hw) as (_ & E & _).
    rewrite Hu in E by done. cbn [TAG_EXT_INDEX_SHIFT split_tags] in *.
    change 55 with (3 + 52). rewrite <- !(Z.shiftr_shiftr _ 3 52), E by lia. rewrite <- (Z.shiftr_shiftr _ 3 52) in Hi by lia.
    destruct (136 <=? tag); [by rewrite Hi|].
    by rewrite Z.shiftr_lxor, land_lxor_distr, Hi, Z.lxor_comm.
  - unfold encodeTaggedPointer. by rewrite Es, Z.shiftr_lxor, land_lxor_distr, Hi, Z.lxor_comm.
Qed.
End Slots.

Lemma made_parts G O tag value : In G tag_configs -> obfuscation_ok G O -> valid_tag tag ->
  let p := makeTaggedPointer G O tag value in
  isTaggedPointer G p = true /\ isTaggedPointerOrNil G p = true /\
  isExtTaggedPointer G O p = negb (tag <=? 6) /\ isBasicTaggedPointer G O p = (tag <=? 6) /\
  getTaggedPointerTag G O p = tag /\
  getTaggedPointerValue G O p = wrap (payload_bits tag) value /\
  getTaggedPointerSignedValue G O p = sint (payload_bits tag) value /\
  encodeTaggedPointer G O (decodeTaggedPointer G O p) = p.
Proof.
  intros HG HO Ht p. unfold p. rewrite make_plain by done.
  destruct (plain_parts G tag value HG Ht) as (Hw & Htag & Hidx & Hext & Hmask).
  set (q := plain G tag value) in *. pose proof (decode_encode G O q HG HO Hw) as Hdec.
  destruct (decode_encode_noPermute G O q HG HO Hw) as (Hd & Hn & Hs).
  assert (Hist : isTaggedPointer G (encodeTaggedPointer G O q) = true) by (by apply encode_tagged).
  assert (Hiext : isExtTaggedPointer G O (encodeTaggedPointer G O q) = negb (tag <=? 6))
    by (unfold isExtTaggedPointer; by rewrite Hdec).
  assert (Hpay : forall d l r l' r', (Z.land (Z.shiftr d (TAG_INDEX_SHIFT G)) 7 =? 7) = negb (tag <=? 6) ->
    forall f : Z -> Z, (if Z.land (Z.shiftr d (TAG_INDEX_SHIFT G)) TAG_INDEX_MASK =? TAG_INDEX_MASK
      then Z.shiftr (f (Z.shiftl d l)) r else Z.shiftr (f (Z.shiftl d l')) r') =
    Z.shiftr (f (Z.shiftl d (if tag <=? 6 then l' else l))) (if tag <=? 6 then r' else r))
    by (intros d l r l' r' E f; change TAG_INDEX_MASK with 7; rewrite E; by destruct (tag <=? 6)).
  destruct (payload_parts G tag value _ HG Ht Hn (fun E => proj1 (Hs E))) as [Hu Hsi].
  assert (Hb : (Z.land (Z.shiftr (decodeTaggedPointer_noPermute G O (encodeTaggedPointer G O q)) (TAG_INDEX_SHIFT G)) 7 =? 7) = negb (tag <=? 6)).
  { destruct (SPLIT_TAGGED_POINTERS G) eqn:Es; [|rewrite Hn by done; rewrite Hidx; unfold valid_tag in Ht; zcmp; done || lia].
    rewrite (split_config G HG Es) in *. destruct (Hs eq_refl) as [_ E]. cbn [TAG_INDEX_SHIFT split_tags] in *.
    rewrite Z.shiftr_0_r in *. rewrite E, Hidx. apply eq_true_iff_eq. rewrite Z.eqb_eq, (permuted_is_7 _ _ HO) by (unfold valid_tag in Ht; zcmp; lia).
    unfold valid_tag in Ht. zcmp; simpl; lia. }
  split_and!; try done.
  - unfold isTaggedPointerOrNil. unfold isTaggedPointer in Hist. by rewrite Hist, orb_true_r.
  - unfold isBasicTaggedPointer. rewrite Hist, Hiext. apply negb_involutive.
  - unfold getTaggedPointerTag. rewrite Hdec. change TAG_INDEX_MASK with 7. change TAG_EXT_INDEX_MASK with 255. rewrite Hidx.
    unfold OBJC_TAG_First52BitPayload, valid_tag in *. zcmp; lia.
  - unfold getTaggedPointerValue. cbv zeta. rewrite (Hpay _ _ _ _ _ Hb u64). exact Hu.
  - unfold getTaggedPointerSignedValue. cbv zeta. rewrite (Hpay _ _ _ _ _ Hb (sint 64)). exact Hsi.
  - by rewrite Hdec.
Qed.

(** The obfuscator that initialisation chooses, whatever the random words are. *)
Lemma obfuscator_init_ok G enabled random targets : In G tag_configs -> in_word 64 random ->
  Forall (fun t => t < 7)%nat targets ->
  obfuscation_ok G (initializeTaggedPointerObfuscator G enabled random targets) /\
  (enabled = false -> forall p, in_word 64 p ->
     encodeTaggedPointer G (initializeTaggedPointerObfuscator G enabled random targets) p = p).
Proof.
  intros HG Hr Ht. assert (Hclear : forall r m, in_word 64 r -> in_word 64 (Z.land r (unot 64 m)) /\ Z.land (Z.land r (unot 64 m)) m = 0).
  { intros r m Hw. split; [by apply land_range|]. unfold unot. zbits. }
  assert (Hsub : forall r m m', Z.land r m = 0 -> Z.land (Z.land r m') m = 0)
    by (intros r m m' E; rewrite <- Z.land_assoc, (Z.land_comm m'), Z.land_assoc, E; apply Z.land_0_l).
  destruct (shuffle_spec targets 6 initial_permutations ltac:(lia) Ht) as [Hp H7].
  destruct (Hclear random (TAG_MASK G) Hr) as [Hw Hm].
  destruct (Hclear _ (Z.lor (TAG_EXT_MASK G) (TAG_NO_OBFUSCATION_MASK G)) Hw) as [Hw' Hm'].
  split.
  - unfold initializeTaggedPointerObfuscator. destruct enabled.
    + destruct (SPLIT_TAGGED_POINTERS G) eqn:Es; [|split; (done || congruence)].
      split; cbn [obfuscator tag60_permutations]; [done|by apply Hsub| |done|by rewrite H7].
      intros _. rewrite Z.land_lor_distr_r in Hm'. by apply Z.lor_eq_0_iff in Hm' as [_ ?].
    + split; cbn [obfuscator tag60_permutations]; try done; intros; by rewrite Z.land_0_l.
  - intros -> p Hpw. unfold initializeTaggedPointerObfuscator, encodeTaggedPointer. cbn [obfuscator]. rewrite Z.lxor_0_l.
    destruct (SPLIT_TAGGED_POINTERS G) eqn:Es; [|done]. destruct (_ =? _); [done|].
    rewrite (split_config G HG Es). cbn [TAG_INDEX_SHIFT split_tags]. rewrite Z.shiftr_0_r. change (Z.land p TAG_INDEX_MASK) with (Z.land p 7).
    pose proof (land7_range p) as H8. unfold basicTagToObfuscatedTag. cbn [tag60_permutations].
    assert (nth (Z.to_nat (Z.land p 7)) initial_permutations 0 = Z.land p 7) as ->
      by (by apply Z.eqb_eq, (forall_below 8 (fun t => nth (Z.to_nat t) initial_permutations 0 =? t))).
    destruct (retag_spec p (Z.land p 7) Hpw H8) as (E1 & E2 & _). by apply low3_ext.
Qed.

(** Pointers made for a valid tag, under the obfuscator initialisation makes. *)
Lemma pointer_roundtrip G enabled random targets tag value : In G tag_configs -> in_word 64 random ->
  Forall (fun t => t < 7)%nat targets -> valid_tag tag ->
  let O := initializeTaggedPointerObfuscator G enabled random targets in
  let p := makeTaggedPointer G O tag value in
  isTaggedPointer G p = true /\ isTaggedPointerOrNil G p = true /\
  isExtTaggedPointer G O p = negb (tag <=? 6) /\ isBasicTaggedPointer G O p = (tag <=? 6) /\
  getTaggedPointerTag G O p = tag /\
  getTaggedPointerValue G O p = wrap (payload_bits tag) value /\
  getTaggedPointerSignedValue G O p = sint (payload_bits tag) value /\
  encodeTaggedPointer G O (decodeTaggedPointer G O p) = p /\
  obfuscation_ok G O /\
  (enabled = false -> forall p, in_word 64 p -> encodeTaggedPointer G O p = p).
Proof.
  intros HG Hr Ht Hv O p. destruct (obfuscator_init_ok G enabled random targets HG Hr Ht) as [HO Hplain].
  destruct (made_parts G O tag value HG HO Hv) as (H1 & H2 & H3 & H4 & H5 & H6 & H7 & H8). done.
Qed.

(** ** Registration *)
Definition valid_tagb (tag : Z) : bool := (0 <=? tag) && (tag <=? 6) || (8 <=? tag) && (tag <=? 263).
Lemma valid_tagb_spec tag : valid_tagb tag = true <-> valid_tag tag.
Proof. unfold valid_tagb, valid_tag. zcmp; simpl; split; (done || lia). Qed.

Section Registration.
Context (G : tag_config) (O : obfuscation) (HG : In G tag_configs) (HO : obfuscation_ok G O).
Lemma slot_None tag : classSlotForTagIndex G O tag = None <-> ~ valid_tag tag.
Proof.
  unfold classSlotForTagIndex, OBJC_TAG_First60BitPayload, OBJC_TAG_Last60BitPayload, OBJC_TAG_First52BitPayload,
    OBJC_TAG_Last52BitPayload, valid_tag.
  destruct (Z.leb_spec 0 tag), (Z.leb_spec tag 6), (Z.leb_spec 8 tag), (Z.leb_spec tag 263); cbn [andb]; try lia;
    try destruct (SPLIT_TAGGED_POINTERS G && _); split; (done || lia).
Qed.
Lemma basic_slot_inj t t' : 0 <= t < 8 -> 0 <= t' < 8 ->
  classSlotForBasicTagIndex G O t = classSlotForBasicTagIndex G O t' -> t = t'.
Proof.
  intros Ht Ht'. unfold classSlotForBasicTagIndex. destruct (SPLIT_TAGGED_POINTERS G).
  - intros [= E]. by apply (permuted_inj G O HO).
  - set (a := Z.land _ TAG_INDEX_MASK). pose proof (land7_range (Z.shiftr (obfuscator O) (TAG_INDEX_SHIFT G))) as Ha.
    fold a in Ha. destruct (MSB_TAGGED_POINTERS G); intros [= E].
    + rewrite <- !slot_msb in E by done. rewrite !(Z.lxor_comm a) in E. apply lxor_inj_r in E. lia.
    + rewrite <- !slot_lsb in E by done. rewrite !(Z.lxor_comm (2 * a)) in E. apply lxor_inj_r in E. lia.
Qed.
Lemma slot_basic tag : 0 <= tag <= 6 -> classSlotForTagIndex G O tag = Some (classSlotForBasicTagIndex G O tag).
Proof.
  intros Hr. unfold classSlotForTagIndex, OBJC_TAG_First60BitPayload, OBJC_TAG_Last60BitPayload.
  by destruct (Z.leb_spec 0 tag), (Z.leb_spec tag 6); try lia.
Qed.
(** The slot of an extended tag determines the tag: it is in the decoded pointer. *)
Lemma slot_inj tag tag' : valid_tag tag -> valid_tag tag' ->
  classSlotForTagIndex G O tag = classSlotForTagIndex G O tag' -> tag = tag'.
Proof.
  assert (Hb : forall t, exists i, classSlotForBasicTagIndex G O t = BasicSlot i).
  { intros t. unfold classSlotForBasicTagIndex. destruct (SPLIT_TAGGED_POINTERS G), (MSB_TAGGED_POINTERS G); by eexists. }
  intros [Ht|Ht] [Ht'|Ht'].
  - rewrite !slot_basic by done. intros [= E]. apply basic_slot_inj; (done || lia).
  - rewrite slot_basic, (ext_slot G O HG HO tag' 0) by done. by destruct (Hb tag) as [i ->].
  - rewrite (slot_basic tag'), (ext_slot G O HG HO tag 0) by done. by destruct (Hb tag') as [i ->].
  - unfold classSlotForTagIndex, OBJC_TAG_First60BitPayload, OBJC_TAG_Last60BitPayload, OBJC_TAG_First52BitPayload, OBJC_TAG_Last52BitPayload,
      OBJC_TAG_FirstUnobfuscatedSplitTag.
    destruct (Z.leb_spec 0 tag), (Z.leb_spec tag 6), (Z.leb_spec 8 tag), (Z.leb_spec tag 263); try lia.
    destruct (Z.leb_spec 0 tag'), (Z.leb_spec tag' 6), (Z.leb_spec 8 tag'), (Z.leb_spec tag' 263); try lia. cbn [andb].
    destruct (SPLIT_TAGGED_POINTERS G) eqn:Es; cbn [andb].
    + assert (Hlow : forall i, 0 <= i < 128 -> Z.lxor i (Z.land (Z.shiftr (obfuscator O) (TAG_EXT_INDEX_SHIFT G)) TAG_EXT_INDEX_MASK) < 128).
      { intros i Hi. rewrite (split_config G HG Es) in *. cbn [TAG_EXT_INDEX_SHIFT split_tags].
        apply (lxor_range 7); [lia|by unfold in_word|].
        split; [apply Z.land_nonneg; by right|]. change TAG_EXT_INDEX_MASK with (2 ^ 8 - 1). rewrite land_mask, Z.shiftr_div_pow2 by lia.
        pose proof (obfuscator_clear O HO 62 ltac:(lia) eq_refl) as Hc. apply Z.testbit_false in Hc; dlia. }
      destruct (Z.leb_spec 136 tag), (Z.leb_spec 136 tag'); intros [= E]; try lia.
      * pose proof (Hlow (tag' - 8) ltac:(lia)). lia.
      * pose proof (Hlow (tag - 8) ltac:(lia)). lia.
      * apply lxor_inj_r in E. lia.
    + intros [= E]. apply lxor_inj_r in E. lia.
Qed.

Context (unrecognized : Z) (Hun : unrecognized <> 0).
(** Every registered class is the one dispatch finds: the tables' invariant. *)
Definition reserved_slot : slot := classSlotForBasicTagIndex G O OBJC_TAG_RESERVED_7.
Record tables_ok (T : classes) : Prop := {
  ok_reserved : T reserved_slot = 0 \/ T reserved_slot = unrecognized;
  ok_ext : forall tag, 8 <= tag <= 263 -> getClassForTag G O T tag <> 0 -> T reserved_slot = unrecognized;
  ok_class : forall tag, valid_tag tag -> getClassForTag G O T tag <> unrecognized;
}.
Lemma dispatch_ok T tag value : tables_ok T -> valid_tag tag -> getClassForTag G O T tag <> 0 ->
  tagged_getIsa G unrecognized T (makeTaggedPointer G O tag value) = getClassForTag G O T tag.
Proof.
  intros HT Ht Hc. unfold tagged_getIsa. rewrite (basic_slot G O HG HO) by done.
  pose proof (ok_class T HT tag Ht) as Hne. pose proof (ok_ext T HT tag) as He. destruct Ht as [Ht|Ht].
  - destruct (Z.leb_spec tag 6); [|lia]. unfold getClassForTag in *. rewrite slot_basic in * by done.
    by destruct (Z.eqb_spec (T (classSlotForBasicTagIndex G O tag)) unrecognized).
  - destruct (Z.leb_spec tag 6); [lia|]. change (classSlotForBasicTagIndex G O 7) with reserved_slot.
    rewrite He, Z.eqb_refl by done. unfold getClassForTag. by rewrite (ext_slot G O HG HO tag value).
Qed.
Lemma reserved_not_slot tag : valid_tag tag -> classSlotForTagIndex G O tag <> Some reserved_slot.
Proof.
  intros [Ht|Ht].
  - rewrite slot_basic by done. intros [= E]. unfold reserved_slot, OBJC_TAG_RESERVED_7 in E. apply basic_slot_inj in E; lia.
  - rewrite (ext_slot G O HG HO tag 0) by done. unfold reserved_slot, classSlotForBasicTagIndex.
    destruct (SPLIT_TAGGED_POINTERS G), (MSB_TAGGED_POINTERS G); congruence.
Qed.
Lemma register_spec T tag cls T' : tables_ok T -> cls <> unrecognized ->
  registerTaggedPointerClass G O true unrecognized T tag cls = Ok T' ->
  valid_tag tag /\ tables_ok T' /\
  (getClassForTag G O T tag = 0 \/ getClassForTag G O T tag = cls \/ cls = 0) /\
  forall tag', valid_tag tag' -> getClassForTag G O T' tag' = if decide (tag' = tag) then cls else getClassForTag G O T tag'.
Proof.
  intros HT Hcls. unfold registerTaggedPointerClass. cbn [negb]. change (classSlotForBasicTagIndex G O OBJC_TAG_RESERVED_7) with reserved_slot.
  destruct (classSlotForTagIndex G O tag) as [s|] eqn:Es; [|done].
  assert (Hv : valid_tag tag) by (apply dec_stable; intros Hn; apply slot_None in Hn; congruence).
  pose proof (reserved_not_slot tag Hv) as Hns.
  assert (Hg : getClassForTag G O T tag = T s) by (unfold getClassForTag; by rewrite Es).
  assert (Hget : forall U tag', U = store_slot T s cls \/ U = store_slot (store_slot T s cls) reserved_slot unrecognized ->
    valid_tag tag' -> getClassForTag G O U tag' = if decide (tag' = tag) then cls else getClassForTag G O T tag').
  { intros U tag' HU Ht'. unfold getClassForTag. pose proof (reserved_not_slot tag' Ht') as Hns'.
    destruct (classSlotForTagIndex G O tag') as [s'|] eqn:Es'; [|by apply slot_None in Es'].
    assert (U s' = store_slot T s cls s') as ->.
    { destruct HU as [->| ->]; [done|]. unfold store_slot at 1. rewrite decide_False; [done|]. intros ->. by apply Hns'. }
    unfold store_slot. destruct (decide (tag' = tag)) as [->|Hne].
    - rewrite decide_True; [done|congruence].
    - rewrite decide_False; [done|]. intros ->. apply Hne, slot_inj; (done || congruence). }
  assert (Hres : store_slot T s cls reserved_slot = T reserved_slot)
    by (unfold store_slot; rewrite decide_False; [done|intros E; apply Hns; congruence]).
  rewrite Hres. destruct (_ && _) eqn:Ef; [done|].
  assert (Hold : T s = 0 \/ T s = cls \/ cls = 0).
  { unfold nz in Ef. destruct (Z.eqb_spec cls 0), (Z.eqb_spec (T s) 0), (Z.eqb_spec cls (T s)); simpl in Ef; (discriminate || auto). }
  unfold OBJC_TAG_First60BitPayload, OBJC_TAG_Last60BitPayload. intros E.
  assert (HT' : T' = store_slot T s cls \/ T' = store_slot (store_slot T s cls) reserved_slot unrecognized)
    by (destruct ((_ <? _) || _); [destruct (_ =? 0)|]; injection E as <-; auto).
  assert (Hr' : T' reserved_slot = unrecognized \/ T' reserved_slot = T reserved_slot /\ (tag <= 6 \/ T reserved_slot <> 0)).
  { destruct (Z.ltb_spec tag 0), (Z.gtb_spec tag 6), (Z.eqb_spec (T reserved_slot) 0); cbn [orb] in E; injection E as <-;
      first [left; unfold store_slot; by rewrite decide_True|right; split; [done|auto]; try lia]. }
  split_and!; [done| |by rewrite Hg|by intros tag'; apply Hget]. split.
  - pose proof (ok_reserved T HT). destruct Hr' as [->|[-> _]]; auto.
  - intros tag' Ht' Hne. rewrite (Hget T' tag' HT') in Hne by (by right). destruct Hr' as [->|[-> Hor]]; [done|].
    destruct (decide (tag' = tag)) as [->|]; [|by apply (ok_ext T HT tag')].
    destruct Hor as [|Hor]; [lia|]. by destruct (ok_reserved T HT).
  - intros tag' Ht'. rewrite (Hget T' tag' HT') by done. destruct (decide (tag' = tag)); [done|]. by apply (ok_class T HT).
Qed.
End Registration.

(** Registration and dispatch under the invariant of the tables. *)
Lemma registration_ok G O unrecognized T tag cls : In G tag_configs -> obfuscation_ok G O ->
  unrecognized <> 0 -> tables_ok G O unrecognized T -> cls <> unrecognized ->
  tables_ok G O unrecognized (fun _ => 0) /\
  (forall tag value, valid_tag tag -> getClassForTag G O T tag <> 0 ->
     tagged_getIsa G unrecognized T (makeTaggedPointer G O tag value) = getClassForTag G O T tag) /\
  (if valid_tagb tag && ((getClassForTag G O T tag =? 0) || (getClassForTag G O T tag =? cls) || (cls =? 0))
   then exists T', registerTaggedPointerClass G O true unrecognized T tag cls = Ok T' /\ tables_ok G O unrecognized T' /\
     forall tag', valid_tag tag' -> getClassForTag G O T' tag' = if decide (tag' = tag) then cls else getClassForTag G O T tag'
   else registerTaggedPointerClass G O true unrecognized T tag cls = Fault FatalError) /\
  registerTaggedPointerClass G O false unrecognized T tag cls = Fault FatalError.
Proof.
  intros HG HO Hun HT Hcls. split_and!; [| |destruct (_ && _) eqn:E|done].
  - split; [by left| |]; unfold getClassForTag; intros t; destruct (classSlotForTagIndex G O t); congruence.
  - intros. by apply dispatch_ok.
  - apply andb_true_iff in E as [Hv Hc]. apply valid_tagb_spec in Hv.
    destruct (registerTaggedPointerClass G O true unrecognized T tag cls) as [T'|f] eqn:Er.
    + exists T'. destruct (register_spec G O HG HO unrecognized T tag cls T' HT Hcls Er) as (_ & ? & _ & ?). done.
    + exfalso. unfold registerTaggedPointerClass in Er. unfold getClassForTag in Hc. cbn [negb] in Er.
      destruct (classSlotForTagIndex G O tag) as [s|] eqn:Es; [|by apply (slot_None G O) in Es].
      revert Er Hc. unfold nz. rewrite (Z.eqb_sym cls (T s)).
      destruct (T s =? 0), (T s =? cls), (cls =? 0), ((_ <? _) || _); cbn; try destruct (_ =? 0); done.
  - destruct (registerTaggedPointerClass G O true unrecognized T tag cls) as [T'|f] eqn:Er.
    + exfalso. destruct (register_spec G O HG HO unrecognized T tag cls T' HT Hcls Er) as (Hv & _ & Hc & _).
      apply valid_tagb_spec in Hv. rewrite Hv in E. cbn [andb] in E.
      revert E. destruct Hc as [->|[->| ->]]; by rewrite Z.eqb_refl, ?orb_true_r.
    + unfold registerTaggedPointerClass in Er. cbn [negb] in Er. destruct (classSlotForTagIndex G O tag); [|congruence].
      revert Er. destruct (nz cls && _ && _); [congruence|]. destruct ((tag <? _) || _).
      * by destruct (store_slot T s cls _ =? 0).
      * done.
Qed.

(** C31: tagged pointers and their classes. In each of the three representations and
    with the obfuscator that initialisation makes of any random words, the pointer
    built for a valid tag and a payload is tagged, decodes to the tag, and decodes
    to the payload truncated to 60 or 52 bits, zero-extended or sign-extended; its
    basic and extended predicates tell the two kinds of tag apart, and decoding
    inverts encoding. The obfuscator leaves the bits clear by which pointers are
    recognised and permutes the seven basic tags among themselves; with the
    opt-out of the environment nothing is obfuscated. From class tables satisfying
    their invariant (the empty ones do), a successful registration makes exactly
    that tag's class the new one, leaves every other tag's, keeps the invariant,
    and requires that the tag was free, had the same class, or was being cleared;
    and the class that dispatch reads out of any pointer made for a registered tag
    is the class registered. Invalid tags, conflicts and disabled tagged pointers
    are fatal. *)
Theorem tagged_pointer_roundtrip G enabled random targets tag value : In G tag_configs -> in_word 64 random ->
  Forall (fun t => t < 7)%nat targets -> valid_tag tag ->
  let O := initializeTaggedPointerObfuscator G enabled random targets in
  let p := makeTaggedPointer G O tag value in
  isTaggedPointer G p = true /\ isTaggedPointerOrNil G p = true /\
  isExtTaggedPointer G O p = negb (tag <=? 6) /\ isBasicTaggedPointer G O p = (tag <=? 6) /\
  getTaggedPointerTag G O p = tag /\
  getTaggedPointerValue G O p = wrap (payload_bits tag) value /\
  getTaggedPointerSignedValue G O p = sint (payload_bits tag) value /\
  encodeTaggedPointer G O (decodeTaggedPointer G O p) = p /\
  (enabled = false -> forall p, in_word 64 p -> encodeTaggedPointer G O p = p) /\
  forall unrecognized T t cls, unrecognized <> 0 -> tables_ok G O unrecognized T -> cls <> unrecognized ->
    tables_ok G O unrecognized (fun _ => 0) /\
    (getClassForTag G O T tag <> 0 -> tagged_getIsa G unrecognized T p = getClassForTag G O T tag) /\
    (if valid_tagb t && ((getClassForTag G O T t =? 0) || (getClassForTag G O T t =? cls) || (cls =? 0))
     then exists T', registerTaggedPointerClass G O true unrecognized T t cls = Ok T' /\ tables_ok G O unrecognized T' /\
       forall t', valid_tag t' -> getClassForTag G O T' t' = if decide (t' = t) then cls else getClassForTag G O T t'
     else registerTaggedPointerClass G O true unrecognized T t cls = Fault FatalError) /\
    registerTaggedPointerClass G O false unrecognized T t cls = Fault FatalError.
Proof.
  intros HG Hr Ht Hv O p.
  destruct (pointer_roundtrip G enabled random targets tag value HG Hr Ht Hv) as (? & ? & ? & ? & ? & ? & ? & ? & HO & ?).
  split_and!; try done. intros unrecognized T t cls Hun HT Hcls.
  destruct (registration_ok G O unrecognized T t cls HG HO Hun HT Hcls) as (? & Hd & ? & ?).
  split_and!; try done. intros Hc. by apply Hd.
Qed.

(** ** Concrete instances *)
Definition sample_obfuscation : obfuscation :=
  initializeTaggedPointerObfuscator split_tags true 0x9abcdef012345678 [3; 0; 4; 1; 2; 0; 0]%nat.
Lemma sample_obfuscation_ok : obfuscation_ok split_tags sample_obfuscation.
Proof.
  split; try (by vm_compute); unfold sample_obfuscation, initializeTaggedPointerObfuscator; cbn [tag60_permutations SPLIT_TAGGED_POINTERS split_tags].
  by destruct (shuffle_spec [3; 0; 4; 1; 2; 0; 0]%nat 6 initial_permutations ltac:(lia) ltac:(repeat constructor)).
Qed.
Definition sample_msb : obfuscation := initializeTaggedPointerObfuscator msb_tags true 0x1234567890abcdef [].
(** A pointer of tag 3 holding -5, and the class registered for the extended tag 16. *)
Lemma tagged_pointer_roundtrip_witness :
  getTaggedPointerSignedValue split_tags sample_obfuscation (makeTaggedPointer split_tags sample_obfuscation 3 (2 ^ 64 - 5)) = -5 /\
  getTaggedPointerTag msb_tags sample_msb (makeTaggedPointer msb_tags sample_msb 20 77) = 20 /\
  exists T, registerTaggedPointerClass split_tags sample_obfuscation true 0x9000 (fun _ => 0) 16 0x1000 = Ok T /\
    tagged_getIsa split_tags 0x9000 T (makeTaggedPointer split_tags sample_obfuscation 16 42) = 0x1000.
Proof.
  split_and!.
  - destruct (tagged_pointer_roundtrip split_tags true 0x9abcdef012345678 [3; 0; 4; 1; 2; 0; 0]%nat 3 (2 ^ 64 - 5)) as (_ & _ & _ & _ & _ & _ & E & _);
      [by left|by vm_compute|repeat constructor|by left; lia|exact E].
  - destruct (tagged_pointer_roundtrip msb_tags true 0x1234567890abcdef [] 20 77) as (_ & _ & _ & _ & E & _);
      [by right; left|by vm_compute|constructor|by right; lia|exact E].
  - destruct (tagged_pointer_roundtrip split_tags true 0x9abcdef012345678 [3; 0; 4; 1; 2; 0; 0]%nat 16 42)
      as (_ & _ & _ & _ & _ & _ & _ & _ & _ & R); [by left|by vm_compute|repeat constructor|by right; lia|].
    destruct (R 0x9000 (fun _ => 0) 16 0x1000) as (_ & _ & (T & E & HT & Hg) & _); [lia| |lia|].
    { split; [by left| |]; unfold getClassForTag; intros t; destruct (classSlotForTagIndex _ _ t); congruence. }
    exists T. split; [done|]. destruct (R 0x9000 T 16 0x1000) as (_ & Hd & _); [lia|done|lia|].
    specialize (Hg 16 ltac:(right; lia)). cbn [decide] in Hg. refine (eq_trans (Hd _) Hg). rewrite Hg. discriminate.
Defined.
