(* ===== verification/ObjcObject.v ===== *)
(** * objc-object.h: objects, their isa and their retain count

    The operations of [objc_object] on one object, for the configurations with a
    nonpointer isa. They are programs of a small monad over the [world] the
    object lives in: its isa word, the side table of its stripe, and [env], what
    other threads do to the word. Every exclusive load and store of the source
    is an access of the monad; before it, another thread may have stored the word
    at the head of [env], and then the access loads that word, or fails. A store
    that fails for no reason is the same word stored again.

    The side table needs no such interference: its operations run under its
    lock, which an operation takes at most once, so [side] is the table as
    found when the lock is taken. *)

From stdpp Require Import prelude numbers list.
From Stdlib Require Import ZArith Lia Bool.
From S2P Require Import Prelude ObjcOS DenseMap Isa SideTable TaggedPointer.

(** What the classes answer. *)
Record class_info := {
  isFuture : Z -> bool;
  canAllocNonpointer : Z -> bool;
  instancesRequireRawIsa : Z -> bool;
  cls_hasCxxDtor : Z -> bool;
  classArrayIndex : Z -> Z;
  hasCustomRR : Z -> bool;
  canCallSwiftRR : Z -> bool;
  isMetaClass : Z -> bool;
}.
(** [RRVariant]. *)
Inductive RRVariant := Full | Fast | FastOrMsgSend.
#[export] Instance RRVariant_eq_dec : EqDecision RRVariant.
Proof. solve_decision. Defined.
(** How a retain ends: with the object, with nil, or in another's hands. *)
Inductive retained := RetainedSelf | RetainedNil | SwiftRetain | MsgSendRetain.
(** How a release ends: its result and whether [dealloc] was sent, or in
    another's hands. *)
Inductive released := Released (result sent_dealloc : bool) | SwiftRelease | MsgSendRelease.

Record world (W : Type) := World { isa : Z; side : SideTable W; env : list (option Z) }.
Arguments World {W} isa side env.
Arguments isa {W} w.
Arguments side {W} w.
Arguments env {W} w.

Section Monad.
Context {W : Type}.
Definition M (A : Type) : Type := world W -> res (A * world W).
Definition ret {A} (a : A) : M A := fun w => Ok (a, w).
Definition bind {A B} (m : M A) (k : A -> M B) : M B := fun w => let? (a, w) := m w in k a w.
Definition fail {A} (f : fault) : M A := fun _ => Fault f.
Definition check (b : bool) : M unit := fun w => assert? b in Ok (tt, w).
Definition lift {A} (r : res A) : M A := fun w => let? a := r in Ok (a, w).
(** The word as it is. *)
Definition load : M Z := fun w => Ok (isa w, w).
Definition store (v : Z) : M unit := fun w => Ok (tt, World v (side w) (env w)).
(** An operation of the side table. *)
Definition on_side {A} (f : SideTable W -> res (SideTable W * A)) : M A :=
  fun w => let? (t, a) := f (side w) in Ok (a, World (isa w) t (env w)).
Definition on_side_ (f : SideTable W -> res (SideTable W)) : M unit :=
  fun w => let? t := f (side w) in Ok (tt, World (isa w) t (env w)).
(** What other threads do before the next access. *)
Definition interfere : M (option Z) := fun w =>
  match env w with
  | Some v :: e => Ok (Some v, World v (side w) e)
  | None :: e => Ok (None, World (isa w) (side w) e)
  | [] => Ok (None, w)
  end.
End Monad.
Notation "'let!' x := m 'in' k" := (bind m (fun x => k))
  (at level 10, x pattern, m at level 100, k at level 200) : word_scope.
Notation "'do!' m 'in' k" := (bind m (fun _ => k))
  (at level 10, m at level 100, k at level 200) : word_scope.

Section Exclusive.
Context {W : Type}.
Definition LoadExclusive : M (W := W) Z := do! interfere in load.
(** Whether the store was done, and the old value, updated when it was not. *)
Definition StoreExclusive (oldvalue value : Z) : M (W := W) (bool * Z) :=
  let! i := interfere in
  match i with
  | Some v => ret (false, v)
  | None =>
    let! current := load in
    if current =? oldvalue then do! store value in ret (true, oldvalue) else ret (false, current)
  end.
Definition StoreReleaseExclusive : Z -> Z -> M (W := W) (bool * Z) := StoreExclusive.
Definition ClearExclusive : M (W := W) unit := ret tt.
(** A bound on the accesses that can fail. *)
Definition attempts : M (W := W) nat := fun w => Ok (length (env w), w).
End Exclusive.

Section Object.
Context (L : layout) (S : signing) (C : class_table) (K : class_info) (TG : option tag_config) (DisableNonpointerIsa : bool).
Context {W : Type} {HW : WeakTableOps W} (garbage : nat -> Z * Z) (this : Z).
Abbreviation M := (M (W := W)).

Definition this_isTaggedPointer : bool := match TG with Some G => isTaggedPointer G this | None => false end.
Definition decodedClass (bits : Z) : M Z := lift (getDecodedClass L S C bits).
(** The side table's functions on this object; those that assert
    [isa.nonpointer] read the isa. *)
Definition side_lock : M unit := on_side_ sidetable_lock.
Definition side_unlock : M unit := on_side_ sidetable_unlock.
Definition side_retain (locked : bool) : M unit :=
  let! bits := load in on_side_ (fun t => sidetable_retain garbage t this (nonpointer L bits) locked).
Definition side_tryRetain : M bool :=
  let! bits := load in on_side (fun t => sidetable_tryRetain garbage t this (nonpointer L bits)).
Definition side_release (locked : bool) : M bool :=
  let! bits := load in on_side (fun t => sidetable_release garbage t this (nonpointer L bits) locked).
Definition side_addExtraRC (n : Z) : M bool :=
  let! bits := load in on_side (fun t => sidetable_addExtraRC_nolock garbage t this (nonpointer L bits) n).
Definition side_subExtraRC (n : Z) : M (Z * Z) :=
  let! bits := load in on_side (fun t => sidetable_subExtraRC_nolock garbage t this (nonpointer L bits) n).
Definition side_clearExtraRC : M unit :=
  let! bits := load in on_side_ (fun t => sidetable_clearExtraRC_nolock garbage t this (nonpointer L bits)).
Definition side_getExtraRC : M Z :=
  let! bits := load in on_side (fun t => let? n := sidetable_getExtraRC_nolock garbage t this (nonpointer L bits) in Ok (t, n)).
Definition side_moveExtraRC (n : Z) (dealloc weak : bool) : M unit :=
  let! bits := load in on_side_ (fun t => sidetable_moveExtraRC_nolock garbage t this (nonpointer L bits) n dealloc weak).

(** ** The class of an object *)
Definition ISA : M Z := do! check (negb this_isTaggedPointer) in let! bits := load in decodedClass bits.
Definition rawISA : M Z :=
  let! bits := load in do! check (negb this_isTaggedPointer && negb (nonpointer L bits)) in ret bits.
Definition hasNonpointerIsa : M bool := let! bits := load in ret (nonpointer L bits).

Definition initIsa (cls : Z) (nonpointer hasCxxDtor : bool) : M unit :=
  do! check (negb this_isTaggedPointer) in
  if negb nonpointer then store (setClass L S cls this 0)
  else
    do! check (negb DisableNonpointerIsa) in
    do! check (negb (instancesRequireRawIsa K cls)) in
    let! newisa := (if indexed L then
         do! check (classArrayIndex K cls >? 0) in
         ret (set (f_shiftcls L) (classArrayIndex K cls) (set_cxx_dtor L hasCxxDtor (ISA_MAGIC_VALUE L)))
       else ret (setClass L S cls this (set_cxx_dtor L hasCxxDtor (ISA_MAGIC_VALUE L)))) in
    store (set (f_extra_rc L) 1 newisa).
(** The overload with the class only. *)
Definition initIsa_raw (cls : Z) : M unit := initIsa cls false false.
Definition initClassIsa (cls : Z) : M unit :=
  if DisableNonpointerIsa || instancesRequireRawIsa K cls then initIsa cls false false else initIsa cls true false.
Definition initProtocolIsa (cls : Z) : M unit := initClassIsa cls.
Definition initInstanceIsa (cls : Z) (hasCxxDtor : bool) : M unit :=
  do! check (negb (instancesRequireRawIsa K cls)) in
  do! check (Bool.eqb hasCxxDtor (cls_hasCxxDtor K cls)) in
  initIsa cls true hasCxxDtor.

(** One turn of [changeIsa]'s loop: the new isa, built in the variable [newisa]
    that keeps its value from turn to turn, and whether the retain count goes to
    the side table. *)
Definition changed_isa (newCls oldisa newisa : Z) : M (Z * bool) :=
  if ((oldisa =? 0) || nonpointer L oldisa) && negb (isFuture K newCls) && canAllocNonpointer K newCls then
    let newisa := if oldisa =? 0 then set (f_extra_rc L) 1 (ISA_MAGIC_VALUE L) else oldisa in
    let newisa := set_cxx_dtor L (cls_hasCxxDtor K newCls) newisa in
    if indexed L then
      do! check (classArrayIndex K newCls >? 0) in
      ret (set (f_shiftcls L) (classArrayIndex K newCls) newisa, false)
    else ret (setClass L S newCls this newisa, false)
  else ret (setClass L S newCls this newisa, nonpointer L oldisa).
Fixpoint changeIsa_loop (fuel : nat) (newCls oldisa newisa : Z) (sideTableLocked : bool) : M (Z * bool * bool) :=
  match fuel with
  | O => fail OutOfFuel
  | Datatypes.S fuel =>
    let! (newisa, transcribeToSideTable) := changed_isa newCls oldisa newisa in
    do! (if transcribeToSideTable && negb sideTableLocked then side_lock else ret tt) in
    let sideTableLocked := sideTableLocked || transcribeToSideTable in
    let! (stored, oldisa) := StoreExclusive oldisa newisa in
    if stored then ret (oldisa, transcribeToSideTable, sideTableLocked)
    else changeIsa_loop fuel newCls oldisa newisa sideTableLocked
  end.
Definition changeIsa (newCls : Z) : M Z :=
  do! check (negb this_isTaggedPointer) in
  let! oldisa := LoadExclusive in
  let! n := attempts in
  let! (oldisa, transcribeToSideTable, sideTableLocked) := changeIsa_loop (2 + n) newCls oldisa 0 false in
  do! (if transcribeToSideTable
       then side_moveExtraRC (extra_rc L oldisa) (isDeallocating L oldisa) (weakly_referenced L oldisa) else ret tt) in
  do! (if sideTableLocked then side_unlock else ret tt) in
  decodedClass oldisa.

(** ** Flags *)
Definition hasAssociatedObjects : M bool :=
  let! bits := load in
  ret (if this_isTaggedPointer then true else if nonpointer L bits then has_assoc L bits else true).
(** [setAssoc] is the method [_noteAssociatedObjects] finds, none when it is the
    forwarding entry; whether it was called is part of the result. *)
Fixpoint setHasAssociatedObjects_loop (fuel : nat) (oldisa : Z) : M unit :=
  match fuel with
  | O => fail OutOfFuel
  | Datatypes.S fuel =>
    if negb (nonpointer L oldisa) || has_assoc L oldisa then ClearExclusive
    else
      let! (stored, oldisa) := StoreExclusive oldisa (set_flag (f_has_assoc L) true oldisa) in
      if stored then ret tt else setHasAssociatedObjects_loop fuel oldisa
  end.
Definition setHasAssociatedObjects (setAssoc : bool) : M bool :=
  if this_isTaggedPointer then ret false
  else
    let! bits := load in
    let! noted :=
      if nonpointer L bits then ret false
      else
        let! cls := ISA in
        ret (hasCustomRR K cls && negb (isFuture K cls) && negb (isMetaClass K cls) && setAssoc) in
    let! oldisa := LoadExclusive in
    let! n := attempts in
    do! setHasAssociatedObjects_loop (2 + n) oldisa in
    ret noted.

Definition isWeaklyReferenced : M bool :=
  do! check (negb this_isTaggedPointer) in
  let! bits := load in
  if nonpointer L bits then ret (weakly_referenced L bits)
  else on_side (fun t => sidetable_isWeaklyReferenced garbage t this).
Fixpoint setWeaklyReferenced_loop (fuel : nat) (oldisa : Z) : M unit :=
  match fuel with
  | O => fail OutOfFuel
  | Datatypes.S fuel =>
    if negb (nonpointer L oldisa) then
      do! ClearExclusive in
      let! bits := load in
      on_side_ (fun t => sidetable_setWeaklyReferenced_nolock garbage t this (nonpointer L bits))
    else if weakly_referenced L oldisa then ClearExclusive
    else
      let! (stored, oldisa) := StoreExclusive oldisa (set_flag (f_weakly_referenced L) true oldisa) in
      if stored then ret tt else setWeaklyReferenced_loop fuel oldisa
  end.
Definition setWeaklyReferenced_nolock : M unit :=
  let! oldisa := LoadExclusive in
  let! n := attempts in
  setWeaklyReferenced_loop (2 + n) oldisa.

Definition hasCxxDtor : M bool :=
  do! check (negb this_isTaggedPointer) in
  let! bits := load in
  match f_has_cxx_dtor L with
  | Some f => if nonpointer L bits then ret (flag f bits) else let! cls := ISA in ret (cls_hasCxxDtor K cls)
  | None => let! cls := ISA in ret (cls_hasCxxDtor K cls)
  end.

(** ** The end of an object *)
Definition rootIsDeallocating : M bool :=
  if this_isTaggedPointer then ret false
  else
    let! bits := load in
    if nonpointer L bits then ret (isDeallocating L bits)
    else on_side (fun t => let? b := sidetable_isDeallocating garbage t this in Ok (t, b)).
Definition clearDeallocating_slow : M unit :=
  let! bits := load in
  do! check (nonpointer L bits && (weakly_referenced L bits || has_sidetable_rc L bits)) in
  do! side_lock in
  do! on_side_ (fun t => clearDeallocating_slow_nolock garbage t this (weakly_referenced L bits) (has_sidetable_rc L bits)) in
  side_unlock.
Definition side_absent : M unit :=
  let! present := on_side (fun t => sidetable_present garbage t this) in check (negb present).
Definition clearDeallocating : M unit :=
  let! bits := load in
  do! (if negb (nonpointer L bits) then on_side_ (fun t => sidetable_clearDeallocating garbage t this)
       else if weakly_referenced L bits || has_sidetable_rc L bits then clearDeallocating_slow else ret tt) in
  side_absent.
(** What destroying the object runs, in order. *)
Inductive teardown := CxxDestruct | RemoveAssociations | ClearDeallocating | Free.
Definition objc_destructInstance : M (list teardown) :=
  let! cxx := hasCxxDtor in
  let! assoc := hasAssociatedObjects in
  do! clearDeallocating in
  ret ((if cxx : bool then [CxxDestruct] else []) ++ (if assoc : bool then [RemoveAssociations] else []) ++ [ClearDeallocating]).
Definition object_dispose : M (list teardown) := let! l := objc_destructInstance in ret (l ++ [Free]).
Definition rootDealloc : M (list teardown) :=
  if this_isTaggedPointer then ret []
  else
    let! bits := load in
    let! dtor := match f_has_cxx_dtor L with
                 | Some f => ret (flag f bits)
                 | None => ret (cls_hasCxxDtor K (getClass L S bits)) end in
    if nonpointer L bits && negb (weakly_referenced L bits) && negb (has_assoc L bits) && negb dtor &&
       negb (has_sidetable_rc L bits)
    then do! side_absent in ret [Free]
    else object_dispose.

(** ** Retain

    The loop of [rootRetain]; [overflow] is [rootRetain_overflow]. Its result says
    whether counts are to be transcribed and whether the lock is held; [inl] is a
    return from within the loop. *)
Section Retain.
Context (overflow : bool -> M retained) (tryRetain : bool) (variant : RRVariant).
Fixpoint rootRetain_loop (fuel : nat) (oldisa : Z) (sideTableLocked : bool) : M (retained + bool * bool) :=
  match fuel with
  | O => fail OutOfFuel
  | Datatypes.S fuel =>
    if negb (nonpointer L oldisa) then
      do! ClearExclusive in
      if tryRetain then let! ok := side_tryRetain in ret (inl (if ok : bool then RetainedSelf else RetainedNil))
      else do! side_retain sideTableLocked in ret (inl RetainedSelf)
    else if isDeallocating L oldisa then
      do! ClearExclusive in
      do! (if sideTableLocked then do! check (bool_decide (variant = Full)) in side_unlock else ret tt) in
      ret (inl (if tryRetain then RetainedNil else RetainedSelf))
    else
      let (newisa, carry) := addc (word L) oldisa (RC_ONE L) 0 in
      if carry then
        if negb (bool_decide (variant = Full)) then
          do! ClearExclusive in let! r := overflow tryRetain in ret (inl r)
        else
          do! (if negb tryRetain && negb sideTableLocked then side_lock else ret tt) in
          let newisa := set_flag (f_has_sidetable_rc L) true (set (f_extra_rc L) (RC_HALF L) newisa) in
          let! (stored, oldisa) := StoreExclusive oldisa newisa in
          if stored then ret (inr (true, true)) else rootRetain_loop fuel oldisa true
      else
        let! (stored, oldisa) := StoreExclusive oldisa newisa in
        if stored then ret (inr (false, sideTableLocked)) else rootRetain_loop fuel oldisa sideTableLocked
  end.
Definition rootRetain_body : M retained :=
  if this_isTaggedPointer then ret RetainedSelf
  else
    let! oldisa := LoadExclusive in
    let! custom :=
      if bool_decide (variant = FastOrMsgSend) then
        let! cls := decodedClass oldisa in
        if hasCustomRR K cls
        then do! ClearExclusive in ret (Some (if canCallSwiftRR K cls then SwiftRetain else MsgSendRetain))
        else ret None
      else ret None in
    match custom with
    | Some r => ret r
    | None =>
      let! meta := (if negb (nonpointer L oldisa) then let! cls := decodedClass oldisa in ret (isMetaClass K cls) else ret false) in
      if meta : bool then do! ClearExclusive in ret RetainedSelf
      else
        let! n := attempts in
        let! r := rootRetain_loop (2 + n) oldisa false in
        match r with
        | inl r => ret r
        | inr (transcribeToSideTable, sideTableLocked) =>
          do! (if bool_decide (variant = Full) then
                 do! (if transcribeToSideTable then let! _ := side_addExtraRC (RC_HALF L) in ret tt else ret tt) in
                 if negb tryRetain && sideTableLocked then side_unlock else ret tt
               else check (negb transcribeToSideTable && negb sideTableLocked)) in
          ret RetainedSelf
        end
    end.
End Retain.
(** The full variant never reaches the overflow path. *)
Definition rootRetain_full (tryRetain : bool) : M retained := rootRetain_body (fun _ => fail OutOfFuel) tryRetain Full.
Definition rootRetain_overflow (tryRetain : bool) : M retained := rootRetain_full tryRetain.
Definition rootRetain_ (tryRetain : bool) (variant : RRVariant) : M retained :=
  rootRetain_body rootRetain_overflow tryRetain variant.
Definition retain : M retained := do! check (negb this_isTaggedPointer) in rootRetain_ false FastOrMsgSend.
Definition rootRetain : M retained := rootRetain_ false Fast.
Definition rootTryRetain : M bool :=
  let! r := rootRetain_ true Fast in ret (match r with RetainedNil => false | _ => true end).

(** ** Release

    The loop of [rootRelease], with the paths its labels name; [underflow] is
    [rootRelease_underflow]. *)
Section Release.
Context (underflow : bool -> M released) (performDealloc : bool) (variant : RRVariant).
(** The label [deallocate]. *)
Definition deallocate (newisa : Z) (sideTableLocked : bool) : M released :=
  do! check (isDeallocating L newisa) in
  let! bits := load in
  do! check (isDeallocating L bits) in
  do! (if sideTableLocked then side_unlock else ret tt) in
  ret (Released true performDealloc).
(** Storing borrowed counts inline: whether it was stored, the word last seen,
    the word stored, and whether the object became deallocating. *)
Definition store_borrowed (oldisa borrowed : Z) (emptySideTable : bool) : M (bool * Z * Z * bool) :=
  let newisa := set_flag (f_has_sidetable_rc L) (negb emptySideTable) (set (f_extra_rc L) (borrowed - 1) oldisa) in
  let! (stored, oldisa) := StoreReleaseExclusive oldisa newisa in
  if negb stored && nonpointer L oldisa then
    let (newisa, overflow) := addc (word L) oldisa (wrap (word L) (RC_ONE L * (borrowed - 1))) 0 in
    let newisa := set_flag (f_has_sidetable_rc L) (negb emptySideTable) newisa in
    if negb overflow then
      let! (stored, oldisa) := StoreReleaseExclusive oldisa newisa in
      ret (stored, oldisa, newisa, stored && isDeallocating L newisa)
    else ret (stored, oldisa, newisa, false)
  else ret (stored, oldisa, newisa, false).
Fixpoint rootRelease_loop (fuel : nat) (oldisa : Z) (sideTableLocked : bool) : M released :=
  match fuel with
  | O => fail OutOfFuel
  | Datatypes.S fuel =>
    if negb (nonpointer L oldisa) then
      do! ClearExclusive in
      let! result := side_release sideTableLocked in ret (Released result (result && performDealloc))
    else if isDeallocating L oldisa then
      do! ClearExclusive in
      do! (if sideTableLocked then do! check (bool_decide (variant = Full)) in side_unlock else ret tt) in
      ret (Released false false)
    else
      let (newisa, carry) := subc (word L) oldisa (RC_ONE L) 0 in
      if negb carry then
        let! (stored, oldisa) := StoreReleaseExclusive oldisa newisa in
        if negb stored then rootRelease_loop fuel oldisa sideTableLocked
        else if isDeallocating L newisa then deallocate newisa sideTableLocked
        else
          do! (if bool_decide (variant = Full) then if sideTableLocked then side_unlock else ret tt
               else check (negb sideTableLocked)) in
          ret (Released false false)
      else (* underflow *)
        if negb (has_sidetable_rc L oldisa) then deallocate oldisa sideTableLocked
        else if negb (bool_decide (variant = Full)) then do! ClearExclusive in underflow performDealloc
        else if negb sideTableLocked then
          do! ClearExclusive in
          do! side_lock in
          let! oldisa := LoadExclusive in
          rootRelease_loop fuel oldisa true
        else
          let! (borrowed, remaining) := side_subExtraRC (RC_HALF L) in
          let emptySideTable := remaining =? 0 in
          if borrowed >? 0 then
            let! (stored, oldisa, newisa, didTransitionToDeallocating) := store_borrowed oldisa borrowed emptySideTable in
            if negb stored then
              do! ClearExclusive in
              let! _ := side_addExtraRC borrowed in
              let! oldisa := LoadExclusive in
              rootRelease_loop fuel oldisa sideTableLocked
            else
              do! (if emptySideTable then side_clearExtraRC else ret tt) in
              if negb didTransitionToDeallocating then
                do! (if sideTableLocked then side_unlock else ret tt) in ret (Released false false)
              else deallocate newisa sideTableLocked
          else deallocate oldisa sideTableLocked
  end.
Definition rootRelease_body : M released :=
  if this_isTaggedPointer then ret (Released false false)
  else
    let! oldisa := LoadExclusive in
    let! custom :=
      if bool_decide (variant = FastOrMsgSend) then
        let! cls := decodedClass oldisa in
        if hasCustomRR K cls
        then do! ClearExclusive in ret (Some (if canCallSwiftRR K cls then SwiftRelease else MsgSendRelease))
        else ret None
      else ret None in
    match custom with
    | Some r => ret r
    | None =>
      let! meta := (if negb (nonpointer L oldisa) then let! cls := decodedClass oldisa in ret (isMetaClass K cls) else ret false) in
      if meta : bool then do! ClearExclusive in ret (Released false false)
      else
        let! n := attempts in
        rootRelease_loop (3 + n) oldisa false
    end.
End Release.
Definition rootRelease_full (performDealloc : bool) : M released := rootRelease_body (fun _ => fail OutOfFuel) performDealloc Full.
Definition rootRelease_underflow (performDealloc : bool) : M released := rootRelease_full performDealloc.
Definition rootRelease_ (performDealloc : bool) (variant : RRVariant) : M released :=
  rootRelease_body rootRelease_underflow performDealloc variant.
Definition release : M released := do! check (negb this_isTaggedPointer) in rootRelease_ true FastOrMsgSend.
Definition rootRelease : M released := rootRelease_ true Fast.
Definition rootReleaseShouldDealloc : M released := rootRelease_ false Fast.

Definition rootRetainCount : M Z :=
  if this_isTaggedPointer then ret this
  else
    do! side_lock in
    let! bits := load in
    if nonpointer L bits then
      let! extra := (if has_sidetable_rc L bits then side_getExtraRC else ret 0) in
      do! side_unlock in
      ret (wrap (word L) (extra_rc L bits + extra))
    else
      do! side_unlock in
      on_side (fun t => sidetable_retainCount garbage t this).
End Object.
