(* ===== verification/RetainRelease.v ===== *)
(** * The retain count of an object, whatever other threads do

    Theorems on [rootRetain], [rootRelease] and [rootRetainCount] of ObjcObject.v
    for a nonpointer isa: the count of an object is the sum of its inline count
    and its side count, and each operation has its effect on the count the
    object has at the moment the operation's store takes place. *)

From stdpp Require Import prelude numbers list.
From Stdlib Require Import ZArith Lia Bool.
From S2P Require Import Prelude ObjcOS DenseMap Isa SideTable TaggedPointer ObjcObject.

(** ** Running programs of the monad *)
Section Running.
Context {W : Type}.
Implicit Types (w : world W).
Lemma bind_Ok {A B} (m : M A) (k : A -> M B) w a w' : m w = Ok (a, w') -> bind m k w = k a w'.
Proof. unfold bind. by intros ->. Qed.
Lemma bind_bind {A B D} (m : M A) (f : A -> M B) (k : B -> M D) w : bind (bind m f) k w = bind m (fun a => bind (f a) k) w.
Proof. unfold bind. by destruct (m w) as [[a w1]|]. Qed.
Lemma bind_ret {A B} (a : A) (k : A -> M B) w : bind (ret a) k w = k a w.
Proof. reflexivity. Qed.
Lemma bind_check {B} (k : unit -> M B) w : bind (check true) k w = k tt w.
Proof. reflexivity. Qed.
Lemma bind_load {B} (k : Z -> M B) w : bind load k w = k (isa w) w.
Proof. reflexivity. Qed.
Lemma bind_attempts {B} (k : nat -> M B) w : bind attempts k w = k (length (env w)) w.
Proof. reflexivity. Qed.
Lemma bind_clear {B} (k : unit -> M B) w : bind ClearExclusive k w = k tt w.
Proof. reflexivity. Qed.

(** The word after what other threads did, and the words ever seen. *)
Definition latest (v : Z) (l : list (option Z)) : Z := fold_left (fun cur o => default cur o) l v.
Definition words w : list Z := isa w :: omap id (env w).
(** From [w] to [w'] the accesses found the word to be [v] at last. *)
Definition seen w w' (v : Z) : Prop := exists used, env w = used ++ env w' /\ v = latest (isa w) used.
Lemma latest_app v l1 l2 : latest v (l1 ++ l2) = latest (latest v l1) l2.
Proof. apply fold_left_app. Qed.
Lemma seen_refl w : seen w w (isa w).
Proof. by exists []. Qed.
Lemma seen_trans w w1 w2 v v' : seen w w1 v -> isa w1 = v -> seen w1 w2 v' -> seen w w2 v'.
Proof.
  intros (l1 & E1 & ->) E (l2 & E2 & ->). exists (l1 ++ l2). rewrite latest_app, <- E. split; [|done].
  by rewrite E1, E2, app_assoc.
Qed.
Lemma seen_env w w' v : env w = env w' -> isa w = v -> seen w w' v.
Proof. intros E <-. by exists []. Qed.
Lemma latest_in l : forall v, latest v l = v \/ In (latest v l) (omap id l).
Proof.
  induction l as [|[u|] l IH]; intros v; [by left| |by apply IH].
  right. destruct (IH u) as [E|H]; [left; symmetry; apply E|right; exact H].
Qed.
Lemma seen_words w w' v x : seen w w' v -> isa w' = v -> In x (words w') -> In x (words w).
Proof.
  intros (l & E & ->) Hv. unfold words. rewrite E, omap_app, Hv. intros [<-|Hin].
  - destruct (latest_in l (isa w)) as [->|H]; [by left|right; apply in_app_iff; by left].
  - right. apply in_app_iff. by right.
Qed.
Lemma seen_in w w' v : seen w w' v -> In v (words w).
Proof. intros H. apply (seen_words w (World v (side w) (env w')) v); [done|done|by left]. Qed.
Lemma seen_Forall (P : Z -> Prop) w w' v : seen w w' v -> isa w' = v -> Forall P (words w) -> Forall P (words w').
Proof. rewrite !List.Forall_forall. intros Hs Hv HP x Hx. apply HP. by eapply seen_words. Qed.

Lemma LoadExclusive_run w : exists v w', LoadExclusive w = Ok (v, w') /\ isa w' = v /\ side w' = side w /\ seen w w' v /\
  (length (env w') <= length (env w))%nat.
Proof.
  destruct w as [v t [|[u|] e]]; unfold LoadExclusive, bind, interfere; cbn; eexists _, _; (split; [done|]); cbn; split_and!;
    try done; try lia.
  - by exists [].
  - by exists [Some u].
  - by exists [None].
Qed.
Lemma StoreExclusive_run w new :
  (exists w', StoreExclusive (isa w) new w = Ok ((true, isa w), w') /\ isa w' = new /\ side w' = side w /\ seen w w' (isa w) /\
     (length (env w') <= length (env w))%nat) \/
  (exists v w', StoreExclusive (isa w) new w = Ok ((false, v), w') /\ isa w' = v /\ side w' = side w /\ seen w w' v /\
     (length (env w') < length (env w))%nat).
Proof.
  destruct w as [v t [|[u|] e]]; unfold StoreExclusive, bind, interfere; cbn; rewrite ?Z.eqb_refl; cbn.
  - left. eexists. split; [done|]. cbn. split_and!; try done. by exists [].
  - right. eexists _, _. split; [done|]. cbn. split_and!; try done; try lia. by exists [Some u].
  - left. eexists. split; [done|]. cbn. split_and!; try done; try lia. by exists [None].
Qed.
End Running.

(** Runs the steps of a program that need no lemma, or one step by its lemma. *)
Ltac run := repeat first
  [ rewrite bind_bind|rewrite bind_ret|rewrite bind_check|rewrite bind_load|rewrite bind_attempts|rewrite bind_clear
  | progress (cbv beta match zeta)|progress (cbn [negb andb orb])].
Ltac step E := run; rewrite (bind_Ok _ _ _ _ _ E); run.

Section Counting.
Context (L : layout) {HL : LayoutOk L} (S : signing) (C : class_table) (K : class_info) (TG : option tag_config).
Context {W : Type} {HW : WeakTableOps W} (garbage : nat -> Z * Z) (this : Z).
Implicit Types (w : world W) (t : SideTable W).
Hypothesis Htag : this_isTaggedPointer TG this = false.
Abbreviation limit := (rc_limit L).
Abbreviation stepped := (stepped garbage).
Abbreviation ready := (ready garbage).

(** ** The state of an object *)
(** Everything but the two parts of the count. *)
Definition same_object (v v' : Z) : Prop :=
  nonpointer L v' = nonpointer L v /\ has_assoc L v' = has_assoc L v /\
  weakly_referenced L v' = weakly_referenced L v /\ get (f_shiftcls L) v' = get (f_shiftcls L) v.
(** An isa that goes with a side count of [c]. *)
Record sane (c v : Z) : Prop := {
  sane_word : in_word (word L) v;
  sane_nonpointer : nonpointer L v = true;
  sane_side : has_sidetable_rc L v = negb (c =? 0);
}.
(** The object has side count [c], a whole number of transfers; whatever the
    other threads store agrees with it. *)
Record counted w (c : Z) (held : bool) : Prop := {
  co_ready : ready (side w) this held;
  co_word : word_of garbage (side w) this = 4 * c;
  co_count : 0 <= c < 2 ^ 60;
  co_whole : c mod RC_HALF L = 0;
  co_sane : Forall (sane c) (words w);
}.
Lemma counted_isa w c held : counted w c held -> sane c (isa w).
Proof. intros [_ _ _ _ H]. by apply Forall_cons in H as [? _]. Qed.
Lemma counted_seen w w' v c held : counted w c held -> seen w w' v -> isa w' = v -> side w' = side w -> counted w' c held.
Proof.
  intros [Hr Hw Hc Hm Hs] H Hv Hside. split; rewrite ?Hside; try done. by eapply seen_Forall.
Qed.
Lemma counted_v w w' v c held : counted w c held -> seen w w' v -> sane c v.
Proof. intros [_ _ _ _ H] Hs. rewrite List.Forall_forall in H. apply H. by eapply seen_in. Qed.
Lemma half_limit : 0 < RC_HALF L /\ 2 * RC_HALF L = limit.
Proof. apply (rc_half_facts L). Qed.

(** What a successful store leaves: the object [v] with its count [c] become
    [v'] and [c'], the total having changed by [n]. *)
Record recounted (v c v' c' n : Z) : Prop := {
  rec_same : same_object v v';
  rec_sane : sane c' v';
  rec_whole : c' mod RC_HALF L = 0;
  rec_total : extra_rc L v' + c' = extra_rc L v + c + n;
}.
Lemma same_but_rc_object v v' : same_but_rc L v v' -> same_object v v'.
Proof. intros (? & ? & ? & ? & ? & ?). by split_and!. Qed.
Lemma count_up v c : sane c v -> c mod RC_HALF L = 0 -> extra_rc L v + 1 < limit ->
  recounted v c (v + RC_ONE L) c 1.
Proof.
  intros [Hw Hn Hs] Hm Hl. destruct (add_extra L 1 v Hw) as (Hw' & He & Hsame); [pose proof (extra_range L v); lia|].
  rewrite Z.mul_1_l in *. pose proof Hsame as (E1 & _ & _ & E2 & _). split; [by apply same_but_rc_object| |done|lia].
  split; [done|congruence|congruence].
Qed.
Lemma count_down v c : sane c v -> c mod RC_HALF L = 0 -> 0 < extra_rc L v ->
  recounted v c (v - RC_ONE L) c (-1).
Proof.
  intros [Hw Hn Hs] Hm Hl. destruct (add_extra L (-1) v Hw) as (Hw' & He & Hsame); [pose proof (extra_range L v); lia|].
  replace (v + -1 * RC_ONE L) with (v - RC_ONE L) in * by lia. pose proof Hsame as (E1 & _ & _ & E2 & _).
  split; [by apply same_but_rc_object| |done|lia]. split; [done|congruence|congruence].
Qed.
(** Rewriting both parts of the count. *)
Lemma set_parts e b v : 0 <= e < limit -> let v' := set_flag (f_has_sidetable_rc L) b (set (f_extra_rc L) e v) in
  same_object v v' /\ extra_rc L v' = e /\ has_sidetable_rc L v' = b /\ (in_word (word L) v -> in_word (word L) v').
Proof.
  intros He v'. destruct (set_extra_spec L e v He) as (E1 & E2 & E3 & E4 & E5 & E6 & E7).
  destruct (set_sidetable_rc_spec L b (set (f_extra_rc L) e v)) as (F1 & F2 & F3 & F4 & F5 & F6 & F7).
  unfold v', same_object. rewrite F1, F2, F3, F4, F5, F6. split_and!; auto.
Qed.
Lemma carry_parts v : in_word (word L) v -> nonpointer L v = true -> extra_rc L v + 1 = limit ->
  let v' := set_flag (f_has_sidetable_rc L) true (set (f_extra_rc L) (RC_HALF L) (fst (addc (word L) v (RC_ONE L) 0))) in
  same_object v v' /\ extra_rc L v' = RC_HALF L /\ has_sidetable_rc L v' = true /\ in_word (word L) v'.
Proof.
  intros Hw Hn He. destruct (rc_one_facts L) as [Hp Hlim]. pose proof (low_range L v) as Hlow.
  assert (E : fst (addc (word L) v (RC_ONE L) 0) = low L v).
  { unfold addc. cbn [fst]. rewrite Z.add_0_r. unfold wrap. symmetry. pose proof (word_split L v Hw) as Ev. pose proof (extra_range L v) as Hex.
    assert (extra_rc L v = limit - 1) as Ee by lia. rewrite Ee in Ev. apply Z.mod_unique_pos with 1; nia. }
  rewrite E. assert (Hs : same_but_rc L v (low L v)) by (apply (low_same L v (low L v)), Zmod_mod).
  assert (Hw' : in_word (word L) (low L v)) by (unfold in_word; pose proof (extra_range L v); nia).
  destruct half_limit. destruct (set_parts (RC_HALF L) true (low L v)) as ((E1 & E2 & E3 & E4) & F & G & Hin); [lia|].
  apply same_but_rc_object in Hs as (S1 & S2 & S3 & S4). split; [|auto]. unfold same_object. by rewrite E1, E2, E3, E4.
Qed.
Lemma whole_add c : c mod RC_HALF L = 0 -> (c + RC_HALF L) mod RC_HALF L = 0.
Proof. intros E. destruct half_limit. replace (c + RC_HALF L) with (c + 1 * RC_HALF L) by lia. by rewrite Z.mod_add by lia. Qed.
Lemma whole_sub c : c mod RC_HALF L = 0 -> (c - RC_HALF L) mod RC_HALF L = 0.
Proof. intros E. destruct half_limit. replace (c - RC_HALF L) with (c + (-1) * RC_HALF L) by lia. by rewrite Z.mod_add by lia. Qed.
Lemma whole_half c : c mod RC_HALF L = 0 -> 0 <= c -> c <> 0 -> RC_HALF L <= c.
Proof. intros E Hc Hne. destruct half_limit. apply Z.mod_divide in E as [k ->]; [|lia]. assert (0 < k) by nia. nia. Qed.

(** ** Steps on the side table *)
Lemma run_lock w c : counted w c false ->
  exists w', side_lock w = Ok (tt, w') /\ counted w' c true /\ isa w' = isa w /\ env w' = env w /\
    stepped (side w) (side w') this true (4 * c).
Proof.
  intros [Hr Hw Hc Hm Hs]. unfold side_lock, on_side_, sidetable_lock.
  destruct (lock_ok garbage (side w) this Hr) as (t & -> & Hr' & Hst). cbn. eexists. split; [done|]. cbn. rewrite Hw in Hst.
  split_and!; try done. split; try done. by apply stepped_word in Hst.
Qed.
Lemma run_unlock w c : counted w c true ->
  exists w', side_unlock w = Ok (tt, w') /\ counted w' c false /\ isa w' = isa w /\ env w' = env w /\
    stepped (side w) (side w') this false (4 * c).
Proof.
  intros [Hr Hw Hc Hm Hs]. unfold side_unlock, on_side_, sidetable_unlock.
  destruct (unlock_ok garbage (side w) this Hr) as (t & -> & Hr' & Hst). cbn. eexists. split; [done|]. cbn. rewrite Hw in Hst.
  split_and!; try done. split; try done. by apply stepped_word in Hst.
Qed.
(** Giving the lock after the table may have grown. *)
Lemma run_unlock_any w v : refs garbage (refcnts (side w)) -> slock (side w) = true -> word_of garbage (side w) this = v ->
  exists w', side_unlock w = Ok (tt, w') /\ isa w' = isa w /\ env w' = env w /\ stepped (side w) (side w') this false v.
Proof.
  intros Hr Hl <-. unfold side_unlock, on_side_, sidetable_unlock, unlock. rewrite Hl. cbn. eexists. split; [done|].
  by split_and!.
Qed.
Lemma side_no_flags w c held : counted w c held -> no_flags (word_of garbage (side w) this).
Proof. intros [_ Hw Hc _ _]. rewrite Hw. apply plain_no_flags. lia. Qed.
(** Counts are added below the saturation point. *)
Lemma run_add w c held n : ready (side w) this held -> word_of garbage (side w) this = 4 * c -> 0 <= c < 2 ^ 60 ->
  nonpointer L (isa w) = true -> 0 <= n < 2 ^ 60 ->
  exists w', side_addExtraRC L garbage this n w = Ok (false, w') /\ isa w' = isa w /\ env w' = env w /\
    stepped (side w) (side w') this held (4 * (c + n)) /\ (present garbage (side w) this -> ready (side w') this held).
Proof.
  intros Hr Hw Hc Hn Hlim. assert (Hnf : no_flags (word_of garbage (side w) this)) by (rewrite Hw; apply plain_no_flags; lia).
  unfold side_addExtraRC, bind, load, on_side. cbn [rbind]. rewrite Hn.
  destruct (sidetable_addExtraRC_ok garbage (side w) this held n Hr Hnf) as (t & E & Hst & _).
  unfold addExtraRC_word in E, Hst. rewrite Hw, delta_small, pinned_spec in E, Hst by (unfold in_word; lia).
  destruct (Z.leb_spec (2 ^ 63) (4 * c)), (Z.leb_spec (2 ^ 64) (4 * c + 4 * n)); try lia. cbn [fst snd] in E, Hst.
  pose proof E as E'. rewrite E. cbn [rbind]. eexists. split; [done|]. cbn.
  replace (4 * (c + n)) with (4 * c + 4 * n) by lia. split_and!; try done. intros Hp. destruct Hst as [Hr' _ Hl' _].
  split; try done; [by eapply sidetable_addExtraRC_roomy|apply Hr].
Qed.
(** Borrowing a transfer. *)
Lemma run_sub w c : counted w c true -> c <> 0 ->
  exists w', side_subExtraRC L garbage this (RC_HALF L) w = Ok ((RC_HALF L, c - RC_HALF L), w') /\ isa w' = isa w /\ env w' = env w /\
    stepped (side w) (side w') this true (4 * (c - RC_HALF L)) /\ ready (side w') this true /\ present garbage (side w') this.
Proof.
  intros Hco Hne. pose proof (side_no_flags _ _ _ Hco) as Hnf. pose proof (counted_isa _ _ _ Hco) as [_ Hn _].
  destruct Hco as [Hr Hw Hc Hm Hs]. pose proof (whole_half c Hm ltac:(lia) Hne) as Hle. destruct half_limit as [Hpos _].
  pose proof (delta_small (RC_HALF L) ltac:(lia)) as Hd.
  unfold side_subExtraRC, bind, load, on_side. cbn [rbind]. rewrite Hn.
  destruct (sidetable_subExtraRC_ok garbage (side w) this true (RC_HALF L) Hr Hnf) as (t & E & Hst & Hp); [right; rewrite Hw, Hd; lia|].
  rewrite Hw, Hd in E, Hst. rewrite Hw in Hp. destruct (Z.eqb_spec (4 * c) 0); [lia|].
  replace ((4 * c - 4 * RC_HALF L) / 4) with (c - RC_HALF L) in E by dlia. pose proof E as E'. rewrite E. cbn [rbind].
  eexists. split; [done|]. cbn. replace (4 * (c - RC_HALF L)) with (4 * c - 4 * RC_HALF L) by lia.
  split_and!; try done; [|by apply Hp]. destruct Hst as [Hr' _ Hl' _].
  split; try done; [by eapply sidetable_subExtraRC_roomy|apply Hr].
Qed.

(** ** Retain *)
Definition alive (v : Z) : Prop := isDeallocating L v = false.
Definition not_full (v : Z) : Prop := extra_rc L v + 1 < limit.
(** A try-retain whose count overflows must not meet a deallocating word
    afterwards: it would give away its caller's lock. *)
Definition try_safe (tryRetain : bool) w : Prop := tryRetain = true -> Forall alive (words w) \/ Forall not_full (words w).
(** The isa after a retain that carries. *)
Definition carried_of (bits : Z) : Z := set_flag (f_has_sidetable_rc L) true (set (f_extra_rc L) (RC_HALF L) bits).
Definition carried (v : Z) : Z := carried_of (fst (addc (word L) v (RC_ONE L) 0)).
Definition retain_loop_post (tryRetain : bool) (c : Z) w w' (v : Z) (r : retained + bool * bool) : Prop :=
  seen w w' v /\
  match r with
  | inl q => isDeallocating L v = true /\ q = (if tryRetain then RetainedNil else RetainedSelf) /\ isa w' = v /\
      stepped (side w) (side w') this tryRetain (4 * c)
  | inr (tr, s) => alive v /\ tr = (extra_rc L v + 1 =? limit) /\ (tr = true -> s = true) /\
      stepped (side w) (side w') this (s || tryRetain) (4 * c) /\ ready (side w') this (s || tryRetain) /\
      isa w' = if tr then carried v else v + RC_ONE L
  end.
Lemma counted_refl w c held : counted w c held -> stepped (side w) (side w) this held (4 * c).
Proof. intros [Hr Hw _ _ _]. rewrite <- Hw. by apply stepped_refl. Qed.
Lemma retain_post_trans tryRetain c w w1 w' v v1 r held : seen w w1 v1 -> isa w1 = v1 ->
  stepped (side w) (side w1) this held (4 * c) -> retain_loop_post tryRetain c w1 w' v r -> retain_loop_post tryRetain c w w' v r.
Proof.
  intros Hs1 Hv1 Hst [Hs Hr]. split; [by eapply seen_trans|]. destruct r as [q|[tr s]].
  - destruct Hr as (? & ? & ? & ?). split_and!; try done. by eapply stepped_trans.
  - destruct Hr as (? & ? & ? & ? & ? & ?). split_and!; try done. by eapply stepped_trans.
Qed.
(** The lock is taken unless it is held already, by the caller of a try-retain
    or by an earlier turn. *)
Lemma run_take w c (s tryRetain : bool) : counted w c (s || tryRetain) ->
  exists w', (if negb tryRetain && negb s then side_lock else ret tt) w = Ok (tt, w') /\ counted w' c true /\
    isa w' = isa w /\ env w' = env w /\ stepped (side w) (side w') this true (4 * c).
Proof.
  intros Hco. destruct tryRetain, s; cbn [negb andb orb] in *; try (exists w; split_and!; try done; by apply (counted_refl _ _ _ Hco)).
  by apply run_lock.
Qed.
Lemma retain_loop_full ov tryRetain fuel : forall w c s, (length (env w) < fuel)%nat -> counted w c (s || tryRetain) ->
  (tryRetain = true -> Forall alive (words w) \/ s = false /\ Forall not_full (words w)) ->
  exists v r w', rootRetain_loop L garbage this ov tryRetain Full fuel (isa w) s w = Ok (r, w') /\
    retain_loop_post tryRetain c w w' v r.
Proof.
  induction fuel as [|fuel IH]; intros w c s Hfuel Hco Hsafe; [lia|]. cbn [rootRetain_loop].
  destruct (counted_isa _ _ _ Hco) as [Hw Hn Hhs]. rewrite Hn. cbn [negb].
  destruct (isDeallocating L (isa w)) eqn:Ed.
  { (* deallocating *)
    run. exists (isa w), (inl (if tryRetain then RetainedNil else RetainedSelf)).
    destruct s; cbn [orb] in Hco.
    - assert (tryRetain = false) as ->.
      { destruct tryRetain; [|done]. destruct (Hsafe eq_refl) as [H|[? _]]; [|done]. apply Forall_cons in H as [H _]. unfold alive in H. congruence. }
      destruct (run_unlock w c Hco) as (w1 & E & _ & Ei & Ee & Hst). exists w1. step E. split; [done|]. split; [by apply seen_env|]. by split_and!.
    - exists w. split; [done|]. split; [apply seen_refl|]. split_and!; try done. by apply (counted_refl _ _ _ Hco). }
  pose proof (addc_rc_one L (isa w) Hw) as Hadd. destruct (addc (word L) (isa w) (RC_ONE L) 0) as [newisa carry] eqn:Eadd.
  destruct Hadd as [Hcarry Hadd]. destruct carry.
  - (* transfer *)
    rewrite bool_decide_true by done. cbn [negb].
    assert (Hfull : ~ not_full (isa w)) by (unfold not_full; symmetry in Hcarry; apply Z.eqb_eq in Hcarry; lia).
    destruct (run_take w c s tryRetain Hco) as (w1 & E1 & Hco1 & Ei1 & Ee1 & Hst1). step E1.
    assert (Hs1 : seen w w1 (isa w1)) by (rewrite Ei1; by apply seen_env).
    fold (carried_of newisa). replace (carried_of newisa) with (carried (isa w)) by (unfold carried; by rewrite Eadd).
    rewrite <- Ei1. destruct (StoreExclusive_run w1 (carried (isa w1))) as [(w2 & E2 & Ei2 & Es2 & Hs2 & _)|(v & w2 & E2 & Ei2 & Es2 & Hs2 & Hl2)]; step E2.
    + exists (isa w1), (inr (true, true)), w2. split; [done|]. eapply retain_post_trans; [exact Hs1|done|exact Hst1|].
      split; [done|]. rewrite Es2. split_and!; try done; [by rewrite Ei1|by rewrite Ei1|by apply (counted_refl _ _ _ Hco1)|apply Hco1].
    + subst v. destruct (IH w2 c true) as (v & r & w3 & E3 & Hpost); [rewrite Ee1 in Hl2; lia|by eapply counted_seen| |].
      { intros Ht. left. destruct (Hsafe Ht) as [H|[_ H]].
        - eapply (seen_Forall _ w w2); [by eapply seen_trans|done|done].
        - apply Forall_cons in H as [H _]. done. }
      exists v, r, w3. split; [done|]. eapply retain_post_trans; [exact Hs1|done|exact Hst1|].
      eapply retain_post_trans; [exact Hs2|done| |exact Hpost]. rewrite Es2. by apply (counted_refl _ _ _ Hco1).
  - destruct (Hadd eq_refl) as (Hw' & He' & Hsame).
    assert (newisa = isa w + RC_ONE L) as ->.
    { pose proof (extra_range L (isa w)). symmetry in Hcarry. apply Z.eqb_neq in Hcarry.
      pose proof (not_overflow L (isa w) Hw 1 ltac:(lia) ltac:(lia)) as E. rewrite Z.mul_1_l in E. congruence. }
    destruct (StoreExclusive_run w (isa w + RC_ONE L)) as [(w2 & E2 & Ei2 & Es2 & Hs2 & _)|(v & w2 & E2 & Ei2 & Es2 & Hs2 & Hl2)]; step E2.
    + exists (isa w), (inr (false, s)), w2. split; [done|]. split; [done|]. rewrite Es2, <- Hcarry.
      split_and!; try done; [by apply (counted_refl _ _ _ Hco)|apply Hco].
    + subst v. destruct (IH w2 c s) as (v & r & w3 & E3 & Hpost); [lia|by eapply counted_seen| |].
      { intros Ht. destruct (Hsafe Ht) as [H|[? H]]; [left|right; split; [done|]]; by eapply seen_Forall. }
      exists v, r, w3. split; [done|]. eapply retain_post_trans; [exact Hs2|done| |exact Hpost]. rewrite Es2. by apply (counted_refl _ _ _ Hco).
Qed.

(** What a retain does, [v] being the word at its store. *)
Definition retain_post (tryRetain : bool) (c : Z) w w' (v : Z) (q : retained) : Prop :=
  seen w w' v /\
  if isDeallocating L v then
    q = (if tryRetain then RetainedNil else RetainedSelf) /\ isa w' = v /\ stepped (side w) (side w') this tryRetain (4 * c)
  else
    q = RetainedSelf /\
    exists c', recounted v c (isa w') c' 1 /\ stepped (side w) (side w') this tryRetain (4 * c') /\
      c' = if extra_rc L v + 1 =? limit then c + RC_HALF L else c.
Lemma retain_post_seen tryRetain c w w1 w' v v1 q : seen w w1 v1 -> isa w1 = v1 -> side w1 = side w ->
  retain_post tryRetain c w1 w' v q -> retain_post tryRetain c w w' v q.
Proof. intros Hs1 Hv1 Hside [Hs Hr]. split; [by eapply seen_trans|]. by rewrite <- Hside. Qed.
Lemma try_safe_seen tryRetain w w' v : try_safe tryRetain w -> seen w w' v -> isa w' = v -> try_safe tryRetain w'.
Proof. intros H Hs Hv Ht. destruct (H Ht); [left|right]; by eapply seen_Forall. Qed.

(** The part of [rootRetain] after the loop. *)
Lemma retain_finish tryRetain c w w' v tr s : sane c v -> c mod RC_HALF L = 0 -> 0 <= c < 2 ^ 59 -> RC_HALF L < 2 ^ 59 ->
  word_of garbage (side w) this = 4 * c ->
  retain_loop_post tryRetain c w w' v (inr (tr, s)) ->
  exists w'', (let! _ := (do! (if tr then let! _ := side_addExtraRC L garbage this (RC_HALF L) in ret tt else ret tt) in
      if negb tryRetain && s then side_unlock else ret tt) in ret RetainedSelf) w' = Ok (RetainedSelf, w'') /\
    retain_post tryRetain c w w'' v RetainedSelf.
Proof.
  intros Hv Hm Hc Hhalf Hword [Hs (Ha & Etr & Htr & Hst & Hr & Hisa)]. destruct half_limit as [Hpos Hlim].
  unfold retain_post. rewrite Ha. symmetry in Etr. destruct tr.
  - apply Z.eqb_eq in Etr. rewrite (Htr eq_refl) in *. cbn [orb] in *.
    destruct (carry_parts v (sane_word _ _ Hv) (sane_nonpointer _ _ Hv) Etr) as (Hso & He & Hb & Hin).
    change (set_flag _ _ _) with (carried v) in Hso, He, Hb, Hin. rewrite <- Hisa in Hso, He, Hb, Hin.
    assert (Hn : nonpointer L (isa w') = true) by (destruct Hso as [-> _]; apply Hv).
    pose proof (stepped_word _ _ _ _ _ _ Hst) as Hw1.
    destruct (run_add w' c true (RC_HALF L) Hr Hw1 ltac:(lia) Hn ltac:(lia)) as (w2 & E & Ei2 & Ee2 & Hst2 & _).
    assert (Hrec : recounted v c (isa w2) (c + RC_HALF L) 1).
    { rewrite Ei2. split; [done| |by apply whole_add|lia]. split; [done|done|]. rewrite Hb. symmetry. apply negb_true_iff, Z.eqb_neq. lia. }
    rewrite Etr, Z.eqb_refl. pose proof (stepped_trans _ _ _ _ _ _ _ _ _ Hst Hst2) as Hst12.
    run. step E. destruct tryRetain; cbn [negb andb].
    + exists w2. split; [done|]. split; [|split; [done|]]; [destruct Hs as (l & E1 & E2); exists l; by rewrite Ee2|].
      by exists (c + RC_HALF L).
    + destruct (run_unlock_any w2 (4 * (c + RC_HALF L))) as (w3 & E3 & Ei3 & Ee3 & Hst3); [apply Hst2|apply Hst2|by apply stepped_word in Hst2|].
      step E3. exists w3. split; [done|]. split; [|split; [done|]]; [destruct Hs as (l & E1 & E2); exists l; by rewrite Ee3, Ee2|].
      exists (c + RC_HALF L). rewrite Ei3. split_and!; [done| |done]. by eapply stepped_trans.
  - apply Z.eqb_neq in Etr. pose proof (extra_range L v).
    assert (Hrec : recounted v c (isa w') c 1) by (rewrite Hisa; apply count_up; (done || lia)).
    destruct (Z.eqb_spec (extra_rc L v + 1) limit); [lia|]. run.
    destruct tryRetain, s; cbn [negb andb orb] in *; run; try (exists w'; split; [done|]; split; [done|]; split; [done|]; by exists c).
    destruct (run_unlock_any w' (4 * c)) as (w3 & E3 & Ei3 & Ee3 & Hst3); [apply Hst|apply Hst|by apply stepped_word in Hst|].
    step E3. exists w3. split; [done|]. split; [|split; [done|]]; [destruct Hs as (l & E1 & E2); exists l; by rewrite Ee3|].
    exists c. rewrite Ei3. split_and!; [done| |done]. by eapply stepped_trans.
Qed.
Lemma rootRetain_full_ok ov tryRetain w c : counted w c tryRetain -> try_safe tryRetain w -> c < 2 ^ 59 -> RC_HALF L < 2 ^ 59 ->
  exists v q w', rootRetain_body L S C K TG garbage this ov tryRetain Full w = Ok (q, w') /\ retain_post tryRetain c w w' v q.
Proof.
  intros Hco Hsafe Hc Hhalf. unfold rootRetain_body. rewrite Htag.
  destruct (LoadExclusive_run w) as (v0 & w0 & E0 & Hv0 & Hs0 & Hseen0 & _). step E0. rewrite bool_decide_false by done. run.
  pose proof (counted_seen _ _ _ _ _ Hco Hseen0 Hv0 Hs0) as Hco0. subst v0. destruct (counted_isa _ _ _ Hco0) as [Hw0 Hn0 Hhs0].
  rewrite Hn0. run.
  destruct (retain_loop_full ov tryRetain (2 + length (env w0)) w0 c false) as (v & r & w1 & E1 & Hpost);
    [lia|by destruct tryRetain| |].
  { intros Ht. destruct (try_safe_seen _ _ _ _ Hsafe Hseen0 eq_refl Ht); [by left|by right]. }
  step E1. exists v. destruct r as [q|[tr s]].
  - exists q, w1. split; [done|]. destruct Hpost as [Hs (Hd & -> & Hi & Hst)]. split; [by eapply seen_trans|]. rewrite Hd.
    split_and!; try done. by rewrite <- Hs0.
  - rewrite bool_decide_true by done. exists RetainedSelf.
    destruct (retain_finish tryRetain c w0 w1 v tr s) as (w2 & E2 & Hp2); try done; try apply Hco0.
    + by eapply counted_v; [exact Hco0|apply Hpost].
    + destruct Hco0; lia.
    + exists w2. split; [exact E2|]. by eapply retain_post_seen.
Qed.
(** The fast variants never hold the lock, and leave overflow to the full one. *)
Lemma retain_loop_fast tryRetain variant c fuel : variant <> Full -> c < 2 ^ 59 -> RC_HALF L < 2 ^ 59 ->
  forall w, (length (env w) < fuel)%nat -> counted w c tryRetain -> try_safe tryRetain w ->
  exists v w' r, rootRetain_loop L garbage this (rootRetain_overflow L S C K TG garbage this) tryRetain variant fuel (isa w) false w = Ok (r, w') /\
    (r = inr (false, false) \/ exists q, r = inl q) /\
    retain_post tryRetain c w w' v (match r with inl q => q | inr _ => RetainedSelf end).
Proof.
  intros Hvar Hc Hhalf. induction fuel as [|fuel IH]; intros w Hfuel Hco Hsafe; [lia|]. cbn [rootRetain_loop].
  destruct (counted_isa _ _ _ Hco) as [Hw Hn Hhs]. rewrite Hn. cbn [negb].
  destruct (isDeallocating L (isa w)) eqn:Ed.
  { run. eexists (isa w), w, _. split; [done|]. split; [right; by eexists|]. split; [apply seen_refl|]. rewrite Ed.
    split_and!; try done. by apply (counted_refl _ _ _ Hco). }
  pose proof (addc_rc_one L (isa w) Hw) as Hadd. destruct (addc (word L) (isa w) (RC_ONE L) 0) as [newisa carry] eqn:Eadd.
  destruct Hadd as [Hcarry Hadd]. destruct carry.
  - rewrite bool_decide_false by done. cbn [negb].
    destruct (rootRetain_full_ok (fun _ => fail OutOfFuel) tryRetain w c Hco Hsafe Hc Hhalf) as (v & q & w1 & E & Hpost).
    unfold rootRetain_overflow, rootRetain_full. step E. eexists v, w1, _. split; [done|]. split; [right; by eexists|done].
  - destruct (Hadd eq_refl) as (Hw' & He' & Hsame). symmetry in Hcarry. apply Z.eqb_neq in Hcarry.
    assert (newisa = isa w + RC_ONE L) as ->.
    { pose proof (extra_range L (isa w)).
      pose proof (not_overflow L (isa w) Hw 1 ltac:(lia) ltac:(lia)) as E. rewrite Z.mul_1_l in E. congruence. }
    destruct (StoreExclusive_run w (isa w + RC_ONE L)) as [(w2 & E2 & Ei2 & Es2 & Hs2 & _)|(v & w2 & E2 & Ei2 & Es2 & Hs2 & Hl2)]; step E2.
    + eexists (isa w), w2, _. split; [done|]. split; [by left|]. split; [done|]. rewrite Ed. split; [done|].
      exists c. rewrite Ei2, Es2. pose proof (extra_range L (isa w)). destruct (Z.eqb_spec (extra_rc L (isa w) + 1) limit); [lia|].
      split_and!; try done; [|by apply (counted_refl _ _ _ Hco)]. apply count_up; [done|apply Hco|lia].
    + subst v. destruct (IH w2) as (v & w3 & r & E3 & Hr & Hpost); [lia|by eapply counted_seen|by eapply try_safe_seen|].
      exists v, w3, r. split; [done|]. split; [done|]. by eapply retain_post_seen.
Qed.
(** The word that the first access loads. Only there, and only when asked, is the
    class of the object asked whether it overrides reference counting. *)
Definition first_word w : Z := match env w with Some v :: _ => v | _ => isa w end.
Lemma LoadExclusive_first w : exists w', LoadExclusive w = Ok (first_word w, w') /\ isa w' = first_word w /\ side w' = side w /\
  seen w w' (first_word w).
Proof.
  destruct (LoadExclusive_run w) as (v & w' & E & Hv & Hs & Hseen & _). exists w'.
  assert (v = first_word w) as ->; [|done].
  destruct w as [i t [|[u|] e]]; unfold LoadExclusive, bind, interfere, load in E; cbn in E; injection E as <- _; done.
Qed.
Definition decodes (variant : RRVariant) w : Prop :=
  variant = FastOrMsgSend -> exists cls, getDecodedClass L S C (first_word w) = Ok cls.
Definition asked_class w : Z := match getDecodedClass L S C (first_word w) with Ok cls => cls | Fault _ => 0 end.
Definition overridden (variant : RRVariant) w : bool := bool_decide (variant = FastOrMsgSend) && hasCustomRR K (asked_class w).
(** What the question answers, [handed] being the result that passes the operation on. *)
Lemma ask_class {R} variant w w0 (handed : bool -> R) : decodes variant w ->
  (if bool_decide (variant = FastOrMsgSend)
   then let! cls := decodedClass L S C (first_word w) in
     if hasCustomRR K cls then do! ClearExclusive in ret (Some (handed (canCallSwiftRR K cls))) else ret None
   else ret None) w0 = Ok (if overridden variant w then Some (handed (canCallSwiftRR K (asked_class w))) else None, w0).
Proof.
  intros Hd. unfold overridden, asked_class. case_bool_decide as Hv; [|done]. destruct (Hd Hv) as [cls E].
  unfold bind, decodedClass, lift. rewrite E. cbn. by destruct (hasCustomRR K cls).
Qed.

(** ** Release *)
Lemma addc_many v n : in_word (word L) v -> 0 <= n < limit ->
  snd (addc (word L) v (wrap (word L) (RC_ONE L * n)) 0) = (limit <=? extra_rc L v + n) /\
  (extra_rc L v + n < limit -> fst (addc (word L) v (wrap (word L) (RC_ONE L * n)) 0) = v + n * RC_ONE L).
Proof.
  intros Hw Hn. destruct (rc_one_facts L) as [Hp Hlim]. pose proof (word_split L v Hw) as Ev. pose proof (low_range L v) as Hlow.
  pose proof (extra_range L v) as Hex. rewrite (wrap_small _ (RC_ONE L * n)) by nia. split.
  - unfold addc. cbn [snd]. destruct (Z.leb_spec limit (extra_rc L v + n)), (Z.leb_spec (2 ^ word L) (v + RC_ONE L * n + 0)); try done; nia.
  - intros Hl. rewrite Z.mul_comm. by rewrite (not_overflow L v Hw n) by lia.
Qed.
Lemma deallocating_iff c v : sane c v -> 0 <= c -> isDeallocating L v = (extra_rc L v + c =? 0).
Proof.
  intros [_ _ Hs] Hc. unfold isDeallocating. rewrite Hs, negb_involutive. pose proof (extra_range L v).
  destruct (Z.eqb_spec (extra_rc L v) 0), (Z.eqb_spec c 0), (Z.eqb_spec (extra_rc L v + c) 0); try done; lia.
Qed.
(** What a release does, [v] being the word at its store. *)
Definition release_post (performDealloc : bool) (c : Z) w w' (v : Z) (q : released) : Prop :=
  seen w w' v /\
  if isDeallocating L v then q = Released false false /\ isa w' = v /\ stepped (side w) (side w') this false (4 * c)
  else
    let last := extra_rc L v + c =? 1 in
    q = Released last (last && performDealloc) /\
    exists c', recounted v c (isa w') c' (-1) /\ stepped (side w) (side w') this false (4 * c') /\ (c' = c \/ c' = c - RC_HALF L) /\
      isDeallocating L (isa w') = last.
Lemma release_post_trans pd c w w1 w' v v1 q held : seen w w1 v1 -> isa w1 = v1 -> stepped (side w) (side w1) this held (4 * c) ->
  release_post pd c w1 w' v q -> release_post pd c w w' v q.
Proof.
  intros Hs1 Hv1 Hst [Hs Hr]. split; [by eapply seen_trans|]. destruct (isDeallocating L v).
  - destruct Hr as (? & ? & ?). split_and!; try done. by eapply stepped_trans.
  - destruct Hr as (? & c' & ? & ? & ? & ?). split; [done|]. exists c'. split_and!; try done. by eapply stepped_trans.
Qed.
Lemma recounted_dealloc v c v' c' n : recounted v c v' c' n -> 0 <= c' -> isDeallocating L v' = (extra_rc L v + c + n =? 0).
Proof. intros [_ Hs _ Ht] Hc. by rewrite (deallocating_iff c' v' Hs Hc), Ht. Qed.
(** Borrowed counts stored inline over the word [v]. *)
Lemma borrow_parts c v v' e b : sane c v -> c mod RC_HALF L = 0 -> 0 <= c - RC_HALF L ->
  same_object v v' -> extra_rc L v' = e -> has_sidetable_rc L v' = b -> in_word (word L) v' ->
  e = extra_rc L v + (RC_HALF L - 1) -> b = negb (c - RC_HALF L =? 0) -> recounted v c v' (c - RC_HALF L) (-1).
Proof.
  intros [Hw Hn Hs] Hm Hc Hso He Hb Hin -> ->. split; [done| |by apply whole_sub|lia]. split; [done| |done].
  destruct Hso as [-> _]. done.
Qed.
Lemma half_two : 2 <= RC_HALF L.
Proof.
  rewrite (lf_rc_half L (layout_good L)). pose proof (lf_extra_width L (layout_good L)).
  replace (width (f_extra_rc L) - 1) with (Z.succ (width (f_extra_rc L) - 2)) by lia. rewrite Z.pow_succ_r by lia.
  pose proof (pow2_pos (width (f_extra_rc L) - 2)). lia.
Qed.
Lemma run_store_borrowed w c : Forall (sane c) (words w) -> c mod RC_HALF L = 0 -> 0 <= c -> c <> 0 -> extra_rc L (isa w) = 0 ->
  exists stored u newisa w', store_borrowed L (isa w) (RC_HALF L) (c - RC_HALF L =? 0) w = Ok ((stored, u, newisa, false), w') /\
    side w' = side w /\ (length (env w') <= length (env w))%nat /\
    if stored : bool
    then exists v, seen w w' v /\ isa w' = newisa /\ recounted v c newisa (c - RC_HALF L) (-1) /\ extra_rc L v + c <> 1
    else seen w w' (isa w') /\ (length (env w') < length (env w))%nat.
Proof.
  intros Hs Hm Hc Hne He. pose proof (whole_half c Hm Hc Hne) as Hle. destruct half_limit as [Hpos Hlim]. pose proof half_two as H2.
  pose proof (List.Forall_inv Hs) as Hv. unfold store_borrowed.
  set (b := negb (c - RC_HALF L =? 0)). destruct (set_parts (RC_HALF L - 1) b (isa w)) as (Hso & He1 & Hb1 & Hin1); [lia|].
  set (new1 := set_flag (f_has_sidetable_rc L) b _) in *. unfold StoreReleaseExclusive.
  destruct (StoreExclusive_run w new1) as [(w2 & E2 & Ei2 & Es2 & Hs2 & Hl2)|(u & w2 & E2 & Ei2 & Es2 & Hs2 & Hl2)]; step E2.
  - exists true, (isa w), new1, w2. split_and!; try done. exists (isa w). split_and!; try done; [|lia].
    apply (borrow_parts c (isa w) new1 (RC_HALF L - 1) b); (done || lia || apply Hin1, Hv).
  - subst u. assert (Hs' : Forall (sane c) (words w2)) by (by eapply seen_Forall). pose proof (List.Forall_inv Hs') as Hv2.
    pose proof Hv2 as [Hw2 Hn2 Hb2]. rewrite Hn2. run.
    destruct (addc_many (isa w2) (RC_HALF L - 1) Hw2 ltac:(lia)) as [Ho Hf]. destruct (addc _ _ _ _) as [bits ov]. cbn [fst snd] in Ho, Hf. subst ov.
    destruct (Z.leb_spec limit (extra_rc L (isa w2) + (RC_HALF L - 1))) as [Hov|Hov]; run.
    { eexists false, _, _, w2. split_and!; try done. lia. }
    pose proof (extra_range L (isa w2)) as Hex.
    rewrite Hf by lia. destruct (add_extra L (RC_HALF L - 1) (isa w2) Hw2) as (Hin & He2 & Hsame); [lia|].
    destruct (set_sidetable_rc_spec L b (isa w2 + (RC_HALF L - 1) * RC_ONE L)) as (F1 & F2 & F3 & F4 & F5 & F6 & F7).
    set (new2 := set_flag (f_has_sidetable_rc L) b (isa w2 + (RC_HALF L - 1) * RC_ONE L)) in *.
    assert (Hso2 : same_object (isa w2) new2).
    { apply same_but_rc_object in Hsame as (S1 & S2 & S3 & S4). unfold same_object. by rewrite F2, F3, F4, F6. }
    destruct (StoreExclusive_run w2 new2) as [(w3 & E3 & Ei3 & Es3 & Hs3 & Hl3)|(u & w3 & E3 & Ei3 & Es3 & Hs3 & Hl3)]; step E3.
    + assert (isDeallocating L new2 = false) as -> by (unfold isDeallocating; rewrite F5, He2; destruct (Z.eqb_spec (extra_rc L (isa w2) + (RC_HALF L - 1)) 0); [lia|done]).
      eexists true, _, new2, w3. split; [done|]. split; [congruence|]. split; [lia|]. exists (isa w2).
      split; [by eapply seen_trans|]. split; [done|]. split; [|lia].
      apply (borrow_parts c (isa w2) new2 (extra_rc L new2) b); try done; [lia|by apply F7|lia].
    + eexists false, _, _, w3. split; [done|]. split; [congruence|]. split; [lia|]. subst u. split; [by eapply seen_trans|lia].
Qed.
(** The label [deallocate], and the normal exit. *)
Lemma run_give w c (s : bool) : counted w c s ->
  exists w', (if s then side_unlock else ret tt) w = Ok (tt, w') /\ isa w' = isa w /\ env w' = env w /\
    stepped (side w) (side w') this false (4 * c).
Proof.
  intros Hco. destruct s.
  - destruct (run_unlock w c Hco) as (w' & ? & _ & ? & ? & ?). by exists w'.
  - exists w. split_and!; try done. by apply (counted_refl _ _ _ Hco).
Qed.
Lemma run_deallocate pd w c (s : bool) : counted w c s -> isDeallocating L (isa w) = true ->
  exists w', deallocate L pd (isa w) s w = Ok (Released true pd, w') /\ isa w' = isa w /\ env w' = env w /\
    stepped (side w) (side w') this false (4 * c).
Proof.
  intros Hco Hd. destruct (run_give w c s Hco) as (w' & E & ? & ? & ?). exists w'. unfold deallocate. rewrite Hd. run. rewrite Hd. step E. done.
Qed.
Lemma env_seen w w1 w2 v : seen w w1 v -> env w2 = env w1 -> seen w w2 v.
Proof. intros (l & E1 & E2) E. exists l. by rewrite E. Qed.
(** After the decrement: the object is to be deallocated, or the release is over. *)
Lemma release_finish pd variant w w1 c (s : bool) v : counted w1 c s -> (s = true -> variant = Full) -> side w = side w1 -> seen w w1 v ->
  isDeallocating L v = false -> recounted v c (isa w1) c (-1) ->
  exists q w', (if isDeallocating L (isa w1) then deallocate L pd (isa w1) s
     else do! (if bool_decide (variant = Full) then if s then side_unlock else ret tt else check (negb s)) in ret (Released false false)) w1 = Ok (q, w') /\
    release_post pd c w w' v q.
Proof.
  intros Hco Hvar Hside Hseen Hv Hrec. pose proof (co_count _ _ _ Hco) as Hc.
  pose proof (recounted_dealloc _ _ _ _ _ Hrec ltac:(lia)) as Hlast. replace (extra_rc L v + c + -1 =? 0) with (extra_rc L v + c =? 1) in Hlast by (destruct (Z.eqb_spec (extra_rc L v + c) 1), (Z.eqb_spec (extra_rc L v + c + -1) 0); lia || done).
  unfold release_post. rewrite Hv, <- Hlast, Hside. destruct (isDeallocating L (isa w1)) eqn:Ed.
  - destruct (run_deallocate pd w1 c s Hco Ed) as (w' & E & Ei & Ee & Hst). exists (Released true pd), w'. split; [done|].
    split; [by eapply env_seen|]. split; [done|]. exists c. rewrite Ei. split_and!; try done. by left.
  - destruct (run_give w1 c s Hco) as (w' & E & Ei & Ee & Hst).
    assert (E' : (if bool_decide (variant = Full) then if s then side_unlock else ret tt else check (negb s)) w1 = Ok (tt, w')).
    { case_bool_decide; [done|]. destruct s; [by exfalso; auto|]. done. }
    exists (Released false false), w'. step E'. split; [done|].
    split; [by eapply env_seen|]. split; [done|]. exists c. rewrite Ei. split_and!; try done. by left.
Qed.
(** The decrement itself, common to all variants: [Some] when the word is stored
    or the object deallocating. *)
Lemma sub_step v c : sane c v -> isDeallocating L v = false -> c mod RC_HALF L = 0 -> 
  let (newisa, carry) := subc (word L) v (RC_ONE L) 0 in
  carry = (extra_rc L v =? 0) /\ (carry = true -> has_sidetable_rc L v = true /\ c <> 0) /\
  (carry = false -> recounted v c newisa c (-1)).
Proof.
  intros Hv Hd Hm. pose proof (sane_word _ _ Hv) as Hw. pose proof (subc_rc_one L v Hw) as Hsub. pose proof (extra_range L v).
  destruct (subc (word L) v (RC_ONE L) 0) as [newisa carry]. destruct Hsub as [-> Hsub]. split; [done|].
  pose proof (sane_side _ _ Hv) as Hs. unfold isDeallocating in Hd. split.
  - intros E. rewrite E in Hd. cbn in Hd. apply negb_false_iff in Hd. split; [done|]. rewrite Hs in Hd. by apply negb_true_iff, Z.eqb_neq in Hd.
  - intros E. destruct (Hsub E) as (Hin & He & Hsame). pose proof Hsame as (E1 & _ & _ & E2 & _).
    split; [by apply same_but_rc_object| |done|lia]. destruct Hv. split; [done|congruence|congruence].
Qed.
(** Dropping an empty entry. *)
Lemma run_clear w n (empty : bool) : ready (side w) this true -> word_of garbage (side w) this = 4 * n -> present garbage (side w) this ->
  sane n (isa w) -> (empty = true -> n = 0) ->
  exists w', (if empty then side_clearExtraRC L garbage this else ret tt) w = Ok (tt, w') /\ isa w' = isa w /\ env w' = env w /\
    stepped (side w) (side w') this true (4 * n).
Proof.
  intros Hr Hw Hp Hs He. destruct empty.
  - rewrite (He eq_refl) in *. unfold side_clearExtraRC, bind, load, on_side_. cbn [rbind]. rewrite (sane_nonpointer _ _ Hs).
    destruct (sidetable_clearExtraRC_ok garbage (side w) this true Hr Hp) as (t & -> & Hst). cbn. eexists. by split_and!.
  - exists w. split_and!; try done. rewrite <- Hw. by apply stepped_refl.
Qed.
Lemma counted_store w w1 c held v : counted w c held -> seen w w1 v -> side w1 = side w -> sane c (isa w1) -> counted w1 c held.
Proof.
  intros [Hr Hw Hc Hm Hs] (l & E & _) Hside Hnew. split; rewrite ?Hside; try done. apply Forall_cons. split; [done|].
  apply Forall_cons in Hs as [_ Hs]. rewrite E, omap_app in Hs. by apply Forall_app in Hs as [_ ?].
Qed.
Lemma release_loop_full un pd c fuel : c < 2 ^ 59 -> RC_HALF L < 2 ^ 59 ->
  forall w s, (length (env w) + (if s : bool then 0 else 1) < fuel)%nat -> counted w c s ->
  exists v q w', rootRelease_loop L garbage this un pd Full fuel (isa w) s w = Ok (q, w') /\ release_post pd c w w' v q.
Proof.
  intros Hc59 Hhalf. induction fuel as [|fuel IH]; intros w s Hfuel Hco; [lia|]. cbn [rootRelease_loop].
  pose proof (counted_isa _ _ _ Hco) as Hv. pose proof (co_whole _ _ _ Hco) as Hm. pose proof (co_count _ _ _ Hco) as Hc.
  rewrite (sane_nonpointer _ _ Hv). run. destruct (isDeallocating L (isa w)) eqn:Ed.
  { destruct (run_give w c s Hco) as (w1 & E & Ei & Ee & Hst). rewrite bool_decide_true by done.
    assert (E' : (if s then do! check true in side_unlock else ret tt) w = Ok (tt, w1)) by (by destruct s).
    eexists (isa w), _, w1. step E'. split; [done|]. split; [by eapply seen_env|]. rewrite Ed. by split_and!. }
  pose proof (sub_step (isa w) c Hv Ed Hm) as Hsub. destruct (subc (word L) (isa w) (RC_ONE L) 0) as [newisa carry].
  destruct Hsub as (Hcarry & Hund & Hdec). destruct carry.
  - destruct (Hund eq_refl) as [Hside Hne]. rewrite Hside, bool_decide_true by done. run. symmetry in Hcarry. apply Z.eqb_eq in Hcarry.
    destruct s; run.
    + (* borrow *)
      destruct (run_sub w c Hco Hne) as (w1 & E1 & Ei1 & Ee1 & Hst1 & Hr1 & Hp1). step E1.
      destruct half_limit as [Hpos _]. destruct (Z.gtb_spec (RC_HALF L) 0); [|lia]. run.
      assert (Hsane1 : Forall (sane c) (words w1)) by (unfold words; rewrite Ei1, Ee1; apply Hco).
      destruct (run_store_borrowed w1 c Hsane1 Hm ltac:(lia) Hne) as (stored & u & newisa2 & w2 & E2 & Es2 & Hl2 & Hres); [by rewrite Ei1|].
      rewrite Ei1 in E2. step E2. pose proof (stepped_word _ _ _ _ _ _ Hst1) as Hword1. destruct stored; run.
      * destruct Hres as (v & Hseen2 & Ei2 & Hrec & Hlast). subst newisa2.
        destruct (run_clear w2 (c - RC_HALF L) (c - RC_HALF L =? 0)) as (w3 & E3 & Ei3 & Ee3 & Hst3);
          [by rewrite Es2|by rewrite Es2|by rewrite Es2|apply Hrec|intros E0; by apply Z.eqb_eq in E0|].
        step E3. destruct (run_unlock_any w3 (4 * (c - RC_HALF L))) as (w4 & E4 & Ei4 & Ee4 & Hst4); [apply Hst3|apply Hst3|by apply stepped_word in Hst3|].
        step E4. eexists v, _, w4. split; [done|]. assert (Hseen : seen w w4 v).
        { apply (env_seen w w2 w4); [|by rewrite Ee4, Ee3]. eapply seen_trans; [|exact Ei1|exact Hseen2]. by apply seen_env. }
        split; [done|]. pose proof (deallocating_iff c v (counted_v _ _ _ _ _ Hco Hseen) ltac:(lia)) as Hdv.
        pose proof (extra_range L v). assert (isDeallocating L v = false) as -> by (rewrite Hdv; apply Z.eqb_neq; lia).
        destruct (Z.eqb_spec (extra_rc L v + c) 1); [lia|]. split; [done|]. exists (c - RC_HALF L). rewrite Ei4, Ei3.
        pose proof (whole_half c Hm ltac:(lia) Hne). split_and!; [done| |by right|].
        -- rewrite Es2 in Hst3. eapply stepped_trans; [exact Hst1|]. by eapply stepped_trans.
        -- rewrite (recounted_dealloc _ _ _ _ _ Hrec) by lia. apply Z.eqb_neq. lia.
      * (* put back *)
        destruct Hres as [Hseen2 Hl2']. 
        assert (Hn2 : nonpointer L (isa w2) = true) by (eapply sane_nonpointer, List.Forall_inv, (seen_Forall _ w1 w2); done).
        destruct (run_add w2 (c - RC_HALF L) true (RC_HALF L)) as (w3 & E3 & Ei3 & Ee3 & Hst3 & Hr3); rewrite ?Es2; try done; try lia.
        { pose proof (whole_half c Hm ltac:(lia) Hne). lia. }
        step E3. replace (c - RC_HALF L + RC_HALF L) with c in Hst3 by lia. rewrite Es2 in Hst3, Hr3.
        destruct (LoadExclusive_run w3) as (v4 & w4 & E4 & Hv4 & Hs4 & Hseen4 & Hl4). step E4. subst v4.
        assert (Hseen : seen w w4 (isa w4)).
        { eapply seen_trans; [by apply (seen_env w w1 (isa w))|exact Ei1|]. eapply seen_trans; [exact Hseen2|done|].
          eapply seen_trans; [|exact Ei3|exact Hseen4]. by apply seen_env. }
        pose proof (stepped_trans _ _ _ _ _ _ _ _ _ Hst1 Hst3) as Hst.
        destruct (IH w4 true) as (v & q & w5 & E5 & Hpost).
        { rewrite Ee3, Ee1 in *. lia. }
        { split; try done; try rewrite Hs4; [by apply Hr3|by apply stepped_word in Hst3|]. eapply seen_Forall; [exact Hseen|done|apply Hco]. }
        exists v, q, w5. split; [done|]. eapply release_post_trans; [exact Hseen|done| |exact Hpost]. rewrite Hs4. exact Hst.
    + (* take the lock and start over *)
      destruct (run_lock w c Hco) as (w1 & E1 & Hco1 & Ei1 & Ee1 & Hst1). step E1.
      destruct (LoadExclusive_run w1) as (v2 & w2 & E2 & Hv2 & Hs2 & Hseen2 & Hl2). step E2. subst v2.
      destruct (IH w2 true) as (v & q & w3 & E3 & Hpost); [rewrite Ee1 in Hl2; lia|by eapply counted_seen|].
      exists v, q, w3. split; [done|]. eapply release_post_trans; [by apply (seen_env w w1 (isa w))|exact Ei1|exact Hst1|].
      eapply release_post_trans; [exact Hseen2|done| |exact Hpost]. rewrite Hs2. by apply (counted_refl _ _ _ Hco1).
  - pose proof (Hdec eq_refl) as Hrec. run. unfold StoreReleaseExclusive.
    destruct (StoreExclusive_run w newisa) as [(w2 & E2 & Ei2 & Es2 & Hs2 & _)|(v & w2 & E2 & Ei2 & Es2 & Hs2 & Hl2)]; step E2.
    + rewrite <- Ei2 in Hrec. destruct (release_finish pd Full w w2 c s (isa w)) as (q & w3 & E3 & Hpost); try done.
      { eapply counted_store; [exact Hco|exact Hs2|done|apply Hrec]. }
      exists (isa w), q, w3. split; [|done]. rewrite <- Ei2. rewrite <- E3. rewrite !bool_decide_true by done. done.
    + subst v. destruct (IH w2 s) as (v & q & w3 & E3 & Hpost); [lia|by eapply counted_seen|].
      exists v, q, w3. split; [done|]. eapply release_post_trans; [exact Hs2|done| |exact Hpost]. rewrite Es2. by apply (counted_refl _ _ _ Hco).
Qed.
Lemma rootRelease_full_ok un pd w c : counted w c false -> c < 2 ^ 59 -> RC_HALF L < 2 ^ 59 ->
  exists v q w', rootRelease_body L S C K TG garbage this un pd Full w = Ok (q, w') /\ release_post pd c w w' v q.
Proof.
  intros Hco Hc Hhalf. unfold rootRelease_body. rewrite Htag.
  destruct (LoadExclusive_run w) as (v0 & w0 & E0 & Hv0 & Hs0 & Hseen0 & _). step E0. rewrite bool_decide_false by done. run.
  pose proof (counted_seen _ _ _ _ _ Hco Hseen0 Hv0 Hs0) as Hco0. subst v0.
  rewrite (sane_nonpointer _ _ (counted_isa _ _ _ Hco0)). run.
  destruct (release_loop_full un pd c (3 + length (env w0)) Hc Hhalf w0 false) as (v & q & w1 & E1 & Hpost); [lia|done|].
  exists v, q, w1. split; [exact E1|]. eapply release_post_trans; [exact Hseen0|done| |exact Hpost].
  rewrite Hs0. by apply (counted_refl _ _ _ Hco).
Qed.
Lemma release_loop_fast pd variant c fuel : variant <> Full -> c < 2 ^ 59 -> RC_HALF L < 2 ^ 59 ->
  forall w, (length (env w) < fuel)%nat -> counted w c false ->
  exists v q w', rootRelease_loop L garbage this (rootRelease_underflow L S C K TG garbage this) pd variant fuel (isa w) false w = Ok (q, w') /\
    release_post pd c w w' v q.
Proof.
  intros Hvar Hc59 Hhalf. induction fuel as [|fuel IH]; intros w Hfuel Hco; [lia|]. cbn [rootRelease_loop].
  pose proof (counted_isa _ _ _ Hco) as Hv. pose proof (co_whole _ _ _ Hco) as Hm. rewrite (sane_nonpointer _ _ Hv). run.
  destruct (isDeallocating L (isa w)) eqn:Ed.
  { eexists (isa w), _, w. split; [done|]. split; [apply seen_refl|]. rewrite Ed. split_and!; try done. by apply (counted_refl _ _ _ Hco). }
  pose proof (sub_step (isa w) c Hv Ed Hm) as Hsub. destruct (subc (word L) (isa w) (RC_ONE L) 0) as [newisa carry].
  destruct Hsub as (Hcarry & Hund & Hdec). destruct carry; run.
  - destruct (Hund eq_refl) as [-> _]. rewrite bool_decide_false by done. run.
    destruct (rootRelease_full_ok (fun _ => fail OutOfFuel) pd w c Hco Hc59 Hhalf) as (v & q & w1 & E & Hpost).
    exists v, q, w1. split; [exact E|done].
  - pose proof (Hdec eq_refl) as Hrec. unfold StoreReleaseExclusive.
    destruct (StoreExclusive_run w newisa) as [(w2 & E2 & Ei2 & Es2 & Hs2 & _)|(v & w2 & E2 & Ei2 & Es2 & Hs2 & Hl2)]; step E2.
    + rewrite <- Ei2 in Hrec. destruct (release_finish pd variant w w2 c false (isa w)) as (q & w3 & E3 & Hpost); try done.
      { eapply counted_store; [exact Hco|exact Hs2|done|apply Hrec]. }
      exists (isa w), q, w3. split; [|done]. by rewrite <- Ei2, <- E3.
    + subst v. destruct (IH w2) as (v & q & w3 & E3 & Hpost); [lia|by eapply counted_seen|].
      exists v, q, w3. split; [done|]. eapply release_post_trans; [exact Hs2|done| |exact Hpost]. rewrite Es2. by apply (counted_refl _ _ _ Hco).
Qed.

(** The count read back. *)
Lemma rootRetainCount_ok w c : counted w c false -> word L = 64 -> RC_HALF L < 2 ^ 59 ->
  exists w', rootRetainCount L TG garbage this w = Ok (extra_rc L (isa w) + c, w') /\ isa w' = isa w /\ env w' = env w /\
    stepped (side w) (side w') this false (4 * c).
Proof.
  intros Hco Hword Hhalf. unfold rootRetainCount. rewrite Htag.
  destruct (run_lock w c Hco) as (w1 & E1 & Hco1 & Ei1 & Ee1 & Hst1). step E1. pose proof (counted_isa _ _ _ Hco1) as Hs.
  rewrite (sane_nonpointer _ _ Hs).
  assert (E2 : (if has_sidetable_rc L (isa w1) then side_getExtraRC L garbage this else ret 0) w1 = Ok (c, w1)).
  { rewrite (sane_side _ _ Hs). destruct (Z.eqb_spec c 0) as [->|]; [done|]. cbn [negb].
    unfold side_getExtraRC, bind, load, on_side. cbn [rbind]. rewrite (sane_nonpointer _ _ Hs).
    rewrite (sidetable_getExtraRC_ok garbage (side w1) this true) by apply Hco1. rewrite (co_word _ _ _ Hco1). cbn.
    replace (4 * c / 4) with c by dlia. by destruct w1. }
  step E2. destruct (run_unlock w1 c Hco1) as (w2 & E3 & _ & Ei3 & Ee3 & Hst3). step E3. exists w2. split; [|split_and!; [congruence..|by eapply stepped_trans]].
  unfold ret. do 2 f_equal. rewrite Ei1, Hword. apply wrap_small. pose proof (extra_range L (isa w)). pose proof (co_count _ _ _ Hco).
  destruct half_limit. lia.
Qed.
End Counting.

(** The two operations, whichever variant. *)
Section Operations.
Context (L : layout) {HL : LayoutOk L} (S : signing) (C : class_table) (K : class_info) (TG : option tag_config).
Context {W : Type} {HW : WeakTableOps W} (garbage : nat -> Z * Z) (this : Z).
Implicit Types (w : world W).
Hypothesis Htag : this_isTaggedPointer TG this = false.
Hypothesis Hhalf : RC_HALF L < 2 ^ 59.

(** An operation of a class that overrides it is passed on, and nothing has been done. *)
Definition passed_on {R} w w' (v : Z) (q handed : R) : Prop :=
  v = first_word w /\ q = handed /\ isa w' = v /\ side w' = side w /\ seen w w' v.
Definition handed_retain w : retained := if canCallSwiftRR K (asked_class L S C w) then SwiftRetain else MsgSendRetain.
Definition handed_release w : released := if canCallSwiftRR K (asked_class L S C w) then SwiftRelease else MsgSendRelease.

Lemma retain_runs tryRetain variant w c : counted L garbage this w c tryRetain -> try_safe L tryRetain w ->
  decodes L S C variant w -> c < 2 ^ 59 ->
  exists v q w', rootRetain_ L S C K TG garbage this tryRetain variant w = Ok (q, w') /\
    if overridden L S C K variant w then passed_on w w' v q (handed_retain w) else retain_post L garbage this tryRetain c w w' v q.
Proof.
  intros Hco Hsafe Hd Hc. destruct (decide (variant = Full)) as [->|Hvar].
  { assert (overridden L S C K Full w = false) as -> by done. by apply rootRetain_full_ok. }
  unfold rootRetain_, rootRetain_body. rewrite Htag.
  destruct (LoadExclusive_first w) as (w0 & E0 & Hv0 & Hs0 & Hseen0). step E0.
  pose proof (ask_class L S C K variant w w0 (fun b : bool => if b then SwiftRetain else MsgSendRetain) Hd) as Hask.
  cbn beta in Hask. step Hask. fold (handed_retain w).
  destruct (overridden L S C K variant w).
  { exists (first_word w), (handed_retain w), w0. done. }
  pose proof (counted_seen L garbage this _ _ _ _ _ Hco Hseen0 Hv0 Hs0) as Hco0.
  pose proof (try_safe_seen L _ _ _ _ Hsafe Hseen0 Hv0) as Hsafe0.
  destruct (counted_isa L garbage this _ _ _ Hco0) as [Hw0 Hn0 Hhs0].
  destruct (retain_loop_fast L S C K TG garbage this Htag tryRetain variant c (2 + length (env w0)) Hvar Hc Hhalf w0) as (v & w1 & r & E1 & Hr & Hpost);
    [lia|done|done|].
  rewrite <- Hv0, Hn0. step E1. exists v.
  destruct Hr as [->|[q ->]]; [|exists q, w1; split; [done|by eapply retain_post_seen]].
  exists RetainedSelf, w1. split; [|by eapply retain_post_seen]. by rewrite bool_decide_false.
Qed.
Lemma release_runs pd variant w c : counted L garbage this w c false -> decodes L S C variant w -> c < 2 ^ 59 ->
  exists v q w', rootRelease_ L S C K TG garbage this pd variant w = Ok (q, w') /\
    if overridden L S C K variant w then passed_on w w' v q (handed_release w) else release_post L garbage this pd c w w' v q.
Proof.
  intros Hco Hd Hc. destruct (decide (variant = Full)) as [->|Hvar].
  { assert (overridden L S C K Full w = false) as -> by done. by apply rootRelease_full_ok. }
  unfold rootRelease_, rootRelease_body. rewrite Htag.
  destruct (LoadExclusive_first w) as (w0 & E0 & Hv0 & Hs0 & Hseen0). step E0.
  pose proof (ask_class L S C K variant w w0 (fun b : bool => if b then SwiftRelease else MsgSendRelease) Hd) as Hask.
  cbn beta in Hask. step Hask. fold (handed_release w).
  destruct (overridden L S C K variant w).
  { exists (first_word w), (handed_release w), w0. done. }
  pose proof (counted_seen L garbage this _ _ _ _ _ Hco Hseen0 Hv0 Hs0) as Hco0.
  destruct (release_loop_fast L S C K TG garbage this Htag pd variant c (3 + length (env w0)) Hvar Hc Hhalf w0) as (v & q & w1 & E1 & Hpost); [lia|done|].
  rewrite <- Hv0, (sane_nonpointer _ _ _ (counted_isa L garbage this _ _ _ Hco0)). run.
  exists v, q, w1. split; [exact E1|]. eapply release_post_trans; [exact Hseen0|done| |exact Hpost].
  rewrite Hs0. by apply (counted_refl L garbage this _ _ _ Hco).
Qed.
End Operations.


(** C2: release, of an object that is not a tagged pointer, with a nonpointer isa and
    a side count [c] below 2^59 that is a whole number of transfers, a transfer being half
    of a full inline count and below 2^59 too. Other threads may store any words into the isa while it
    runs, as long as these are nonpointer isas that agree with the side table about
    whether it holds counts ([counted]): this excludes a change to a raw isa, and another
    thread that empties the side table between the load of the isa and the
    lock, where the source runs into its assertion (see the findings). Then every variant of
    [rootRelease] ends. A class that overrides reference counting, which only the
    message-sending variant asks about (the class of the isa it loads must be known,
    [decodes]), has the operation passed on with nothing done.
    Otherwise there is exactly one effect, on the word [v] that its store replaces: unless
    that object is deallocating, its retain count is one less, counts being borrowed
    from the side table when the inline count is exhausted and put back when the
    borrowing store fails. The release of the last reference, and no other, leaves
    the object deallocating and returns true, and [dealloc] is sent then when
    [performDealloc] asks for it, as [rootRelease()] does although the comment above it
    says that it does not call -dealloc. Releasing a deallocating object changes nothing
    and returns false. The lock is free at the end. *)
Theorem rootRelease_correct L (HL : LayoutOk L) S C K TG W (HW : WeakTableOps W) garbage this pd variant (w : world W) c :
  this_isTaggedPointer TG this = false -> counted L garbage this w c false ->
  decodes L S C variant w -> c < 2 ^ 59 -> RC_HALF L < 2 ^ 59 ->
  exists v q w', rootRelease_ L S C K TG garbage this pd variant w = Ok (q, w') /\
    if overridden L S C K variant w then passed_on w w' v q (handed_release L S C K w)
    else release_post L garbage this pd c w w' v q.
Proof. intros. by apply release_runs. Qed.

(** C4: the retain count and a pair of operations. [rootRetainCount] returns the
    sum of the inline and side counts; without interference, a retain followed
    by a release of a live object gives back the count it had, and the object
    is alive. *)
Theorem retain_release_balanced L (HL : LayoutOk L) S C K TG W (HW : WeakTableOps W) garbage this (w : world W) c :
  this_isTaggedPointer TG this = false -> word L = 64 -> counted L garbage this w c false -> env w = [] ->
  isDeallocating L (isa w) = false -> c < 2 ^ 58 -> RC_HALF L < 2 ^ 58 ->
  (exists w', rootRetainCount L TG garbage this w = Ok (extra_rc L (isa w) + c, w') /\ isa w' = isa w) /\
  exists w1, rootRetain L S C K TG garbage this w = Ok (RetainedSelf, w1) /\
    (roomy (refcnts (side w1)) -> exists w2 c', rootRelease L S C K TG garbage this w1 = Ok (Released false false, w2) /\
       word_of garbage (side w2) this = 4 * c' /\ extra_rc L (isa w2) + c' = extra_rc L (isa w) + c /\
       isDeallocating L (isa w2) = false).
Proof.
  intros Htag Hword Hco Henv Ha Hc Hhalf. split.
  { destruct (rootRetainCount_ok L TG garbage this Htag w c Hco Hword ltac:(lia)) as (w' & E & Hi & _). by exists w'. }
  pose proof (co_count _ _ _ _ _ _ Hco) as Hc0. pose proof (half_limit L) as [Hpos Hlim].
  destruct (retain_runs L S C K TG garbage this Htag ltac:(lia) false Fast w c) as (v & q & w1 & E1 & Hs1 & Hpost); [done..|lia|].
  assert (Hlast : forall w', seen w w' v -> v = isa w /\ env w' = []).
  { intros w' (l & E & ->). rewrite Henv in E. symmetry in E. by apply app_eq_nil in E as [-> ->]. }
  destruct (Hlast _ Hs1) as [-> Henv1]. rewrite Ha in Hpost. destruct Hpost as (-> & c' & Hrec & Hst & Ec').
  exists w1. split; [exact E1|]. intros Hroom. assert (Hc' : 0 <= c' < 2 ^ 59) by (rewrite Ec'; destruct (_ =? _); lia).
  assert (Hco1 : counted L garbage this w1 c' false).
  { split; [|by apply stepped_word in Hst|lia|apply Hrec|].
    - destruct Hst as [Hr' _ Hl' _]. split; try done. apply Hco.
    - unfold words. rewrite Henv1. constructor; [apply Hrec|constructor]. }
  assert (Hd1 : isDeallocating L (isa w1) = false).
  { rewrite (recounted_dealloc L _ _ _ _ _ Hrec) by lia. apply Z.eqb_neq. pose proof (extra_range L (isa w)). lia. }
  destruct (release_runs L S C K TG garbage this Htag ltac:(lia) true Fast w1 c') as (v & q & w2 & E2 & Hs2 & Hpost); [done..|lia|].
  assert (v = isa w1) as ->.
  { destruct Hs2 as (l & E & ->). rewrite Henv1 in E. symmetry in E. by apply app_eq_nil in E as [-> _]. }
  rewrite Hd1 in Hpost. destruct Hpost as (-> & c2 & Hrec2 & Hst2 & Hc2 & Hd2).
  pose proof (rec_total L _ _ _ _ _ Hrec). pose proof (extra_range L (isa w)). pose proof (deallocating_iff L c (isa w) (counted_isa _ _ _ _ _ _ Hco) ltac:(lia)) as Hdw.
  rewrite Ha in Hdw. symmetry in Hdw. apply Z.eqb_neq in Hdw.
  assert (Hl : (extra_rc L (isa w1) + c' =? 1) = false) by (apply Z.eqb_neq; lia). rewrite Hl in *.
  exists w2, c2. split; [exact E2|]. split; [by apply stepped_word in Hst2|]. split; [|done].
  pose proof (rec_total L _ _ _ _ _ Hrec2). lia.
Qed.

(** ** Concrete instances *)
Module RetainReleaseWitness.
Import SideTableWitness.
#[local] Existing Instance no_weak_table.
Definition plain_classes : class_info := {|
  isFuture _ := false; canAllocNonpointer _ := true; instancesRequireRawIsa _ := false; cls_hasCxxDtor _ := false;
  classArrayIndex _ := 0; hasCustomRR _ := false; canCallSwiftRR _ := false; isMetaClass _ := false;
|}.
Definition no_table : class_table := {| indexed_classes _ := 0; indexed_classes_count := 0 |}.
(** An object whose inline count is full, and one that another thread makes one
    reference shorter meanwhile. *)
Definition full_isa : Z := 0xff1d800000000001.
Definition busy_world : world unit := World full_isa (empty_side false) [None; Some (full_isa - 2 ^ 56); None; Some full_isa].
Lemma busy_counted : counted x86_64_isa memory object busy_world 0 false.
Proof.
  split; [apply object_ready|by vm_compute|lia|done|].
  unfold busy_world, words. cbn [isa env omap list_omap id]. repeat constructor; try (by vm_compute); vm_compute; split; congruence.
Qed.
Lemma rootRelease_correct_witness : exists v q w',
  rootRelease_ x86_64_isa (no_signing x86_64_isa) no_table plain_classes (Some lsb_tags) memory object true FastOrMsgSend busy_world = Ok (q, w') /\
  release_post x86_64_isa memory object true 0 busy_world w' v q.
Proof.
  apply (rootRelease_correct x86_64_isa x86_64_ok (no_signing x86_64_isa) no_table plain_classes (Some lsb_tags) unit _ memory object true FastOrMsgSend busy_world 0).
  - by vm_compute.
  - apply busy_counted.
  - intros _. eexists. reflexivity.
  - lia.
  - by vm_compute.
Defined.
Definition quiet_world : world unit := World full_isa (empty_side false) [].
Lemma quiet_counted : counted x86_64_isa memory object quiet_world 0 false.
Proof.
  split; [apply object_ready|by vm_compute|lia|done|].
  repeat constructor; try (by vm_compute); vm_compute; split; congruence.
Qed.
Lemma retain_release_balanced_witness :
  exists w', rootRetainCount x86_64_isa (Some lsb_tags) memory object quiet_world = Ok (255, w') /\ isa w' = full_isa.
Proof.
  destruct (retain_release_balanced x86_64_isa x86_64_ok (no_signing x86_64_isa) no_table plain_classes (Some lsb_tags) unit _ memory object quiet_world 0)
    as ((w' & E & Hi) & _); [by vm_compute|done|apply quiet_counted|done|by vm_compute|lia|by vm_compute|].
  exists w'. split; [exact E|exact Hi].
Defined.
(** The whole run: the count goes to 256, half of it to the side table. *)
Example full_retain_runs :
  match rootRetain x86_64_isa (no_signing x86_64_isa) no_table plain_classes (Some lsb_tags) memory object quiet_world with
  | Ok (RetainedSelf, w') => extra_rc x86_64_isa (isa w') = 128 /\ word_of memory (side w') object = 512
  | _ => False
  end.
Proof. vm_compute. split; reflexivity. Qed.
End RetainReleaseWitness.
