(* ===== verification/ObjectIsa.v ===== *)
(** * The isa of an object from allocation to deallocation

    Theorems on [initInstanceIsa], [changeIsa], the flags and [rootDealloc] of
    ObjcObject.v. *)

From stdpp Require Import prelude numbers list.
From Stdlib Require Import ZArith Lia Bool.
From S2P Require Import Prelude ObjcOS DenseMapInfo DenseMap DenseMapTheory DenseMapOps Isa SideTable TaggedPointer ObjcObject RetainRelease.

(** ** Fields of a fresh isa *)
Section Fresh.
Context (L : layout) {HL : LayoutOk L}.
Lemma dtor_field f : f_has_cxx_dtor L = Some f -> fields L !! 6%nat = Some f.
Proof. intros E. unfold fields. by rewrite E. Qed.
(** Writing the destructor bit disturbs no other member. *)
Lemma set_cxx_dtor_spec b v : let v' := set_cxx_dtor L b v in
  nonpointer L v' = nonpointer L v /\ has_assoc L v' = has_assoc L v /\ weakly_referenced L v' = weakly_referenced L v /\
  has_sidetable_rc L v' = has_sidetable_rc L v /\ extra_rc L v' = extra_rc L v /\
  get (f_shiftcls L) v' = get (f_shiftcls L) v /\ (in_word (word L) v -> in_word (word L) v') /\
  has_cxx_dtor_bit L v' = match f_has_cxx_dtor L with Some _ => b | None => false end.
Proof.
  intros v'. unfold v', set_cxx_dtor, has_cxx_dtor_bit. destruct (f_has_cxx_dtor L) as [f|] eqn:Ef; [|by split_and!].
  pose proof (dtor_field f Ef) as H6. unfold set_flag.
  assert (H : forall g i, fields L !! i = Some g -> i <> 6%nat -> get g (set f (Zb b) v) = get g v).
  { intros g i Hg Hi. rewrite (get_set_field L i 6 g f _ _ Hg H6). by rewrite decide_False. }
  unfold nonpointer, has_assoc, weakly_referenced, has_sidetable_rc, extra_rc, flag.
  rewrite (H (f_nonpointer L) 0%nat), (H (f_has_assoc L) 1%nat), (H (f_weakly_referenced L) 2%nat),
    (H (f_has_sidetable_rc L) 3%nat), (H (f_extra_rc L) 4%nat), (H (f_shiftcls L) 5%nat) by done.
  split_and!; try done; [by apply (set_field_in_word L 6)|].
  rewrite (get_set_field L 6 6 f f _ _ H6 H6), decide_True by done. rewrite (lf_dtor L (layout_good L) f Ef). apply flag_set_flag.
Qed.
(** Writing another member leaves the destructor bit. *)
Lemma dtor_set i g x v : fields L !! i = Some g -> (i < 6)%nat -> has_cxx_dtor_bit L (set g x v) = has_cxx_dtor_bit L v.
Proof.
  intros Hg Hi. unfold has_cxx_dtor_bit. destruct (f_has_cxx_dtor L) as [f|] eqn:Ef; [|done]. unfold flag.
  rewrite (get_set_field L 6 i f g _ _ (dtor_field f Ef) Hg). rewrite decide_False by lia. done.
Qed.
(** The magic value: a nonpointer isa with every member clear. *)
Lemma magic_spec : in_word (word L) (ISA_MAGIC_VALUE L) /\ nonpointer L (ISA_MAGIC_VALUE L) = true /\
  has_assoc L (ISA_MAGIC_VALUE L) = false /\ weakly_referenced L (ISA_MAGIC_VALUE L) = false /\
  has_sidetable_rc L (ISA_MAGIC_VALUE L) = false /\ extra_rc L (ISA_MAGIC_VALUE L) = 0.
Proof.
  pose proof (layout_good L) as F. pose proof (lf_magic_clear L F) as H.
  assert (Hf : forall i g, fields L !! i = Some g -> (0 < i)%nat -> get g (ISA_MAGIC_VALUE L) = 0).
  { intros i g Hg Hi. apply H. unfold fields in *. destruct i as [|i]; [lia|]. apply list_elem_of_In, (list_elem_of_lookup_2 _ i). exact Hg. }
  unfold has_assoc, weakly_referenced, has_sidetable_rc, extra_rc, flag.
  rewrite (Hf 1%nat (f_has_assoc L)), (Hf 2%nat (f_weakly_referenced L)), (Hf 3%nat (f_has_sidetable_rc L)), (Hf 4%nat (f_extra_rc L)) by (done || lia).
  split_and!; try done; apply F.
Qed.
End Fresh.

Lemma set_twice f x b : 0 <= offset f -> 0 <= width f -> set f x (set f x b) = set f x b.
Proof.
  intros. apply Z.bits_inj'. intros i Hi. rewrite !set_testbit by done. by destruct (_ && _).
Qed.
(** A class pointer that an isa of [obj] can hold. *)
Record storable (L : layout) (S : signing) (cls obj : Z) : Prop := {
  sto_plain : indexed L = false;
  sto_aligned : Z.land cls 7 = 0;
  sto_range : in_word (offset (f_shiftcls L) + width (f_shiftcls L)) (sign S cls obj);
  sto_strip : Z.land (sign S cls obj) (class_mask S) = cls;
  sto_mask : Z.land (class_mask S) (ISA_MASK L) = class_mask S;
  sto_low : Z.land (sign S cls obj) 7 = 0;
}.
Section Storable.
Context (L : layout) {HL : LayoutOk L} (S : signing) (cls obj : Z) (Hst : storable L S cls obj).
Lemma stored_class b : in_word (word L) b -> let b' := setClass L S cls obj b in
  getClass L S b' = cls /\ nonpointer L b' = nonpointer L b /\ extra_rc L b' = extra_rc L b /\
  has_sidetable_rc L b' = has_sidetable_rc L b /\ weakly_referenced L b' = weakly_referenced L b /\
  has_assoc L b' = has_assoc L b /\ has_cxx_dtor_bit L b' = has_cxx_dtor_bit L b /\ in_word (word L) b'.
Proof.
  intros Hb b'. destruct Hst as [Hi H1 H2 H3 H4 H5].
  destruct (setClass_spec L HL S cls obj b Hi Hb H1 H2 H3 H4 H5) as (E1 & E2 & E3 & E4 & E5 & E6 & _).
  split_and!; try done; unfold b', setClass; rewrite Hi; [apply (dtor_set L 5); (done || lia)|by apply (set_field_in_word L 5)].
Qed.
(** The raw isa. *)
Lemma raw_class : setClass L S cls obj 0 = sign S cls obj /\ nonpointer L (sign S cls obj) = false /\
  getClass L S (sign S cls obj) = cls /\ in_word (word L) (sign S cls obj) /\
  setClass L S cls obj (sign S cls obj) = sign S cls obj.
Proof.
  pose proof Hst as [Hi H1 H2 H3 H4 H5]. pose proof (fields_range L 5 _ eq_refl) as (Ho & Hw & Hf).
  assert (H0 : in_word (word L) 0) by (pose proof (pow2_pos (word L)); unfold in_word; pose proof (lf_word L (layout_good L)); lia).
  destruct (setClass_spec L HL S cls obj 0 Hi H0 H1 H2 H3 H4 H5) as (E1 & E2 & _ & _ & _ & _ & E7). rewrite E7 in *.
  assert (En : nonpointer L 0 = false) by (unfold nonpointer, flag, get; by rewrite Z.shiftr_0_l).
  assert (Hin : in_word (word L) (sign S cls obj)).
  { unfold in_word in *. assert (2 ^ (offset (f_shiftcls L) + width (f_shiftcls L)) <= 2 ^ word L) by (apply Z.pow_le_mono_r; lia). lia. }
  split_and!; try done; [congruence|]. rewrite <- E7. unfold setClass. rewrite Hi.
  apply set_twice; lia.
Qed.
(** The class field is apart from every other. *)
Lemma other_keeps_class i g x b : fields L !! i = Some g -> i <> 5%nat -> getClass L S (set g x b) = getClass L S b.
Proof.
  intros Hg Hne. pose proof Hst as [Hi _ _ _ H4 _]. unfold getClass. rewrite Hi.
  pose proof (fields_range L i _ Hg) as (Ho & Hw & Hf). pose proof (fields_range L 5 _ eq_refl) as (Hos & Hws & Hfs).
  assert (Hd : disjoint g (f_shiftcls L) = true).
  { destruct (decide (i < 5)%nat); [by apply (fields_disjoint L i 5 g (f_shiftcls L))|apply (fields_disjoint L 5 i (f_shiftcls L) g); [lia|done..]]. }
  apply Z.bits_inj'. intros j Hj. rewrite !Z.land_spec. destruct (Z.testbit (class_mask S) j) eqn:Em; [|by rewrite !andb_false_r].
  rewrite !andb_true_r, set_testbit by lia.
  assert (offset (f_shiftcls L) <= j < offset (f_shiftcls L) + width (f_shiftcls L)).
  { rewrite <- H4, Z.land_spec, (lf_isa_mask L (layout_good L)), testbit_shiftl in Em by done.
    apply andb_true_iff in Em as [_ Em]. apply andb_true_iff in Em as [Hle Em]. apply Z.leb_le in Hle.
    unfold field_mask in Em. rewrite testbit_pow2m1 in Em by lia. apply Z.ltb_lt in Em. lia. }
  apply orb_true_iff in Hd as [Hd|Hd]; apply Z.leb_le in Hd;
    destruct (Z.leb_spec (offset g) j), (Z.ltb_spec j (offset g + width g)); try lia; done.
Qed.
End Storable.

(** A fresh nonpointer isa: of the class, with a retain count of one and no flag but
    the destructor bit [d]. *)
Section Initial.
Context (L : layout) {HL : LayoutOk L} (S : signing) (C : class_table) (K : class_info) (TG : option tag_config).
Context {W : Type} (this cls : Z) (Hst : storable L S cls this) (Htag : this_isTaggedPointer TG this = false).
Record fresh_isa (d : bool) (v : Z) : Prop := {
  fresh_class (w : world W) : isa w = v -> ISA L S C TG this w = Ok (cls, w);
  fresh_sane : sane L 0 v;
  fresh_count : extra_rc L v = 1;
  fresh_alive : isDeallocating L v = false;
  fresh_assoc : has_assoc L v = false;
  fresh_weak : weakly_referenced L v = false;
  fresh_dtor : f_has_cxx_dtor L <> None -> has_cxx_dtor_bit L v = d;
}.
Lemma initIsa_nonpointer (w : world W) d : instancesRequireRawIsa K cls = false ->
  exists v, initIsa L S K TG false this cls true d w = Ok (tt, World v (side w) (env w)) /\ fresh_isa d v.
Proof.
  intros Hraw. pose proof (sto_plain _ _ _ _ Hst) as Hi. destruct (magic_spec L) as (M1 & M2 & M3 & M4 & M5 & M6).
  destruct (set_cxx_dtor_spec L d (ISA_MAGIC_VALUE L)) as (D1 & D2 & D3 & D4 & D5 & D6 & D7 & D8).
  set (m := set_cxx_dtor L _ _) in *. destruct (stored_class L S cls this Hst m (D7 M1)) as (S1 & S2 & S3 & S4 & S5 & S6 & S7 & S8).
  assert (Hr : 0 <= 1 < 2 ^ width (f_extra_rc L)).
  { pose proof (lf_extra_width L (layout_good L)). split; [lia|]. apply (Z.lt_le_trans 1 (2 ^ 1)); [lia|]. apply Z.pow_le_mono_r; lia. }
  destruct (set_extra_spec L 1 (setClass L S cls this m) Hr) as (X1 & X2 & X3 & X4 & X5 & X6 & X7).
  assert (Xd : has_cxx_dtor_bit L (set (f_extra_rc L) 1 (setClass L S cls this m)) = has_cxx_dtor_bit L m).
  { rewrite (dtor_set L 4) by (done || lia). exact S7. }
  assert (Xc : getClass L S (set (f_extra_rc L) 1 (setClass L S cls this m)) = cls) by (by rewrite (other_keeps_class L S cls this Hst 4)).
  set (v := set (f_extra_rc L) 1 _) in *. exists v. split.
  { unfold initIsa. rewrite Hraw, Htag, Hi. run. reflexivity. }
  split; [| |done| | | |].
  - intros w' Hw. unfold ISA, decodedClass, getDecodedClass. rewrite Htag, Hi. run. by rewrite Hw, Xc.
  - split; [by apply X7|by rewrite X2, S2, D1|by rewrite X5, S4, D4].
  - unfold isDeallocating. by rewrite X1.
  - by rewrite X3, S6, D2.
  - by rewrite X4, S5, D3.
  - intros Hne. rewrite Xd, D8. by destruct (f_has_cxx_dtor L).
Qed.
End Initial.

(** C17: a new object, that is not a tagged pointer, on the configurations that store
    the class and not its index. Where nonpointer isas are not disabled and the class does
    not require a raw one, [initInstanceIsa] gives the object a nonpointer isa of its
    class with a retain count of one, the class's destructor bit and every flag
    clear; [initClassIsa] and [initProtocolIsa] give it the same with a clear destructor
    bit. Otherwise these two give a raw isa of the class. [ISA] reads the class back in
    every case. Asking [initInstanceIsa] for an object of a class that requires a raw isa,
    or with a wrong destructor bit, is caught by an assertion. *)
Theorem initIsa_correct L (HL : LayoutOk L) S C K TG dis W (w : world W) this cls :
  storable L S cls this -> this_isTaggedPointer TG this = false ->
  (instancesRequireRawIsa K cls = false -> dis = false ->
   (exists v, initInstanceIsa L S K TG dis this cls (cls_hasCxxDtor K cls) w = Ok (tt, World v (side w) (env w)) /\
      fresh_isa L S C TG (W := W) this cls (cls_hasCxxDtor K cls) v) /\
   (exists v, initClassIsa L S K TG dis this cls w = Ok (tt, World v (side w) (env w)) /\
      initProtocolIsa L S K TG dis this cls w = Ok (tt, World v (side w) (env w)) /\
      fresh_isa L S C TG (W := W) this cls false v)) /\
  (dis || instancesRequireRawIsa K cls = true ->
   exists v, initClassIsa L S K TG dis this cls w = Ok (tt, World v (side w) (env w)) /\
     initProtocolIsa L S K TG dis this cls w = Ok (tt, World v (side w) (env w)) /\ nonpointer L v = false /\
     ISA L S C TG this (World v (side w) (env w)) = Ok (cls, World v (side w) (env w))) /\
  (instancesRequireRawIsa K cls = true -> forall d, initInstanceIsa L S K TG dis this cls d w = Fault AssertFailed) /\
  initInstanceIsa L S K TG dis this cls (negb (cls_hasCxxDtor K cls)) w = Fault AssertFailed.
Proof.
  intros Hst Htag. destruct (raw_class L S cls this Hst) as (Er & Enr & Ecr & _).
  pose proof (sto_plain _ _ _ _ Hst) as Hi. split; [|split; [|split]].
  - intros Hraw ->. split.
    + destruct (initIsa_nonpointer L S C K TG this cls Hst Htag w (cls_hasCxxDtor K cls) Hraw) as (v & E & F).
      exists v. split; [|done]. unfold initInstanceIsa. rewrite Hraw. run. rewrite eqb_reflx. run. exact E.
    + destruct (initIsa_nonpointer L S C K TG this cls Hst Htag w false Hraw) as (v & E & F).
      exists v. unfold initProtocolIsa, initClassIsa. by rewrite Hraw.
  - intros Hraw. exists (sign S cls this). unfold initProtocolIsa, initClassIsa, initIsa. rewrite Hraw, Htag. run. rewrite Er.
    split_and!; [done..|]. unfold ISA, decodedClass, getDecodedClass. rewrite Htag, Hi. run. cbn [isa]. by rewrite Ecr.
  - intros Hraw d. unfold initInstanceIsa. by rewrite Hraw.
  - unfold initInstanceIsa. destruct (instancesRequireRawIsa K cls), (cls_hasCxxDtor K cls); reflexivity.
Qed.

(** ** Changing the class *)
Section ChangeIsa.
Context (L : layout) {HL : LayoutOk L} (S : signing) (C : class_table) (K : class_info) (TG : option tag_config).
Context {W : Type} {HW : WeakTableOps W} (garbage : nat -> Z * Z) (this newCls : Z).
Implicit Types (w : world W).
Hypothesis Hst : storable L S newCls this.
Definition takes_nonpointer : bool := negb (isFuture K newCls) && canAllocNonpointer K newCls.
(** The isa with its class changed, and nothing else. *)
Definition reclassed (v : Z) : Z := setClass L S newCls this (set_cxx_dtor L (cls_hasCxxDtor K newCls) v).
Lemma reclassed_spec v : in_word (word L) v -> let v' := reclassed v in
  getClass L S v' = newCls /\ nonpointer L v' = nonpointer L v /\ extra_rc L v' = extra_rc L v /\
  has_sidetable_rc L v' = has_sidetable_rc L v /\ weakly_referenced L v' = weakly_referenced L v /\
  has_assoc L v' = has_assoc L v /\ in_word (word L) v'.
Proof.
  intros Hv v'. destruct (set_cxx_dtor_spec L (cls_hasCxxDtor K newCls) v) as (D1 & D2 & D3 & D4 & D5 & D6 & D7 & _).
  destruct (stored_class L S newCls this Hst _ (D7 Hv)) as (S1 & S2 & S3 & S4 & S5 & S6 & _ & S8). unfold v', reclassed.
  by rewrite S1, S2, S3, S4, S5, S6, D1, D2, D3, D4, D5.
Qed.
Lemma nonpointer_nonzero v : nonpointer L v = true -> (v =? 0) = false.
Proof. intros H. apply Z.eqb_neq. intros ->. unfold nonpointer, flag, get in H. by rewrite Z.shiftr_0_l in H. Qed.
Lemma change_nonpointer fuel : takes_nonpointer = true -> forall w newisa, (length (env w) < fuel)%nat ->
  Forall (fun v => nonpointer L v = true) (words w) ->
  exists v w', changeIsa_loop L S K this fuel newCls (isa w) newisa false w = Ok ((v, false, false), w') /\
    seen w w' v /\ isa w' = reclassed v /\ side w' = side w.
Proof.
  intros Ht. induction fuel as [|fuel IH]; intros w newisa Hf Hn; [lia|]. cbn [changeIsa_loop].
  pose proof (List.Forall_inv Hn) as Hv. cbn beta in Hv.
  assert (E : changed_isa L S K this newCls (isa w) newisa w = Ok ((reclassed (isa w), false), w)).
  { unfold changed_isa. rewrite Hv, (nonpointer_nonzero _ Hv), (sto_plain _ _ _ _ Hst). cbn [orb andb].
    unfold takes_nonpointer in Ht. by rewrite Ht. }
  step E. destruct (StoreExclusive_run w (reclassed (isa w))) as [(w2 & E2 & Ei2 & Es2 & Hs2 & _)|(v & w2 & E2 & Ei2 & Es2 & Hs2 & Hl2)]; step E2.
  - by exists (isa w), w2.
  - subst v. destruct (IH w2 (reclassed (isa w))) as (v & w3 & E3 & Hs3 & Hi3 & Hsd3); [lia|by eapply seen_Forall|].
    exists v, w3. split; [done|]. split; [by eapply seen_trans|]. split; [done|congruence].
Qed.
(** To a raw isa; [np] says where the object starts from. *)
Lemma change_raw fuel (np : bool) : (np = true -> takes_nonpointer = false) -> forall w newisa s, (length (env w) < fuel)%nat ->
  Forall (fun v => nonpointer L v = np /\ v <> 0) (words w) -> newisa = 0 \/ newisa = sign S newCls this ->
  (s = true -> np = true) -> (np = true -> slock (side w) = s) ->
  exists v w', changeIsa_loop L S K this fuel newCls (isa w) newisa s w = Ok ((v, np, np), w') /\
    seen w w' v /\ isa w' = sign S newCls this /\
    side w' = (if np then with_lock (side w) true else side w).
Proof.
  intros Ht. destruct (raw_class L S newCls this Hst) as (R1 & _ & _ & _ & R5).
  induction fuel as [|fuel IH]; intros w newisa s Hf Hn Hnew Hs Hl; [lia|]. cbn [changeIsa_loop].
  destruct (List.Forall_inv Hn) as [Hv Hnz].
  assert (E : changed_isa L S K this newCls (isa w) newisa w = Ok ((sign S newCls this, np), w)).
  { unfold changed_isa. rewrite Hv. apply Z.eqb_neq in Hnz. rewrite Hnz. cbn [orb]. unfold takes_nonpointer in Ht.
    destruct np; cbn [andb]; [rewrite Ht by done|]; (destruct Hnew as [->| ->]; [by rewrite R1|by rewrite R5]). }
  step E.
  assert (E1 : exists w1, (if np && negb s then side_lock else ret tt) w = Ok (tt, w1) /\ isa w1 = isa w /\ env w1 = env w /\
    side w1 = (if np then with_lock (side w) true else side w) /\ s || np = np).
  { destruct np, s; try (by discriminate (Hs eq_refl)); cbn [andb negb orb].
    - exists w. split_and!; try done. specialize (Hl eq_refl). destruct w as [v t e], t; cbn in *. by subst.
    - unfold side_lock, on_side_, sidetable_lock, lock. rewrite (Hl eq_refl). cbn. eexists. by split_and!.
    - exists w. by split_and!. }
  destruct E1 as (w1 & E1 & Ei1 & Ee1 & Es1 & Esn). step E1. rewrite Esn.
  rewrite <- Ei1. destruct (StoreExclusive_run w1 (sign S newCls this)) as [(w2 & E2 & Ei2 & Es2 & Hs2 & _)|(v & w2 & E2 & Ei2 & Es2 & Hs2 & Hl2)]; step E2.
  - exists (isa w1), w2. split; [done|]. split; [|split; [done|congruence]].
    eapply seen_trans; [by apply (seen_env w w1 (isa w))|done|done].
  - subst v. assert (Hseen : seen w w2 (isa w2)) by (eapply seen_trans; [by apply (seen_env w w1 (isa w))|done|done]).
    destruct (IH w2 (sign S newCls this) np) as (v & w3 & E3 & Hs3 & Hi3 & Hsd3); [rewrite Ee1 in Hl2; lia|by eapply seen_Forall|by right|done| |].
    { intros ->. by rewrite Es2, Es1. }
    exists v, w3. split; [done|]. split; [by eapply seen_trans|]. split; [done|]. rewrite Hsd3, Es2, Es1. by destruct np.
Qed.
End ChangeIsa.

(** The side table's word for an object that gets a raw isa, having had the isa [v]
    and a side count of [c]. *)
Definition transcribed (L : layout) (c v : Z) : Z :=
  if 0 <? extra_rc L v then encode (Live (extra_rc L v + c - 1) (weakly_referenced L v))
  else if c =? 0 then 2 ^ 64 - 2 + Zb (weakly_referenced L v)
  else 2 ^ 63 + Zb (weakly_referenced L v).
Lemma transcribed_word (L : layout) {HL : LayoutOk L} c v : sane L c v -> 0 <= c < 2 ^ 60 -> RC_HALF L < 2 ^ 59 ->
  moveExtraRC_word (4 * c) (extra_rc L v) (isDeallocating L v) (weakly_referenced L v) = transcribed L c v.
Proof.
  intros Hv Hc Hh. pose proof (half_limit L) as [_ Hlim]. pose proof (extra_range L v) as He.
  rewrite (deallocating_iff L c v Hv) by lia. unfold transcribed. destruct (Z.ltb_spec 0 (extra_rc L v)).
  - destruct (Z.eqb_spec (extra_rc L v + c) 0); [lia|]. rewrite move_word_live by lia. do 2 f_equal. lia.
  - assert (extra_rc L v = 0) as -> by lia. cbn [Z.add]. destruct (Z.eqb_spec c 0) as [->|Hne]; [destruct (weakly_referenced L v); vm_compute; reflexivity|].
    unfold moveExtraRC_word. change (delta (u64 (0 - 1))) with (2 ^ 64 - 4).
    destruct (Z.eqb_spec (0 + c) 0); [lia|]. generalize (weakly_referenced L v). intros b.
    destruct (Z.leb_spec (2 ^ 64) (4 * c + (2 ^ 64 - 4))); [by destruct b|lia].
Qed.

Module ObjectIsaWitness.
Import SideTableWitness RetainReleaseWitness.
#[local] Existing Instance no_weak_table.
Definition a_class : Z := 0x7fff88abcdf0.
Lemma a_class_storable : storable x86_64_isa (no_signing x86_64_isa) a_class object.
Proof. split; try reflexivity; vm_compute; split; (discriminate || reflexivity). Qed.
Definition raw_classes : class_info := {|
  isFuture _ := false; canAllocNonpointer _ := false; instancesRequireRawIsa _ := true; cls_hasCxxDtor _ := false;
  classArrayIndex _ := 0; hasCustomRR _ := false; canCallSwiftRR _ := false; isMetaClass _ := false;
|}.
Definition fresh_world : world unit := World 0 (empty_side false) [].
Lemma initIsa_correct_witness : exists v v',
  initInstanceIsa x86_64_isa (no_signing x86_64_isa) plain_classes (Some lsb_tags) false object a_class false fresh_world = Ok (tt, World v (empty_side false) []) /\
  extra_rc x86_64_isa v = 1 /\
  initClassIsa x86_64_isa (no_signing x86_64_isa) plain_classes (Some lsb_tags) false object a_class fresh_world = Ok (tt, World v' (empty_side false) []) /\
  nonpointer x86_64_isa v' = true.
Proof.
  destruct (initIsa_correct x86_64_isa x86_64_ok (no_signing x86_64_isa) no_table plain_classes (Some lsb_tags) false unit fresh_world object a_class
    a_class_storable) as (H & _); [by vm_compute|].
  destruct (H eq_refl eq_refl) as ((v & E & F) & v' & E' & _ & F'). exists v, v'.
  split; [exact E|]. split; [exact (fresh_count _ _ _ _ _ _ _ _ F)|]. split; [exact E'|].
  exact (sane_nonpointer _ _ _ (fresh_sane _ _ _ _ _ _ _ _ F')).
Defined.
End ObjectIsaWitness.

(** ** Two runs under interference *)
Module Interference.
Section Runs.
Context (L : layout) {HL : LayoutOk L} (S : signing) (C : class_table) (K : class_info) (TG : option tag_config).
Context {W : Type} {HW : WeakTableOps W} (garbage : nat -> Z * Z) (this : Z).
Implicit Types (w : world W) (t : SideTable W) (rest : list (option Z)).
Hypothesis Htag : this_isTaggedPointer TG this = false.
(** An access that nothing disturbs, and one that finds the word [d]. *)
Lemma load_alone v t rest : LoadExclusive (World (W := W) v t (None :: rest)) = Ok (v, World (W := W) v t rest).
Proof. reflexivity. Qed.
Lemma store_alone v t rest new : rest = [] \/ (exists l, rest = None :: l) ->
  StoreExclusive v new (World (W := W) v t rest) = Ok ((true, v), World (W := W) new t (tail rest)).
Proof. intros [-> |[l ->]]; unfold StoreExclusive, bind, interfere; cbn; by rewrite Z.eqb_refl. Qed.
Lemma store_beaten v t d rest new : StoreExclusive v new (World (W := W) v t (Some d :: rest)) = Ok ((false, d), World (W := W) d t rest).
Proof. reflexivity. Qed.

(** The accesses of a try-retain of a full count up to the one that fails: one
    load, and one more after the fast variants went to the overflow path. *)
Definition undisturbed (variant : RRVariant) : list (option Z) := match variant with Full => [None] | _ => [None; None] end.
Record full_count (v : Z) : Prop := {
  full_word : in_word (word L) v;
  full_nonpointer : nonpointer L v = true;
  full_extra : extra_rc L v + 1 = rc_limit L;
}.
Lemma full_carries v : full_count v -> isDeallocating L v = false /\ exists n, addc (word L) v (RC_ONE L) 0 = (n, true).
Proof.
  intros [Hw Hn He]. pose proof (half_limit L) as [Hp Hl]. split.
  - unfold isDeallocating. destruct (Z.eqb_spec (extra_rc L v) 0); [lia|done].
  - pose proof (addc_rc_one L v Hw) as Hadd. destruct (addc (word L) v (RC_ONE L) 0) as [n c]. destruct Hadd as [-> _].
    exists n. by rewrite He, Z.eqb_refl.
Qed.
Lemma full_try ov v t d rest : full_count v -> nonpointer L d = true -> isDeallocating L d = true -> slock t = true ->
  rootRetain_body L S C K TG garbage this ov true Full (World v t (None :: Some d :: rest)) =
    Ok (RetainedNil, World d (with_lock t false) rest).
Proof.
  intros Hf Hn Hd Hl. destruct (full_carries v Hf) as (Ha & n & Hc). unfold rootRetain_body. rewrite Htag.
  step (load_alone v t (Some d :: rest)). rewrite bool_decide_false by done. run. rewrite (full_nonpointer v Hf). run.
  cbn [Nat.add rootRetain_loop env length]. rewrite (full_nonpointer v Hf), Ha, Hc. run. rewrite bool_decide_true by done. run.
  rewrite (bind_Ok _ _ _ _ _ (store_beaten v t d rest _)). rewrite Hn, Hd. run.
  unfold side_unlock, on_side_, sidetable_unlock, unlock, bind. cbn. by rewrite Hl.
Qed.
Lemma any_try variant v t d rest : full_count v -> nonpointer L d = true -> isDeallocating L d = true -> slock t = true ->
  let w := World v t (undisturbed variant ++ Some d :: rest) in
  decodes L S C variant w -> overridden L S C K variant w = false ->
  rootRetain_ L S C K TG garbage this true variant w = Ok (RetainedNil, World d (with_lock t false) rest).
Proof.
  intros Hf Hn Hd Hl w Hdec Hov. destruct (decide (variant = Full)) as [->|Hv]; [by apply full_try|].
  assert (Ew : w = World v t (None :: None :: Some d :: rest)) by (unfold w; by destruct variant).
  assert (Efw : first_word w = v) by (by rewrite Ew). clearbody w. destruct (full_carries v Hf) as (Ha & n & Hc).
  unfold rootRetain_, rootRetain_body. rewrite Htag, Ew. step (load_alone v t (None :: Some d :: rest)).
  pose proof (ask_class L S C K variant w (World v t (None :: Some d :: rest)) (fun b : bool => if b then SwiftRetain else MsgSendRetain) Hdec) as Hask.
  cbn beta in Hask. rewrite Hov, Efw in Hask. step Hask. rewrite (full_nonpointer v Hf). run.
  cbn [Nat.add rootRetain_loop env length]. rewrite (full_nonpointer v Hf), Ha, Hc. run. rewrite bool_decide_false by done. run.
  unfold rootRetain_overflow, rootRetain_full. by step (full_try (fun _ => fail OutOfFuel) v t d rest Hf Hn Hd Hl).
Qed.

(** A class change whose first store finds the raw isa [r]. *)
Lemma stale_change newCls v t r rest : storable L S newCls this -> takes_nonpointer K newCls = true ->
  nonpointer L v = true -> nonpointer L r = false -> r <> 0 -> rest = [] \/ (exists l, rest = None :: l) ->
  changeIsa L S C K TG garbage this newCls (World v t (None :: Some r :: rest)) =
    Ok (getClass L S r, World (reclassed L S K this newCls v) t (tail rest)).
Proof.
  intros Hst Ht Hv Hr Hnz Hrest. unfold changeIsa. rewrite Htag. step (load_alone v t (Some r :: rest)).
  cbn [Nat.add changeIsa_loop env length].
  assert (E : changed_isa L S K this newCls v 0 (World v t (Some r :: rest)) = Ok ((reclassed L S K this newCls v, false), World v t (Some r :: rest))).
  { unfold changed_isa. rewrite Hv, (nonpointer_nonzero L _ Hv), (sto_plain _ _ _ _ Hst). cbn [orb andb].
    unfold takes_nonpointer in Ht. by rewrite Ht. }
  step E. step (store_beaten v t r rest (reclassed L S K this newCls v)).
  assert (E2 : changed_isa L S K this newCls r (reclassed L S K this newCls v) (World r t rest) = Ok ((reclassed L S K this newCls v, false), World r t rest)).
  { unfold changed_isa. rewrite Hr. apply Z.eqb_neq in Hnz. rewrite Hnz. cbn [orb andb]. unfold ret, reclassed, setClass.
    rewrite (sto_plain _ _ _ _ Hst). pose proof (fields_range L 5 _ eq_refl) as (Ho & Hw & _). rewrite set_twice by lia. done. }
  step E2. step (store_alone r t rest (reclassed L S K this newCls v) Hrest).
  unfold decodedClass, getDecodedClass, lift. by rewrite (sto_plain _ _ _ _ Hst).
Qed.

(** The counts the object is said to have before and after. *)
Lemma locked_pair v t e : ready garbage t this false ->
  exists t1 t2, side_lock (World v t e) = Ok (tt, World v t1 e) /\ side_unlock (World v t1 e) = Ok (tt, World v t2 e) /\
    ready garbage t2 this false /\ word_of garbage t2 this = word_of garbage t this.
Proof.
  intros Hr. destruct (lock_ok garbage t this Hr) as (t1 & E1 & Hr1 & Hst1). destruct (unlock_ok garbage t1 this Hr1) as (t2 & E2 & Hr2 & Hst2).
  exists t1, t2. unfold side_lock, side_unlock, on_side_, sidetable_lock, sidetable_unlock. cbn [side isa env]. rewrite E1, E2.
  split_and!; try done. by rewrite (stepped_word _ _ _ _ _ _ Hst2), (stepped_word _ _ _ _ _ _ Hst1).
Qed.
Lemma raw_count v t n wk e : nonpointer L v = false -> ready garbage t this false -> word_of garbage t this = encode (Live n wk) ->
  countable (Live n wk) -> exists w', rootRetainCount L TG garbage this (World v t e) = Ok (n + 1, w').
Proof.
  intros Hn Hr Hw Hc. destruct (locked_pair v t e Hr) as (t1 & t2 & E1 & E2 & Hr2 & Hw2). unfold rootRetainCount. rewrite Htag.
  step E1. cbn [isa]. rewrite Hn. step E2. unfold on_side. cbn [side isa env]. rewrite (sidetable_retainCount_ok garbage t2 this Hr2).
  assert (1 + word_of garbage t2 this / 4 = n + 1) as ->; [|by eexists].
  rewrite Hw2, Hw. unfold countable in Hc. destruct wk; cbn [encode Zb] in *; dlia.
Qed.
Lemma inline_count v t e : in_word (word L) v -> nonpointer L v = true -> has_sidetable_rc L v = false -> ready garbage t this false ->
  exists w', rootRetainCount L TG garbage this (World v t e) = Ok (extra_rc L v, w').
Proof.
  intros Hin Hn Hs Hr. destruct (locked_pair v t e Hr) as (t1 & t2 & E1 & E2 & Hr2 & Hw2). unfold rootRetainCount. rewrite Htag.
  step E1. cbn [isa]. rewrite Hn, Hs. run. step E2.
  assert (wrap (word L) (extra_rc L v + 0) = extra_rc L v) as ->; [|by eexists].
  rewrite Z.add_0_r. destruct (rc_one_facts L) as [Hp Hlim]. pose proof (extra_range L v). apply wrap_small. nia.
Qed.
End Runs.

(** C19: two interleavings that the locking does not survive, for an object that is not
    a tagged pointer. First, a try-retain, whose caller holds the side table's lock. It finds
    a nonpointer isa with a full inline count, and its store fails because another
    thread has made the object a deallocating one. Every variant (the
    message-sending one for a class that does not override reference
    counting) then returns nil and has given the lock away: [rootRetain]
    notes the side table as locked on the overflow path, although a try-retain has not
    taken the lock, and unlocks it when it meets the deallocating object. Second,
    two threads change the class, on the configurations that store the class and not its
    index ([storable]). This one, to a class that allows nonpointer isas, loads the
    nonpointer isa [v]; before its first store the other gives the object a raw
    isa [r]; the second store meets no one. What is stored is [v] with the new class,
    because the variable [newisa] keeps its value from turn to turn and only its
    class field is written: a nonpointer isa with the retain count and the flags of
    [v], with the side table as it was. When the object had its count of
    [n] + 1 in the side table, and [v] had no counts there, this count is lost: the
    retain count is [n] + 1 before the store and the inline count of [v] after it. *)
Theorem lost_interleavings L (HL : LayoutOk L) S C K TG W (HW : WeakTableOps W) garbage this (v : Z) (t : SideTable W) rest :
  this_isTaggedPointer TG this = false ->
  (forall variant d, let w := World v t (undisturbed variant ++ Some d :: rest) in
   full_count L v -> nonpointer L d = true -> isDeallocating L d = true -> slock t = true ->
   decodes L S C variant w -> overridden L S C K variant w = false ->
   rootRetain_ L S C K TG garbage this true variant w = Ok (RetainedNil, World d (with_lock t false) rest)) /\
  (forall newCls r, let w := World v t (None :: Some r :: rest) in
   storable L S newCls this -> takes_nonpointer K newCls = true ->
   in_word (word L) v -> nonpointer L v = true -> nonpointer L r = false -> r <> 0 -> rest = [] \/ (exists l, rest = None :: l) ->
   exists v', changeIsa L S C K TG garbage this newCls w = Ok (getClass L S r, World v' t (tail rest)) /\
     nonpointer L v' = true /\ getClass L S v' = newCls /\ extra_rc L v' = extra_rc L v /\
     has_sidetable_rc L v' = has_sidetable_rc L v /\ weakly_referenced L v' = weakly_referenced L v /\ has_assoc L v' = has_assoc L v /\
     (forall n wk, ready garbage t this false -> word_of garbage t this = encode (Live n wk) -> countable (Live n wk) ->
      has_sidetable_rc L v = false ->
      (exists w1, rootRetainCount L TG garbage this (World r t rest) = Ok (n + 1, w1)) /\
      (exists w2, rootRetainCount L TG garbage this (World v' t (tail rest)) = Ok (extra_rc L v, w2)))).
Proof.
  intros Htag. split.
  - intros variant d w Hf Hn Hd Hl Hdec Hov. by apply any_try.
  - intros newCls r w Hst Ht Hin Hv Hr Hnz Hrest. destruct (reclassed_spec L S K this newCls Hst v Hin) as (F1 & F2 & F3 & F4 & F5 & F6 & F7).
    exists (reclassed L S K this newCls v). split; [by apply stale_change|]. split_and!; try done; [congruence|].
    intros n wk Hrd Hw Hc Hs. split; [by eapply raw_count|]. rewrite <- F3. apply inline_count; (done || congruence).
Qed.

Import SideTableWitness RetainReleaseWitness ObjectIsaWitness.
#[local] Existing Instance no_weak_table.
(** An object in its last moments: no counts left. *)
Definition deallocating_isa : Z := 0x001d800000000001.
Definition raw_isa : Z := 0x7fff88abcd00.
(** A side table with one count for the object, which therefore has two references. *)
Definition counting_side : SideTable unit := Eval vm_compute in
  match sidetable_retain memory (empty_side false) object false false with Ok t => t | Fault _ => empty_side false end.
Lemma counting_ready : ready memory counting_side object false /\ word_of memory counting_side object = encode (Live 1 false).
Proof.
  destruct (sidetable_retain_ok memory (empty_side false) object false (object_ready false)) as (t & E & [Hr Hu Hl _]).
  assert (E' : sidetable_retain memory (empty_side false) object false false = Ok counting_side) by (by vm_compute).
  rewrite E' in E. injection E as <-. split; [|by vm_compute].
  split; [exact Hr|by vm_compute|exact (rd_obj _ _ _ _ (object_ready false))|exact Hl].
Qed.
Lemma full_isa_full : full_count x86_64_isa full_isa.
Proof. split; vm_compute; [split; congruence|reflexivity|reflexivity]. Qed.
Lemma lost_interleavings_witness :
  (exists w', rootRetain_ x86_64_isa (no_signing x86_64_isa) no_table plain_classes (Some lsb_tags) memory object true Full
      (World full_isa (empty_side true) [None; Some deallocating_isa]) = Ok (RetainedNil, w') /\ slock (side w') = false) /\
  (exists v' w1 w2, changeIsa x86_64_isa (no_signing x86_64_isa) no_table plain_classes (Some lsb_tags) memory object a_class
      (World (full_isa - 2 ^ 56) counting_side [None; Some raw_isa]) = Ok (raw_isa, World v' counting_side []) /\
    rootRetainCount x86_64_isa (Some lsb_tags) memory object (World raw_isa counting_side []) = Ok (2, w1) /\
    rootRetainCount x86_64_isa (Some lsb_tags) memory object (World v' counting_side []) = Ok (254, w2)).
Proof.
  split.
  - destruct (lost_interleavings x86_64_isa x86_64_ok (no_signing x86_64_isa) no_table plain_classes (Some lsb_tags) unit no_weak_table memory object
      full_isa (empty_side true) []) as [H _]; [by vm_compute|].
    eexists. split; [apply (H Full deallocating_isa full_isa_full)|reflexivity];
      first [discriminate|vm_compute; reflexivity].
  - destruct (lost_interleavings x86_64_isa x86_64_ok (no_signing x86_64_isa) no_table plain_classes (Some lsb_tags) unit no_weak_table memory object
      (full_isa - 2 ^ 56) counting_side []) as [_ H]; [by vm_compute|].
    destruct counting_ready as [Hr Hw].
    destruct (H a_class raw_isa a_class_storable) as (v' & E & _ & _ & _ & _ & _ & _ & Hcounts);
      [reflexivity|vm_compute; split; congruence|vm_compute; reflexivity|vm_compute; reflexivity|discriminate|by left|].
    destruct (Hcounts 1 false Hr Hw) as [[w1 E1] [w2 E2]]; [vm_compute; split; congruence|vm_compute; reflexivity|]. exists v', w1, w2.
    split; [exact E|]. split; [exact E1|exact E2].
Defined.
End Interference.
