(* ===== verification/ObjectEnd.v ===== *)
(** * Flags and the end of an object

    The flag setters of ObjcObject.v under interference, and [rootDealloc]: what
    is torn down, and that nothing of the object is left in its side table. *)

From stdpp Require Import prelude numbers list.
From Stdlib Require Import ZArith Lia Bool.
From S2P Require Import Prelude ObjcOS DenseMapInfo DenseMap DenseMapTheory DenseMapOps DenseMapImpl Isa SideTable TaggedPointer ObjcObject RetainRelease ObjectIsa.
Import DenseMap.DenseMap DenseMapInfos.

(** ** Flags *)
Section Flags.
Context (L : layout) {HL : LayoutOk L} (S : signing) (C : class_table) (K : class_info) (TG : option tag_config).
Context {W : Type} {HW : WeakTableOps W} (garbage : nat -> Z * Z) (this : Z).
Implicit Types (w : world W).
(** Everything but a flag. *)
Definition same_count (v v' : Z) : Prop :=
  in_word (word L) v' /\ nonpointer L v' = true /\ extra_rc L v' = extra_rc L v /\
  has_sidetable_rc L v' = has_sidetable_rc L v /\ get (f_shiftcls L) v' = get (f_shiftcls L) v.
Definition marked_weak (v : Z) : Z := if weakly_referenced L v then v else set_flag (f_weakly_referenced L) true v.
Definition marked_assoc (v : Z) : Z := if has_assoc L v then v else set_flag (f_has_assoc L) true v.
Lemma marked_weak_spec v : in_word (word L) v -> nonpointer L v = true ->
  weakly_referenced L (marked_weak v) = true /\ has_assoc L (marked_weak v) = has_assoc L v /\ same_count v (marked_weak v).
Proof.
  intros Hw Hn. unfold marked_weak, same_count. destruct (weakly_referenced L v) eqn:E; [by split_and!|].
  destruct (set_weakly_spec L true v) as (E1 & E2 & E3 & E4 & E5 & E6 & E7). rewrite E1, E2, E3, E4, E5, E6. split_and!; auto.
Qed.
Lemma marked_assoc_spec v : in_word (word L) v -> nonpointer L v = true ->
  has_assoc L (marked_assoc v) = true /\ weakly_referenced L (marked_assoc v) = weakly_referenced L v /\ same_count v (marked_assoc v).
Proof.
  intros Hw Hn. unfold marked_assoc, same_count. destruct (has_assoc L v) eqn:E; [by split_and!|].
  destruct (set_assoc_spec L true v) as (E1 & E2 & E3 & E4 & E5 & E6 & E7). rewrite E1, E2, E3, E4, E5, E6. split_and!; auto.
Qed.
Lemma weak_loop fuel : forall w, (length (env w) < fuel)%nat -> Forall (fun v => nonpointer L v = true) (words w) ->
  exists v w', setWeaklyReferenced_loop L garbage this fuel (isa w) w = Ok (tt, w') /\ seen w w' v /\
    isa w' = marked_weak v /\ side w' = side w.
Proof.
  induction fuel as [|fuel IH]; intros w Hf Hn; [lia|]. cbn [setWeaklyReferenced_loop].
  pose proof (List.Forall_inv Hn) as Hv. cbn beta in Hv. rewrite Hv. run. unfold marked_weak at 1.
  destruct (weakly_referenced L (isa w)) eqn:Ew.
  { exists (isa w), w. split; [done|]. split; [apply seen_refl|]. unfold marked_weak. by rewrite Ew. }
  destruct (StoreExclusive_run w (set_flag (f_weakly_referenced L) true (isa w))) as [(w2 & E2 & Ei2 & Es2 & Hs2 & _)|(v & w2 & E2 & Ei2 & Es2 & Hs2 & Hl2)]; step E2.
  - exists (isa w), w2. split; [done|]. split; [done|]. unfold marked_weak. by rewrite Ew.
  - subst v. destruct (IH w2) as (v & w3 & E3 & Hs3 & Hi3 & Hd3); [lia|by eapply seen_Forall|].
    exists v, w3. split; [done|]. split; [by eapply seen_trans|]. split; [done|congruence].
Qed.
Lemma assoc_loop fuel : forall w, (length (env w) < fuel)%nat -> Forall (fun v => nonpointer L v = true) (words w) ->
  exists v w', setHasAssociatedObjects_loop L fuel (isa w) w = Ok (tt, w') /\ seen w w' v /\
    isa w' = marked_assoc v /\ side w' = side w.
Proof.
  induction fuel as [|fuel IH]; intros w Hf Hn; [lia|]. cbn [setHasAssociatedObjects_loop].
  pose proof (List.Forall_inv Hn) as Hv. cbn beta in Hv. rewrite Hv. run.
  destruct (has_assoc L (isa w)) eqn:Ew.
  { exists (isa w), w. split; [done|]. split; [apply seen_refl|]. unfold marked_assoc. by rewrite Ew. }
  destruct (StoreExclusive_run w (set_flag (f_has_assoc L) true (isa w))) as [(w2 & E2 & Ei2 & Es2 & Hs2 & _)|(v & w2 & E2 & Ei2 & Es2 & Hs2 & Hl2)]; step E2.
  - exists (isa w), w2. split; [done|]. split; [done|]. unfold marked_assoc. by rewrite Ew.
  - subst v. destruct (IH w2) as (v & w3 & E3 & Hs3 & Hi3 & Hd3); [lia|by eapply seen_Forall|].
    exists v, w3. split; [done|]. split; [by eapply seen_trans|]. split; [done|congruence].
Qed.
End Flags.

(** C18: the flags of a nonpointer isa. Whatever other threads store meanwhile,
    marking an object as weakly referenced or as having associated objects ends
    with the flag set on the word found last, its counts, its class and its
    other flag unchanged and the side table untouched; the flag reads back. *)
Theorem object_flags_correct L (HL : LayoutOk L) S C K TG W (HW : WeakTableOps W) garbage this (w : world W) :
  this_isTaggedPointer TG this = false -> Forall (fun v => in_word (word L) v /\ nonpointer L v = true) (words w) ->
  (exists v w', setWeaklyReferenced_nolock L garbage this w = Ok (tt, w') /\ seen w w' v /\ side w' = side w /\
     has_assoc L (isa w') = has_assoc L v /\ same_count L v (isa w') /\
     isWeaklyReferenced L TG garbage this w' = Ok (true, w')) /\
  (forall setAssoc, exists v w', setHasAssociatedObjects L S C K TG this setAssoc w = Ok (false, w') /\ seen w w' v /\ side w' = side w /\
     weakly_referenced L (isa w') = weakly_referenced L v /\ same_count L v (isa w') /\
     hasAssociatedObjects L TG this w' = Ok (true, w')).
Proof.
  intros Htag Hall. assert (Hn : Forall (fun v => nonpointer L v = true) (words w)) by (eapply Forall_impl; [exact Hall|]; by intros x [_ ?]).
  destruct (LoadExclusive_run w) as (v0 & w0 & E0 & Hv0 & Hs0 & Hseen0 & _). subst v0.
  assert (Hat : forall v w', seen w0 w' v -> in_word (word L) v /\ nonpointer L v = true).
  { intros v w' Hs. rewrite List.Forall_forall in Hall. eapply Hall, seen_in, seen_trans; [exact Hseen0|done|exact Hs]. }
  split.
  - unfold setWeaklyReferenced_nolock. step E0.
    destruct (weak_loop L garbage this (2 + length (env w0)) w0) as (v & w1 & E1 & Hs1 & Hi1 & Hd1); [lia|by eapply seen_Forall|].
    destruct (Hat v w1 Hs1) as [Hw Hnv]. destruct (marked_weak_spec L v Hw Hnv) as (M1 & M2 & M3).
    exists v, w1. rewrite Hi1. split_and!; try done; [by eapply seen_trans|congruence|].
    unfold isWeaklyReferenced. rewrite Htag. run. destruct M3 as (_ & M3 & _). by rewrite Hi1, M3, M1.
  - intros setAssoc. unfold setHasAssociatedObjects. rewrite Htag. run. rewrite (List.Forall_inv Hn). step E0.
    destruct (assoc_loop L (2 + length (env w0)) w0) as (v & w1 & E1 & Hs1 & Hi1 & Hd1); [lia|by eapply seen_Forall|]. step E1.
    destruct (Hat v w1 Hs1) as [Hw Hnv]. destruct (marked_assoc_spec L v Hw Hnv) as (M1 & M2 & M3).
    exists v, w1. rewrite Hi1. split_and!; try done; [by eapply seen_trans|congruence|].
    unfold hasAssociatedObjects. rewrite Htag. run. destruct M3 as (_ & M3 & _). by rewrite Hi1, M3, M1.
Qed.

(** ** Deallocation *)
Section Dealloc.
Context (L : layout) {HL : LayoutOk L} (S : signing) (C : class_table) (K : class_info) (TG : option tag_config).
Context {W : Type} {HW : WeakTableOps W} (garbage : nat -> Z * Z) (this : Z).
Implicit Types (w : world W) (t : SideTable W).
Abbreviation RT := (RefcountMap garbage).
(** Nothing of the object is in the side table. *)
Record gone t : Prop := {
  gone_entry : denote RT (refcnts t) (disguise this) = None;
  gone_weak : weak_is_registered_no_lock (weak_table t) this = Ok false;
}.
(** The side table holds of the object what its isa says. *)
Record consistent t (v : Z) : Prop := {
  con_entry : has_sidetable_rc L v = false -> denote RT (refcnts t) (disguise this) = None;
  con_weak : weakly_referenced L v = false -> weak_is_registered_no_lock (weak_table t) this = Ok false;
  con_clear : weakly_referenced L v = true ->
    exists wt, weak_clear_no_lock (weak_table t) this = Ok wt /\ weak_is_registered_no_lock wt this = Ok false;
}.
Lemma absent_ok w : refs garbage (refcnts (side w)) -> valid_obj garbage this -> slock (side w) = false -> gone (side w) ->
  side_absent garbage this w = Ok (tt, w).
Proof.
  intros [Hok _] [_ Hk] Hl [He Hw]. unfold side_absent, bind, on_side, sidetable_present, lock. rewrite Hl. cbn [rbind refcnts with_lock weak_table].
  destruct (find_entry RT (refcnts (side w)) (disguise this) Hok Hk) as [(i & v & _ & _ & _ & E & _)|(-> & _)]; [congruence|].
  cbn [rbind]. rewrite Hw. unfold unlock. cbn [slock with_lock rbind refcnts]. rewrite Z.eqb_refl. cbn.
  destruct w as [v t e], t. cbn in *. by subst.
Qed.
Lemma slow_gone t v : ready garbage t this true -> consistent t v ->
  exists t', clearDeallocating_slow_nolock garbage t this (weakly_referenced L v) (has_sidetable_rc L v) = Ok t' /\ gone t' /\
    refs garbage (refcnts t') /\ slock t' = true /\
    (forall o, in_word 64 o -> o <> this -> word_of garbage t' o = word_of garbage t o).
Proof.
  intros [Hr Hroom [Hobj Hk] Hl] [Hent Hreg Hclr]. unfold clearDeallocating_slow_nolock.
  assert (Hw : exists wt, (if weakly_referenced L v
      then let? x := weak_clear_no_lock (weak_table t) this in Ok (with_weak t x) else Ok t) = Ok (with_weak t wt) /\
    weak_is_registered_no_lock wt this = Ok false).
  { destruct (weakly_referenced L v).
    - destruct (Hclr eq_refl) as (wt & -> & E). by exists wt.
    - exists (weak_table t). split; [by destruct t|]. by apply Hreg. }
  destruct Hw as (wt & -> & Hwt). cbn [rbind refcnts with_weak].
  destruct (has_sidetable_rc L v).
  - destruct (erase_ok RT (refcnts t) (disguise this)) as (m & E & Hok & Hin & Hout); [split; [apply Hr|done]|done|].
    rewrite E. cbn [rbind]. eexists. split; [done|]. cbn.
    destruct (gone_updated garbage (refcnts t) m this Hobj Hr Hok Hin Hout) as [Hr' [_ Hu]].
    split; [|by split_and!]. split; [|done]. apply Hin. by apply (keyeq_refl RT).
  - eexists. split; [done|]. split; [split; [by apply Hent|done]|]. by split_and!.
Qed.

(** [clearDeallocating] of a nonpointer isa. *)
Lemma clearDeallocating_ok w : ready garbage (side w) this false -> nonpointer L (isa w) = true -> consistent (side w) (isa w) ->
  exists w', clearDeallocating L garbage this w = Ok (tt, w') /\ isa w' = isa w /\ gone (side w') /\ slock (side w') = false /\
    (forall o, in_word 64 o -> o <> this -> word_of garbage (side w') o = word_of garbage (side w) o) /\
    (weakly_referenced L (isa w) = false -> has_sidetable_rc L (isa w) = false -> w' = w).
Proof.
  intros Hr Hn Hc. unfold clearDeallocating. run. rewrite Hn. run.
  destruct (weakly_referenced L (isa w) || has_sidetable_rc L (isa w)) eqn:Ef.
  - destruct (lock_ok garbage (side w) this Hr) as (t1 & E1 & Hr1 & Hst1).
    assert (Hc1 : consistent t1 (isa w)).
    { unfold lock in E1. rewrite (rd_lock _ _ _ _ Hr) in E1. injection E1 as <-. destruct Hc. by split. }
    destruct (slow_gone t1 (isa w) Hr1 Hc1) as (t2 & E2 & Hg2 & Hr2 & Hl2 & Ho2).
    assert (E : clearDeallocating_slow L garbage this w = Ok (tt, World (isa w) (with_lock t2 false) (env w))).
    { unfold clearDeallocating_slow. run. rewrite Hn, Ef. run. unfold side_lock, side_unlock, on_side_, bind, sidetable_lock, sidetable_unlock.
      rewrite E1. cbn [rbind isa side env]. rewrite E2. cbn [rbind isa side env]. unfold unlock. rewrite Hl2. done. }
    step E. rewrite absent_ok; [|done|apply Hr|done|by destruct Hg2].
    eexists. split; [done|]. cbn. split; [done|]. split; [by destruct Hg2|]. split; [done|]. split.
    + intros o Hw Hne. transitivity (word_of garbage t2 o); [done|]. rewrite Ho2 by done. apply Hst1; done.
    + intros H1 H2. by rewrite H1, H2 in Ef.
  - apply orb_false_iff in Ef as [E1 E2]. run.
    assert (Hg : gone (side w)) by (destruct Hc; split; auto).
    rewrite absent_ok; [|apply Hr|apply Hr|apply Hr|done]. exists w. split_and!; try done. apply Hr.
Qed.
End Dealloc.

(** C5: deallocation. [rootDealloc] of an object with a nonpointer isa frees it,
    as its last step; before, its C++ destructor and the removal of its
    associations run exactly when the isa says there is something to do, and its
    weak references and its entry are cleared, so that nothing of the object
    remains in the side table, whose lock is free and whose other words are
    unchanged. An object with nothing to clean is freed at once. *)
Theorem rootDealloc_correct L (HL : LayoutOk L) S C K TG W (HW : WeakTableOps W) garbage this (w : world W) :
  this_isTaggedPointer TG this = false -> indexed L = false -> ready garbage (side w) this false ->
  nonpointer L (isa w) = true -> consistent L garbage this (side w) (isa w) ->
  let dtor := match f_has_cxx_dtor L with Some f => flag f (isa w) | None => cls_hasCxxDtor K (getClass L S (isa w)) end in
  exists l w', rootDealloc L S C K TG garbage this w = Ok (l ++ [Free], w') /\ gone garbage this (side w') /\ slock (side w') = false /\
    ~ In Free l /\ (In CxxDestruct l <-> dtor = true) /\ (In RemoveAssociations l <-> has_assoc L (isa w) = true) /\
    (forall o, in_word 64 o -> o <> this -> word_of garbage (side w') o = word_of garbage (side w) o) /\
    (l = [] <-> dtor = false /\ has_assoc L (isa w) = false /\ weakly_referenced L (isa w) = false /\ has_sidetable_rc L (isa w) = false).
Proof.
  intros Htag Hi Hr Hn Hc dtor. unfold rootDealloc. rewrite Htag. run. rewrite Hn.
  assert (E0 : (match f_has_cxx_dtor L with Some f => ret (flag f (isa w)) | None => ret (cls_hasCxxDtor K (getClass L S (isa w))) end) w = Ok (dtor, w))
    by (unfold dtor; by destruct (f_has_cxx_dtor L)).
  step E0. assert (E1 : hasCxxDtor L S C K TG this w = Ok (dtor, w)).
  { unfold hasCxxDtor, ISA, decodedClass, getDecodedClass, dtor. rewrite Htag, Hi. run. destruct (f_has_cxx_dtor L); [by rewrite Hn|]. done. }
  assert (E2 : hasAssociatedObjects L TG this w = Ok (has_assoc L (isa w), w)).
  { unfold hasAssociatedObjects. rewrite Htag. run. by rewrite Hn. }
  destruct (clearDeallocating_ok L garbage this w Hr Hn Hc) as (w' & E3 & Hiw & Hg & Hl & Ho & _).
  destruct (negb (weakly_referenced L (isa w)) && negb (has_assoc L (isa w)) && negb dtor && negb (has_sidetable_rc L (isa w))) eqn:Ef.
  - rewrite !andb_true_iff, !negb_true_iff in Ef. destruct Ef as [[[Ew Ea] Ed] Es].
    assert (Hgw : gone garbage this (side w)) by (destruct Hc; split; auto).
    pose proof (absent_ok garbage this w ltac:(apply Hr) ltac:(apply Hr) ltac:(apply Hr) Hgw) as E4.
    step E4. exists [], w. rewrite Ed, Ea. split_and!; try done; try apply Hr; simpl; tauto.
  - exists ((if dtor then [CxxDestruct] else []) ++ (if has_assoc L (isa w) then [RemoveAssociations] else []) ++ [ClearDeallocating]), w'.
    unfold object_dispose, objc_destructInstance. step E1. step E2. step E3. split; [done|].
    split_and!; try done; destruct dtor, (has_assoc L (isa w)); simpl; try (intuition congruence);
      split; [discriminate|intros (_ & _ & Ew & Es); by rewrite Ew, Es in Ef].
Qed.

Module ObjectEndWitness.
Import SideTableWitness RetainReleaseWitness.
#[local] Existing Instance no_weak_table.
Lemma object_flags_correct_witness : exists w',
  setWeaklyReferenced_nolock x86_64_isa memory object busy_world = Ok (tt, w') /\
  isWeaklyReferenced x86_64_isa (Some lsb_tags) memory object w' = Ok (true, w').
Proof.
  destruct (object_flags_correct x86_64_isa x86_64_ok (no_signing x86_64_isa) no_table plain_classes (Some lsb_tags) unit _ memory object busy_world)
    as ((v & w' & E & _ & _ & _ & _ & Hr) & _); [by vm_compute| |].
  { unfold busy_world, words. cbn [isa env omap list_omap id]. repeat constructor; try (by vm_compute); vm_compute; split; congruence. }
  exists w'. split; [exact E|exact Hr].
Defined.
(** An object with associations, weakly referenced once. *)
Definition used_isa : Z := 0x013d800000000003.
Lemma rootDealloc_correct_witness : exists l w',
  rootDealloc x86_64_isa (no_signing x86_64_isa) no_table plain_classes (Some lsb_tags) memory object (World used_isa (empty_side false) []) = Ok (l ++ [Free], w') /\
  In RemoveAssociations l.
Proof.
  destruct (rootDealloc_correct x86_64_isa x86_64_ok (no_signing x86_64_isa) no_table plain_classes (Some lsb_tags) unit _ memory object
    (World used_isa (empty_side false) [])) as (l & w' & E & _ & _ & _ & _ & Ha & _); [by vm_compute|done|apply object_ready|by vm_compute| |].
  { split; [reflexivity|reflexivity|]. intros _. exists tt. split; reflexivity. }
  exists l, w'. split; [exact E|]. apply Ha. by vm_compute.
Defined.
End ObjectEndWitness.
