(* ===== verification/AutoreleasePool.v ===== *)
(** * NSObject.mm: autorelease pools

    A thread's pools are one stack of entries, an object or the boundary of a
    pool, on a doubly linked list of pages; thread-local storage points to the hot
    page. The model has the pages of one thread at their addresses, with their
    links, their next free slot and their words, the life of a page from [malloc]
    to [free], and the operations of [AutoreleasePoolPage].

    [objc_release] runs code of the program, which may autorelease objects and push
    and pop pools while a pool is being popped: what a release does is a parameter,
    a list of calls. The recursion through it takes fuel. *)

From stdpp Require Import prelude numbers list gmap.
From Stdlib Require Import ZArith Lia Bool.
From S2P Require Import Prelude TaggedPointer.

(** ** Data *)

(** The environment variables, the SDK of the program, and the build. *)
Record config := Config {
  LP64 : bool;
  PAGE_MIN_SIZE : Z;
  DisableAutoreleaseCoalescing : bool;
  DisableAutoreleaseCoalescingLRU : bool;
  DebugPoolAllocation : bool;
  DebugMissingPools : bool;
  PrintPoolHiwat : bool;
  sdk_at_least_10_12 : bool;
}.

(** [AutoreleasePoolPageData] and the words that follow it. A page that is not
    allocated has no valid magic; the pages belong to one thread. *)
Record AutoreleasePoolPage := Page {
  next : Z;
  parent : Z;
  child : Z;
  depth : Z;
  hiwat : Z;
  words : list Z;
}.
Implicit Types pg : AutoreleasePoolPage.
Abbreviation page_map := (gmap Z AutoreleasePoolPage).

(** What the operations do to the rest of the program. *)
Inductive event := Autoreleased (obj : Z) | Released (obj : Z).

(** What a release calls; [Pop i] pops the [i]-th innermost of the pools that it
    has pushed, and those inside. *)
Inductive call := Autorelease (obj : Z) | Push | Pop (i : nat).

(** [W]: the rest of the program. *)
Record state {W} := State {
  tls : Z;
  pages : page_map;
  complained : bool;
  log : list event;
  world : W;
}.
Arguments state : clear implicits.
Arguments State {W}.

Definition set_next pg x := Page x (parent pg) (child pg) (depth pg) (hiwat pg) (words pg).
Definition set_child pg x := Page (next pg) (parent pg) x (depth pg) (hiwat pg) (words pg).
Definition set_hiwat pg x := Page (next pg) (parent pg) (child pg) (depth pg) x (words pg).
Definition set_words pg x := Page (next pg) (parent pg) (child pg) (depth pg) (hiwat pg) x.

Definition EMPTY_POOL_PLACEHOLDER := 1.
Definition POOL_BOUNDARY := 0.
Definition SCRIBBLE := 0xA3.
Definition maxCount := 65535.

(** [AutoreleasePoolEntry]: [ptr : 48; count : 16]. *)
Definition entry_ptr (w : Z) : Z := wrap 48 w.
Definition entry_count (w : Z) : Z := Z.shiftr w 48.
Definition entry_increment (w : Z) : Z := entry_ptr w + Z.shiftl (wrap 16 (entry_count w + 1)) 48.

(** [memmove] of [n] words of one page. *)
Definition memmove (ws : list Z) (dst src n : nat) : list Z :=
  take dst ws ++ take n (drop src ws) ++ drop (dst + n) ws.

Section Pool.
Context (c : config).

Definition sizeof_id : Z := if LP64 c then 8 else 4.
Definition sizeof_page : Z := if LP64 c then 56 else 40.
Definition SIZE : Z := PAGE_MIN_SIZE c.
Definition COUNT : Z := SIZE / sizeof_id.

Definition begin_ (p : Z) : Z := p + sizeof_page.
Definition end_ (p : Z) : Z := p + SIZE.
Definition empty (p : Z) pg : bool := next pg =? begin_ p.
Definition full (p : Z) pg : bool := next pg =? end_ p.
Definition lessThanHalfFull (p : Z) pg : bool :=
  (next pg - begin_ p) / sizeof_id <? (end_ p - begin_ p) / sizeof_id / 2.

(** The slot of a page an address in it points to. *)
Definition index (p a : Z) : nat := Z.to_nat ((a - begin_ p) / sizeof_id).
Definition slot (p : Z) (i : nat) : Z := begin_ p + sizeof_id * Z.of_nat i.

(** [*a] for a slot of the page at [p]. *)
Definition load (p : Z) pg (a : Z) : res Z :=
  if (begin_ p <=? a) && ((a - begin_ p) mod sizeof_id =? 0) then
    match words pg !! index p a with Some w => Ok w | None => Fault OutOfBounds end
  else Fault OutOfBounds.
Definition store (p : Z) pg (a w : Z) : res AutoreleasePoolPage :=
  let? _ := load p pg a in Ok (set_words pg (<[index p a := w]> (words pg))).

(** ** Coalescing: [add]'s search for an entry of the same object

    [n] is the number of entries of the page, [topEntry] the last of them. *)
Fixpoint coalesce_LRU (fuel : nat) (obj : Z) (ws : list Z) (topEntry offset : nat) : option (list Z) :=
  match fuel with
  | O => None
  | S fuel =>
    let offsetEntry := (topEntry - offset)%nat in
    if (topEntry <=? offset)%nat then None
    else
      match ws !! offsetEntry with
      | None => None
      | Some w =>
        if w =? POOL_BOUNDARY then None
        else if (entry_ptr w =? obj) && (entry_count w <? maxCount) then
          let ws := if (0 <? offset)%nat then <[topEntry := w]> (memmove ws offsetEntry (S offsetEntry) offset) else ws in
          Some (alter entry_increment topEntry ws)
        else coalesce_LRU fuel obj ws topEntry (S offset)
      end
  end.
Definition coalesce (obj : Z) (ws : list Z) (n : nat) : option (list Z) :=
  if LP64 c && (negb (DisableAutoreleaseCoalescing c) || negb (DisableAutoreleaseCoalescingLRU c)) then
    if negb (DisableAutoreleaseCoalescingLRU c) then
      if negb (n =? 0)%nat && negb (obj =? POOL_BOUNDARY) then coalesce_LRU 4 obj ws (n - 1) 0 else None
    else
      if negb (n =? 0)%nat && negb (obj =? POOL_BOUNDARY) then
        match ws !! (n - 1)%nat with
        | Some w =>
          if (entry_ptr w =? obj) && (entry_count w <? maxCount) then Some (alter entry_increment (n - 1)%nat ws) else None
        | None => None
        end
      else None
  else None.

(** ** Pages *)
Section Pages.
Context {W : Type}.
Implicit Types s : state W.

(** [malloc_zone_memalign(SIZE, SIZE)]: an address for a new page, and what its
    memory holds. *)
Context (memalign : page_map -> Z * list Z).
Context (G : option tag_config).

Definition set_tls s (p : Z) : state W := State p (pages s) (complained s) (log s) (world s).
Definition set_pages s (m : page_map) : state W := State (tls s) m (complained s) (log s) (world s).
Definition set_complained s : state W := State (tls s) (pages s) true (log s) (world s).
Definition set_world s (w : W) : state W := State (tls s) (pages s) (complained s) (log s) w.
Definition record_event s (e : event) : state W := State (tls s) (pages s) (complained s) (log s ++ [e]) (world s).

(** A field of the page at [p]; [fastcheck]. *)
Definition get s (p : Z) : res AutoreleasePoolPage :=
  match pages s !! p with Some pg => Ok pg | None => Fault OutOfBounds end.
Definition put s (p : Z) pg : state W := set_pages s (<[p := pg]> (pages s)).
Definition fastcheck s (p : Z) : res unit := let? _ := get s p in Ok tt.

Definition new_page s (newParent : Z) : res (state W * Z) :=
  let (p, ws) := memalign (pages s) in
  if nz newParent then
    let? par := get s newParent in
    let s := put s p (Page (begin_ p) newParent 0 (u32 (1 + depth par)) (hiwat par) ws) in
    let? par := get s newParent in
    assert? negb (nz (child par)) in
    Ok (put s newParent (set_child par p), p)
  else Ok (put s p (Page (begin_ p) 0 0 0 0 ws), p).

(** [delete], with the destructor's assertions. *)
Definition delete_page s (p : Z) : res (state W) :=
  let? pg := get s p in
  assert? empty p pg in
  assert? negb (nz (child pg)) in
  Ok (set_pages s (delete p (pages s))).

Definition add s (p obj : Z) : res (state W * Z) :=
  let? pg := get s p in
  assert? negb (full p pg) in
  let n := index p (next pg) in
  match coalesce obj (words pg) n with
  | Some ws => Ok (put s p (set_words pg ws), slot p (n - 1))
  | None =>
    let ret := next pg in
    let? pg := store p pg (next pg) obj in
    let s := put s p (set_next pg (next pg + sizeof_id)) in
    assert? negb (LP64 c) || (entry_ptr obj =? obj) in
    Ok (s, ret)
  end.

Definition haveEmptyPoolPlaceholder s : bool := tls s =? EMPTY_POOL_PLACEHOLDER.
Definition setEmptyPoolPlaceholder s : res (state W * Z) :=
  assert? (tls s =? 0) in Ok (set_tls s EMPTY_POOL_PLACEHOLDER, EMPTY_POOL_PLACEHOLDER).
Definition hotPage s : res Z :=
  if tls s =? EMPTY_POOL_PLACEHOLDER then Ok 0
  else if nz (tls s) then let? _ := fastcheck s (tls s) in Ok (tls s) else Ok 0.
Definition setHotPage s (p : Z) : res (state W) :=
  if nz p then let? _ := fastcheck s p in Ok (set_tls s p) else Ok (set_tls s p).

(** Every list of pages is walked in at most [walk s] turns. *)
Definition walk s : nat := S (S (size (pages s))).
Fixpoint coldest (fuel : nat) s (p : Z) : res Z :=
  match fuel with
  | O => Fault OutOfFuel
  | S fuel =>
    let? pg := get s p in
    if nz (parent pg) then let? _ := fastcheck s (parent pg) in coldest fuel s (parent pg) else Ok p
  end.
Definition coldPage s : res Z :=
  let? result := hotPage s in
  if nz result then coldest (walk s) s result else Ok result.
Definition pageForPointer s (p : Z) : res Z :=
  let offset := p mod SIZE in
  assert? (sizeof_page <=? offset) in
  let result := p - offset in
  let? _ := fastcheck s result in Ok result.

Fixpoint last_child (fuel : nat) s (p : Z) : res Z :=
  match fuel with
  | O => Fault OutOfFuel
  | S fuel => let? pg := get s p in if nz (child pg) then last_child fuel s (child pg) else Ok p
  end.
Fixpoint kill_loop (fuel : nat) s (this page : Z) : res (state W) :=
  match fuel with
  | O => Fault OutOfFuel
  | S fuel =>
    let deathptr := page in
    let? pg := get s page in
    let page := parent pg in
    let? s := (if nz page then let? pg := get s page in Ok (put s page (set_child pg 0)) else Ok s) in
    let? s := delete_page s deathptr in
    if negb (deathptr =? this) then kill_loop fuel s this page else Ok s
  end.
Definition kill s (this : Z) : res (state W) :=
  let? page := last_child (walk s) s this in kill_loop (walk s) s this page.

(** ** Adding entries *)
Fixpoint next_page (fuel : nat) s (page : Z) : res (state W * Z) :=
  match fuel with
  | O => Fault OutOfFuel
  | S fuel =>
    let? pg := get s page in
    let? (s, page) := (if nz (child pg) then Ok (s, child pg) else new_page s page) in
    let? pg := get s page in
    if full page pg then next_page fuel s page else Ok (s, page)
  end.
Definition autoreleaseFullPage s (obj page : Z) : res (state W * Z) :=
  let? hot := hotPage s in
  assert? (page =? hot) in
  let? pg := get s page in
  assert? full page pg || DebugPoolAllocation c in
  let? (s, page) := next_page (walk s) s page in
  let? s := setHotPage s page in add s page obj.
Definition autoreleaseNoPage s (obj : Z) : res (state W * Z) :=
  let? hot := hotPage s in
  assert? negb (nz hot) in
  let install pushExtraBoundary :=
    let? (s, page) := new_page s 0 in
    let? s := setHotPage s page in
    let? s := (if pushExtraBoundary : bool then let? (s, _) := add s page POOL_BOUNDARY in Ok s else Ok s) in
    add s page obj in
  if haveEmptyPoolPlaceholder s then install true
  else if negb (obj =? POOL_BOUNDARY) && DebugMissingPools c then Ok (s, 0)
  else if (obj =? POOL_BOUNDARY) && negb (DebugPoolAllocation c) then setEmptyPoolPlaceholder s
  else install false.
Definition autoreleaseNewPage s (obj : Z) : res (state W * Z) :=
  let? page := hotPage s in
  if nz page then autoreleaseFullPage s obj page else autoreleaseNoPage s obj.
Definition autoreleaseFast s (obj : Z) : res (state W * Z) :=
  let? page := hotPage s in
  if nz page then
    let? pg := get s page in
    if negb (full page pg) then add s page obj else autoreleaseFullPage s obj page
  else autoreleaseNoPage s obj.

Definition tagged_or_nil (obj : Z) : bool :=
  match G with Some G => isTaggedPointerOrNil G obj | None => negb (nz obj) end.

(** [*dest] for the assertions of [autorelease] and [push]. *)
Definition deref s (dest : Z) : res Z :=
  let? p := pageForPointer s dest in let? pg := get s p in load p pg dest.
Definition autorelease s (obj : Z) : res (state W) :=
  assert? negb (tagged_or_nil obj) in
  let? (s, dest) := autoreleaseFast s obj in
  if negb (nz dest) || (dest =? EMPTY_POOL_PLACEHOLDER) then Ok (record_event s (Autoreleased obj))
  else
    let? w := deref s dest in
    assert? ((if LP64 c then entry_ptr w else w) =? obj) in
    Ok (record_event s (Autoreleased obj)).
(** [objc_autorelease], for an object without an override and a caller that does
    not take the object over (ReturnAutorelease.v). *)
Definition objc_autorelease s (obj : Z) : res (state W) :=
  if tagged_or_nil obj then Ok s else autorelease s obj.
Definition push s : res (state W * Z) :=
  let? (s, dest) := (if DebugPoolAllocation c then autoreleaseNewPage s POOL_BOUNDARY else autoreleaseFast s POOL_BOUNDARY) in
  if dest =? EMPTY_POOL_PLACEHOLDER then Ok (s, dest)
  else let? w := deref s dest in assert? (w =? POOL_BOUNDARY) in Ok (s, dest).

(** ** Popping *)
Definition badPop s (token : Z) : res (state W) :=
  if DebugPoolAllocation c || sdk_at_least_10_12 c then Fault FatalError
  else Ok (if negb (complained s) then set_complained s else s).

Fixpoint propagate_hiwat (fuel : nat) s (p mark : Z) : res (state W) :=
  if nz p then
    match fuel with
    | O => Fault OutOfFuel
    | S fuel => let? pg := get s p in propagate_hiwat fuel (put s p (set_hiwat pg mark)) (parent pg) mark
    end
  else Ok s.
Definition printHiwat s : res (state W) :=
  let? p := hotPage s in
  let? pg := get s p in
  let mark := u32 (depth pg * COUNT + u32 ((next pg - begin_ p) / sizeof_id)) in
  if u32 (hiwat pg + 256) <? mark then propagate_hiwat (walk s) s p mark else Ok s.

(** "Restart from hotPage() every time." *)
Fixpoint skip_empty (fuel : nat) s (page : Z) : res (state W * Z) :=
  match fuel with
  | O => Fault OutOfFuel
  | S fuel =>
    let? pg := get s page in
    if empty page pg then let? s := setHotPage s (parent pg) in skip_empty fuel s (parent pg) else Ok (s, page)
  end.
(** Takes the last entry off a page and scribbles over it. *)
Definition scribbled : Z := if LP64 c then SCRIBBLE * 0x0101010101010101 else SCRIBBLE * 0x01010101.
Definition take_entry s (page : Z) : res (state W * Z) :=
  let? pg := get s page in
  let a := next pg - sizeof_id in
  let? w := load page pg a in
  let? pg := store page (set_next pg a) a scribbled in
  Ok (put s page pg, w).
Definition taken_obj (w : Z) : Z := if LP64 c then entry_ptr w else w.
Definition taken_count (w : Z) : nat := if LP64 c then Z.to_nat (entry_count w) else 0.

Section Release.
(** What [objc_release] does. *)
Context (on_release : W -> Z -> W * list call).

(** The definitions on which [releaseUntil] depends and that depend on it. *)
Section Open.
Context (releaseUntil : state W -> Z -> Z -> res (state W)).

Definition popPage_with (allowDebug : bool) s (page stop : Z) : res (state W) :=
  let? s := (if allowDebug && PrintPoolHiwat c then printHiwat s else Ok s) in
  let? s := releaseUntil s page stop in
  let? pg := get s page in
  if allowDebug && DebugPoolAllocation c && empty page pg then
    let? s := kill s page in setHotPage s (parent pg)
  else if allowDebug && DebugMissingPools c && empty page pg && negb (nz (parent pg)) then
    let? s := kill s page in setHotPage s 0
  else if nz (child pg) then
    if lessThanHalfFull page pg then kill s (child pg)
    else
      let? ch := get s (child pg) in
      if nz (child ch) then kill s (child ch) else Ok s
  else Ok s.
Definition pop_token_with s (token page : Z) : res (state W) :=
  let stop := token in
  let? pg := get s page in
  let? w := load page pg stop in
  if negb (w =? POOL_BOUNDARY) && negb ((stop =? begin_ page) && negb (nz (parent pg))) then badPop s token
  else if PrintPoolHiwat c || DebugPoolAllocation c || DebugMissingPools c then popPage_with true s page stop
  else popPage_with false s page stop.
Definition pop_with s (token : Z) : res (state W) :=
  if token =? EMPTY_POOL_PLACEHOLDER then
    let? page := hotPage s in
    if negb (nz page) then setHotPage s 0
    else let? page := coldPage s in pop_token_with s (begin_ page) page
  else let? page := pageForPointer s token in pop_token_with s token page.

Fixpoint run_with s (tokens : list Z) (calls : list call) : res (state W * list Z) :=
  match calls with
  | [] => Ok (s, tokens)
  | Autorelease obj :: calls => let? s := objc_autorelease s obj in run_with s tokens calls
  | Push :: calls => let? (s, token) := push s in run_with s (token :: tokens) calls
  | Pop i :: calls =>
    match tokens !! i with
    | Some token => let? s := pop_with s token in run_with s (drop (S i) tokens) calls
    | None => run_with s tokens calls
    end
  end.
Definition objc_release_with s (obj : Z) : res (state W) :=
  let (w, calls) := on_release (world s) obj in
  let s := set_world (record_event s (Released obj)) w in
  let? (s, _) := run_with s [] calls in Ok s.
Fixpoint release_times (n : nat) s (obj : Z) : res (state W) :=
  match n with
  | O => Ok s
  | S n => let? s := objc_release_with s obj in release_times n s obj
  end.
End Open.

Fixpoint releaseUntil (fuel : nat) s (this stop : Z) : res (state W) :=
  match fuel with
  | O => Fault OutOfFuel
  | S fuel =>
    let? pg := get s this in
    if negb (next pg =? stop) then
      let? page := hotPage s in
      let? (s, page) := skip_empty (walk s) s page in
      let? (s, w) := take_entry s page in
      let obj := taken_obj w in
      let? s := (if negb (obj =? POOL_BOUNDARY) then release_times (releaseUntil fuel) (S (taken_count w)) s obj else Ok s) in
      releaseUntil fuel s this stop
    else setHotPage s this
  end.

Definition popPage (fuel : nat) : bool -> state W -> Z -> Z -> res (state W) := popPage_with (releaseUntil fuel).
Definition pop (fuel : nat) : state W -> Z -> res (state W) := pop_with (releaseUntil fuel).
Definition run (fuel : nat) : state W -> list Z -> list call -> res (state W * list Z) := run_with (releaseUntil fuel).
Definition objc_release (fuel : nat) : state W -> Z -> res (state W) := objc_release_with (releaseUntil fuel).

(** [tls_dealloc(p)], called when the thread ends, after its thread-local value
    [p] has been cleared. *)
Definition tls_dealloc (fuel : nat) s (p : Z) : res (state W) :=
  if p =? EMPTY_POOL_PLACEHOLDER then Ok s
  else
    let? s := setHotPage s p in
    let? page := coldPage s in
    let? s := (if nz page then
      let? pg := get s page in
      let? s := (if negb (empty page pg) then pop fuel s (begin_ page) else Ok s) in
      if DebugMissingPools c || DebugPoolAllocation c then Ok s else kill s page
    else Ok s) in
    setHotPage s 0.

(** The number of "releases pending" that [printAll] reports. *)
Fixpoint count_entries (fuel : nat) s (page : Z) : res Z :=
  if nz page then
    match fuel with
    | O => Fault OutOfFuel
    | S fuel =>
      let? pg := get s page in
      let? n := count_entries fuel s (child pg) in Ok ((next pg - begin_ page) / sizeof_id + n)
    end
  else Ok 0.
Definition releases_pending s : res Z := let? page := coldPage s in count_entries (walk s) s page.
End Release.
End Pages.
End Pool.

(** ** A small run: three slots per page *)
Section Examples.
Let c := Config true 80 false false false false false true.
Let c' := Config true 80 true true false false false true.
Let memalign (m : page_map) : Z * list Z := (80 * (1 + Z.of_nat (size m)), [7; 7; 7]).
Let s0 : state unit := State 0 ∅ false [] tt.
(** Object 40 autoreleases 50, inside a pool of its own, and 60. *)
Let on_release (w : unit) (o : Z) : unit * list call :=
  (w, if o =? 40 then [Push; Autorelease 50; Pop 0; Autorelease 60] else []).
Let go c := let? (s, _) := run c memalign None on_release 30 s0 []
  [Push; Autorelease 10; Push; Autorelease 20; Autorelease 30; Autorelease 20; Autorelease 40; Pop 0; Pop 0] in
  Ok (log s, tls s, size (pages s)).
Let released := [Autoreleased 10; Autoreleased 20; Autoreleased 30; Autoreleased 20; Autoreleased 40;
  Released 40; Autoreleased 50; Released 50; Autoreleased 60; Released 60; Released 20; Released 30; Released 20; Released 10].

(** The search goes back over at most four entries, and brings what it finds to the
    end; [DisableAutoreleaseCoalescing] alone does not disable it. *)
Example coalescing_reorders : coalesce c 20 [0; 20; 10; 7] 3 = Some [0; 10; 20 + 2 ^ 48; 7].
Proof. vm_compute. reflexivity. Qed.
Example coalescing_not_disabled :
  coalesce (Config true 80 true false false false false true) 20 [0; 20; 10; 7] 3 = Some [0; 10; 20 + 2 ^ 48; 7].
Proof. vm_compute. reflexivity. Qed.
(** An entry that stands for two autoreleases is one pending release for [printAll]. *)
Example releases_pending_undercounts :
  (let? (s, _) := run c' memalign None on_release 30 s0 [] [Push; Autorelease 10; Autorelease 10] in releases_pending c' s) = Ok 3 /\
  (let? (s, _) := run c memalign None on_release 30 s0 [] [Push; Autorelease 10; Autorelease 10] in releases_pending c s) = Ok 2.
Proof. split; vm_compute; reflexivity. Qed.
Example pool_run : go c' = Ok (released, 80, 1%nat).
Proof. vm_compute. reflexivity. Qed.
End Examples.
