(* ===== verification/AutoreleasePoolTheory.v ===== *)
(** * The theory of autorelease pools

    The pages of a thread are one stack of entries: full pages, the hot page, and
    empty pages after it. Every operation is described on that stack, and so is
    what a release does to it, by induction on the fuel of [releaseUntil]. *)

From stdpp Require Import prelude numbers list gmap fin_maps.
From Stdlib Require Import ZArith Lia Bool Permutation.
From S2P Require Import Prelude TaggedPointer AutoreleasePool.

(** A run that has enough fuel, or nothing to complain of. *)
Definition ok_or_fuel {A} (enough : Prop) (r : res A) (P : A -> Prop) : Prop :=
  match r with Ok a => P a | Fault OutOfFuel => ~ enough | Fault _ => False end.
Lemma ok_or_fuel_Ok {A} enough (a : A) (P : A -> Prop) : P a -> ok_or_fuel enough (Ok a) P.
Proof. done. Qed.
Lemma ok_or_fuel_bind {A B} (e e' : Prop) (r : res A) (k : A -> res B) (P : A -> Prop) Q :
  ok_or_fuel e' r P -> (e -> e') -> (forall a, P a -> ok_or_fuel e (k a) Q) -> ok_or_fuel e (rbind r k) Q.
Proof. intros H He Hk. destruct r as [a|[]]; simpl in *; try done; [by apply Hk|tauto]. Qed.
Lemma ok_or_fuel_mono {A} (e e' : Prop) (r : res A) (P Q : A -> Prop) :
  ok_or_fuel e' r P -> (e -> e') -> (forall a, P a -> Q a) -> ok_or_fuel e r Q.
Proof. destruct r as [a|[]]; simpl; naive_solver. Qed.
Lemma ok_or_fuel_elim {A} (e : Prop) (r : res A) (P : A -> Prop) :
  ok_or_fuel e r P -> e -> exists a, r = Ok a /\ P a.
Proof. destruct r as [a|[]]; simpl; naive_solver. Qed.

Lemma concat_snoc {A} (l : list (list A)) x : concat (l ++ [x]) = concat l ++ x.
Proof. by rewrite concat_app, concat_cons, concat_nil, app_nil_r. Qed.

(** What the definitions rely on: the size of a page, and the allocator. *)
Class PoolEnv (c : config) (memalign : page_map -> Z * list Z) := {
  page_room : sizeof_page c + 2 * sizeof_id c <= SIZE c;
  page_multiple : (SIZE c - sizeof_page c) mod sizeof_id c = 0;
  memalign_fresh m : m !! fst (memalign m) = None;
  memalign_pos m : 0 < fst (memalign m);
  memalign_aligned m : fst (memalign m) mod SIZE c = 0;
  memalign_words m : length (snd (memalign m)) = Z.to_nat ((SIZE c - sizeof_page c) / sizeof_id c);
}.

Section Geometry.
Context (c : config) (memalign : page_map -> Z * list Z) {E : PoolEnv c memalign}.

(** The number of slots of a page. *)
Definition capacity : nat := Z.to_nat ((SIZE c - sizeof_page c) / sizeof_id c).
Definition aligned (p : Z) : Prop := 0 < p /\ p mod SIZE c = 0.

Lemma sizeof_id_pos : 0 < sizeof_id c.
Proof. unfold sizeof_id. by destruct (LP64 c). Qed.
Lemma sizeof_page_pos : 1 < sizeof_page c.
Proof. unfold sizeof_page. by destruct (LP64 c). Qed.
Lemma page_size : SIZE c = sizeof_page c + sizeof_id c * Z.of_nat capacity.
Proof.
  unfold capacity. pose proof page_room. pose proof page_multiple as Hm. pose proof sizeof_id_pos.
  rewrite Z2Nat.id by (apply Z.div_pos; lia). apply Z.div_exact in Hm; lia.
Qed.
Lemma capacity_two : (2 <= capacity)%nat.
Proof. pose proof page_size. pose proof page_room. pose proof sizeof_id_pos. destruct capacity as [|[]]; lia. Qed.
Lemma capacity_pos : (0 < capacity)%nat.
Proof. pose proof capacity_two. lia. Qed.
Lemma aligned_gt1 p : aligned p -> 1 < p.
Proof.
  intros [Hp Hm]. pose proof page_room. pose proof sizeof_page_pos. pose proof sizeof_id_pos.
  apply Z.mod_divide in Hm; [|lia]. apply Z.divide_pos_le in Hm; lia.
Qed.

Lemma index_slot p i : index c p (slot c p i) = i.
Proof.
  unfold index, slot. pose proof sizeof_id_pos.
  replace (begin_ c p + sizeof_id c * Z.of_nat i - begin_ c p) with (Z.of_nat i * sizeof_id c) by lia.
  rewrite Z.div_mul by lia. lia.
Qed.
Lemma page_slot_inj p i j : slot c p i = slot c p j -> i = j.
Proof. intros H. apply (f_equal (index c p)) in H. by rewrite !index_slot in H. Qed.
Lemma slot_succ p n : slot c p n + sizeof_id c = slot c p (S n).
Proof. unfold slot. lia. Qed.
Lemma slot_begin p : slot c p 0 = begin_ c p.
Proof. unfold slot. lia. Qed.
Lemma slot_end p : slot c p capacity = end_ c p.
Proof. unfold slot, end_, begin_. rewrite page_size. lia. Qed.
Lemma load_slot p pg n : load c p pg (slot c p n) = match words pg !! n with Some w => Ok w | None => Fault OutOfBounds end.
Proof.
  unfold load. rewrite index_slot. pose proof sizeof_id_pos.
  replace (slot c p n - begin_ c p) with (Z.of_nat n * sizeof_id c) by (unfold slot; lia).
  rewrite Z_mod_mult. replace (begin_ c p <=? slot c p n) with true by (symmetry; apply Z.leb_le; unfold slot; lia).
  done.
Qed.

(** An address in a page determines it. *)
Lemma slot_offset p n : aligned p -> (n < capacity)%nat ->
  slot c p n mod SIZE c = sizeof_page c + sizeof_id c * Z.of_nat n.
Proof.
  intros [_ Hm] Hn. pose proof page_size. pose proof sizeof_id_pos. pose proof sizeof_page_pos.
  unfold slot, begin_. rewrite <- Z.add_assoc, Z.add_mod, Hm, Z.add_0_l, Zmod_mod by lia.
  apply Z.mod_small. nia.
Qed.
Lemma slot_page p n : aligned p -> (n < capacity)%nat -> slot c p n - slot c p n mod SIZE c = p.
Proof. intros Hp Hn. rewrite slot_offset by done. unfold slot, begin_. lia. Qed.
Lemma slot_page_inj p q i j : aligned p -> aligned q -> (i < capacity)%nat -> (j < capacity)%nat ->
  slot c p i = slot c q j -> p = q /\ i = j.
Proof.
  intros Hp Hq Hi Hj E'. assert (p = q) as <- by (rewrite <- (slot_page p i), <- (slot_page q j) by done; by rewrite E').
  split; [done|]. by eapply page_slot_inj.
Qed.

(** ** The list of pages

    A block is the address of a page and the words of its entries. *)
Abbreviation block := (Z * list Z)%type.

Definition page_is (m : page_map) (p par chi : Z) (ws : list Z) : Prop :=
  exists pg, m !! p = Some pg /\ parent pg = par /\ child pg = chi /\
    next pg = slot c p (length ws) /\ length (words pg) = capacity /\ take (length ws) (words pg) = ws.
Definition head_of (bs : list block) (d : Z) : Z := match bs with [] => d | (p, _) :: _ => p end.
Fixpoint last_of (bs : list block) (d : Z) : Z := match bs with [] => d | (p, _) :: bs => last_of bs p end.
Fixpoint seg (m : page_map) (par : Z) (bs : list block) (nxt : Z) : Prop :=
  match bs with
  | [] => True
  | (p, ws) :: bs => page_is m p par (head_of bs nxt) ws /\ seg m p bs nxt
  end.
Definition rep (m : page_map) (bs : list block) : Prop :=
  seg m 0 bs 0 /\ NoDup bs.*1 /\ dom m = list_to_set bs.*1 /\ Forall aligned bs.*1.

Lemma page_is_length m p par chi ws : page_is m p par chi ws -> (length ws <= capacity)%nat.
Proof.
  intros (pg & _ & _ & _ & _ & Hl & Ht). apply (f_equal length) in Ht. rewrite length_take in Ht. lia.
Qed.
Lemma head_of_app A B d : head_of (A ++ B) d = head_of A (head_of B d).
Proof. by destruct A as [|[]]. Qed.
Lemma last_of_app A B d : last_of (A ++ B) d = last_of B (last_of A d).
Proof. revert d. induction A as [|[] A IH]; intros d; simpl; [done|apply IH]. Qed.
Lemma seg_app m par A B nxt :
  seg m par (A ++ B) nxt <-> seg m par A (head_of B nxt) /\ seg m (last_of A par) B nxt.
Proof.
  revert par. induction A as [|[p ws] A IH]; intros par; simpl; [tauto|].
  rewrite IH, head_of_app. tauto.
Qed.
Lemma seg_frame m m' par bs nxt : (forall p, p ∈ bs.*1 -> m' !! p = m !! p) -> seg m par bs nxt -> seg m' par bs nxt.
Proof.
  revert par. induction bs as [|[p ws] bs IH]; intros par Hf; simpl; [done|].
  intros [(pg & Hp & H) Hs]. split.
  - exists pg. rewrite Hf; [done|]. left.
  - apply IH; [|done]. intros q Hq. apply Hf. by right.
Qed.
Lemma seg_replace m par A p ws B nxt pg ws' :
  NoDup (A ++ (p, ws) :: B).*1 -> seg m par (A ++ (p, ws) :: B) nxt ->
  m !! p = Some pg ->
  forall pg', parent pg' = parent pg -> child pg' = child pg -> next pg' = slot c p (length ws') ->
  length (words pg') = capacity -> take (length ws') (words pg') = ws' ->
  seg (<[p := pg']> m) par (A ++ (p, ws') :: B) nxt.
Proof.
  intros Hnd Hs Hp pg' Hpar Hchi Hn Hl Ht. rewrite seg_app in *. simpl in *. destruct Hs as [HA [(pg0 & Hp0 & ?) HB]].
  simplify_eq. rewrite fmap_app, fmap_cons in Hnd. apply NoDup_app in Hnd as (_ & HdA & [HdB _]%NoDup_cons). simpl in *.
  split_and!.
  - eapply seg_frame; [|exact HA]. intros q Hq. rewrite lookup_insert_ne; [done|]. intros <-. by apply (HdA p); [|left].
  - exists pg'. rewrite lookup_insert_eq. naive_solver congruence.
  - eapply seg_frame; [|exact HB]. intros q Hq. rewrite lookup_insert_ne; [done|]. by intros <-.
Qed.
Lemma rep_lookup m A p ws B : rep m (A ++ (p, ws) :: B) -> page_is m p (last_of A 0) (head_of B 0) ws.
Proof. intros (Hs & _). apply seg_app in Hs as [_ [H _]]. done. Qed.
Lemma rep_replace m A p ws B pg ws' pg' :
  rep m (A ++ (p, ws) :: B) -> m !! p = Some pg -> parent pg' = parent pg -> child pg' = child pg ->
  next pg' = slot c p (length ws') -> length (words pg') = capacity -> take (length ws') (words pg') = ws' ->
  rep (<[p := pg']> m) (A ++ (p, ws') :: B).
Proof.
  intros (Hs & Hnd & Hd & Ha) Hp ?????. split_and!.
  - by eapply seg_replace.
  - by rewrite fmap_app, fmap_cons in *.
  - rewrite dom_insert_L, Hd, !fmap_app, !fmap_cons. simpl. rewrite !list_to_set_app_L, !list_to_set_cons.
    clear. set_solver.
  - by rewrite fmap_app, fmap_cons in *.
Qed.
Lemma rep_aligned m A p ws B : rep m (A ++ (p, ws) :: B) -> aligned p.
Proof. intros (_ & _ & _ & Ha). rewrite fmap_app, fmap_cons in Ha. by apply Forall_app in Ha as [_ [? _]%Forall_cons]. Qed.
Lemma last_of_snoc A p ws d : last_of (A ++ [(p, ws)]) d = p.
Proof. by rewrite last_of_app. Qed.
Lemma rep_size m bs : rep m bs -> size m = length bs.
Proof.
  intros (_ & Hnd & Hd & _). rewrite <- size_dom, Hd, size_list_to_set by done. by rewrite length_fmap.
Qed.
Lemma rep_app_aligned m bs p : rep m bs -> p ∈ bs.*1 -> aligned p.
Proof. intros (_ & _ & _ & Ha) Hp. rewrite Forall_forall in Ha. by apply Ha. Qed.
End Geometry.

(** ** Adding and removing pages at the end of the list *)
Section Links.
Context (c : config) (memalign : page_map -> Z * list Z) {E : PoolEnv c memalign}.
Implicit Types m : page_map.

Lemma seg_set_last m par A q wq nxt pg x :
  NoDup (A ++ [(q, wq)]).*1 -> seg c m par (A ++ [(q, wq)]) nxt -> m !! q = Some pg ->
  seg c (<[q := set_child pg x]> m) par (A ++ [(q, wq)]) x.
Proof.
  intros Hnd Hs Hq. rewrite seg_app in *. simpl in *. destruct Hs as [HA [(pg0 & Hq0 & Hpg) _]].
  rewrite Hq in Hq0. injection Hq0 as <-. rewrite fmap_app in Hnd. apply NoDup_app in Hnd as (_ & HdA & _).
  split_and!; [|by exists (set_child pg x); rewrite lookup_insert_eq; naive_solver|done].
  eapply seg_frame; [|exact HA]. intros p Hp. rewrite lookup_insert_ne; [done|]. intros <-. by apply (HdA q); [|left].
Qed.
Lemma rep_snoc_inv m A p ws : rep c m (A ++ [(p, ws)]) ->
  exists pg, m !! p = Some pg /\ parent pg = last_of A 0 /\ child pg = 0 /\ next pg = slot c p (length ws) /\ p ∉ A.*1.
Proof.
  intros Hr. pose proof (rep_lookup c _ _ _ _ _ Hr) as (pg & Hp & Hpar & Hchi & Hn & _).
  destruct Hr as (_ & Hnd & _). rewrite fmap_app in Hnd. apply NoDup_app in Hnd as (_ & Hd & _).
  exists pg. split_and!; try done. intros Hi. apply (Hd _ Hi). by left.
Qed.
(** What [kill] does with the last page. *)
Lemma rep_remove_last m A p ws :
  rep c m (A ++ [(p, ws)]) ->
  (last_of A 0 = 0 /\ rep c (delete p m) A) \/
  (last_of A 0 <> 0 /\ exists pg, m !! last_of A 0 = Some pg /\ p <> last_of A 0 /\
    rep c (delete p (<[last_of A 0 := set_child pg 0]> m)) A).
Proof.
  intros Hr. destruct (rep_snoc_inv _ _ _ _ Hr) as (pgp & Hp & _ & _ & _ & Hpn).
  destruct Hr as (Hs & Hnd & Hd & Ha).
  destruct A as [|[q wq] A _] using rev_ind.
  - left. split; [done|]. split_and!; [done|constructor| |constructor]. rewrite dom_delete_L, Hd. set_solver.
  - right. rewrite last_of_snoc. rewrite fmap_app in Hpn, Ha, Hd, Hnd. apply NoDup_app in Hnd as (Hnd & _ & _).
    apply Forall_app in Ha as [Ha _]. apply seg_app in Hs as [Hs _]. simpl in Hs.
    destruct (seg_app c m 0 A [(q, wq)] p) as [[_ [(pgq & Hq & _) _]] _]; [done|].
    assert (aligned c q) as Hq1.
    { rewrite fmap_app in Ha. by apply Forall_app in Ha as [_ [? _]%Forall_cons]. }
    split; [apply aligned_gt1 with (memalign := memalign) in Hq1; [lia|done]|]. exists pgq.
    assert (p <> q) as Hpq by (intros ->; apply Hpn; set_solver).
    split_and!; [done|done|]. split_and!; [|done| |done].
    + apply (seg_frame c (<[q := set_child pgq 0]> m)).
      * intros x Hx. rewrite lookup_delete_ne; [done|]. intros <-. clear -Hx Hpn. set_solver.
      * by eapply seg_set_last.
    + rewrite dom_delete_L, dom_insert_L, Hd. rewrite list_to_set_app_L. simpl.
      rewrite fmap_app, list_to_set_app_L. simpl. clear -Hpn Hpq. set_solver.
Qed.
Lemma rep_append m A q wq p pg ws pgq :
  rep c m (A ++ [(q, wq)]) -> m !! p = None -> aligned c p -> m !! q = Some pgq ->
  parent pg = q -> child pg = 0 -> next pg = begin_ c p -> words pg = ws -> length ws = capacity c ->
  rep c (<[q := set_child pgq p]> (<[p := pg]> m)) (A ++ [(q, wq)] ++ [(p, [])]).
Proof.
  intros (Hs & Hnd & Hd & Ha) Hp Hap Hq Hpar Hchi Hn Hw Hl. rewrite app_assoc.
  assert (p ∉ (A ++ [(q, wq)]).*1) as Hpn.
  { intros Hi. apply not_elem_of_dom in Hp. apply Hp. rewrite Hd. by apply elem_of_list_to_set. }
  assert (p <> q) as Hpq by congruence.
  assert (Hs' : seg c (<[p := pg]> m) 0 (A ++ [(q, wq)]) 0).
  { eapply seg_frame; [|exact Hs]. intros x Hx. rewrite lookup_insert_ne; [done|]. by intros <-. }
  split_and!.
  - apply seg_app. split; [eapply seg_set_last; [done|exact Hs'|]; by rewrite lookup_insert_ne|].
    rewrite last_of_snoc. split; [|done]. exists pg. rewrite lookup_insert_ne, lookup_insert_eq by done.
    split_and!; try done; [by rewrite slot_begin|by rewrite Hw].
  - rewrite fmap_app. apply NoDup_app. split_and!; [done| |by apply NoDup_singleton].
    intros x Hx Hx2. apply list_elem_of_singleton in Hx2 as ->. done.
  - rewrite !dom_insert_L, Hd. rewrite (fmap_app _ _ [(p, [])]), list_to_set_app_L. simpl.
    rewrite fmap_app, list_to_set_app_L. simpl. set_solver.
  - rewrite fmap_app. apply Forall_app. split; [done|by apply Forall_singleton].
Qed.
Lemma rep_singleton p pg ws : aligned c p -> parent pg = 0 -> child pg = 0 -> next pg = begin_ c p ->
  words pg = ws -> length ws = capacity c -> rep c {[p := pg]} [(p, [])].
Proof.
  intros. split_and!; [split; [|done]|by apply NoDup_singleton|rewrite dom_singleton_L; set_solver|by apply Forall_singleton].
  exists pg. rewrite lookup_singleton_eq. split_and!; try done; [by rewrite slot_begin|congruence].
Qed.

(** ** Walking, creating and killing pages *)
Context {W : Type}.
Implicit Types s : state W.

Lemma get_lookup s p pg : pages s !! p = Some pg -> get s p = Ok pg.
Proof. unfold get. by intros ->. Qed.
Lemma fastcheck_lookup s p pg : pages s !! p = Some pg -> fastcheck s p = Ok tt.
Proof. intros H. unfold fastcheck. by rewrite (get_lookup _ _ _ H). Qed.
Lemma nz_aligned p : aligned c p -> nz p = true.
Proof. intros H. apply aligned_gt1 with (memalign := memalign) in H; [|done]. apply nz_true. lia. Qed.
Lemma rep_elem m bs p : rep c m bs -> p ∈ bs.*1 -> exists pg, m !! p = Some pg /\ nz p = true.
Proof.
  intros Hr Hp. assert (p ∈ dom m) as Hd by (destruct Hr as (_ & _ & -> & _); by apply elem_of_list_to_set).
  apply elem_of_dom in Hd as [pg Hpg]. exists pg. split; [done|]. apply nz_aligned. by eapply rep_app_aligned.
Qed.
Lemma last_of_elem (A : list (Z * list Z)) p ws : last_of A p ∈ ((p, ws) :: A).*1.
Proof.
  revert p ws. induction A as [|[q wq] A IH]; intros p ws; simpl; [left|]. right. apply (IH q wq).
Qed.

Lemma last_child_ok s A p ws B fuel :
  rep c (pages s) (A ++ (p, ws) :: B) -> (length B < fuel)%nat -> last_child fuel s p = Ok (last_of B p).
Proof.
  revert A p ws fuel. induction B as [|[q wq] B IH]; intros A p ws fuel Hr Hf; (destruct fuel as [|fuel]; [simpl in Hf; lia|]); simpl;
    pose proof (rep_lookup c _ _ _ _ _ Hr) as (pg & Hp & _ & Hc & _); simpl in Hc;
    rewrite (get_lookup _ _ _ Hp); cbn [rbind]; rewrite Hc; [done|].
  rewrite nz_aligned.
  - rewrite (IH (A ++ [(p, ws)]) q wq fuel); [done| |simpl in Hf; lia]. by rewrite <- app_assoc.
  - eapply rep_app_aligned; [exact Hr|]. rewrite fmap_app. simpl. set_solver.
Qed.
Lemma coldest_ok s A p ws B fuel :
  rep c (pages s) (A ++ (p, ws) :: B) -> (length A < fuel)%nat -> coldest fuel s p = Ok (head_of A p).
Proof.
  revert p ws B fuel. induction A as [|[q wq] A IH] using rev_ind; intros p ws B fuel Hr Hf; (destruct fuel as [|fuel]; [simpl in Hf; lia|]); simpl;
    pose proof (rep_lookup c _ _ _ _ _ Hr) as (pg & Hp & Hpar & _); rewrite (get_lookup _ _ _ Hp); cbn [rbind]; rewrite Hpar; [done|].
  rewrite last_of_snoc. destruct (rep_elem _ _ q Hr) as (pgq & Hq & Hnz); [rewrite !fmap_app; simpl; set_solver|].
  rewrite Hnz, (fastcheck_lookup _ _ _ Hq). cbn [rbind].
  rewrite <- app_assoc in Hr. rewrite (IH q wq _ fuel Hr) by (rewrite length_app in Hf; simpl in Hf; lia).
  by rewrite head_of_app.
Qed.

Lemma delete_page_ok s p pg : pages s !! p = Some pg -> next pg = begin_ c p -> child pg = 0 ->
  delete_page c s p = Ok (set_pages s (delete p (pages s))).
Proof.
  intros Hp Hn Hc. unfold delete_page. rewrite (get_lookup _ _ _ Hp). cbn [rbind]. unfold empty. by rewrite Hn, Z.eqb_refl, Hc.
Qed.
Lemma kill_step s A p this fuel : rep c (pages s) (A ++ [(p, [])]) ->
  exists m, rep c m A /\
    kill_loop c (S fuel) s this p =
      if negb (p =? this) then kill_loop c fuel (set_pages s m) this (last_of A 0) else Ok (set_pages s m).
Proof.
  intros Hr. destruct (rep_snoc_inv _ _ _ _ Hr) as (pg & Hp & Hpar & Hc & Hn & _). rewrite slot_begin in Hn.
  simpl. rewrite (get_lookup _ _ _ Hp). cbn [rbind]. rewrite Hpar.
  destruct (rep_remove_last _ _ _ _ Hr) as [[-> Hr']|(Hnz & pgq & Hq & Hne & Hr')].
  - exists (delete p (pages s)). split; [done|]. change (nz 0) with false. cbn [rbind].
    by rewrite (delete_page_ok _ _ _ Hp Hn Hc).
  - exists (delete p (<[last_of A 0:=set_child pgq 0]> (pages s))). split; [done|].
    apply nz_true in Hnz. rewrite Hnz, (get_lookup _ _ _ Hq). cbn [rbind].
    rewrite (delete_page_ok _ _ pg); [done| |done|done]. simpl. by rewrite lookup_insert_ne.
Qed.
Lemma kill_loop_ok A this B : forall s fuel,
  rep c (pages s) (A ++ (this, []) :: B) -> Forall (fun b => b.2 = []) B -> (length B < fuel)%nat ->
  exists m, rep c m A /\ kill_loop c fuel s this (last_of B this) = Ok (set_pages s m).
Proof.
  induction B as [|[p wp] B IH] using rev_ind; intros s fuel Hr He Hf; (destruct fuel as [|fuel]; [simpl in Hf; lia|]).
  - destruct (kill_step s A this this fuel Hr) as (m & Hm & Hk). rewrite Z.eqb_refl in Hk. by exists m.
  - apply Forall_app in He as [He [Hwp _]%Forall_cons]. simpl in Hwp. subst wp. rewrite last_of_snoc.
    assert (p <> this) as Hne.
    { destruct Hr as (_ & Hnd & _). rewrite fmap_app, fmap_cons, fmap_app in Hnd. apply NoDup_app in Hnd as (_ & _ & Hnd).
      apply NoDup_cons in Hnd as [Hnd _]. simpl in Hnd. set_solver. }
    rewrite app_comm_cons, app_assoc in Hr.
    destruct (kill_step s _ p this fuel Hr) as (m & Hm & Hk). rewrite Hk.
    apply Z.eqb_neq in Hne. rewrite Hne. cbn [negb]. rewrite last_of_app. simpl.
    destruct (IH (set_pages s m) fuel) as (m' & Hm' & Hk'); [done|done|rewrite length_app in Hf; simpl in Hf; lia|].
    exists m'. by rewrite Hk'.
Qed.
Lemma walk_enough s bs : rep c (pages s) bs -> (length bs < walk s)%nat.
Proof. intros Hr. unfold walk. rewrite (rep_size c _ _ Hr). lia. Qed.
Lemma kill_ok s A this B :
  rep c (pages s) (A ++ (this, []) :: B) -> Forall (fun b => b.2 = []) B ->
  exists m, rep c m A /\ kill c s this = Ok (set_pages s m).
Proof.
  intros Hr He. pose proof (walk_enough _ _ Hr) as Hw. rewrite length_app in Hw. simpl in Hw. unfold kill.
  rewrite (last_child_ok _ _ _ _ _ _ Hr) by lia. cbn [rbind]. apply kill_loop_ok; [done|done|lia].
Qed.

Lemma new_page_first s : pages s = ∅ ->
  exists p m, aligned c p /\ rep c m [(p, [])] /\ new_page c memalign s 0 = Ok (set_pages s m, p).
Proof.
  intros Hs. pose proof (memalign_pos (pages s)). pose proof (memalign_aligned (pages s)). pose proof (memalign_words (pages s)).
  unfold new_page. destruct (memalign (pages s)) as [p ws]. simpl in *. exists p, {[p := Page (begin_ c p) 0 0 0 0 ws]}.
  split; [done|]. split; [by eapply rep_singleton|]. unfold put. by rewrite Hs.
Qed.
Lemma new_page_ok s A q wq : rep c (pages s) (A ++ [(q, wq)]) ->
  exists p m, rep c m (A ++ [(q, wq)] ++ [(p, [])]) /\ new_page c memalign s q = Ok (set_pages s m, p).
Proof.
  intros Hr. pose proof (memalign_fresh (pages s)) as Hfr. pose proof (memalign_pos (pages s)).
  pose proof (memalign_aligned (pages s)). pose proof (memalign_words (pages s)).
  unfold new_page. destruct (memalign (pages s)) as [p ws]. simpl in *.
  destruct (rep_snoc_inv _ _ _ _ Hr) as (pg & Hq & _ & Hc & _ & _).
  destruct (rep_elem _ _ q Hr) as (_ & _ & Hnz); [rewrite fmap_app; simpl; set_solver|].
  rewrite Hnz, (get_lookup _ _ _ Hq). cbn [rbind].
  set (pgp := Page (begin_ c p) q 0 (u32 (1 + depth pg)) (hiwat pg) ws).
  assert (p <> q) by congruence.
  rewrite (get_lookup (put s p pgp) q pg) by (simpl; by rewrite lookup_insert_ne). cbn [rbind]. rewrite Hc. cbn [negb nz Z.eqb rbind rassert].
  exists p, (<[q := set_child pg p]> (<[p := pgp]> (pages s))). split; [by eapply rep_append|done].
Qed.
End Links.

(** ** Adding an entry to a page *)
Section Add.
Context (c : config) (memalign : page_map -> Z * list Z) {E : PoolEnv c memalign}.

(** A word of a page is a boundary, or an object with a count. *)
Definition valid_word (w : Z) : Prop := w = 0 \/ (0 < w /\ taken_obj c w <> 0).
Definition valid_obj (o : Z) : Prop := 0 < o /\ (LP64 c = true -> o < 2 ^ 48).

(** Entries of one object may be made one. *)
Definition coalescing (c : config) : bool := LP64 c && (negb (DisableAutoreleaseCoalescing c) || negb (DisableAutoreleaseCoalescingLRU c)).
(** [add obj] pushes an entry, or counts up an entry of the innermost pool and
    makes it the last. *)
Inductive grows (obj : Z) (ws : list Z) : list Z -> Prop :=
  | grows_push : grows obj ws (ws ++ [obj])
  | grows_coalesce X w Y : ws = X ++ w :: Y -> Forall (fun x => x <> 0) (w :: Y) -> LP64 c = true ->
      obj <> 0 -> entry_ptr w = obj -> entry_count w < maxCount -> coalescing c = true -> grows obj ws (X ++ Y ++ [entry_increment w]).

Lemma entry_count_nonneg w : 0 <= w -> 0 <= entry_count w.
Proof. intros. unfold entry_count. by apply Z.shiftr_nonneg. Qed.
Lemma entry_increment_eq w : 0 <= w -> entry_count w < maxCount -> entry_increment w = w + 2 ^ 48.
Proof.
  intros Hw Hc. pose proof (entry_count_nonneg w Hw). unfold entry_increment, entry_ptr, entry_count, maxCount in *.
  rewrite (wrap_small 16) by lia. rewrite Z.shiftl_mul_pow2 by done. rewrite Z.shiftr_div_pow2 in * by done.
  unfold wrap. pose proof (Z.div_mod w (2 ^ 48)). lia.
Qed.
Lemma entry_increment_ptr w : 0 <= w -> entry_count w < maxCount -> entry_ptr (entry_increment w) = entry_ptr w.
Proof.
  intros. rewrite entry_increment_eq by done. unfold entry_ptr, wrap.
  replace (w + 2 ^ 48) with (w + 1 * 2 ^ 48) by lia. apply Z_mod_plus_full.
Qed.
Lemma entry_increment_count w : 0 <= w -> entry_count w < maxCount -> entry_count (entry_increment w) = entry_count w + 1.
Proof.
  intros. rewrite entry_increment_eq by done. unfold entry_count. rewrite !Z.shiftr_div_pow2 by done.
  replace (w + 2 ^ 48) with (w + 1 * 2 ^ 48) by lia. by rewrite Z.div_add by done.
Qed.
Lemma entry_ptr_small o : 0 <= o < 2 ^ 48 -> entry_ptr o = o.
Proof. apply wrap_small. Qed.
Lemma entry_count_small o : 0 <= o < 2 ^ 48 -> entry_count o = 0.
Proof. intros. unfold entry_count. rewrite Z.shiftr_div_pow2 by done. by apply Z.div_small. Qed.

Lemma coalesce_found (f : Z -> Z) X w Y Z' :
  alter f (length X + length Y)%nat
    (if (0 <? length Y)%nat
     then <[(length X + length Y)%nat := w]> (memmove (X ++ w :: Y ++ Z') (length X) (S (length X)) (length Y))
     else X ++ w :: Y ++ Z') = X ++ Y ++ [f w] ++ Z'.
Proof.
  destruct (Nat.ltb_spec 0 (length Y)).
  - unfold memmove. rewrite take_app_length.
    replace (drop (S (length X)) (X ++ w :: Y ++ Z')) with (Y ++ Z')
      by (rewrite (cons_middle w X), app_assoc; symmetry; apply drop_app_length'; rewrite length_app; simpl; lia).
    rewrite take_app_length.
    assert (exists y, drop (length X + length Y) (X ++ w :: Y ++ Z') = y :: Z') as [y ->].
    { destruct Y as [|y Y _] using rev_ind; [simpl in *; lia|]. exists y.
      replace (X ++ w :: (Y ++ [y]) ++ Z') with ((X ++ w :: Y) ++ y :: Z') by (by rewrite <- !app_assoc).
      apply drop_app_length'. rewrite !length_app. simpl. lia. }
    rewrite app_assoc. rewrite insert_app_r_alt by (rewrite length_app; lia). rewrite length_app, Nat.sub_diag. simpl.
    rewrite alter_app_r_alt by (rewrite length_app; lia). rewrite length_app, Nat.sub_diag. simpl. by rewrite <- app_assoc.
  - destruct Y; [|simpl in *; lia]. simpl. rewrite alter_app_r_alt by lia. rewrite Nat.add_0_r, Nat.sub_diag. done.
Qed.

Lemma lookup_split (l : list Z) i w : l !! i = Some w -> l = take i l ++ w :: drop (S i) l /\ (i < length l)%nat.
Proof. intros H. split; [by rewrite take_drop_middle|by eapply lookup_lt_Some]. Qed.

(** What the search finds, if it finds an entry. *)
Definition coalesced (obj : Z) (pw : list Z) (n : nat) (pw' : list Z) : Prop :=
  exists X w Y, take n pw = X ++ w :: Y /\ Forall (fun x => x <> 0) (w :: Y) /\ entry_ptr w = obj /\ entry_count w < maxCount /\
    take n pw' = X ++ Y ++ [entry_increment w] /\ length pw' = length pw.

Lemma coalesced_intro obj pw n i w : pw !! i = Some w -> (i < n <= length pw)%nat -> w <> 0 -> entry_ptr w = obj ->
  entry_count w < maxCount -> Forall (fun x => x <> 0) (drop (S i) (take n pw)) ->
  coalesced obj pw n (alter entry_increment (n - 1)%nat
    (if (0 <? n - 1 - i)%nat then <[(n - 1)%nat := w]> (memmove pw i (S i) (n - 1 - i)) else pw)).
Proof.
  intros Hi Hn Hw Hp Hc HY. destruct (lookup_split _ _ _ Hi) as [Hpw Hl].
  set (X := take i pw) in *. set (Y := drop (S i) (take n pw)) in *. set (Z' := drop n pw).
  assert (length X = i) as HX by (apply length_take_le; lia).
  assert (length Y = n - 1 - i)%nat as HlY by (unfold Y; rewrite length_drop, length_take; lia).
  assert (drop (S i) pw = Y ++ Z') as HYZ.
  { unfold Y, Z'. rewrite <- (take_drop n pw) at 1. rewrite drop_app_le by (rewrite length_take; lia). done. }
  rewrite HYZ in Hpw.
  assert (take n pw = X ++ w :: Y) as Ht.
  { rewrite Hpw. rewrite app_comm_cons, app_assoc. apply take_app_length'. rewrite length_app. simpl. lia. }
  exists X, w, Y. split; [done|]. split; [by constructor|]. split; [done|]. split; [done|].
  pose proof (coalesce_found entry_increment X w Y Z') as Hf. rewrite <- Hpw, HX, HlY in Hf.
  replace (i + (n - 1 - i))%nat with (n - 1)%nat in Hf by lia. rewrite Hf. split.
  - rewrite !app_assoc. apply take_app_length'. rewrite !length_app. simpl. lia.
  - rewrite Hpw at 1. rewrite !length_app. simpl. rewrite length_app. lia.
Qed.

Lemma coalesce_LRU_ok obj pw top pw' : forall fuel offset,
  coalesce_LRU fuel obj pw top offset = Some pw' -> (top < length pw)%nat ->
  Forall (fun x => x <> 0) (drop (S top - offset) (take (S top) pw)) -> coalesced obj pw (S top) pw'.
Proof.
  induction fuel as [|fuel IH]; intros offset H Hl HY; simpl in H; [done|].
  destruct (Nat.leb_spec top offset); [done|]. destruct (pw !! (top - offset)%nat) as [w|] eqn:Hw; [|done].
  unfold POOL_BOUNDARY in H. destruct (Z.eqb_spec w 0); [done|].
  destruct (entry_ptr w =? obj) eqn:Ep; [destruct (entry_count w <? maxCount) eqn:Ec|]; cbn [andb] in H.
  - injection H as <-. apply Z.eqb_eq in Ep. apply Z.ltb_lt in Ec.
    assert (coalesced obj pw (S top) (alter entry_increment (S top - 1)%nat
      (if (0 <? S top - 1 - (top - offset))%nat
       then <[(S top - 1)%nat := w]> (memmove pw (top - offset) (S (top - offset)) (S top - 1 - (top - offset))) else pw))) as Hok.
    { apply coalesced_intro; try done; [lia|]. by replace (S (top - offset)) with (S top - offset)%nat by lia. }
    by replace (S top - 1)%nat with top in Hok by lia; replace (top - (top - offset))%nat with offset in Hok by lia.
  - apply (IH (S offset) H Hl). change (S top - S offset)%nat with (top - offset)%nat.
    rewrite (drop_S _ w) by (rewrite lookup_take_lt by lia; done). constructor; [done|].
    by replace (S (top - offset)) with (S top - offset)%nat by lia.
  - apply (IH (S offset) H Hl). change (S top - S offset)%nat with (top - offset)%nat.
    rewrite (drop_S _ w) by (rewrite lookup_take_lt by lia; done). constructor; [done|].
    by replace (S (top - offset)) with (S top - offset)%nat by lia.
Qed.
Lemma coalesce_ok obj pw n pw' : coalesce c obj pw n = Some pw' -> (n <= length pw)%nat ->
  LP64 c = true /\ obj <> 0 /\ coalesced obj pw n pw' /\ coalescing c = true.
Proof.
  intros H Hn. assert (coalescing c = true) as Hcoal by (unfold coalesce in H; fold (coalescing c) in H; by destruct (coalescing c)).
  split; [by destruct (LP64 c) eqn:H6; [|by unfold coalescing in Hcoal; rewrite H6 in Hcoal]|].
  unfold coalesce in H. fold (coalescing c) in H. rewrite Hcoal in H. unfold POOL_BOUNDARY in H. destruct (Nat.eqb_spec n 0) as [|Hn0]; [by destruct (negb _) in H|].
  destruct (Z.eqb_spec obj 0) as [|Ho]; [by destruct (negb _) in H|]. cbn [negb andb orb] in H. split; [done|]. split; [|done].
  destruct (DisableAutoreleaseCoalescingLRU c); cbn [negb andb orb] in H.
  - destruct (pw !! (n - 1)%nat) as [w|] eqn:Hw; [|done].
    destruct (Z.eqb_spec (entry_ptr w) obj); [|done]. destruct (Z.ltb_spec (entry_count w) maxCount); [|done]. cbn [negb andb orb] in H.
    injection H as <-.
    assert (coalesced obj pw n (alter entry_increment (n - 1)%nat
      (if (0 <? n - 1 - (n - 1))%nat then <[(n - 1)%nat := w]> (memmove pw (n - 1) (S (n - 1)) (n - 1 - (n - 1))) else pw))) as Hok.
    { apply coalesced_intro; try done; [lia| |].
      - intros ->. by rewrite entry_ptr_small in e by lia.
      - replace (S (n - 1)) with n by lia. by rewrite drop_ge by (rewrite length_take; lia). }
    by rewrite Nat.sub_diag in Hok.
  - destruct n as [|top]; [done|]. replace (S top - 1)%nat with top in H by lia. eapply coalesce_LRU_ok; [exact H|lia|].
    rewrite Nat.sub_0_r. by rewrite drop_ge by (rewrite length_take; lia).
Qed.

Lemma grows_length obj ws ws' : grows obj ws ws' -> length ws' = length ws \/ length ws' = S (length ws).
Proof. intros [|X w Y ->]; rewrite !length_app; simpl; lia. Qed.
Lemma grows_nonempty obj ws ws' : grows obj ws ws' -> (0 < length ws')%nat.
Proof. intros [|X w Y ->]; rewrite !length_app; simpl; lia. Qed.

Context {W : Type}.
Implicit Types s : state W.

Lemma add_ok s A p ws B obj :
  rep c (pages s) (A ++ (p, ws) :: B) -> (length ws < capacity c)%nat -> obj = 0 \/ valid_obj obj ->
  exists m ws', add c s p obj = Ok (set_pages s m, slot c p (length ws' - 1)) /\
    rep c m (A ++ (p, ws') :: B) /\ grows obj ws ws' /\ (length ws' <= capacity c)%nat.
Proof.
  intros Hr Hl Hobj. pose proof (rep_lookup c _ _ _ _ _ Hr) as (pg & Hp & Hpar & Hchi & Hn & Hlw & Ht).
  unfold add, full. rewrite (get_lookup _ _ _ Hp). cbn [rbind]. rewrite Hn, index_slot.
  assert ((slot c p (length ws) =? end_ c p) = false) as ->.
  { apply Z.eqb_neq. rewrite <- (slot_end c memalign). intros Hs. apply page_slot_inj in Hs. lia. }
  cbn [rassert rbind negb]. destruct (coalesce c obj (words pg) (length ws)) as [pw'|] eqn:Hco.
  - apply coalesce_ok in Hco as (H64 & Ho & (X & w & Y & HX & HY & Hptr & Hc & Ht' & Hl') & Hcoal); [|lia].
    exists (<[p := set_words pg pw']> (pages s)), (X ++ Y ++ [entry_increment w]).
    assert (ws = X ++ w :: Y) as -> by congruence.
    assert (length (X ++ Y ++ [entry_increment w]) = length (X ++ w :: Y)) as Hlen by (rewrite !length_app; simpl; lia).
    split; [by rewrite Hlen|]. split; [|split; [by eapply grows_coalesce|lia]].
    eapply rep_replace; try done; [by rewrite Hlen|simpl; lia|by rewrite Hlen].
  - unfold store. rewrite load_slot. destruct (lookup_lt_is_Some_2 (words pg) (length ws)) as [w Hw]; [lia|].
    rewrite Hw. cbn [rbind]. rewrite index_slot.
    exists (<[p := set_next (set_words pg (<[length ws := obj]> (words pg))) (slot c p (length ws) + sizeof_id c)]> (pages s)), (ws ++ [obj]).
    rewrite length_app. simpl. rewrite Nat.add_sub.
    assert (negb (LP64 c) || (entry_ptr obj =? obj) = true) as ->.
    { destruct (LP64 c) eqn:H64; [|done]. apply Z.eqb_eq, entry_ptr_small. unfold valid_obj in Hobj.
      destruct Hobj as [->|[? Hb]]; [done|]. rewrite H64 in Hb. specialize (Hb eq_refl). lia. }
    split; [by rewrite Hn|]. split; [|split; [by apply grows_push|lia]].
    eapply rep_replace; try done.
    + simpl. rewrite slot_succ, length_app. simpl. f_equal. lia.
    + simpl. by rewrite length_insert.
    + simpl. rewrite length_app. simpl. rewrite Nat.add_1_r. rewrite (take_S_r _ _ obj) by (apply list_lookup_insert_eq; lia).
      rewrite take_insert_ge by done. by rewrite Ht.
Qed.
End Add.

(** ** The stack of a thread *)
Section Stack.
Context (c : config) (memalign : page_map -> Z * list Z) {PE : PoolEnv c memalign} {W : Type}.
Implicit Types s : state W.
Abbreviation block := (Z * list Z)%type.

(** The entries of a page, with their addresses. *)
Definition page_slots (b : block) : list (Z * Z) := imap (fun i w => (slot c b.1 i, w)) b.2.
Definition entries (bs : list block) : list (Z * Z) := concat (map page_slots bs).

(** Full pages, the hot page, empty pages. *)
Record wfp s (fs : list block) (p : Z) (ws : list Z) (es : list Z) : Prop := {
  wfp_rep : rep c (pages s) (fs ++ (p, ws) :: map (fun e => (e, [])) es);
  wfp_full : Forall (fun b => length b.2 = capacity c) fs;
  wfp_hot : tls s = p;
}.
(** The stack [E] of a thread, oldest entry first; [cold] is its coldest page, or
    0. A pool that is only a placeholder is the boundary of the placeholder's
    address. *)
Inductive stack s : list (Z * Z) -> Z -> Prop :=
  | stack_none : tls s = 0 -> pages s = ∅ -> stack s [] 0
  | stack_placeholder : tls s = EMPTY_POOL_PLACEHOLDER -> pages s = ∅ -> stack s [(EMPTY_POOL_PLACEHOLDER, POOL_BOUNDARY)] 0
  | stack_pages fs p ws es : wfp s fs p ws es -> stack s (entries (fs ++ [(p, ws)])) (head_of fs p).

(** An entry keeps its address, the boundary of a placeholder apart. *)
Definition same_address (i : nat) (a a' : Z) : Prop := a' = a \/ (i = O /\ a = EMPTY_POOL_PLACEHOLDER).
Definition below (b : nat) (E E' : list (Z * Z)) : Prop :=
  forall i a w, (i < b)%nat -> E !! i = Some (a, w) -> exists a', E' !! i = Some (a', w) /\ same_address i a a'.
Definition addresses_kept (E E' : list (Z * Z)) : Prop :=
  forall i a w, E !! i = Some (a, w) -> exists a' w', E' !! i = Some (a', w') /\ same_address i a a'.
Definition barrier (E : list (Z * Z)) (b : nat) : Prop := b = O \/ exists a, E !! (b - 1)%nat = Some (a, 0).

Lemma same_address_trans i a b d : same_address i a b -> same_address i b d -> same_address i a d.
Proof. unfold same_address. intuition congruence. Qed.
Lemma below_refl b E : below b E E.
Proof. intros i a w _ Hi. exists a. split; [done|by left]. Qed.
Lemma below_trans b E E' E'' : below b E E' -> below b E' E'' -> below b E E''.
Proof.
  intros H H' i a w Hb Hi. destruct (H _ _ _ Hb Hi) as (a' & Hi' & Ha). destruct (H' _ _ _ Hb Hi') as (a'' & Hi'' & Ha').
  exists a''. split; [done|]. by eapply same_address_trans.
Qed.
Lemma below_mono b b' E E' : (b' <= b)%nat -> below b E E' -> below b' E E'.
Proof. intros Hb H i a w Hi. apply H. lia. Qed.

Lemma page_slots_lookup p ws i a w : page_slots (p, ws) !! i = Some (a, w) <-> ws !! i = Some w /\ a = slot c p i.
Proof.
  unfold page_slots. simpl. rewrite list_lookup_imap. destruct (ws !! i); simpl; split; [intros [= <- <-]; done| |done|by intros []].
  by intros [[= ->] ->].
Qed.
Lemma page_slots_length p ws : length (page_slots (p, ws)) = length ws.
Proof. unfold page_slots. by rewrite length_imap. Qed.
Lemma page_slots_words p ws : (page_slots (p, ws)).*2 = ws.
Proof.
  apply list_eq. intros i. rewrite list_lookup_fmap. unfold page_slots. simpl. rewrite list_lookup_imap. by destruct (ws !! i).
Qed.
Lemma page_slots_snoc p ws w : page_slots (p, ws ++ [w]) = page_slots (p, ws) ++ [(slot c p (length ws), w)].
Proof. unfold page_slots. simpl. rewrite imap_app. simpl. by rewrite Nat.add_0_r. Qed.
Lemma entries_app A B : entries (A ++ B) = entries A ++ entries B.
Proof. unfold entries. by rewrite map_app, concat_app. Qed.
Lemma entries_single p ws : entries [(p, ws)] = page_slots (p, ws).
Proof. unfold entries. simpl. apply app_nil_r. Qed.
Lemma entries_snoc A p ws : entries (A ++ [(p, ws)]) = entries A ++ page_slots (p, ws).
Proof. by rewrite entries_app, entries_single. Qed.
Lemma entries_empty_page A p : entries (A ++ [(p, [])]) = entries A.
Proof. rewrite entries_snoc. apply app_nil_r. Qed.

(** The page of an entry. *)
Lemma entries_lookup bs i a w : entries bs !! i = Some (a, w) ->
  exists A p ws B j, bs = A ++ (p, ws) :: B /\ i = (length (entries A) + j)%nat /\ ws !! j = Some w /\ a = slot c p j.
Proof.
  revert i. induction bs as [|[p ws] bs IH]; intros i H; [done|]. unfold entries in H. simpl in H.
  apply lookup_app_Some in H as [H|[Hl H]].
  - apply page_slots_lookup in H as [H ->]. by exists [], p, ws, bs, i.
  - destruct (IH _ H) as (A & q & wq & B & j & -> & Hi & Hj & ->).
    exists ((p, ws) :: A), q, wq, B, j. split_and!; try done. unfold entries in *. simpl. rewrite length_app. lia.
Qed.

Lemma grows_app obj Z' ws ws' : grows c obj ws ws' -> grows c obj (Z' ++ ws) (Z' ++ ws').
Proof.
  intros [|X w Y ->]; [rewrite app_assoc; constructor|]. rewrite (app_assoc Z' X (Y ++ _)).
  eapply grows_coalesce; try done. by rewrite app_assoc.
Qed.
Lemma grows_push_only obj ws' : grows c obj [] ws' -> ws' = [obj].
Proof. intros [|[] w Y H]; done. Qed.
Lemma grows_barrier obj (E E' : list (Z * Z)) b :
  grows c obj E.*2 E'.*2 -> addresses_kept E E' -> barrier E b -> below b E E' /\ (b <= length E')%nat.
Proof.
  intros Hg Ha [->|[a0 Hb]]; [split; [intros ?; lia|lia]|].
  assert (Hlt : (b - 1 < length E)%nat) by (by eapply lookup_lt_Some).
  assert (Hw : forall i, (i < b)%nat -> E'.*2 !! i = E.*2 !! i).
  { intros i Hi. destruct Hg as [|X w Y HE Hnz _ _ _ _].
    - apply lookup_app_l. rewrite length_fmap. lia.
    - assert (b <= length X)%nat.
      { destruct (decide (b <= length X)%nat); [done|]. exfalso.
        assert (Hz : E.*2 !! (b - 1)%nat = Some 0) by (by rewrite list_lookup_fmap, Hb).
        rewrite HE, lookup_app_r in Hz by lia. rewrite Forall_forall in Hnz.
        by apply (Hnz 0); [eapply list_elem_of_lookup_2|]. }
      rewrite HE. by rewrite !lookup_app_l by lia. }
  split.
  - intros i a w Hi HEi. destruct (Ha _ _ _ HEi) as (a' & w' & HE' & Hs). exists a'. split; [|done].
    specialize (Hw i Hi). rewrite !list_lookup_fmap, HEi, HE' in Hw. simpl in Hw. congruence.
  - assert (length E <= length E')%nat; [|lia].
    apply grows_length in Hg. rewrite !length_fmap in Hg. lia.
Qed.

Lemma stack_cold_cases s E cold : stack s E cold ->
  cold <> 0 \/ (cold = 0 /\ pages s = ∅ /\ ((tls s = 0 /\ E = []) \/ (tls s = EMPTY_POOL_PLACEHOLDER /\ E = [(EMPTY_POOL_PLACEHOLDER, POOL_BOUNDARY)]))).
Proof.
  intros [? ?|? ?|fs p ws es Hw]; [by right; split_and!; [..|left]|by right; split_and!; [..|right]|left].
  destruct (wfp_rep _ _ _ _ _ Hw) as (_ & _ & _ & Ha). rewrite fmap_app, Forall_forall in Ha.
  assert (1 < head_of fs p); [|lia]. apply (aligned_gt1 c memalign), Ha. destruct fs as [|[q wq] fs]; simpl; set_solver.
Qed.

(** *** Pushing an entry *)
Definition same_rest s s' : Prop := log s' = log s /\ world s' = world s.
Definition added (obj : Z) (E E' : list (Z * Z)) (dest : Z) : Prop :=
  grows c obj E.*2 E'.*2 /\ addresses_kept E E' /\ exists w, E' !! (length E' - 1)%nat = Some (dest, w) /\ taken_obj c w = obj.
Definition cold_kept (cold cold' : Z) : Prop := cold = 0 \/ cold' = cold.

Lemma taken_obj_valid obj : obj = 0 \/ valid_obj c obj -> taken_obj c obj = obj.
Proof.
  unfold taken_obj, valid_obj. intros [->|[H H']]; [by destruct (LP64 c)|]. destruct (LP64 c); [|done].
  apply entry_ptr_small. specialize (H' eq_refl). lia.
Qed.
Lemma valid_word_obj obj : obj = 0 \/ valid_obj c obj -> valid_word c obj.
Proof. intros H. pose proof (taken_obj_valid _ H). unfold valid_word, valid_obj in *. intuition lia. Qed.
Lemma valid_word_increment w : valid_word c w -> w <> 0 -> LP64 c = true -> entry_count w < maxCount -> valid_word c (entry_increment w).
Proof.
  unfold valid_word, taken_obj. intros [?|[Hw Ht]] Hnz H64 Hc; [done|]. rewrite H64 in *. right.
  rewrite entry_increment_ptr by (done || lia). rewrite entry_increment_eq by (done || lia). lia.
Qed.
Lemma grows_valid obj ws ws' : obj = 0 \/ valid_obj c obj -> Forall (valid_word c) ws -> grows c obj ws ws' -> Forall (valid_word c) ws'.
Proof.
  intros Ho Hv [|X w Y -> Hnz H64 _ _ Hc].
  - apply Forall_app. split; [done|]. apply Forall_singleton. by apply valid_word_obj.
  - apply Forall_app in Hv as [HX [Hw HY]%Forall_cons]. apply Forall_cons in Hnz as [Hnz _].
    rewrite !Forall_app. split_and!; [done|done|]. apply Forall_singleton. by apply valid_word_increment.
Qed.
Lemma grows_last obj ws ws' : obj = 0 \/ valid_obj c obj -> Forall (valid_word c) ws -> grows c obj ws ws' ->
  exists w, ws' !! (length ws' - 1)%nat = Some w /\ taken_obj c w = obj.
Proof.
  intros Ho Hv [|X w Y -> Hnz H64 _ Hp Hc].
  - exists obj. split; [|by apply taken_obj_valid]. rewrite length_app. simpl. rewrite Nat.add_sub. by rewrite list_lookup_middle.
  - exists (entry_increment w). rewrite app_assoc, length_app. simpl. rewrite Nat.add_sub, list_lookup_middle by done.
    split; [done|]. unfold taken_obj. rewrite H64. apply Forall_app in Hv as [_ [Hw _]%Forall_cons].
    apply Forall_cons in Hnz as [Hnz _]. rewrite entry_increment_ptr; [done| |done]. destruct Hw; lia.
Qed.

Lemma entries_words bs : (entries bs).*2 = concat bs.*2.
Proof.
  induction bs as [|[p ws] bs IH]; [done|]. unfold entries in *. simpl. by rewrite fmap_app, page_slots_words, IH.
Qed.
Lemma addresses_kept_page A p ws ws' : (length ws <= length ws')%nat ->
  addresses_kept (entries (A ++ [(p, ws)])) (entries (A ++ [(p, ws')])).
Proof.
  intros Hl i a w. rewrite !entries_snoc. intros [H|[Hi H]]%lookup_app_Some.
  - exists a, w. split; [by apply lookup_app_l_Some|by left].
  - apply page_slots_lookup in H as [H ->]. apply lookup_lt_Some in H as Hlt.
    destruct (lookup_lt_is_Some_2 ws' (i - length (entries A))) as [w' Hw']; [lia|].
    exists (slot c p (i - length (entries A))), w'. split; [|by left]. rewrite lookup_app_r by lia. by apply page_slots_lookup.
Qed.

Lemma hot_add s fs p ws es obj :
  wfp s fs p ws es -> (length ws < capacity c)%nat -> obj = 0 \/ valid_obj c obj -> Forall (valid_word c) ws ->
  exists s' dest ws', add c s p obj = Ok (s', dest) /\ wfp s' fs p ws' es /\ same_rest s s' /\
    (0 < length ws' <= capacity c)%nat /\ added obj (entries (fs ++ [(p, ws)])) (entries (fs ++ [(p, ws')])) dest.
Proof.
  intros [Hr Hf Hh] Hl Ho Hv. destruct (add_ok _ _ _ _ _ _ _ _ Hr Hl Ho) as (m & ws' & Hadd & Hr' & Hg & Hl').
  pose proof (grows_nonempty _ _ _ _ Hg) as Hne. pose proof (grows_length _ _ _ _ Hg) as Hgl.
  destruct (grows_last _ _ _ Ho Hv Hg) as (w & Hw & Ht).
  exists (set_pages s m), (slot c p (length ws' - 1)), ws'. split_and!; try done.
  split_and!.
  - rewrite !entries_words, !fmap_app, !concat_app. simpl. rewrite !app_nil_r. by apply grows_app.
  - apply addresses_kept_page. lia.
  - exists w. split; [|done]. rewrite entries_snoc, length_app, page_slots_length.
    rewrite lookup_app_r by lia. apply page_slots_lookup.
    by replace (length (entries fs) + length ws' - 1 - length (entries fs))%nat with (length ws' - 1)%nat by lia.
Qed.

Lemma wfp_lookup s fs p ws es : wfp s fs p ws es ->
  exists pg, pages s !! p = Some pg /\ nz p = true /\ p <> EMPTY_POOL_PLACEHOLDER /\
    parent pg = last_of fs 0 /\ child pg = match es with [] => 0 | e :: _ => e end /\
    next pg = slot c p (length ws) /\ (length ws <= capacity c)%nat.
Proof.
  intros [Hr _ _]. pose proof (rep_lookup _ _ _ _ _ _ Hr) as (pg & Hp & Hpar & Hchi & Hn & Hl & Ht). exists pg.
  pose proof (rep_aligned _ _ _ _ _ _ Hr) as Ha. split_and!; try done.
  - by eapply nz_aligned.
  - apply aligned_gt1 with (memalign := memalign) in Ha; [|done]. unfold EMPTY_POOL_PLACEHOLDER. lia.
  - rewrite Hchi. by destruct es.
  - apply (f_equal length) in Ht. rewrite length_take in Ht. lia.
Qed.
Lemma wfp_hotPage s fs p ws es : wfp s fs p ws es -> hotPage s = Ok p.
Proof.
  intros Hw. destruct (wfp_lookup _ _ _ _ _ Hw) as (pg & Hp & Hnz & Hne & _). destruct Hw as [_ _ Hh].
  unfold hotPage. rewrite Hh. apply Z.eqb_neq in Hne. by rewrite Hne, Hnz, (fastcheck_lookup _ _ _ Hp).
Qed.
Lemma setHotPage_lookup s p pg : pages s !! p = Some pg -> setHotPage s p = Ok (set_tls s p).
Proof. intros Hp. unfold setHotPage. destruct (nz p); [|done]. by rewrite (fastcheck_lookup _ _ _ Hp). Qed.
Lemma full_slot p pg n : next pg = slot c p n -> full c p pg = (n =? capacity c)%nat.
Proof.
  intros Hn. unfold full. rewrite Hn, <- (slot_end c memalign). destruct (Nat.eqb_spec n (capacity c)) as [->|Hne].
  - apply Z.eqb_refl.
  - apply Z.eqb_neq. intros H. by apply page_slot_inj in H.
Qed.
Lemma empty_slot p pg n : next pg = slot c p n -> empty c p pg = (n =? 0)%nat.
Proof.
  intros Hn. unfold empty. rewrite Hn, <- (slot_begin c). destruct (Nat.eqb_spec n 0) as [->|Hne].
  - apply Z.eqb_refl.
  - apply Z.eqb_neq. intros H. by apply page_slot_inj in H.
Qed.

(** The hot page is full: its successor, an empty page, becomes hot. *)
Lemma next_page_ok s fs p ws es : wfp s fs p ws es -> length ws = capacity c ->
  exists s' q es', next_page c memalign (walk s) s p = Ok (s', q) /\ wfp (set_tls s' q) (fs ++ [(p, ws)]) q [] es' /\ same_rest s s'.
Proof.
  intros Hw Hfull. destruct (wfp_lookup _ _ _ _ _ Hw) as (pg & Hp & _ & _ & _ & Hchi & _).
  assert (Hf' : Forall (fun b : block => length b.2 = capacity c) (fs ++ [(p, ws)])).
  { apply Forall_app. split; [apply Hw|by apply Forall_singleton]. }
  pose proof (capacity_pos c memalign) as Hcap. unfold walk. simpl. rewrite (get_lookup _ _ _ Hp). cbn [rbind]. rewrite Hchi.
  destruct es as [|e es].
  - change (nz 0) with false. cbv iota. destruct Hw as [Hr _ _]. destruct (new_page_ok _ _ _ _ _ _ Hr) as (q & m & Hm & Hnew).
    rewrite Hnew. cbn [rbind]. rewrite app_assoc in Hm.
    destruct (rep_snoc_inv _ _ _ _ _ Hm) as (pgq & Hq & _ & _ & Hnq & _).
    rewrite (get_lookup (set_pages s m) q pgq Hq). cbn [rbind]. rewrite (full_slot _ _ _ Hnq).
    destruct (Nat.eqb_spec (length (@nil Z)) (capacity c)); [simpl in *; lia|].
    exists (set_pages s m), q, []. by split_and!; [|constructor|].
  - destruct Hw as [Hr _ Hh]. simpl in Hr.
    pose proof Hr as Hr'. rewrite cons_middle, app_assoc in Hr'.
    destruct (rep_lookup _ _ _ _ _ _ Hr') as (pge & He & _ & _ & Hne & _).
    assert (nz e = true) as -> by (apply (nz_aligned c memalign); eapply rep_aligned; exact Hr'). cbn [rbind].
    rewrite (get_lookup _ _ _ He). cbn [rbind]. rewrite (full_slot _ _ _ Hne).
    destruct (Nat.eqb_spec (length (@nil Z)) (capacity c)); [simpl in *; lia|].
    exists s, e, es. by split_and!; [|constructor|].
Qed.

Lemma stack_words_valid fs p ws : Forall (valid_word c) (entries (fs ++ [(p, ws)])).*2 -> Forall (valid_word c) ws.
Proof. rewrite entries_snoc, fmap_app, page_slots_words. by intros [_ ?]%Forall_app. Qed.
Lemma head_of_kept (fs : list block) (p p' : Z) ws : head_of (fs ++ [(p, ws)]) p' = head_of fs p.
Proof. by rewrite head_of_app. Qed.

(** What an operation that adds an entry does to the stack. *)
Definition adds s E cold obj (r : res (state W * Z)) : Prop :=
  exists s' dest E' cold', r = Ok (s', dest) /\ stack s' E' cold' /\ cold_kept cold cold' /\ same_rest s s' /\
    added obj E E' dest /\ dest <> 0 /\ (dest = EMPTY_POOL_PLACEHOLDER \/ cold' <> 0).

Lemma hot_adds s s0 fs p ws es obj E cold :
  wfp s fs p ws es -> (length ws < capacity c)%nat -> obj = 0 \/ valid_obj c obj -> Forall (valid_word c) E.*2 ->
  E = entries (fs ++ [(p, ws)]) -> cold_kept cold (head_of fs p) -> same_rest s0 s ->
  adds s0 E cold obj (add c s p obj).
Proof.
  intros Hw Hl Ho Hv -> Hc Hs. apply stack_words_valid in Hv as Hv'.
  destruct (hot_add _ _ _ _ _ _ Hw Hl Ho Hv') as (s' & dest & ws' & Hadd & Hw' & Hs' & Hl' & Ha).
  assert (Hal : forall q, q ∈ (fs ++ [(p, ws')]).*1 -> 1 < q).
  { intros q Hq. apply aligned_gt1 with c memalign; [done|]. eapply rep_app_aligned; [apply Hw'|].
    revert Hq. rewrite !fmap_app. simpl. clear. set_solver. }
  exists s', dest, (entries (fs ++ [(p, ws')])), (head_of fs p). split; [done|]. split; [by econstructor|]. split; [done|].
  split; [unfold same_rest in *; intuition congruence|]. split; [done|]. split.
  - destruct Ha as (_ & _ & w & Hlast & _). apply entries_lookup in Hlast as (A & q & wq & B & j & Heq & _ & _ & ->).
    assert (1 < q); [|unfold slot, begin_; pose proof (sizeof_page_pos c); pose proof (sizeof_id_pos c); lia].
    apply Hal. rewrite Heq, fmap_app. simpl. set_solver.
  - right. assert (1 < head_of fs p); [|lia]. apply Hal. destruct fs as [|[q wq] fs]; simpl; set_solver.
Qed.

(** *** [autorelease] and [push], unless pools are debugged *)
Context (Hdebug : DebugPoolAllocation c = false) (Hmissing : DebugMissingPools c = false).
Context (G : option tag_config).

Lemma autoreleaseFullPage_ok s fs p ws es obj :
  wfp s fs p ws es -> length ws = capacity c -> obj = 0 \/ valid_obj c obj ->
  Forall (valid_word c) (entries (fs ++ [(p, ws)])).*2 ->
  adds s (entries (fs ++ [(p, ws)])) (head_of fs p) obj (autoreleaseFullPage c memalign s obj p).
Proof.
  intros Hw Hfull Ho Hv. destruct (wfp_lookup _ _ _ _ _ Hw) as (pg & Hp & _ & _ & _ & _ & Hn & _).
  destruct (next_page_ok _ _ _ _ _ Hw Hfull) as (s' & q & es' & Hnext & Hw' & Hs').
  unfold autoreleaseFullPage. rewrite (wfp_hotPage _ _ _ _ _ Hw). cbn [rbind]. rewrite Z.eqb_refl. cbn [rassert rbind].
  rewrite (get_lookup _ _ _ Hp). cbn [rbind]. rewrite (full_slot _ _ _ Hn), Hfull, Nat.eqb_refl. cbn [orb rassert rbind].
  rewrite Hnext. cbn [rbind]. destruct (wfp_lookup _ _ _ _ _ Hw') as (pgq & Hq & _).
  rewrite (setHotPage_lookup s' q pgq Hq). cbn [rbind]. pose proof (capacity_pos c memalign).
  eapply hot_adds; try done; [by rewrite entries_empty_page|].
  right. by rewrite head_of_kept.
Qed.
Lemma install_ok s : pages s = ∅ -> exists s' p, new_page c memalign s 0 = Ok (s', p) /\
  setHotPage s' p = Ok (set_tls s' p) /\ wfp (set_tls s' p) [] p [] [] /\ same_rest s s'.
Proof.
  intros Hs. destruct (new_page_first c memalign _ Hs) as (p & m & Ha & Hr & Hnew). exists (set_pages s m), p.
  destruct (rep_lookup _ _ [] _ _ _ Hr) as (pg & Hp & _). split; [done|].
  split; [by eapply setHotPage_lookup|]. split; [|done]. by constructor.
Qed.
Lemma adds_placeholder s E cold obj r : E.*2 = [POOL_BOUNDARY] -> adds s E cold obj r ->
  adds s [(EMPTY_POOL_PLACEHOLDER, POOL_BOUNDARY)] 0 obj r.
Proof.
  intros HE (s' & dest & E' & cold' & -> & Hst & _ & Hs & (Hg & Hk & Hl) & Hd).
  destruct Hd as [Hd Hd2]. exists s', dest, E', cold'. split_and!; try done; [by left|]. split_and!; [by rewrite HE in Hg| |done].
  intros [|i] a w H; [|done]. injection H as <- <-. destruct E as [|[a0 w0] E]; [done|].
  destruct (Hk 0%nat a0 w0) as (a' & w' & HE' & _); [done|]. exists a', w'. split; [done|]. by right.
Qed.
Lemma autoreleaseNoPage_ok s E cold obj :
  stack s E cold -> cold = 0 -> obj = 0 \/ valid_obj c obj -> adds s E cold obj (autoreleaseNoPage c memalign s obj).
Proof.
  intros Hst Hcold Ho. pose proof (capacity_two c memalign) as Hcap. unfold autoreleaseNoPage.
  destruct Hst as [Ht Hp|Ht Hp|fs p ws es Hw]; unfold hotPage, haveEmptyPoolPlaceholder.
  - rewrite Ht, Hdebug, Hmissing. cbn -[add new_page setHotPage]. rewrite andb_false_r, andb_true_r. unfold POOL_BOUNDARY.
    destruct (Z.eqb_spec obj 0) as [->|].
    + unfold setEmptyPoolPlaceholder. rewrite Ht. cbn. 
      exists (set_tls s EMPTY_POOL_PLACEHOLDER), EMPTY_POOL_PLACEHOLDER, [(EMPTY_POOL_PLACEHOLDER, POOL_BOUNDARY)], 0.
      split_and!; try done; [by apply stack_placeholder|by left| |by left].
      split_and!; [apply (grows_push c 0 [])|by intros i a w|]. exists 0. split; [done|]. by destruct (LP64 c) eqn:H; unfold taken_obj; rewrite H.
    + destruct (install_ok s Hp) as (s' & p & Hnew & Hhot & Hw & Hs). rewrite Hnew. cbn [rbind]. rewrite Hhot. cbn [rbind].
      eapply hot_adds; try done; [simpl; lia|by left].
  - rewrite Ht. cbn -[add new_page setHotPage]. destruct (install_ok s Hp) as (s' & p & Hnew & Hhot & Hw & Hs).
    rewrite Hnew. cbn [rbind]. rewrite Hhot. cbn [rbind].
    destruct (hot_add _ _ _ _ _ POOL_BOUNDARY Hw) as (s1 & d1 & ws1 & Hadd & Hw1 & Hs1 & _ & Hg1); [simpl; lia|by left|done|].
    rewrite Hadd. cbn [rbind]. destruct Hg1 as (Hg1 & _). simpl in Hg1. apply grows_push_only in Hg1.
    assert (ws1 = [POOL_BOUNDARY]) as -> by (rewrite <- (page_slots_words p ws1); by rewrite <- entries_single).
    eapply (adds_placeholder s _ 0); [exact Hg1|]. eapply hot_adds; try done; [by apply Forall_singleton; left|by left|].
    unfold same_rest in *. simpl in *. intuition congruence.
  - exfalso. destruct (wfp_rep _ _ _ _ _ Hw) as (_ & _ & _ & Ha). rewrite fmap_app in Ha.
    assert (1 < head_of fs p); [|lia]. apply aligned_gt1 with c memalign; [done|].
    rewrite Forall_forall in Ha. apply Ha. destruct fs as [|[q wq] fs]; simpl; set_solver.
Qed.
Lemma stack_cold s E cold : stack s E cold -> cold = 0 \/ exists fs p ws es, wfp s fs p ws es /\ E = entries (fs ++ [(p, ws)]) /\ cold = head_of fs p.
Proof. intros [| |fs p ws es H]; [by left|by left|right]. by exists fs, p, ws, es. Qed.
Lemma autoreleaseFast_ok s E cold obj :
  stack s E cold -> obj = 0 \/ valid_obj c obj -> Forall (valid_word c) E.*2 -> adds s E cold obj (autoreleaseFast c memalign s obj).
Proof.
  intros Hst Ho Hv. unfold autoreleaseFast. destruct Hst as [Ht Hp|Ht Hp|fs p ws es Hw].
  - unfold hotPage. rewrite Ht. apply autoreleaseNoPage_ok; [by apply stack_none|done..].
  - unfold hotPage. rewrite Ht. apply autoreleaseNoPage_ok; [by apply stack_placeholder|done..].
  - rewrite (wfp_hotPage _ _ _ _ _ Hw). cbn [rbind]. destruct (wfp_lookup _ _ _ _ _ Hw) as (pg & Hp & -> & _ & _ & _ & Hn & Hl).
    rewrite (get_lookup _ _ _ Hp). cbn [rbind]. rewrite (full_slot _ _ _ Hn). destruct (Nat.eqb_spec (length ws) (capacity c)) as [Hf|Hf]; cbn [negb].
    + by eapply autoreleaseFullPage_ok.
    + eapply hot_adds; try done; [lia|by right].
Qed.

(** The page of an entry is found from its address. *)
Lemma entry_page s fs p ws es i a w : wfp s fs p ws es -> entries (fs ++ [(p, ws)]) !! i = Some (a, w) ->
  exists A q wq B j pg, fs ++ [(p, ws)] = A ++ (q, wq) :: B /\ i = (length (entries A) + j)%nat /\ wq !! j = Some w /\
    a = slot c q j /\ (j < capacity c)%nat /\ aligned c q /\ pages s !! q = Some pg /\ parent pg = last_of A 0 /\
    next pg = slot c q (length wq) /\ load c q pg a = Ok w /\ pageForPointer c s a = Ok q /\ a <> EMPTY_POOL_PLACEHOLDER.
Proof.
  intros Hw Hi. destruct (entries_lookup _ _ _ _ Hi) as (A & q & wq & B & j & HE & -> & Hj & ->).
  pose proof (wfp_rep _ _ _ _ _ Hw) as Hr. rewrite cons_middle, app_assoc, HE, <- app_assoc in Hr. simpl in Hr.
  destruct (rep_lookup _ _ _ _ _ _ Hr) as (pg & Hp & Hpar & _ & Hn & Hl & Ht). pose proof (rep_aligned _ _ _ _ _ _ Hr) as Ha.
  pose proof (page_is_length c (pages s) q _ _ _ (rep_lookup _ _ _ _ _ _ Hr)) as Hlq.
  apply lookup_lt_Some in Hj as Hjl. assert (Hjc : (j < capacity c)%nat) by lia.
  pose proof (sizeof_page_pos c). pose proof (sizeof_id_pos c).
  exists A, q, wq, B, j, pg. split_and!; try done.
  - rewrite load_slot. rewrite <- Ht, lookup_take in Hj. destruct (decide (j < length wq)%nat); [|done]. by rewrite Hj.
  - unfold pageForPointer. rewrite (slot_offset c memalign q j Ha Hjc).
    assert ((sizeof_page c <=? sizeof_page c + sizeof_id c * Z.of_nat j) = true) as -> by (apply Z.leb_le; lia).
    cbn [rassert rbind]. replace (slot c q j - (sizeof_page c + sizeof_id c * Z.of_nat j)) with q by (unfold slot, begin_; lia).
    by rewrite (fastcheck_lookup _ _ _ Hp).
  - apply aligned_gt1 with (memalign := memalign) in Ha; [|done]. unfold slot, begin_, EMPTY_POOL_PLACEHOLDER. lia.
Qed.
Lemma deref_ok s E cold i a w : stack s E cold -> cold <> 0 -> E !! i = Some (a, w) -> deref c s a = Ok w.
Proof.
  intros Hst Hc Hi. destruct (stack_cold _ _ _ Hst) as [?|(fs & p & ws & es & Hw & -> & _)]; [done|].
  destruct (entry_page _ _ _ _ _ _ _ _ Hw Hi) as (A & q & wq & B & j & pg & _ & _ & _ & _ & _ & _ & Hp & _ & _ & Hl & Hq & _).
  unfold deref. rewrite Hq. cbn [rbind]. by rewrite (get_lookup _ _ _ Hp).
Qed.

Lemma taken_eq w : (if LP64 c then entry_ptr w else w) = taken_obj c w.
Proof. done. Qed.
Lemma autorelease_ok s E cold obj :
  stack s E cold -> valid_obj c obj -> tagged_or_nil G obj = false -> Forall (valid_word c) E.*2 ->
  exists s' E' cold', autorelease c memalign G s obj = Ok s' /\ stack s' E' cold' /\ cold_kept cold cold' /\
    log s' = log s ++ [Autoreleased obj] /\ world s' = world s /\ grows c obj E.*2 E'.*2 /\ addresses_kept E E'.
Proof.
  intros Hst Ho Ht Hv. unfold autorelease. rewrite Ht. cbn [negb rassert rbind].
  destruct (autoreleaseFast_ok _ _ _ obj Hst (or_intror Ho) Hv) as (s' & dest & E' & cold' & -> & Hst' & Hk & Hs & Ha & Hd & Hdest).
  cbn [rbind]. destruct Ha as (Hg & Hak & w & Hl & Htw). exists (record_event s' (Autoreleased obj)), E', cold'.
  assert (stack (record_event s' (Autoreleased obj)) E' cold') as Hst''.
  { destruct Hst' as [| |fs p ws es [? ? ?]]; by econstructor. }
  assert (log (record_event s' (Autoreleased obj)) = log s ++ [Autoreleased obj]) by (simpl; by destruct Hs as [-> _]).
  assert (world (record_event s' (Autoreleased obj)) = world s) by (simpl; by destruct Hs).
  split; [|done]. apply nz_true in Hd. rewrite Hd. cbn [negb orb]. destruct (Z.eqb_spec dest EMPTY_POOL_PLACEHOLDER); [done|].
  destruct Hdest; [done|]. rewrite (deref_ok _ _ _ _ _ _ Hst' ltac:(done) Hl). cbn [rbind]. by rewrite taken_eq, Htw, Z.eqb_refl.
Qed.
Lemma grows_boundary ws ws' : grows c 0 ws ws' -> ws' = ws ++ [0].
Proof. by intros []. Qed.
Lemma push_ok s E cold :
  stack s E cold -> Forall (valid_word c) E.*2 ->
  exists s' t E' cold', push c memalign s = Ok (s', t) /\ stack s' E' cold' /\ cold_kept cold cold' /\ same_rest s s' /\
    E'.*2 = E.*2 ++ [0] /\ addresses_kept E E' /\ E' !! length E = Some (t, 0).
Proof.
  intros Hst Hv. unfold push. rewrite Hdebug.
  destruct (autoreleaseFast_ok _ _ _ POOL_BOUNDARY Hst (or_introl eq_refl) Hv) as (s' & dest & E' & cold' & -> & Hst' & Hk & Hs & Ha & Hd & Hdest).
  cbn [rbind]. destruct Ha as (Hg & Hak & w & Hl & _). apply grows_boundary in Hg. exists s', dest, E', cold'.
  assert (Hlen : length E' = S (length E)).
  { apply (f_equal length) in Hg. rewrite length_app, !length_fmap in Hg. simpl in Hg. lia. }
  rewrite Hlen in Hl. simpl in Hl. rewrite Nat.sub_0_r in Hl.
  assert (w = 0) as ->.
  { assert (E'.*2 !! length E = Some 0) as H0 by (rewrite Hg; rewrite <- (length_fmap snd); by apply list_lookup_middle).
    rewrite list_lookup_fmap, Hl in H0. by injection H0. }
  split_and!; try done. destruct (Z.eqb_spec dest EMPTY_POOL_PLACEHOLDER); [done|].
  destruct Hdest; [done|]. by rewrite (deref_ok _ _ _ _ _ _ Hst' ltac:(done) Hl).
Qed.

(** *** Taking an entry off *)
Lemma take_entry_ok s A p ws w B : rep c (pages s) (A ++ (p, ws ++ [w]) :: B) ->
  exists m, take_entry c s p = Ok (set_pages s m, w) /\ rep c m (A ++ (p, ws) :: B).
Proof.
  intros Hr. destruct (rep_lookup _ _ _ _ _ _ Hr) as (pg & Hp & Hpar & Hchi & Hn & Hl & Ht).
  rewrite length_app, Nat.add_1_r in Hn, Ht. unfold take_entry. rewrite (get_lookup _ _ _ Hp). cbn [rbind].
  rewrite Hn, <- slot_succ, Z.add_simpl_r. rewrite load_slot.
  assert (words pg !! length ws = Some w) as Hlast.
  { rewrite <- (lookup_take_lt _ (S (length ws))) by lia. rewrite Ht. by apply list_lookup_middle. }
  rewrite Hlast. cbn [rbind]. unfold store. rewrite load_slot. simpl. rewrite Hlast. cbn [rbind]. rewrite index_slot.
  eexists. split; [done|]. eapply rep_replace; try done; simpl.
  - by rewrite length_insert.
  - rewrite take_insert_ge by done. trans (take (length ws) (ws ++ [w])); [|by rewrite take_app_length].
    rewrite <- Ht, take_take. f_equal. lia.
Qed.
(** The hot page, or if that is empty the one before it, has the last entry: the
    loop that goes back over empty pages takes at most one turn. *)
Lemma top_entry s fs p ws es E a w n : wfp s fs p ws es -> entries (fs ++ [(p, ws)]) = E ++ [(a, w)] ->
  exists s1 s2 fs1 p1 ws1 es1, skip_empty c (S (S n)) s p = Ok (s1, p1) /\ take_entry c s1 p1 = Ok (s2, w) /\
    wfp s2 fs1 p1 ws1 es1 /\ E = entries (fs1 ++ [(p1, ws1)]) /\ same_rest s s2 /\ head_of fs1 p1 = head_of fs p /\
    a = slot c p1 (length ws1) /\ (length ws1 < capacity c)%nat.
Proof.
  intros Hw HE. destruct (wfp_lookup _ _ _ _ _ Hw) as (pg & Hp & _ & _ & Hpar & _ & Hn & _).
  simpl. rewrite (get_lookup _ _ _ Hp). cbn [rbind]. rewrite (empty_slot _ _ _ Hn).
  destruct Hw as [Hr Hf Hh]. destruct ws as [|w' ws _] using rev_ind.
  - simpl. rewrite entries_empty_page in HE. destruct fs as [|[q wq] fs _] using rev_ind; [by destruct E|].
    rewrite Hpar, last_of_snoc. apply Forall_app in Hf as [Hf [Hfq _]%Forall_cons]. simpl in Hfq.
    rewrite <- app_assoc in Hr. simpl in Hr. destruct (rep_lookup _ _ _ _ _ _ Hr) as (pgq & Hq & _ & _ & Hnq & _).
    rewrite (setHotPage_lookup _ _ _ Hq). cbn [rbind]. rewrite (get_lookup (set_tls s q) q pgq Hq). cbn [rbind].
    rewrite (empty_slot _ _ _ Hnq), Hfq. pose proof (capacity_pos c memalign).
    destruct (Nat.eqb_spec (capacity c) 0) as [|_]; [lia|].
    destruct wq as [|w' wq _] using rev_ind; [simpl in Hfq; lia|].
    rewrite entries_snoc, page_slots_snoc, app_assoc in HE. apply app_inj_tail in HE as [<- [= <- <-]].
    destruct (take_entry_ok (set_tls s q) _ _ _ _ _ Hr) as (m & Htake & Hm).
    exists (set_tls s q), (set_pages (set_tls s q) m), fs, q, wq, (p :: es). rewrite length_app in Hfq. simpl in Hfq.
    split_and!; try done; [by rewrite entries_snoc|by rewrite head_of_app|lia].
  - rewrite length_app, Nat.add_1_r. simpl. rewrite entries_snoc, page_slots_snoc, app_assoc in HE. apply app_inj_tail in HE as [<- [= <- <-]].
    destruct (take_entry_ok _ _ _ _ _ _ Hr) as (m & Htake & Hm).
    pose proof (page_is_length _ _ _ _ _ _ (rep_lookup _ _ _ _ _ _ Hr)) as Hlen. rewrite length_app in Hlen. simpl in Hlen.
    exists s, (set_pages s m), fs, p, ws, es. split_and!; try done; [by rewrite entries_snoc|lia].
Qed.

(** ** What is pending, and what has been released *)
Definition units (w : Z) : list Z := if taken_obj c w =? 0 then [] else replicate (S (taken_count c w)) (taken_obj c w).
Definition pending (E : list (Z * Z)) : list Z := concat (map units E.*2).
Definition autoreleased (l : list event) : list Z := omap (fun e => match e with Autoreleased o => Some o | Released _ => None end) l.
Definition released (l : list event) : list Z := omap (fun e => match e with Released o => Some o | Autoreleased _ => None end) l.
Definition occ (o : Z) (l : list Z) : Z := Z.of_nat (count_occ Z.eq_dec l o).
Definition accounts (E : list (Z * Z)) (l : list Z) (E' : list (Z * Z)) (new : list event) : Prop :=
  forall o, occ o (pending E') + occ o (released new) = occ o (pending E) + occ o l + occ o (autoreleased new).

Lemma occ_app o l l' : occ o (l ++ l') = occ o l + occ o l'.
Proof. unfold occ. rewrite count_occ_app. lia. Qed.
Lemma occ_cons o x l : occ o (x :: l) = occ o [x] + occ o l.
Proof. by rewrite <- occ_app. Qed.
Lemma occ_nil o : occ o [] = 0.
Proof. done. Qed.
Lemma autoreleased_app l l' : autoreleased (l ++ l') = autoreleased l ++ autoreleased l'.
Proof. apply omap_app. Qed.
Lemma released_app l l' : released (l ++ l') = released l ++ released l'.
Proof. apply omap_app. Qed.
Lemma pending_words E E' : E.*2 = E'.*2 -> pending E = pending E'.
Proof. unfold pending. by intros ->. Qed.
Lemma accounts_trans E E' E'' l l' n n' : accounts E l E' n -> accounts E' l' E'' n' -> accounts E (l ++ l') E'' (n ++ n').
Proof. intros H H' o. specialize (H o). specialize (H' o). rewrite autoreleased_app, released_app, !occ_app. lia. Qed.
Lemma units_valid obj : valid_obj c obj -> units obj = [obj].
Proof.
  intros Ho. unfold units. rewrite taken_obj_valid by by right. destruct Ho as [H H'].
  destruct (Z.eqb_spec obj 0); [lia|]. unfold taken_count. destruct (LP64 c); [|done].
  by rewrite entry_count_small by (specialize (H' eq_refl); lia).
Qed.
Lemma units_increment w : valid_word c w -> w <> 0 -> LP64 c = true -> entry_count w < maxCount ->
  units (entry_increment w) = entry_ptr w :: units w.
Proof.
  intros [?|[Hw Ht]] Hnz H64 Hc; [done|]. pose proof (entry_count_nonneg w). unfold units, taken_obj, taken_count in *. rewrite H64 in *.
  rewrite entry_increment_ptr, entry_increment_count by (done || lia). destruct (Z.eqb_spec (entry_ptr w) 0); [done|].
  by replace (Z.to_nat (entry_count w + 1)) with (S (Z.to_nat (entry_count w))) by lia.
Qed.
Lemma grows_units obj ws ws' o : obj = 0 \/ valid_obj c obj -> Forall (valid_word c) ws -> grows c obj ws ws' ->
  occ o (concat (map units ws')) = occ o (concat (map units ws)) + (if obj =? 0 then 0 else occ o [obj]).
Proof.
  intros Ho Hv [|X w Y -> Hnz H64 Hne Hp Hc].
  - rewrite map_app, concat_app, occ_app. simpl. rewrite app_nil_r. destruct Ho as [->|Ho].
    + unfold units. rewrite taken_obj_valid by by left. done.
    + rewrite units_valid by done. destruct Ho. destruct (Z.eqb_spec obj 0); [lia|done].
  - apply Forall_app in Hv as [_ [Hw _]%Forall_cons]. apply Forall_cons in Hnz as [Hnz _].
    rewrite !map_app, !concat_app, !occ_app. simpl. rewrite app_nil_r, units_increment by done.
    rewrite Hp, occ_cons, occ_app. destruct (Z.eqb_spec obj 0); [done|]. lia.
Qed.
End Stack.
