(* ===== verification/AutoreleasePoolPop.v ===== *)
(** * Popping autorelease pools

    The induction that describes [releaseUntil] and all that a release may call:
    whatever a release does, what is below the pool being popped stays, and every
    object that was pending is released. *)

From stdpp Require Import prelude numbers list gmap sorting.
From Stdlib Require Import ZArith Lia Bool.
From S2P Require Import Prelude TaggedPointer AutoreleasePool AutoreleasePoolTheory.

Section Pop.
Context (c : config) (memalign : page_map -> Z * list Z) {PE : PoolEnv c memalign} {W : Type}.
Context (Hdebug : DebugPoolAllocation c = false) (Hmissing : DebugMissingPools c = false) (Hhiwat : PrintPoolHiwat c = false).
Context (G : option tag_config) (on_release : W -> Z -> W * list call) (weight : Z -> nat).
Implicit Types s : state W.

(** Objects are in the address space of the process. *)
Definition call_ok (x : call) : Prop :=
  match x with Autorelease o => tagged_or_nil G o = false -> valid_obj c o | _ => True end.
Context (Hcalls : forall w o, Forall call_ok (snd (on_release w o))).

(** The weight of an object bounds what its release can set off. *)
Definition call_weight (x : call) : nat := match x with Autorelease o => weight o | Push => 1 | Pop _ => 0 end.
Definition calls_weight (l : list call) : nat := sum_list_with call_weight l.
Definition law : Prop := forall w o, (calls_weight (snd (on_release w o)) < weight o)%nat.
Definition word_weight (w : Z) : nat :=
  if taken_obj c w =? 0 then 1 else S (taken_count c w) * weight (taken_obj c w).
Definition above (b : nat) (E : list (Z * Z)) : nat := sum_list_with word_weight (drop b E.*2).

Lemma word_weight_boundary : word_weight 0 = 1%nat.
Proof. unfold word_weight, taken_obj. by destruct (LP64 c). Qed.
Lemma word_weight_valid o : valid_obj c o -> word_weight o = weight o.
Proof.
  intros Ho. unfold word_weight. rewrite taken_obj_valid by by right. destruct Ho as [H H']. destruct (Z.eqb_spec o 0); [lia|].
  unfold taken_count. destruct (LP64 c); [|lia]. rewrite entry_count_small by (specialize (H' eq_refl); lia). simpl. lia.
Qed.
Lemma word_weight_increment w : valid_word c w -> w <> 0 -> LP64 c = true -> entry_count w < maxCount ->
  word_weight (entry_increment w) = (weight (entry_ptr w) + word_weight w)%nat.
Proof.
  intros [?|[Hw Ht]] Hnz H64 Hc; [done|]. pose proof (entry_count_nonneg w). unfold word_weight, taken_obj, taken_count in *. rewrite H64 in *.
  rewrite entry_increment_ptr, entry_increment_count by (done || lia). destruct (Z.eqb_spec (entry_ptr w) 0); [done|].
  replace (Z.to_nat (entry_count w + 1)) with (S (Z.to_nat (entry_count w))) by lia. lia.
Qed.
Lemma above_grows obj E E' b : obj = 0 \/ valid_obj c obj -> Forall (valid_word c) E.*2 -> barrier E b -> (b <= length E)%nat ->
  grows c obj E.*2 E'.*2 -> above b E' = (above b E + word_weight obj)%nat.
Proof.
  intros Ho Hv Hb Hl Hg. unfold above. destruct Hg as [|X w Y HE Hnz H64 Hne Hp Hc].
  - rewrite drop_app_le by (by rewrite length_fmap). rewrite sum_list_with_app. simpl. lia.
  - assert (b <= length X)%nat as HbX.
    { destruct Hb as [->|[a Hb]]; [lia|]. destruct (decide (b <= length X)%nat); [done|]. exfalso.
      assert (Hz : E.*2 !! (b - 1)%nat = Some 0) by (by rewrite list_lookup_fmap, Hb).
      rewrite HE, lookup_app_r in Hz by lia. rewrite Forall_forall in Hnz. by apply (Hnz 0); [eapply list_elem_of_lookup_2|]. }
    rewrite HE in *. apply Forall_app in Hv as [_ [Hw _]%Forall_cons]. apply Forall_cons in Hnz as [Hnz _].
    rewrite !drop_app_le by done. rewrite !sum_list_with_app. simpl. rewrite word_weight_increment by done. rewrite Hp.
    destruct Ho as [|Ho]; [done|]. rewrite (word_weight_valid _ Ho). lia.
Qed.
Lemma above_take b k E E' : E'.*2 = take k E.*2 -> (above b E' <= above b E)%nat.
Proof.
  intros HE. unfold above. rewrite HE. trans (sum_list_with word_weight (drop b (take k E.*2 ++ drop k E.*2))); [|by rewrite take_drop].
  destruct (decide (b <= length (take k E.*2))%nat).
  - rewrite drop_app_le by done. rewrite sum_list_with_app. lia.
  - rewrite drop_ge by lia. simpl. lia.
Qed.
Lemma above_mono b b' E : (b <= b')%nat -> (above b' E <= above b E)%nat.
Proof.
  intros Hb. unfold above. replace b' with (b + (b' - b))%nat by lia. rewrite <- drop_drop.
  trans (sum_list_with word_weight (take (b' - b) (drop b E.*2) ++ drop (b' - b) (drop b E.*2))); [|by rewrite take_drop].
  rewrite sum_list_with_app. lia.
Qed.
Lemma below_words k E E' : below k E E' -> length E' = k -> (k <= length E)%nat -> E'.*2 = take k E.*2.
Proof.
  intros Hb Hl Hk. apply list_eq. intros i. destruct (decide (i < k)%nat).
  - destruct (lookup_lt_is_Some_2 E i) as [[a w] Hi]; [lia|]. destruct (Hb _ _ _ l Hi) as (a' & Hi' & _).
    by rewrite lookup_take_lt, !list_lookup_fmap, Hi, Hi'.
  - rewrite lookup_take_ge by lia. rewrite list_lookup_fmap, lookup_ge_None_2; [done|lia].
Qed.
Lemma barrier_below E E' b : barrier E b -> below b E E' -> barrier E' b.
Proof.
  intros [->|[a Ha]] Hb; [by left|]. destruct b; [by left|]. right. destruct (Hb (S b - 1)%nat a 0) as (a' & H & _); [lia|done|]. by exists a'.
Qed.

(** ** What part of the program does to the stack above [b]

    [l]: objects it takes over to release. *)
Record effect (b : nat) s (E : list (Z * Z)) (cold : Z) (l : list Z) s' (E' : list (Z * Z)) (cold' : Z) : Prop := {
  eff_stack : stack c s' E' cold';
  eff_cold : cold_kept cold cold';
  eff_below : below b E E';
  eff_length : (b <= length E')%nat;
  eff_valid : Forall (valid_word c) E'.*2;
  eff_log : exists new, log s' = log s ++ new /\ accounts c E l E' new;
}.
Lemma effect_refl b s E cold : stack c s E cold -> (b <= length E)%nat -> Forall (valid_word c) E.*2 -> effect b s E cold [] s E cold.
Proof.
  intros. constructor; try done; [by right|apply below_refl|]. exists []. split; [by rewrite app_nil_r|]. intros o. rewrite !occ_nil. lia.
Qed.
Lemma effect_trans b s E cold l s' E' cold' l' s'' E'' cold'' :
  effect b s E cold l s' E' cold' -> effect b s' E' cold' l' s'' E'' cold'' -> effect b s E cold (l ++ l') s'' E'' cold''.
Proof.
  intros [H1 H2 H3 H4 H5 (n & Hn & Ha)] [H1' H2' H3' H4' H5' (n' & Hn' & Ha')]. constructor; try done.
  - unfold cold_kept in *. intuition congruence.
  - by eapply below_trans.
  - exists (n ++ n'). split; [by rewrite Hn', Hn, app_assoc|]. by eapply accounts_trans.
Qed.

(** Tokens of pools, innermost first. *)
Definition token_at (E : list (Z * Z)) (t : Z) (i : nat) : Prop :=
  exists a, E !! i = Some (a, 0) /\ same_address i t a.
Inductive tokens_ok (b : nat) (E : list (Z * Z)) : list Z -> Prop :=
  | tokens_nil : tokens_ok b E []
  | tokens_cons t i toks : token_at E t i -> (b <= i)%nat -> tokens_ok b (take i E) toks -> tokens_ok b E (t :: toks).

Lemma token_below E E' t i : token_at E t i -> below (S i) E E' -> token_at E' t i.
Proof.
  intros (a & Hi & Ha) Hb. destruct (Hb _ _ _ (Nat.lt_succ_diag_r i) Hi) as (a' & Hi' & Ha'). exists a'. split; [done|].
  by eapply same_address_trans.
Qed.
Lemma below_of_take i k E E' : below i E E' -> (i <= k)%nat -> below i (take k E) E'.
Proof. intros H Hk j a w Hj Hl. apply H; [done|]. by rewrite lookup_take_lt in Hl by lia. Qed.
Lemma below_take i E E' : below i E E' -> below i (take i E) (take i E').
Proof.
  intros H j a w Hj Hl. rewrite lookup_take_lt in Hl by done. destruct (H _ _ _ Hj Hl) as (a' & Hl' & Ha).
  exists a'. split; [by rewrite lookup_take_lt|done].
Qed.
Lemma tokens_kept b E toks : tokens_ok b E toks -> forall E',
  (forall t i, t ∈ toks -> token_at E t i -> below (S i) E E') -> tokens_ok b E' toks.
Proof.
  induction 1 as [|E t i toks Ht Hb Htoks IH]; intros E' H; [constructor|].
  assert (HbE : below (S i) E E') by (apply (H t); [left|done]).
  econstructor; [by eapply token_below|done|]. apply IH. intros t' j _ (a & Hj & _).
  apply (below_mono i); [|apply below_take, (below_mono (S i)); [lia|done]].
  apply lookup_lt_Some in Hj. rewrite length_take in Hj. lia.
Qed.

(** ** The contract of [releaseUntil] *)

(** The loop is to stop at [stop] in the page [this], the place of the [k]-th
    entry: the boundary of a pool, or the start of the stack; or it is there. *)
Definition target s (E : list (Z * Z)) (cold : Z) (k : nat) (this stop : Z) : Prop :=
  (exists w, E !! k = Some (stop, w) /\ (w = 0 \/ k = O) /\ this = stop - stop mod SIZE c) \/
  (length E = k /\ exists fs ws es, wfp c s fs this ws es /\ head_of fs this = cold /\ E = entries c (fs ++ [(this, ws)]) /\
    stop = slot c this (length ws)).
Definition popped s (E : list (Z * Z)) (cold : Z) (k : nat) (this : Z) s' : Prop :=
  exists fs ws es new, wfp c s' fs this ws es /\ head_of fs this = cold /\
    length (entries c (fs ++ [(this, ws)])) = k /\ below k E (entries c (fs ++ [(this, ws)])) /\
    log s' = log s ++ new /\ accounts c E [] (entries c (fs ++ [(this, ws)])) new.
Definition releases_until (fuel : nat) (rel : state W -> Z -> Z -> res (state W)) : Prop :=
  forall s E cold k this stop, stack c s E cold -> cold <> 0 -> Forall (valid_word c) E.*2 -> target s E cold k this stop ->
    ok_or_fuel (law /\ (above k E < fuel)%nat) (rel s this stop) (popped s E cold k this).

(** The first entry of the stack starts the coldest page. *)
Lemma first_entry s E cold a w : stack c s E cold -> cold <> 0 -> E !! 0%nat = Some (a, w) -> a = begin_ c cold /\ cold = a - a mod SIZE c.
Proof.
  intros Hst Hc Hi. destruct (stack_cold _ _ _ _ Hst) as [?|(fs & p & ws & es & Hw & -> & ->)]; [done|].
  destruct (entry_page c memalign _ _ _ _ _ _ _ _ Hw Hi) as (A & q & wq & B & j & pg & HE & Hij & Hj & -> & Hjc & Ha & _).
  assert (j = O) as -> by lia. assert (A = []) as ->.
  { destruct A as [|[r wr] A]; [done|]. destruct fs as [|[q' wq'] fs]; [by destruct A|]. simpl in HE. injection HE as -> -> _.
    pose proof (wfp_full _ _ _ _ _ _ Hw) as [Hf _]%Forall_cons. simpl in Hf. pose proof (capacity_pos c memalign).
    unfold entries in Hij. simpl in Hij. rewrite length_app, page_slots_length in Hij. lia. }
  assert (head_of fs p = q) as ->.
  { destruct fs as [|[q' wq'] fs]; simpl in *; by injection HE. }
  split; [by rewrite slot_begin|by rewrite (slot_page c memalign)].
Qed.
Lemma no_pool_entries s cold : stack c s [] cold -> cold <> 0 -> exists es, wfp c s [] cold [] es.
Proof.
  intros Hst Hc. destruct (stack_cold _ _ _ _ Hst) as [?|(fs & p & ws & es & Hw & HE & ->)]; [done|].
  rewrite entries_snoc in HE. symmetry in HE. apply app_nil in HE as [HE Hp].
  apply (f_equal length) in Hp. rewrite page_slots_length in Hp. destruct ws; [|done].
  destruct fs as [|[q wq] fs]; [by exists es|]. exfalso. pose proof (wfp_full _ _ _ _ _ _ Hw) as [Hf _]%Forall_cons.
  unfold entries in HE. simpl in HE. apply app_nil in HE as [HE _]. apply (f_equal length) in HE.
  rewrite page_slots_length in HE. simpl in *. pose proof (capacity_pos c memalign). lia.
Qed.
Lemma target_start s E cold : stack c s E cold -> cold <> 0 -> target s E cold 0 cold (begin_ c cold).
Proof.
  intros Hst Hc. destruct E as [|[a w] E].
  - right. split; [done|]. destruct (no_pool_entries _ _ Hst Hc) as [es Hw]. exists [], [], es. by rewrite slot_begin.
  - left. destruct (first_entry _ _ _ a w Hst Hc) as [-> Hthis]; [done|]. exists w. split_and!; [done|by right|done].
Qed.
Lemma entry_not_placeholder s E cold i a w : stack c s E cold -> cold <> 0 -> E !! i = Some (a, w) -> a <> EMPTY_POOL_PLACEHOLDER.
Proof.
  intros Hst Hc Hi. destruct (stack_cold _ _ _ _ Hst) as [?|(fs & p & ws & es & Hw & -> & _)]; [done|].
  by destruct (entry_page c memalign _ _ _ _ _ _ _ _ Hw Hi) as (A & q & wq & B & j & pg & _ & _ & _ & _ & _ & _ & _ & _ & _ & _ & _ & ?).
Qed.
Lemma target_boundary s E cold k stop : stack c s E cold -> cold <> 0 -> E !! k = Some (stop, 0) ->
  forall s' E', below (S k) E E' -> target s' E' cold k (stop - stop mod SIZE c) stop.
Proof.
  intros Hst Hc Hk s' E' Hb. destruct (Hb _ _ _ (Nat.lt_succ_diag_r k) Hk) as (a' & Hk' & [->|[_ Ha]]).
  - left. exists 0. split_and!; [done|by left|done].
  - by destruct (entry_not_placeholder _ _ _ _ _ _ Hst Hc Hk).
Qed.

(** ** Popping a pool, given such a [releaseUntil] *)
Section Given.
Context (fuel : nat) (rel : state W -> Z -> Z -> res (state W)) (Hrel : releases_until fuel rel).

Lemma drop_children_ok s fs p ws es : wfp c s fs p ws es ->
  exists pg, get s p = Ok pg /\ forall r,
  r = (if nz (child pg) then
         if lessThanHalfFull c p pg then kill c s (child pg)
         else let? ch := get s (child pg) in if nz (child ch) then kill c s (child ch) else Ok s
       else Ok s) ->
  exists m es', r = Ok (set_pages s m) /\ wfp c (set_pages s m) fs p ws es' /\ (length es' <= 1)%nat.
Proof.
  intros Hw. destruct (wfp_lookup c memalign _ _ _ _ _ Hw) as (pg & Hp & _ & _ & _ & Hchi & _).
  exists pg. split; [by apply get_lookup|]. intros r ->. rewrite Hchi. destruct Hw as [Hr Hf Hh].
  assert (Hempties : forall l : list Z, Forall (fun b : Z * list Z => b.2 = []) (map (fun e => (e, [])) l)) by (induction l; by constructor).
  assert (Hnz : forall e es0 A, rep c (pages s) (A ++ (e, []) :: map (fun e => (e, [])) es0) -> nz e = true).
  { intros e es0 A HrA. apply (nz_aligned c memalign). eapply rep_aligned, HrA. }
  destruct es as [|e es]; [exists (pages s), []; split; [by destruct s|]; split; [by constructor|simpl; lia]|].
  simpl in Hr. pose proof Hr as Hr'. rewrite cons_middle, app_assoc in Hr'. rewrite (Hnz _ _ _ Hr').
  destruct (lessThanHalfFull c p pg).
  - destruct (kill_ok c memalign s _ _ _ Hr' (Hempties es)) as (m & Hm & ->). exists m, []. split; [done|]. split; [by constructor|simpl; lia].
  - destruct (rep_lookup _ _ _ _ _ _ Hr') as (pge & He & _ & Hche & _). rewrite (get_lookup _ _ _ He). cbn [rbind]. rewrite Hche.
    destruct es as [|e' es]; simpl.
    + exists (pages s), [e]. split; [by destruct s|]. split; [by constructor|simpl; lia].
    + simpl in Hr'. pose proof Hr' as Hr''. rewrite cons_middle, app_assoc in Hr''. rewrite (Hnz _ _ _ Hr'').
      destruct (kill_ok c memalign s _ _ _ Hr'' (Hempties es)) as (m & Hm & ->). exists m, [e].
      split; [done|]. split; [constructor; [by rewrite <- app_assoc in Hm|done..]|simpl; lia].
Qed.

(** A pool is popped: the stack is what it was below its boundary, and at most
    one empty page is kept. *)
Definition restored s (E : list (Z * Z)) (cold : Z) (i : nat) s' : Prop :=
  exists E' cold' new, stack c s' E' cold' /\ cold_kept cold cold' /\ length E' = i /\ below i E E' /\
    log s' = log s ++ new /\ accounts c E [] E' new /\
    (cold' <> 0 -> exists fs p ws es, wfp c s' fs p ws es /\ E' = entries c (fs ++ [(p, ws)]) /\ (length es <= 1)%nat).

Lemma popPage_ok s E cold k this stop :
  stack c s E cold -> cold <> 0 -> Forall (valid_word c) E.*2 -> target s E cold k this stop ->
  ok_or_fuel (law /\ (above k E < fuel)%nat) (popPage_with c rel false s this stop) (restored s E cold k).
Proof.
  intros Hst Hc Hv Ht. unfold popPage_with. cbn [andb rbind].
  eapply ok_or_fuel_bind; [by apply (Hrel s E cold k this stop)|done|].
  intros s' (fs & ws & es & new & Hw & Hhead & Hlen & Hb & Hlog & Hacc).
  destruct (drop_children_ok _ _ _ _ _ Hw) as (pg & -> & Hkill). cbn [rbind].
  destruct (Hkill _ eq_refl) as (m & es' & -> & Hw' & Hes'). apply ok_or_fuel_Ok.
  exists (entries c (fs ++ [(this, ws)])), cold, new. split_and!; try done; [subst cold; by econstructor|by right|].
  intros _. by exists fs, this, ws, es'.
Qed.
Lemma pageForPointer_page s a q : pageForPointer c s a = Ok q -> q = a - a mod SIZE c.
Proof.
  unfold pageForPointer. destruct (sizeof_page c <=? a mod SIZE c); [|done]. cbn [rbind rassert].
  destruct (fastcheck s _); [|done]. by injection 1.
Qed.
(** The token of a pool leads to its page. *)
Lemma pop_target s E cold t i :
  stack c s E cold -> cold <> 0 -> token_at E t i ->
  exists this stop, target s E cold i this stop /\ pop_with c rel s t = popPage_with c rel false s this stop.
Proof.
  intros Hst Hcold (a & Hi & Hta). destruct (stack_cold _ _ _ _ Hst) as [?|(fs & p & ws & es & Hw & HE & Hhead)]; [done|].
  rewrite HE in Hi. destruct (entry_page c memalign _ _ _ _ _ _ _ _ Hw Hi) as (A & q & wq & B & j & pg & _ & _ & _ & _ & _ & _ & Hpg & _ & _ & Hl & Hq & Hne).
  rewrite <- HE in Hi. apply get_lookup in Hpg. apply pageForPointer_page in Hq as Hqa.
  exists q, a. split; [left; exists 0; split_and!; [done|by left|done]|].
  assert (Hgo : pop_token_with c rel s a q = popPage_with c rel false s q a).
  { unfold pop_token_with. rewrite Hpg. cbn [rbind]. rewrite Hl. cbn [rbind negb andb POOL_BOUNDARY Z.eqb].
    by rewrite Hdebug, Hmissing, Hhiwat. }
  unfold pop_with. destruct (Z.eqb_spec t EMPTY_POOL_PLACEHOLDER) as [->|Hnt].
  - assert (i = O) as -> by (destruct Hta as [?|[? _]]; congruence).
    destruct (wfp_lookup c memalign _ _ _ _ _ Hw) as (_ & _ & Hnz & _).
    rewrite (wfp_hotPage c memalign _ _ _ _ _ Hw). cbn [rbind]. rewrite Hnz.
    cbn [negb]. unfold coldPage. rewrite (wfp_hotPage c memalign _ _ _ _ _ Hw). cbn [rbind]. rewrite Hnz.
    rewrite (coldest_ok c memalign _ _ _ _ _ _ (wfp_rep _ _ _ _ _ _ Hw))
      by (pose proof (walk_enough c _ _ (wfp_rep _ _ _ _ _ _ Hw)) as Hwk; rewrite length_app in Hwk; lia).
    cbn [rbind]. destruct (first_entry _ _ _ _ _ Hst Hcold Hi) as [Ha Hca]. rewrite <- Hhead, <- Ha, Hca, <- Hqa. done.
  - assert (t = a) as -> by (destruct Hta as [?|[_ ?]]; congruence). rewrite Hq. cbn [rbind]. done.
Qed.
Lemma pop_ok s E cold t i :
  stack c s E cold -> Forall (valid_word c) E.*2 -> token_at E t i ->
  ok_or_fuel (law /\ (above i E < fuel)%nat) (pop_with c rel s t) (restored s E cold i).
Proof.
  intros Hst Hv Hti. destruct (stack_cold_cases c memalign _ _ _ Hst) as [Hc|(-> & Hp & [[Ht ->]|[Ht ->]])].
  - destruct (pop_target _ _ _ _ _ Hst Hc Hti) as (this & stop & Htar & ->). by apply popPage_ok.
  - by destruct Hti as (a & Hi & _).
  - destruct Hti as (a & Hi & Hta). destruct i as [|i]; [|done]. injection Hi as <-.
    assert (t = EMPTY_POOL_PLACEHOLDER) as -> by (destruct Hta as [->|[_ ->]]; done).
    unfold pop_with. rewrite Z.eqb_refl. unfold hotPage. rewrite Ht. cbn. exists [], 0, [].
    split_and!; try done; [by apply stack_none|by left|by intros ?; lia|by rewrite app_nil_r|].
    intros o. unfold pending, units, taken_obj. simpl. by destruct (LP64 c).
Qed.

Lemma restored_effect s E cold i s' b : (b <= i <= length E)%nat -> Forall (valid_word c) E.*2 -> restored s E cold i s' ->
  exists E' cold', effect b s E cold [] s' E' cold' /\ length E' = i /\ below i E E' /\ (above b E' <= above b E)%nat.
Proof.
  intros Hb Hv (E' & cold' & new & Hst & Hc & Hl & Hbe & Hlog & Hacc & _). exists E', cold'.
  assert (E'.*2 = take i E.*2) as HE by (apply below_words; [done..|lia]).
  split_and!; [constructor; [done|done|by eapply below_mono; [|done]; lia|lia| |by exists new]|done|done|by eapply above_take].
  rewrite HE. by apply Forall_take.
Qed.

Lemma tokens_lookup b E toks n t : tokens_ok b E toks -> toks !! n = Some t ->
  exists i, token_at E t i /\ (b <= i < length E)%nat /\ tokens_ok b (take i E) (drop (S n) toks).
Proof.
  intros H. revert n t. induction H as [|E t' i toks Ht Hb Htoks IH]; intros n t Hn; [done|].
  assert (Hlt : (i < length E)%nat) by (destruct Ht as (a & Hi & _); by eapply lookup_lt_Some).
  destruct n as [|n]; simpl in Hn.
  - injection Hn as <-. exists i. split_and!; [done|done|done|]. done.
  - destruct (IH _ _ Hn) as (j & (a & Hj & Ha) & Hbj & Hd). rewrite length_take in Hbj. exists j. split_and!; [|lia|lia|].
    + exists a. split; [|done]. by rewrite lookup_take_lt in Hj by lia.
    + rewrite take_take in Hd. by replace (j `min` i)%nat with j in Hd by lia.
Qed.
Lemma token_barrier E t i : token_at E t i -> barrier E (S i) /\ (S i <= length E)%nat.
Proof.
  intros (a & Hi & _). split; [|by eapply lookup_lt_Some]. right. exists a. by replace (S i - 1)%nat with i by lia.
Qed.
Lemma grows_effect b s E cold obj s' E' cold' ev : obj = 0 \/ valid_obj c obj -> stack c s' E' cold' -> cold_kept cold cold' ->
  Forall (valid_word c) E.*2 -> barrier E b -> (b <= length E)%nat -> grows c obj E.*2 E'.*2 -> addresses_kept E E' ->
  log s' = log s ++ ev -> released ev = [] -> (forall o, occ o (autoreleased ev) = if obj =? 0 then 0 else occ o [obj]) ->
  effect b s E cold [] s' E' cold'.
Proof.
  intros Ho Hst Hc Hv Hb Hl Hg Ha Hlog Hr Hau. destruct (grows_barrier _ _ _ _ _ Hg Ha Hb) as [Hbe Hle].
  constructor; try done; [by eapply grows_valid|]. exists ev. split; [done|]. intros o. rewrite Hr, Hau, !occ_nil.
  unfold pending. rewrite (grows_units _ _ _ _ _ Ho Hv Hg). lia.
Qed.
Lemma grows_tokens b obj E E' toks : grows c obj E.*2 E'.*2 -> addresses_kept E E' -> tokens_ok b E toks -> tokens_ok b E' toks.
Proof.
  intros Hg Ha Ht. apply (tokens_kept _ _ _ Ht). intros t i _ [Hbar _]%token_barrier. by apply (grows_barrier c obj).
Qed.

Definition ran b s E cold l (n : nat) (r : state W * list Z) : Prop :=
  exists E' cold', effect b s E cold l r.1 E' cold' /\ (above b E' <= above b E + n)%nat /\ tokens_ok b E' r.2.
Lemma ran_after b s E cold s1 E1 cold1 l n n1 r : effect b s E cold [] s1 E1 cold1 -> (above b E1 <= above b E + n1)%nat ->
  ran b s1 E1 cold1 l n r -> ran b s E cold l (n1 + n) r.
Proof.
  intros He Ha (E' & cold' & He' & Ha' & Ht). exists E', cold'. split_and!; [|lia|done]. by apply (effect_trans _ _ _ _ [] _ _ _ _ _ _ _ He He').
Qed.
Lemma run_ok b calls : forall s E cold toks,
  stack c s E cold -> Forall (valid_word c) E.*2 -> barrier E b -> (b <= length E)%nat -> tokens_ok b E toks -> Forall call_ok calls ->
  ok_or_fuel (law /\ (above b E + calls_weight calls < fuel)%nat) (run_with c memalign G rel s toks calls)
    (ran b s E cold [] (calls_weight calls)).
Proof.
  induction calls as [|x calls IH]; intros s E cold toks Hst Hv Hb Hl Ht Hok.
  { simpl. exists E, cold. split_and!; [by apply effect_refl|lia|done]. }
  apply Forall_cons in Hok as [Hx Hok].
  (* the rest of the calls, after an effect *)
  assert (Hnext : forall s1 E1 cold1 toks1 n, effect b s E cold [] s1 E1 cold1 -> (above b E1 <= above b E + n)%nat -> tokens_ok b E1 toks1 ->
    n = call_weight x ->
    ok_or_fuel (law /\ (above b E + calls_weight (x :: calls) < fuel)%nat) (run_with c memalign G rel s1 toks1 calls) (ran b s E cold [] (calls_weight (x :: calls)))).
  { intros s1 E1 cold1 toks1 n He Ha Ht1 ->. eapply ok_or_fuel_mono; [apply (IH s1 E1 cold1); try done; try apply He| |].
    - by eapply barrier_below, He.
    - intros [??]. unfold calls_weight in *. simpl in *. split; [done|lia].
    - intros r Hr. by eapply ran_after. }
  destruct x as [o| |i]; simpl run_with.
  - unfold objc_autorelease. destruct (tagged_or_nil G o) eqn:Htag; cbn [rbind].
    + eapply Hnext; [by apply effect_refl| |done|done]. lia.
    + specialize (Hx Htag). destruct (autorelease_ok c memalign Hdebug Hmissing G _ _ _ _ Hst Hx Htag Hv)
        as (s1 & E1 & cold1 & -> & Hst1 & Hc1 & Hlog & _ & Hg & Ha). cbn [rbind].
      eapply Hnext; [| |by eapply grows_tokens|done].
      * eapply (grows_effect b s E cold o); try done; [by right|]. intros o'. destruct Hx. destruct (Z.eqb_spec o 0); [lia|done].
      * erewrite (above_grows o); [by rewrite (word_weight_valid o)|by right|done..].
  - destruct (push_ok c memalign Hdebug Hmissing _ _ _ Hst Hv) as (s1 & t & E1 & cold1 & -> & Hst1 & Hc1 & [Hlog _] & HE & Ha & Htop).
    cbn [rbind]. assert (grows c 0 E.*2 E1.*2) as Hg by (rewrite HE; constructor).
    eapply Hnext; [| | |done].
    + eapply (grows_effect b s E cold 0 _ _ _ []); try done; [by left|by rewrite app_nil_r].
    + erewrite (above_grows 0); [by rewrite word_weight_boundary|by left|done..].
    + apply (tokens_cons _ _ _ (length E)); [exists t; split; [done|by left]|done|].
      apply (tokens_kept _ _ _ Ht). intros t' i _ Hti. destruct (token_barrier _ _ _ Hti) as [Hbar Hi].
      destruct (grows_barrier _ _ _ _ _ Hg Ha Hbar) as [Hbe _]. intros j a w Hj Hlj. destruct (Hbe j a w Hj Hlj) as (a' & Hlj' & Hsa).
      exists a'. split; [|done]. rewrite lookup_take_lt by lia. done.
  - destruct (toks !! i) as [t|] eqn:Hti; [|eapply Hnext; [by apply effect_refl| |done|done]; simpl; lia].
    destruct (tokens_lookup _ _ _ _ _ Ht Hti) as (j & Hj & Hbj & Hd).
    eapply ok_or_fuel_bind; [by apply (pop_ok s E cold t j)| |].
    + intros [? Hf]. split; [done|]. pose proof (above_mono b j E). unfold calls_weight in Hf. simpl in Hf. lia.
    + intros s1 Hres. destruct (restored_effect s E cold j s1 b) as (E1 & cold1 & He & Hl1 & Hb1 & Ha1); [lia|done|done|].
      eapply Hnext; [done| | |done]; [simpl; lia|]. apply (tokens_kept _ _ _ Hd). intros t' i' _ (a & Hi' & _).
      apply lookup_lt_Some in Hi'. rewrite length_take in Hi'. apply (below_mono j); [lia|]. by apply below_of_take.
Qed.

Lemma objc_release_ok b s E cold obj :
  stack c s E cold -> Forall (valid_word c) E.*2 -> barrier E b -> (b <= length E)%nat ->
  ok_or_fuel (law /\ (above b E + weight obj <= fuel)%nat) (objc_release_with c memalign G on_release rel s obj)
    (fun s' => exists E' cold', effect b s E cold [obj] s' E' cold' /\ (law -> (above b E' + 1 <= above b E + weight obj)%nat)).
Proof.
  intros Hst Hv Hb Hl. unfold objc_release_with. pose proof (Hcalls (world s) obj) as Hok.
  assert (Hlaw : law -> (calls_weight (on_release (world s) obj).2 < weight obj)%nat) by (intros H; apply H).
  destruct (on_release (world s) obj) as [w calls]. simpl in Hok, Hlaw.
  set (s0 := set_world (record_event s (Released obj)) w).
  assert (stack c s0 E cold) as Hst0 by (destruct Hst as [| |fs p ws es [? ? ?]]; by econstructor).
  eapply ok_or_fuel_bind; [by apply (run_ok b calls s0 E cold []); [..|constructor|]| |].
  - intros [Hlw ?]. specialize (Hlaw Hlw). split; [done|lia].
  - intros [s' toks] (E' & cold' & He & Ha & _). simpl in *. exists E', cold'. split; [|intros Hlw; specialize (Hlaw Hlw); lia].
    destruct He as [H1 H2 H3 H4 H5 (new & Hlog & Hacc)]. constructor; try done. exists (Released obj :: new).
    split; [by rewrite Hlog; simpl; rewrite <- app_assoc|]. intros o. specialize (Hacc o).
    change (released (Released obj :: new)) with (obj :: released new).
    change (autoreleased (Released obj :: new)) with (autoreleased new). rewrite occ_cons. rewrite occ_nil in Hacc. lia.
Qed.
Lemma release_times_ok b obj n : forall s E cold,
  stack c s E cold -> Forall (valid_word c) E.*2 -> barrier E b -> (b <= length E)%nat ->
  ok_or_fuel (law /\ (above b E + n * weight obj <= fuel)%nat) (release_times c memalign G on_release rel n s obj)
    (fun s' => exists E' cold', effect b s E cold (replicate n obj) s' E' cold' /\ (law -> (above b E' + n <= above b E + n * weight obj)%nat)).
Proof.
  induction n as [|n IH]; intros s E cold Hst Hv Hb Hl; simpl.
  { exists E, cold. split; [by apply effect_refl|intros _; lia]. }
  eapply ok_or_fuel_bind; [by apply (objc_release_ok b s E cold obj)|intros [? ?]; split; [done|lia]|].
  intros s1 (E1 & cold1 & He & Ha). destruct He as [H1 H2 H3 H4 H5 H6] eqn:HH. clear HH.
  eapply ok_or_fuel_mono; [apply (IH s1 E1 cold1); [done|done|by eapply barrier_below|done]| |].
  - intros [Hlw ?]. specialize (Ha Hlw). split; [done|lia].
  - intros s2 (E2 & cold2 & He2 & Ha2). exists E2, cold2. split.
    + apply (effect_trans b s E cold [obj] s1 E1 cold1 (replicate n obj)); [by constructor|done].
    + intros Hlw. specialize (Ha Hlw). specialize (Ha2 Hlw). lia.
Qed.
End Given.

(** ** The induction *)
Lemma word_release w : valid_word c w -> negb (taken_obj c w =? POOL_BOUNDARY) = negb (w =? 0).
Proof.
  unfold POOL_BOUNDARY. intros [->|[Hw Ht]]; [by unfold taken_obj; destruct (LP64 c)|].
  apply Z.eqb_neq in Ht. rewrite Ht. destruct (Z.eqb_spec w 0); [lia|done].
Qed.
Lemma units_word w : valid_word c w -> w <> 0 -> units c w = replicate (S (taken_count c w)) (taken_obj c w) /\
  word_weight w = (S (taken_count c w) * weight (taken_obj c w))%nat.
Proof. intros [?|[Hw Ht]] Hnz; [done|]. apply Z.eqb_neq in Ht. unfold units, word_weight. by rewrite Ht. Qed.
Lemma pending_snoc E a w : pending c (E ++ [(a, w)]) = pending c E ++ units c w.
Proof. unfold pending. rewrite fmap_app, map_app, concat_app. simpl. by rewrite app_nil_r. Qed.
Lemma above_snoc b E a w : (b <= length E)%nat -> above b (E ++ [(a, w)]) = (above b E + word_weight w)%nat.
Proof.
  intros Hb. unfold above. rewrite fmap_app, drop_app_le by (by rewrite length_fmap). rewrite sum_list_with_app. simpl. lia.
Qed.

(** One turn: the last entry [(a, w)] is taken off and released, if it is an
    object. *)
Definition turn_done s (E : list (Z * Z)) (cold : Z) (k : nat) (this stop : Z) s' : Prop :=
  exists E' cold', effect k s E cold [] s' E' cold' /\ target s' E' cold k this stop /\
    (law -> (above k E' < above k E)%nat).
Lemma release_entry_ok fuel rel s2 E2 cold a w k stop w0 s E :
  releases_until fuel rel -> stack c s2 E2 cold -> stack c s E cold -> cold <> 0 -> Forall (valid_word c) E.*2 ->
  E = E2 ++ [(a, w)] -> same_rest s s2 ->
  E !! k = Some (stop, w0) -> w0 = 0 \/ k = O -> w <> 0 ->
  ok_or_fuel (law /\ (above k E < S fuel)%nat) (release_times c memalign G on_release rel (S (taken_count c w)) s2 (taken_obj c w))
    (turn_done s E cold k (stop - stop mod SIZE c) stop).
Proof.
  intros Hrel Hst2 Hst Hc Hv HE [Hlog _] Hk Hw0 Hw.
  assert (Hv2 : Forall (valid_word c) E2.*2 /\ valid_word c w).
  { rewrite HE, fmap_app in Hv. by apply Forall_app in Hv as [? [? _]%Forall_cons]. }
  destruct Hv2 as [Hv2 Hvw]. destruct (units_word _ Hvw Hw) as [Hu Hww].
  assert (Hlt : (k < length E)%nat) by (by eapply lookup_lt_Some).
  assert (Hlen : length E = S (length E2)) by (rewrite HE, length_app; simpl; lia).
  assert (Hb2 : below (length E2) E2 E).
  { intros i x y Hi Hx. exists x. split; [|by left]. rewrite HE. by apply lookup_app_l_Some. }
  assert (Hb2' : below (length E2) E E2).
  { intros i x y Hi Hx. exists x. split; [|by left]. by rewrite HE, lookup_app_l in Hx. }
  set (b := if w0 =? 0 then S k else O).
  assert (Hbar : barrier E2 b /\ (k <= b <= length E2)%nat /\
    (forall s3 E3, below b E2 E3 -> stack c s3 E3 cold -> target s3 E3 cold k (stop - stop mod SIZE c) stop) /\
    (forall E3, below b E2 E3 -> above k E3 + above b E2 = above k E2 + above b E3)%nat).
  { unfold b. destruct (Z.eqb_spec w0 0) as [->|Hnz].
    - assert (k < length E2)%nat as Hk2.
      { destruct (decide (k = length E2)) as [->|]; [|lia]. rewrite HE, list_lookup_middle in Hk by done. congruence. }
      assert (E2 !! k = Some (stop, 0)) as Hk2' by (rewrite HE, lookup_app_l in Hk by done; done).
      split_and!; [right; exists stop; by replace (S k - 1)%nat with k by lia|lia|lia| |].
      + intros s3 E3 Hb3 _. by apply (target_boundary s2 E2 cold k stop Hst2 Hc Hk2').
      + intros E3 Hb3. destruct (Hb3 k stop 0 (Nat.lt_succ_diag_r k) Hk2') as (a' & Hk3 & _). unfold above.
        rewrite (drop_S E2.*2 0 k), (drop_S E3.*2 0 k) by (rewrite list_lookup_fmap; try rewrite Hk2'; try rewrite Hk3; done).
        simpl. lia.
    - destruct Hw0 as [?| ->]; [done|]. split_and!; [by left|lia|lia| |intros; lia].
      intros s3 E3 _ Hst3. destruct (first_entry _ _ _ _ _ Hst Hc Hk) as [Ha Hq]. rewrite <- Hq, Ha. by apply target_start. }
  destruct Hbar as (Hbar & Hkb & Htar & Hab). rewrite HE, above_snoc, Hww by lia.
  eapply ok_or_fuel_mono; [by apply (release_times_ok fuel rel Hrel b (taken_obj c w) _ s2 E2 cold); [..|lia]| |].
  - intros [? Hf]. split; [done|]. pose proof (above_mono k b E2). specialize (Hab E2 (below_refl _ _)). 
    unfold b in *. destruct (Z.eqb_spec w0 0) as [->|]; [|replace k with O in * by (by destruct Hw0); lia].
    assert (above k E2 = S (above (S k) E2)); [|lia].
    assert (E2.*2 !! k = Some 0) as Hz by (rewrite list_lookup_fmap; rewrite HE, lookup_app_l in Hk by lia; by rewrite Hk).
    unfold above. rewrite (drop_S _ _ _ Hz). simpl. by rewrite word_weight_boundary.
  - intros s3 (E3 & cold3 & [H1 H2 H3 H4 H5 (new & Hn & Hacc)] & Ha). destruct H2 as [?| ->]; [done|].
    exists E3, cold. split; [constructor; try done|split].
    + by right.
    + intros i x y Hi Hx. rewrite <- HE in Hx. destruct (Hb2' i x y ltac:(lia) Hx) as (x' & Hx' & Hs).
      destruct (H3 i x' y ltac:(lia) Hx') as (x'' & Hx'' & Hs'). exists x''. split; [done|]. by eapply same_address_trans.
    + lia.
    + exists new. split; [by rewrite Hn, Hlog|]. intros o. specialize (Hacc o). rewrite pending_snoc, Hu, occ_app, occ_nil. lia.
    + by apply Htar.
    + intros Hlw. specialize (Ha Hlw). specialize (Hab E3 H3). rewrite above_snoc, Hww by lia. lia.
Qed.

(** [target] decides the loop's condition. *)
Lemma target_reached s E cold k this stop : stack c s E cold -> cold <> 0 -> target s E cold k this stop ->
  exists pg, get s this = Ok pg /\
    ((next pg =? stop) = true /\ (exists fs ws es, wfp c s fs this ws es /\ head_of fs this = cold /\ E = entries c (fs ++ [(this, ws)]) /\ length E = k) \/
     (next pg =? stop) = false /\ exists w, E !! k = Some (stop, w) /\ (w = 0 \/ k = O) /\ this = stop - stop mod SIZE c).
Proof.
  intros Hst Hc [(w & Hk & Hw & Hthis)|(Hl & fs & ws & es & Hw & Hhead & HE & Hstop)].
  - destruct (stack_cold _ _ _ _ Hst) as [?|(fs & p & ws & es & Hwf & HE & _)]; [done|]. rewrite HE in Hk.
    destruct (entry_page c memalign _ _ _ _ _ _ _ _ Hwf Hk) as (A & q & wq & B & j & pg & _ & _ & Hj & Ha & Hjc & Hal & Hpg & _ & Hn & _).
    assert (this = q) as -> by (rewrite Hthis, Ha; by rewrite (slot_page c memalign)).
    exists pg. split; [by apply get_lookup|]. right. split; [|exists w; by rewrite HE]. rewrite Hn, Ha. apply Z.eqb_neq.
    intros Hs. apply page_slot_inj in Hs. apply lookup_lt_Some in Hj. lia.
  - destruct (wfp_lookup c memalign _ _ _ _ _ Hw) as (pg & Hp & _ & _ & _ & _ & Hn & _). exists pg. split; [by apply get_lookup|].
    left. rewrite Hn, Hstop, Z.eqb_refl. split; [done|]. by exists fs, ws, es.
Qed.

(** The last entry is the boundary itself: the loop ends. *)
Lemma boundary_taken s s2 fs1 p1 ws1 es1 E cold k stop a w :
  stack c s E cold -> E = entries c (fs1 ++ [(p1, ws1)]) ++ [(a, w)] -> wfp c s2 fs1 p1 ws1 es1 -> head_of fs1 p1 = cold ->
  a = slot c p1 (length ws1) -> (length ws1 < capacity c)%nat -> w = 0 -> same_rest s s2 -> Forall (valid_word c) E.*2 ->
  E !! k = Some (stop, 0) ->
  turn_done s E cold k (stop - stop mod SIZE c) stop s2.
Proof.
  intros Hst HE Hw Hhead Ha Hl -> [Hlog _] Hv Hk. set (E2 := entries c (fs1 ++ [(p1, ws1)])) in *.
  assert (Hlen : length E = S (length E2)) by (rewrite HE, length_app; simpl; lia).
  assert (Hkl : (k < length E)%nat) by (by eapply lookup_lt_Some).
  exists E2, cold. split; [constructor|split].
  - rewrite <- Hhead. by econstructor.
  - by right.
  - intros i x y Hi Hx. exists x. split; [|by left]. rewrite HE, lookup_app_l in Hx by lia. done.
  - lia.
  - rewrite HE, fmap_app in Hv. by apply Forall_app in Hv as [? _].
  - exists []. split; [by rewrite app_nil_r, Hlog|]. intros o. rewrite HE, pending_snoc.
    assert (units c 0 = []) as -> by (unfold units, taken_obj; by destruct (LP64 c)). rewrite app_nil_r, !occ_nil. lia.
  - destruct (decide (k = length E2)) as [->|Hne].
    + right. split; [done|]. rewrite HE, list_lookup_middle in Hk by done. injection Hk as <-.
      assert (a - a mod SIZE c = p1) as ->.
      { rewrite Ha. apply (slot_page c memalign); [|done]. eapply rep_aligned. apply Hw. }
      by exists fs1, ws1, es1.
    + left. exists 0. rewrite HE, lookup_app_l in Hk by lia. split_and!; [done|by left|done].
  - intros _. rewrite HE, above_snoc, word_weight_boundary by lia. lia.
Qed.

(** One turn of the loop. *)
Definition turn (rel : state W -> Z -> Z -> res (state W)) s : res (state W) :=
  let? page := hotPage s in
  let? (s, page) := skip_empty c (walk s) s page in
  let? (s, w) := take_entry c s page in
  if negb (taken_obj c w =? POOL_BOUNDARY) then release_times c memalign G on_release rel (S (taken_count c w)) s (taken_obj c w) else Ok s.
Lemma releaseUntil_turn fuel s this stop : releaseUntil c memalign G on_release (S fuel) s this stop =
  let? pg := get s this in
  if negb (next pg =? stop) then
    let? s := turn (releaseUntil c memalign G on_release fuel) s in releaseUntil c memalign G on_release fuel s this stop
  else setHotPage s this.
Proof.
  cbn [releaseUntil]. destruct (get s this); [|done]. cbn [rbind]. destruct (negb _); [|done]. unfold turn.
  destruct (hotPage s); [|done]. cbn [rbind]. destruct (skip_empty _ _ _ _) as [[s1 page]|]; [|done]. cbn [rbind].
  by destruct (take_entry _ _ _) as [[s2 w]|].
Qed.
Lemma turn_ok fuel rel s E cold k this stop pg :
  releases_until fuel rel -> stack c s E cold -> cold <> 0 -> Forall (valid_word c) E.*2 -> get s this = Ok pg ->
  (exists w, E !! k = Some (stop, w) /\ (w = 0 \/ k = O) /\ this = stop - stop mod SIZE c) ->
  ok_or_fuel (law /\ (above k E < S fuel)%nat)
    (turn rel s)
    (turn_done s E cold k this stop).
Proof.
  intros Hrel Hst Hc Hv Hpg (w0 & Hk & Hw0 & ->).
  unfold turn. destruct (stack_cold _ _ _ _ Hst) as [?|(fs & p & ws & es & Hw & HE & Hhead)]; [done|].
  destruct E as [|[a w] E2 _] using rev_ind; [done|].
  rewrite (wfp_hotPage c memalign _ _ _ _ _ Hw). cbn [rbind].
  destruct (top_entry c memalign s fs p ws es E2 a w (size (pages s)) Hw (eq_sym HE))
    as (s1 & s2 & fs1 & p1 & ws1 & es1 & Hskip & Htake & Hw2 & HE2 & Hs2 & Hhead2 & Ha & Hl1).
  unfold walk. rewrite Hskip. cbn [rbind]. rewrite Htake. cbn [rbind].
  assert (valid_word c w) as Hvw by (rewrite fmap_app in Hv; by apply Forall_app in Hv as [_ [? _]%Forall_cons]).
  rewrite (word_release _ Hvw). assert (stack c s2 E2 cold) as Hst2 by (rewrite HE2, Hhead, <- Hhead2; by econstructor).
  destruct (Z.eqb_spec w 0) as [Hz|Hnz]; cbn [negb].
  - apply ok_or_fuel_Ok. destruct (decide (w0 = 0)) as [->|Hn0].
    + subst E2. eapply boundary_taken; try done. by rewrite Hhead2.
    + destruct Hw0 as [?| ->]; [done|]. destruct (first_entry _ _ _ _ _ Hst Hc Hk) as [Hstop Hcold].
      exists E2, cold. split; [constructor|split].
      * done.
      * by right.
      * intros i x y Hi. lia.
      * lia.
      * rewrite fmap_app in Hv. by apply Forall_app in Hv as [? _].
      * destruct Hs2 as [Hlog _]. exists []. split; [by rewrite app_nil_r, Hlog|]. intros o. rewrite pending_snoc, Hz.
        assert (units c 0 = []) as -> by (unfold units, taken_obj; by destruct (LP64 c)). rewrite app_nil_r, !occ_nil. lia.
      * rewrite <- Hcold, Hstop. by apply target_start.
      * intros _. rewrite above_snoc, Hz, word_weight_boundary by lia. lia.
  - by eapply release_entry_ok.
Qed.

(** [releaseUntil] keeps its contract, whatever fuel it has. *)
Lemma releaseUntil_ok fuel : releases_until fuel (releaseUntil c memalign G on_release fuel).
Proof.
  induction fuel as [|fuel IH]; intros s E cold k this stop Hst Hc Hv Ht; [intros [_ ?]; lia|]. rewrite releaseUntil_turn.
  destruct (target_reached _ _ _ _ _ _ Hst Hc Ht) as (pg & Hpg & [[Hn (fs & ws & es & Hw & Hhead & HE & Hl)]|[Hn Hk]]);
    rewrite Hpg; cbn [rbind]; rewrite Hn; cbn [negb].
  - destruct (wfp_lookup c memalign _ _ _ _ _ Hw) as (pg' & Hp & _). rewrite (setHotPage_lookup _ _ _ Hp).
    apply ok_or_fuel_Ok. exists fs, ws, es, []. rewrite <- HE. split_and!; [|done|done|apply below_refl|by rewrite app_nil_r|].
    + by destruct Hw; constructor.
    + intros o. rewrite !occ_nil. lia.
  - eapply ok_or_fuel_bind; [by apply (turn_ok _ _ _ _ _ _ _ _ _ IH Hst Hc Hv Hpg Hk)|done|].
    intros s' (E' & cold' & [H1 H2 H3 H4 H5 (new & Hlog & Hacc)] & Htar & Ha). destruct H2 as [?| ->]; [done|].
    eapply ok_or_fuel_mono; [by apply (IH s' E' cold k this stop)|intros [Hlw Hf]; specialize (Ha Hlw); split; [done|lia]|].
    intros s'' (fs & ws & es & new' & Hw & Hhead & Hl & Hb & Hlog' & Hacc'). exists fs, ws, es, (new ++ new').
    split_and!; try done; [by eapply below_trans|by rewrite Hlog', Hlog, app_assoc|].
    apply (accounts_trans c E E' _ [] []); done.
Qed.
End Pop.
