(* ===== verification/AutoreleasePoolProperties.v ===== *)
(** * What autorelease pools promise

    The theorems about whole pools and whole threads, from the contracts of
    AutoreleasePoolPop.v. *)

From stdpp Require Import prelude numbers list gmap.
From Stdlib Require Import ZArith Lia Bool Permutation.
From S2P Require Import Prelude TaggedPointer AutoreleasePool AutoreleasePoolTheory AutoreleasePoolPop.

(** The configuration without pool debugging. *)
Definition plain (c : config) : Prop :=
  DebugPoolAllocation c = false /\ DebugMissingPools c = false /\ PrintPoolHiwat c = false.

Lemma occ_Permutation l l' : (forall o, occ o l = occ o l') -> l ≡ₚ l'.
Proof. intros H. apply (Permutation_count_occ Z.eq_dec). intros o. specialize (H o). unfold occ in H. lia. Qed.

Section Properties.
Context (c : config) (memalign : page_map -> Z * list Z) {PE : PoolEnv c memalign} {W : Type}.
Context (Hplain : plain c) (G : option tag_config) (on_release : W -> Z -> W * list call) (weight : Z -> nat).
Context (Hcalls : forall w o, Forall (call_ok c G) (snd (on_release w o))).
Implicit Types s : state W.
Abbreviation run' := (run c memalign G on_release).
Abbreviation pop' := (pop c memalign G on_release).

Let Hd : DebugPoolAllocation c = false := proj1 Hplain.
Let Hm : DebugMissingPools c = false := proj1 (proj2 Hplain).
Let Hh : PrintPoolHiwat c = false := proj2 (proj2 Hplain).

Lemma rep_nil m : rep c m [] -> m = ∅.
Proof. intros (_ & _ & Hdom & _). by apply dom_empty_inv_L. Qed.

(** What is left of the stack, after a push, calls and the pop. *)
Lemma cut_back E E1 E2 E3 : E1.*2 = E.*2 ++ [0] -> addresses_kept E E1 -> below (S (length E)) E1 E2 -> below (length E) E2 E3 ->
  length E3 = length E -> (length E <= length E2)%nat -> E3.*2 = E.*2 /\ addresses_kept E E3.
Proof.
  intros HE1 Ha1 Hb2 Hb3 Hl3 Hl2.
  assert (Hlen : length E1 = S (length E)).
  { apply (f_equal length) in HE1. rewrite length_app, !length_fmap in HE1. simpl in HE1. lia. }
  split.
  - rewrite (below_words _ _ _ Hb3 Hl3 Hl2). assert (Hb12 : below (length E) E1 E2) by (eapply below_mono; [|done]; lia).
    apply list_eq. intros i. destruct (decide (i < length E)%nat).
    + rewrite lookup_take_lt by done. destruct (lookup_lt_is_Some_2 E1 i) as [[a w] Hi]; [lia|].
      destruct (Hb12 _ _ _ ltac:(done) Hi) as (a' & Hi' & _). rewrite list_lookup_fmap, Hi'. simpl.
      assert (E1.*2 !! i = Some w) as Hw1 by (by rewrite list_lookup_fmap, Hi).
      rewrite HE1, lookup_app_l in Hw1 by (by rewrite length_fmap). by rewrite Hw1.
    + rewrite lookup_take_ge by lia. rewrite lookup_ge_None_2; [done|]. rewrite length_fmap. lia.
  - intros i a w Hi. destruct (Ha1 _ _ _ Hi) as (a1 & w1 & Hi1 & Hs1). apply lookup_lt_Some in Hi as Hil.
    destruct (Hb2 i a1 w1 ltac:(lia) Hi1) as (a2 & Hi2 & Hs2). destruct (Hb3 _ _ _ Hil Hi2) as (a3 & Hi3 & Hs3).
    exists a3, w1. split; [done|]. eapply same_address_trans; [done|]. by eapply same_address_trans.
Qed.
Lemma pending_boundary (E E1 : list (Z * Z)) : E1.*2 = E.*2 ++ [0] -> pending c E1 = pending c E.
Proof. intros HE. unfold pending. rewrite HE, map_app, concat_app. simpl. unfold units at 2, taken_obj. by destruct (LP64 c); rewrite app_nil_r. Qed.

(** A thread with stack [E]: [push], [calls], [pop]. *)
Lemma scope_ok fuel s E cold calls :
  stack c s E cold -> Forall (valid_word c) E.*2 -> Forall (call_ok c G) calls ->
  exists s1 t, push c memalign s = Ok (s1, t) /\
    ok_or_fuel (law on_release weight /\ (calls_weight weight calls + 1 < fuel)%nat)
      (let? (s2, _) := run' fuel s1 [] calls in pop' fuel s2 t)
      (fun s3 => exists E3 cold3 new, stack c s3 E3 cold3 /\ cold_kept cold cold3 /\ E3.*2 = E.*2 /\ addresses_kept E E3 /\
        log s3 = log s ++ new /\ released new ≡ₚ autoreleased new).
Proof.
  intros Hst Hv Hok. destruct (push_ok c memalign Hd Hm _ _ _ Hst Hv) as (s1 & t & E1 & cold1 & Hpush & Hst1 & Hc1 & [Hlog1 _] & HE1 & Ha1 & Ht).
  exists s1, t. split; [done|].
  assert (Hv1 : Forall (valid_word c) E1.*2).
  { rewrite HE1. apply Forall_app. split; [done|]. apply Forall_singleton. by left. }
  assert (Hlen : length E1 = S (length E)).
  { apply (f_equal length) in HE1. rewrite length_app, !length_fmap in HE1. simpl in HE1. lia. }
  assert (Hbar : barrier E1 (S (length E))) by (right; exists t; by replace (S (length E) - 1)%nat with (length E) by lia).
  assert (Habove : above c weight (S (length E)) E1 = 0%nat).
  { unfold above. rewrite drop_ge; [done|]. rewrite length_fmap. lia. }
  pose proof (releaseUntil_ok c memalign Hd Hm Hh G on_release weight Hcalls fuel) as Hrel.
  eapply ok_or_fuel_bind; [apply (run_ok c memalign Hd Hm Hh G on_release weight fuel _ Hrel (S (length E)) calls s1 E1 cold1 []);
    [done|done|done|lia|constructor|done]|intros [? ?]; split; [done|lia]|].
  intros [s2 toks] (E2 & cold2 & [Hst2 Hc2 Hb2 Hl2 Hv2 (n2 & Hlog2 & Hacc2)] & Hab2 & _). simpl in *.
  destruct (Hb2 _ _ _ (Nat.lt_succ_diag_r _) Ht) as (t' & Ht' & Hsame).
  assert (Htok : token_at E2 t (length E)) by (exists t'; split; [done|]; destruct Hsame as [->|[? ?]]; [by left|by right]).
  eapply ok_or_fuel_mono; [apply (pop_ok c memalign Hd Hm Hh on_release weight fuel _ Hrel s2 E2 cold2 t (length E) Hst2 Hv2 Htok)| |].
  - intros [? ?]. split; [done|]. unfold above in *. destruct (lookup_lt_is_Some_2 E2.*2 (length E)) as [w Hw]; [rewrite length_fmap; lia|].
    rewrite (drop_S _ _ _ Hw). simpl. rewrite list_lookup_fmap, Ht' in Hw. injection Hw as <-. rewrite word_weight_boundary. lia.
  - intros s3 (E3 & cold3 & n3 & Hst3 & Hc3 & Hl3 & Hb3 & Hlog3 & Hacc3 & _). exists E3, cold3, (n2 ++ n3).
    destruct (cut_back E E1 E2 E3 HE1 Ha1 Hb2 Hb3 Hl3 ltac:(lia)) as [HE3 Ha3]. split_and!; try done.
    + unfold cold_kept in *. intuition congruence.
    + by rewrite Hlog3, Hlog2, Hlog1, app_assoc.
    + apply occ_Permutation. intros o. specialize (Hacc2 o). specialize (Hacc3 o).
      rewrite released_app, autoreleased_app, !occ_app. rewrite (pending_words c E3 E HE3) in Hacc3.
      rewrite (pending_boundary _ _ HE1) in Hacc2. rewrite !occ_nil in *. lia.
Qed.

(** ** The order of releases, when they set nothing off *)
Definition unwind (ws : list Z) : list event := map Released (concat (map (units c) (rev ws))).
Context (quiet : Prop) (Hquiet : quiet -> forall w o, snd (on_release w o) = []).

Lemma release_times_quiet rel n s obj s' : quiet -> release_times c memalign G on_release rel n s obj = Ok s' ->
  tls s' = tls s /\ pages s' = pages s /\ log s' = log s ++ map Released (replicate n obj).
Proof.
  intros Hq. revert s. induction n as [|n IH]; intros s H; simpl in H; [injection H as <-; by rewrite app_nil_r|].
  unfold objc_release_with in H. pose proof (Hquiet Hq (world s) obj) as Hc. destruct (on_release (world s) obj) as [w calls].
  simpl in Hc. subst calls. simpl in H. destruct (IH _ H) as (-> & -> & ->). split_and!; try done. simpl. by rewrite <- app_assoc.
Qed.
Lemma releaseUntil_quiet fuel : forall s E cold k this stop s', quiet -> stack c s E cold -> cold <> 0 -> Forall (valid_word c) E.*2 ->
  target c s E cold k this stop -> releaseUntil c memalign G on_release fuel s this stop = Ok s' -> log s' = log s ++ unwind (drop k E.*2).
Proof.
  induction fuel as [|fuel IH]; intros s E cold k this stop s' Hq Hst Hc Hv Ht H; [done|]. rewrite releaseUntil_turn in H.
  destruct (target_reached c memalign _ _ _ _ _ _ Hst Hc Ht) as (pg & Hpg & [[Hn (fs & ws & es & Hw & _ & HE & Hl)]|[Hn (w0 & Hk & Hw0 & Hthis)]]);
    rewrite Hpg in H; cbn [rbind] in H; rewrite Hn in H; cbn [negb] in H.
  - destruct (wfp_lookup c memalign _ _ _ _ _ Hw) as (pg' & Hp & _). rewrite (setHotPage_lookup _ _ _ Hp) in H. injection H as <-.
    rewrite drop_ge by (rewrite length_fmap; lia). unfold unwind. simpl. by rewrite app_nil_r.
  - destruct (stack_cold _ _ _ _ Hst) as [?|(fs & p & ws & es & Hw & HE & Hhead)]; [done|].
    destruct E as [|[a w] E2 _] using rev_ind; [done|]. unfold turn in H.
    rewrite (wfp_hotPage c memalign _ _ _ _ _ Hw) in H. cbn [rbind] in H.
    destruct (top_entry c memalign s fs p ws es E2 a w (size (pages s)) Hw (eq_sym HE))
      as (s1 & s2 & fs1 & p1 & ws1 & es1 & Hskip & Htake & Hw2 & HE2 & [Hlog _] & Hhead2 & Ha & Hl1).
    unfold walk in H. rewrite Hskip in H. cbn [rbind] in H. rewrite Htake in H. cbn [rbind] in H.
    rewrite fmap_app in Hv. apply Forall_app in Hv as [Hv2 [Hvw _]%Forall_cons].
    assert (Hkl : (k < S (length E2))%nat) by (apply lookup_lt_Some in Hk; rewrite length_app in Hk; simpl in Hk; lia).
    destruct (if negb (taken_obj c w =? POOL_BOUNDARY) then _ else _) as [s3|] eqn:Hrel; [|done]. cbn [rbind] in H.
    assert (tls s3 = tls s2 /\ pages s3 = pages s2 /\ log s3 = log s2 ++ map Released (units c w)) as (Htls & Hpages & Hlog3).
    { unfold units. change POOL_BOUNDARY with 0 in Hrel. destruct (taken_obj c w =? 0); cbn [negb] in Hrel.
      - injection Hrel as <-. by rewrite app_nil_r.
      - by eapply release_times_quiet. }
    assert (Hw3 : wfp c s3 fs1 p1 ws1 es1) by (destruct Hw2; constructor; [by rewrite Hpages|done|by rewrite Htls]).
    rewrite (IH s3 E2 cold k this stop s' Hq); [| | |done| |done].
    + rewrite Hlog3, Hlog, fmap_app, drop_app_le by (rewrite length_fmap; lia). unfold unwind. rewrite rev_app_distr. simpl.
      by rewrite map_app, app_assoc.
    + rewrite HE2, Hhead, <- Hhead2. by econstructor.
    + done.
    + destruct (decide (k = length E2)) as [->|Hne].
      * rewrite list_lookup_middle in Hk by done. injection Hk as <- <-. right. split; [done|]. exists fs1, ws1, es1.
        assert (this = p1) as -> by (rewrite Hthis, Ha; apply (slot_page c memalign); [eapply rep_aligned; apply Hw2|done]).
        split_and!; [done|by rewrite Hhead2, <- Hhead|done|done].
      * left. exists w0. rewrite lookup_app_l in Hk by lia. done.
Qed.
Lemma pop_quiet fuel s E cold t i s' : quiet -> stack c s E cold -> Forall (valid_word c) E.*2 -> token_at E t i ->
  pop' fuel s t = Ok s' -> log s' = log s ++ unwind (drop i E.*2).
Proof.
  intros Hq Hst Hv Hti H. unfold pop in H. destruct (stack_cold_cases c memalign _ _ _ Hst) as [Hc|(-> & Hp & [[Ht ->]|[Ht ->]])].
  - destruct (pop_target c memalign Hd Hm Hh (releaseUntil c memalign G on_release fuel) _ _ _ _ _ Hst Hc Hti) as (this & stop & Htar & Hpop).
    rewrite Hpop in H. unfold popPage_with in H. cbn [andb rbind] in H. destruct (releaseUntil _ _ _ _ _ _ _ _) as [s1|] eqn:Hru; [|done]. cbn [rbind] in H.
    rewrite <- (releaseUntil_quiet _ _ _ _ _ _ _ _ Hq Hst Hc Hv Htar Hru).
    pose proof (releaseUntil_ok c memalign Hd Hm Hh G on_release weight Hcalls fuel s E cold i this stop Hst Hc Hv Htar) as Hok.
    rewrite Hru in Hok. destruct Hok as (fs & ws & es & new & Hw & _).
    destruct (drop_children_ok c memalign _ _ _ _ _ Hw) as (pg & Hpg & Hkill). rewrite Hpg in H. cbn [rbind] in H.
    destruct (Hkill _ eq_refl) as (m & es' & Hr & _). rewrite Hr in H. by injection H as <-.
  - by destruct Hti as (a & Hi & _).
  - destruct Hti as (a & Hi & Hta). destruct i as [|i]; [|done]. injection Hi as <-.
    assert (t = EMPTY_POOL_PLACEHOLDER) as -> by (destruct Hta as [->|[_ ->]]; done).
    unfold pop_with in H. rewrite Z.eqb_refl in H. unfold hotPage in H. rewrite Ht in H. cbn in H. injection H as <-.
    simpl. unfold unwind. simpl. unfold units, taken_obj. simpl. destruct (LP64 c); by rewrite app_nil_r.
Qed.

(** ** The end of a thread *)

(** Everything is popped from the coldest page on. *)
Lemma pop_all_ok fuel s E cold : stack c s E cold -> cold <> 0 -> Forall (valid_word c) E.*2 ->
  exists pg, get s cold = Ok pg /\
    ok_or_fuel (law on_release weight /\ (above c weight 0 E < fuel)%nat)
      (if negb (empty c cold pg) then pop' fuel s (begin_ c cold) else Ok s)
      (fun s' => exists es' new, wfp c s' [] cold [] es' /\ log s' = log s ++ new /\ accounts c E [] [] new).
Proof.
  intros Hst Hc Hv. destruct E as [|[a w] E].
  { destruct (no_pool_entries c memalign _ _ Hst Hc) as [es Hw]. destruct (wfp_lookup c memalign _ _ _ _ _ Hw) as (pg & Hp & _ & _ & _ & _ & Hn & _).
    exists pg. split; [by apply get_lookup|]. rewrite (empty_slot _ _ _ _ Hn). apply ok_or_fuel_Ok. exists es, []. split_and!; [done|by rewrite app_nil_r|].
    intros o. rewrite !occ_nil. lia. }
  destruct (first_entry c memalign _ _ _ a w Hst Hc) as [Ha Hca]; [done|].
  destruct (stack_cold _ _ _ _ Hst) as [?|(fs & p & ws & es & Hw & HE & Hhead)]; [done|].
  destruct (entry_page c memalign s fs p ws es 0 a w Hw) as (A & q & wq & B & j & pg & HAB & Hj0 & Hj & Haq & Hjc & Hal & Hp & Hpar & Hn & Hl & Hq & Hne); [by rewrite <- HE|].
  apply pageForPointer_page in Hq as Hqa. rewrite <- Hca in Hqa. subst q. assert (j = O) as -> by lia.
  assert (parent pg = 0) as Hpar0.
  { rewrite Hpar. destruct A as [|[r wr] A]; [done|]. exfalso. destruct fs as [|[r' wr'] fs]; [by destruct A|].
    simpl in HAB. injection HAB as -> -> _. pose proof (wfp_full _ _ _ _ _ _ Hw) as [Hf _]%Forall_cons. simpl in Hf.
    unfold entries in Hj0. simpl in Hj0. rewrite length_app, page_slots_length in Hj0. pose proof (capacity_pos c memalign). lia. }
  exists pg. split; [by apply get_lookup|]. rewrite (empty_slot _ _ _ _ Hn).
  destruct (Nat.eqb_spec (length wq) 0) as [Hz|_]; [apply lookup_lt_Some in Hj; lia|]. cbn [negb].
  unfold pop, pop_with. apply Z.eqb_neq in Hne. rewrite <- Ha, Hne, Hq. cbn [rbind].
  unfold pop_token_with. rewrite (get_lookup _ _ _ Hp). cbn [rbind]. rewrite Hl. cbn [rbind]. rewrite Hpar0, Ha, Z.eqb_refl, Hd, Hm, Hh.
  change (nz 0) with false. cbn [negb andb orb]. rewrite andb_false_r.
  eapply ok_or_fuel_mono; [apply (popPage_ok c memalign on_release weight fuel _ (releaseUntil_ok c memalign Hd Hm Hh G on_release weight Hcalls fuel)
    s _ cold 0 cold (begin_ c cold) Hst Hc Hv (target_start c memalign _ _ _ Hst Hc))|done|].
  intros s' (E' & cold' & new & Hst' & [?| ->] & Hl' & _ & Hlog & Hacc & _); [done|]. destruct E'; [|done].
  destruct (no_pool_entries c memalign _ _ Hst' Hc) as [es' Hw']. by exists es', new.
Qed.
Lemma exit_ok fuel s E cold : stack c s E cold -> Forall (valid_word c) E.*2 ->
  ok_or_fuel (law on_release weight /\ (above c weight 0 E < fuel)%nat)
    (tls_dealloc c memalign G on_release fuel (set_tls s 0) (tls s))
    (fun s' => pages s' = ∅ /\ tls s' = 0 /\ exists new, log s' = log s ++ new /\ released new ≡ₚ pending c E ++ autoreleased new).
Proof.
  intros Hst Hv. unfold tls_dealloc.
  assert (Hend : forall E, E = [] \/ E = [(EMPTY_POOL_PLACEHOLDER, POOL_BOUNDARY)] -> exists new, log s = log s ++ new /\ released new ≡ₚ pending c E ++ autoreleased new).
  { intros E' HE'. exists []. split; [by rewrite app_nil_r|]. destruct HE' as [->| ->]; [done|]. unfold pending, units, taken_obj. simpl. by destruct (LP64 c). }
  destruct (stack_cold_cases c memalign _ _ _ Hst) as [Hc|(-> & Hp & [[Ht ->]|[Ht ->]])].
  2: { rewrite Ht. cbn. split_and!; [done|done|]. exact (Hend [] (or_introl eq_refl)). }
  2: { rewrite Ht. cbn. split_and!; [done|done|]. exact (Hend _ (or_intror eq_refl)). }
  destruct (stack_cold _ _ _ _ Hst) as [?|(fs & p & ws & es & Hw & HE & Hhead)]; [done|].
  destruct (wfp_lookup c memalign _ _ _ _ _ Hw) as (pg & Hp & Hnz & Hne & _). rewrite (wfp_hot _ _ _ _ _ _ Hw).
  apply Z.eqb_neq in Hne. rewrite Hne, (setHotPage_lookup (set_tls s 0) _ _ Hp). cbn [rbind].
  set (s0 := set_tls (set_tls s 0) p).
  assert (Hw0 : wfp c s0 fs p ws es) by (destruct Hw; by constructor).
  assert (Hst0 : stack c s0 E cold) by (rewrite HE, Hhead; by econstructor).
  unfold coldPage. rewrite (wfp_hotPage c memalign _ _ _ _ _ Hw0). cbn [rbind]. rewrite Hnz.
  rewrite (coldest_ok c memalign _ _ _ _ _ _ (wfp_rep _ _ _ _ _ _ Hw0))
    by (pose proof (walk_enough c _ _ (wfp_rep _ _ _ _ _ _ Hw0)) as Hwk; rewrite length_app in Hwk; lia).
  cbn [rbind]. rewrite <- Hhead. apply nz_true in Hc as Hcz. rewrite Hcz, Hd, Hm. cbn [orb].
  destruct (pop_all_ok fuel s0 E cold Hst0 Hc Hv) as (pgc & -> & Hpop). cbn [rbind].
  apply (ok_or_fuel_bind _ (law on_release weight /\ (above c weight 0 E < fuel)%nat) _ _
    (fun s1 => pages s1 = ∅ /\ exists new, log s1 = log s ++ new /\ released new ≡ₚ pending c E ++ autoreleased new)); [|done|].
  - eapply ok_or_fuel_bind; [exact Hpop|done|]. intros s' (es' & new & Hw' & Hlog & Hacc).
    destruct (kill_ok c memalign s' [] cold (map (fun e => (e, [])) es') (wfp_rep _ _ _ _ _ _ Hw')) as (m & Hm' & ->).
    { clear. induction es'; by constructor. }
    apply ok_or_fuel_Ok. split; [by apply rep_nil|]. exists new. split; [done|]. apply occ_Permutation. intros o. specialize (Hacc o).
    rewrite occ_app. change (pending c []) with (@nil Z) in Hacc. rewrite !occ_nil in Hacc. lia.
  - intros s1 (Hp1 & Hnew). by apply ok_or_fuel_Ok.
Qed.
End Properties.

(** ** Theorems *)
Lemma fuel_only {A} (enough : Prop) (r : res A) (P : A -> Prop) f : ok_or_fuel enough r P -> r = Fault f -> f = OutOfFuel.
Proof. intros H ->. by destruct f. Qed.
Lemma ok_or_fuel_result {A} (enough : Prop) (r : res A) (P : A -> Prop) a : ok_or_fuel enough r P -> r = Ok a -> P a.
Proof. by intros H ->. Qed.
Lemma skip_empty_mono c {W} fuel n : forall (s : state W) p r, skip_empty c fuel s p = Ok r -> skip_empty c (fuel + n) s p = Ok r.
Proof.
  induction fuel as [|fuel IH]; intros s p r H; [done|]. simpl in *. destruct (get s p) as [pg|]; [|done]. cbn [rbind] in *.
  destruct (empty c p pg); [|done]. destruct (setHotPage s (parent pg)); [|done]. by apply IH.
Qed.
Lemma grows_in_order c obj ws ws' : coalescing c = false -> grows c obj ws ws' -> ws' = ws ++ [obj].
Proof. intros H [|? ? ? ? ? ? ? ? ? Hc]; [done|congruence]. Qed.

(** C14: Whatever the code in an autorelease pool and the releases of its objects
    do - autorelease objects, push and pop pools, leave pools behind - popping the
    pool releases every object autoreleased since its push exactly as often as it
    was autoreleased, leaves the enclosing pools as they were, and ends, if every
    release sets off less than its object weighs; without that bound it may run
    on, but nothing else goes wrong. *)
Theorem autorelease_pool_scope c memalign `{PE : PoolEnv c memalign} {W : Type} (G : option tag_config)
    (on_release : W -> Z -> W * list call) (weight : Z -> nat) (s : state W) E cold calls fuel :
  plain c -> (forall w o, Forall (call_ok c G) (snd (on_release w o))) ->
  stack c s E cold -> Forall (valid_word c) E.*2 -> Forall (call_ok c G) calls ->
  exists s1 t, push c memalign s = Ok (s1, t) /\
    let r := let? (s2, _) := run c memalign G on_release fuel s1 [] calls in pop c memalign G on_release fuel s2 t in
    (law on_release weight -> (calls_weight weight calls + 1 < fuel)%nat -> exists s3, r = Ok s3) /\
    (forall f, r = Fault f -> f = OutOfFuel) /\
    (forall s3, r = Ok s3 -> exists E3 cold3 new, stack c s3 E3 cold3 /\ E3.*2 = E.*2 /\ addresses_kept E E3 /\
      log s3 = log s ++ new /\ released new ≡ₚ autoreleased new).
Proof.
  intros Hp Hcalls Hst Hv Hok. destruct (scope_ok c memalign Hp G on_release weight Hcalls fuel s E cold calls Hst Hv Hok) as (s1 & t & Hpush & Hr).
  exists s1, t. split; [done|]. cbv zeta. split_and!.
  - intros Hlw Hf. destruct (ok_or_fuel_elim _ _ _ Hr (conj Hlw Hf)) as (s3 & H3 & _). by exists s3.
  - intros f. by apply (fuel_only _ _ _ _ Hr).
  - intros s3 H3. destruct (ok_or_fuel_result _ _ _ _ Hr H3) as (E3 & cold3 & new & ? & _ & ? & ? & ? & ?). by exists E3, cold3, new.
Qed.

(** C16: When a thread ends, everything still pending on its pools is released, with
    all that these releases autorelease, and every page is freed. *)
Theorem autorelease_thread_exit c memalign `{PE : PoolEnv c memalign} {W : Type} (G : option tag_config)
    (on_release : W -> Z -> W * list call) (weight : Z -> nat) (s : state W) E cold fuel :
  plain c -> (forall w o, Forall (call_ok c G) (snd (on_release w o))) ->
  stack c s E cold -> Forall (valid_word c) E.*2 ->
  let r := tls_dealloc c memalign G on_release fuel (set_tls s 0) (tls s) in
  (law on_release weight -> (above c weight 0 E < fuel)%nat -> exists s', r = Ok s') /\
  (forall f, r = Fault f -> f = OutOfFuel) /\
  (forall s', r = Ok s' -> pages s' = ∅ /\ tls s' = 0 /\
    exists new, log s' = log s ++ new /\ released new ≡ₚ pending c E ++ autoreleased new).
Proof.
  intros Hp Hcalls Hst Hv. pose proof (exit_ok c memalign Hp G on_release weight Hcalls fuel s E cold Hst Hv) as Hr. cbv zeta. split_and!.
  - intros Hlw Hf. destruct (ok_or_fuel_elim _ _ _ Hr (conj Hlw Hf)) as (s' & H' & _). by exists s'.
  - intros f. by apply (fuel_only _ _ _ _ Hr).
  - intros s'. apply (ok_or_fuel_result _ _ _ _ Hr).
Qed.

(** C15: The pages of a thread refine one stack of entries. Autoreleasing pushes an
    object or, where entries may be coalesced, counts up an entry of the innermost
    pool; a push adds a boundary, whose address is the token; popping a token cuts
    the stack at its boundary, last entry first when the releases set nothing off,
    and keeps at most one empty page. A pool that holds nothing takes no page. The
    loop that goes back over empty pages takes at most one turn. *)
Theorem autorelease_stack_refines c memalign `{PE : PoolEnv c memalign} {W : Type} (G : option tag_config)
    (on_release : W -> Z -> W * list call) (s : state W) E cold fuel :
  plain c -> (forall w o, Forall (call_ok c G) (snd (on_release w o))) ->
  stack c s E cold -> Forall (valid_word c) E.*2 ->
  (forall o, valid_obj c o -> tagged_or_nil G o = false -> exists s' E' cold', autorelease c memalign G s o = Ok s' /\
    stack c s' E' cold' /\ log s' = log s ++ [Autoreleased o] /\ world s' = world s /\ grows c o E.*2 E'.*2 /\
    (coalescing c = false -> E'.*2 = E.*2 ++ [o])) /\
  (exists s' t E' cold', push c memalign s = Ok (s', t) /\ stack c s' E' cold' /\ log s' = log s /\
    E'.*2 = E.*2 ++ [POOL_BOUNDARY] /\ E' !! length E = Some (t, POOL_BOUNDARY)) /\
  (forall t i s', token_at E t i -> pop c memalign G on_release fuel s t = Ok s' ->
    exists E' cold', stack c s' E' cold' /\ E'.*2 = take i E.*2 /\
      (cold' <> 0 -> exists fs p ws es, wfp c s' fs p ws es /\ (length es <= 1)%nat) /\
      ((forall w o, snd (on_release w o) = []) -> log s' = log s ++ unwind c (drop i E.*2))) /\
  (E = [] -> pages s = ∅ -> exists s1, push c memalign s = Ok (s1, EMPTY_POOL_PLACEHOLDER) /\ pages s1 = ∅ /\
    exists s2, pop c memalign G on_release fuel s1 EMPTY_POOL_PLACEHOLDER = Ok s2 /\ pages s2 = ∅ /\ tls s2 = tls s) /\
  (E <> [] -> cold <> 0 -> forall n, skip_empty c (S (S n)) s (tls s) = skip_empty c 2 s (tls s)).
Proof.
  intros Hp Hcalls Hst Hv. pose proof Hp as (Hd & Hm & Hh). split_and!.
  - intros o Ho Ht. destruct (autorelease_ok c memalign Hd Hm G _ _ _ _ Hst Ho Ht Hv) as (s' & E' & cold' & ? & ? & _ & ? & ? & Hg & _).
    exists s', E', cold'. split_and!; try done. intros Hc. by apply (grows_in_order c).
  - destruct (push_ok c memalign Hd Hm _ _ _ Hst Hv) as (s' & t & E' & cold' & ? & ? & _ & [? _] & ? & _ & ?). by exists s', t, E', cold'.
  - intros t i s' Hti Hpop.
    pose proof (pop_ok c memalign Hd Hm Hh on_release (fun _ => O) fuel _ (releaseUntil_ok c memalign Hd Hm Hh G on_release (fun _ => O) Hcalls fuel) s E cold t i Hst Hv Hti) as Hr.
    apply (ok_or_fuel_result _ _ _ _ Hr) in Hpop as Hres. destruct Hres as (E' & cold' & new & Hst' & _ & Hl & Hb & _ & _ & Hes).
    exists E', cold'. split_and!; [done| | |].
    + apply below_words; [done..|]. destruct Hti as (a & Hi & _). apply lookup_lt_Some in Hi. lia.
    + intros Hc. destruct (Hes Hc) as (fs & p & ws & es & ? & _ & ?). by exists fs, p, ws, es.
    + intros Hq. by apply (pop_quiet c memalign Hp G on_release (fun _ => O) Hcalls _ (fun H => H) fuel s E cold t i s' Hq Hst Hv Hti).
  - intros -> Hpg. destruct (stack_cold_cases c memalign _ _ _ Hst) as [Hc|(_ & _ & [[Ht _]|[_ ?]])]; [| |done].
    + destruct (no_pool_entries c memalign _ _ Hst Hc) as [es Hw]. destruct (wfp_lookup c memalign _ _ _ _ _ Hw) as (pg & Hl & _). by rewrite Hpg in Hl.
    + unfold push, autoreleaseFast, autoreleaseNoPage, hotPage, haveEmptyPoolPlaceholder, setEmptyPoolPlaceholder. rewrite Hd, Ht. cbn.
      eexists. split; [done|]. split; [done|]. eexists. split; [done|]. done.
  - intros HE Hc n. destruct (stack_cold _ _ _ _ Hst) as [?|(fs & p & ws & es & Hw & HE' & _)]; [done|].
    destruct E as [|[a w] E2 _] using rev_ind; [done|]. rewrite (wfp_hot _ _ _ _ _ _ Hw).
    destruct (top_entry c memalign s fs p ws es E2 a w 0 Hw (eq_sym HE')) as (s1 & s2 & fs1 & p1 & ws1 & es1 & Hs & _).
    rewrite Hs. by apply (skip_empty_mono c 2).
Qed.

(** ** A thread with pages of three slots *)
Module PoolWitness.
Definition c80 : config := Config true 80 false false false false false true.
Definition page_number (p : Z) : nat := Z.to_nat (p / 80 - 1).
Definition memalign80 (m : page_map) : Z * list Z :=
  (80 * (1 + Z.of_nat (fresh (set_map page_number (dom m) : gset nat))), [7; 7; 7]).
#[export] Instance c80_env : PoolEnv c80 memalign80.
Proof.
  constructor; intros; simpl; try done; unfold memalign80; simpl; [|lia|].
  - apply not_elem_of_dom. intros Hd. pose proof (is_fresh (set_map page_number (dom m) : gset nat)) as Hf. apply Hf.
    apply elem_of_map. eexists. split; [|exact Hd]. unfold page_number. rewrite Z.mul_comm, Z.div_mul by done. lia.
  - change (SIZE c80) with 80. rewrite Z.mul_comm. apply Z_mod_mult.
Qed.
Lemma c80_plain : plain c80.
Proof. done. Qed.
(** Object 40 autoreleases 50, in a pool of its own, and 60. *)
Definition on_release (w : unit) (o : Z) : unit * list call :=
  (w, if o =? 40 then [Push; Autorelease 50; Pop 0; Autorelease 60] else []).
Definition weight (o : Z) : nat := if o =? 40 then 4 else 1.
Lemma small_valid o : 0 < o < 2 ^ 48 -> valid_obj c80 o.
Proof. intros H. split; [lia|]. intros _. lia. Qed.
Lemma on_release_ok w o : Forall (call_ok c80 None) (snd (on_release w o)).
Proof.
  unfold on_release. simpl. destruct (o =? 40); [|constructor].
  repeat (constructor; [simpl; try done; intros _; by apply small_valid|]). constructor.
Qed.
Lemma weight_law : law on_release weight.
Proof. intros w o. unfold on_release, weight. simpl. destruct (o =? 40); simpl; lia. Qed.

Definition s0 : state unit := State 0 ∅ false [] tt.
Lemma s0_stack : stack c80 s0 [] 0.
Proof. by apply stack_none. Qed.
(** A pool that holds object 40. *)
Definition s1 : state unit := State 80 {[80 := Page (slot c80 80 2) 0 0 0 0 [0; 40; 7]]} false [] tt.
Definition E1 : list (Z * Z) := [(136, 0); (144, 40)].
Lemma s1_stack : stack c80 s1 E1 80.
Proof.
  apply (stack_pages c80 s1 [] 80 [0; 40] []). constructor; [|done|done]. split_and!; [split; [|done]|by apply NoDup_singleton| |].
  - eexists. split; [by apply lookup_singleton_eq|done].
  - cbn [pages s1]. rewrite dom_singleton_L. simpl. by rewrite union_empty_r_L.
  - by apply Forall_singleton.
Qed.
Lemma E1_valid : Forall (valid_word c80) E1.*2.
Proof. constructor; [by left|]. constructor; [by right|constructor]. Qed.

Lemma autorelease_pool_scope_witness :
  exists s1 t, push c80 memalign80 s0 = Ok (s1, t) /\
    exists s3, (let? (s2, _) := run c80 memalign80 None on_release 20 s1 [] [Autorelease 40; Push; Autorelease 40; Autorelease 20] in
      pop c80 memalign80 None on_release 20 s2 t) = Ok s3.
Proof.
  assert (Forall (call_ok c80 None) [Autorelease 40; Push; Autorelease 40; Autorelease 20]) as Hc.
  { repeat (constructor; [simpl; try done; intros _; by apply small_valid|]). constructor. }
  destruct (autorelease_pool_scope c80 memalign80 None on_release weight s0 [] 0 _ 20 c80_plain on_release_ok s0_stack (Forall_nil_2 _) Hc)
    as (s1 & t & Hpush & Hr & _).
  exists s1, t. split; [exact Hpush|]. apply Hr; [exact weight_law|]. simpl. lia.
Defined.
Lemma autorelease_thread_exit_witness :
  exists s', tls_dealloc c80 memalign80 None on_release 20 (set_tls s1 0) (tls s1) = Ok s' /\ pages s' = ∅ /\
    exists new, log s' = new /\ released new ≡ₚ [40] ++ autoreleased new.
Proof.
  destruct (autorelease_thread_exit c80 memalign80 None on_release weight s1 E1 80 20 c80_plain on_release_ok s1_stack E1_valid) as (Hr & _ & Hp).
  destruct Hr as [s' Hs']; [exact weight_law|vm_compute; lia|]. destruct (Hp s' Hs') as (Hpg & _ & new & Hn & Hrel).
  exists s'. split; [exact Hs'|]. split; [exact Hpg|]. exists new. split; [exact Hn|exact Hrel].
Defined.
Lemma autorelease_stack_refines_witness :
  exists s' t E' cold', push c80 memalign80 s1 = Ok (s', t) /\ stack c80 s' E' cold' /\ E'.*2 = [0; 40; 0].
Proof.
  destruct (autorelease_stack_refines c80 memalign80 None on_release s1 E1 80 20 c80_plain on_release_ok s1_stack E1_valid)
    as (_ & (s' & t & E' & cold' & Hp & Hst & _ & HE & _) & _).
  exists s', t, E', cold'. split; [exact Hp|]. split; [exact Hst|exact HE].
Defined.
End PoolWitness.
