(* ===== verification/CFMemory.v ===== *)
(** * What the CoreFoundation components share: blocks of memory, comparisons

    A block is the list of its elements (bytes, or pointers). Memory comes from
    [malloc], a parameter of the operations that allocate: [None] when it fails,
    or a block of the number of elements asked for with arbitrary contents. *)

From stdpp Require Import prelude numbers list.
From Stdlib Require Import ZArith Lia Bool.
From S2P Require Import Prelude.

(** [CFComparisonResult] *)
Definition kCFCompareLessThan : Z := -1.
Definition kCFCompareEqualTo : Z := 0.
Definition kCFCompareGreaterThan : Z := 1.

Abbreviation size p := (Z.of_nat (length p)).

(** Loads and stores through a pointer to the first element. *)
Definition load (p : list Z) (i : Z) : res Z :=
  if i <? 0 then Fault OutOfBounds
  else match p !! Z.to_nat i with Some v => Ok v | None => Fault OutOfBounds end.
Definition overwrite (p : list Z) (i v : Z) : res (list Z) :=
  let? _ := load p i in Ok (<[Z.to_nat i := v]> p).

(** Reallocation to [n] elements. *)
Definition realloc (malloc : Z -> option (list Z)) (p : list Z) (n : Z) : option (list Z) :=
  match malloc n with
  | None => None
  | Some fresh => Some (take (Z.to_nat n) p ++ drop (length p) fresh)
  end.

Lemma load_ok p i : 0 <= i < size p -> exists v, load p i = Ok v /\ p !! Z.to_nat i = Some v.
Proof.
  intros Hi. unfold load. destruct (Z.ltb_spec i 0); [lia|].
  destruct (lookup_lt_is_Some_2 p (Z.to_nat i)) as [v E]; [lia|]. rewrite E. by exists v.
Qed.
Lemma overwrite_ok p i w : 0 <= i < size p -> overwrite p i w = Ok (<[Z.to_nat i := w]> p).
Proof. intros Hi. unfold overwrite. destruct (load_ok p i Hi) as (v & -> & _). done. Qed.
Lemma realloc_spec malloc p n q fresh : malloc n = Some fresh -> size fresh = n -> realloc malloc p n = Some q ->
  size q = n /\ (forall i, (i < length p)%nat -> Z.of_nat i < n -> q !! i = p !! i) /\
  q = take (Z.to_nat n) p ++ drop (length p) fresh.
Proof.
  intros E Hl. unfold realloc. rewrite E. intros [= <-].
  split; [rewrite length_app, length_take, length_drop; lia|]. split; [|done]. intros i Hi Hn.
  rewrite lookup_app_l by (rewrite length_take; lia). by rewrite lookup_take_lt by lia.
Qed.
