(* ===== verification/CFBitVector.v ===== *)
(** * CFBitVector.c: bit vectors of CoreFoundation
    (src/sdk/RunLoopDemo/RunLoopDemo/CF-1153.18)

    A bit vector is a block of bytes, bit 0 the most significant bit of byte 0.
    Definitions only; CFBitVectorTheory.v has the theorems.

    The build modelled is the release build, where [CFAssert],
    [__CFBitVectorValidateRange] and [__CFGenericValidateType] expand to nothing:
    what they state are the callers' obligations and appear as hypotheses of the
    theorems. An access outside the block of bytes is [OutOfBounds]. [CFIndex] computations are exact; none of them
    overflows for counts below 2^63 - 64. *)

From stdpp Require Import prelude numbers list.
From Stdlib Require Import ZArith Lia Bool.
From S2P Require Import Prelude CFMemory.

(** A store of a byte. *)
Definition store (buckets : list Z) (i v : Z) : res (list Z) := overwrite buckets i (u8 v).
(** [memmove] into the start of a buffer, and [memset]. *)
Definition memmove (dst src : list Z) (n : Z) : res (list Z) :=
  if (n <=? Z.of_nat (length src)) && (n <=? Z.of_nat (length dst))
  then Ok (take (Z.to_nat n) src ++ drop (Z.to_nat n) dst) else Fault OutOfBounds.
Definition memset (dst : list Z) (c n : Z) : res (list Z) :=
  if n <=? Z.of_nat (length dst)
  then Ok (replicate (Z.to_nat n) (u8 c) ++ drop (Z.to_nat n) dst) else Fault OutOfBounds.

Definition CF_BITS_PER_BYTE : Z := 8.
Definition CF_BITS_PER_BYTE_MASK : Z := 7.
Definition CF_BITS_PER_BUCKET : Z := CF_BITS_PER_BYTE * 1.
Definition CF_BITS_PER_BUCKET_MASK : Z := 7.

Definition RoundUpCapacity (capacity : Z) : Z :=
  let capacity := if capacity =? 0 then 1 else capacity in
  (capacity + 63) ÷ 64 * 64.
Definition NumBucketsForCapacity (capacity : Z) : Z :=
  capacity ÷ CF_BITS_PER_BUCKET + (if nz (Z.land capacity CF_BITS_PER_BUCKET_MASK) then 1 else 0).

Record CFBitVector := BitVector {
  count_ : Z;
  capacity_ : Z;
  buckets_ : list Z;
  variety_ : Z;
}.
Definition set_count (bv : CFBitVector) (v : Z) := BitVector v (capacity_ bv) (buckets_ bv) (variety_ bv).
Definition set_capacity (bv : CFBitVector) (v : Z) := BitVector (count_ bv) v (buckets_ bv) (variety_ bv).
Definition set_buckets (bv : CFBitVector) (v : list Z) := BitVector (count_ bv) (capacity_ bv) v (variety_ bv).
Definition set_variety (bv : CFBitVector) (v : Z) := BitVector (count_ bv) (capacity_ bv) (buckets_ bv) v.

(** The two-bit field of the runtime base that holds the variety. *)
Definition MutableVarietyFromFlags (flags : Z) : Z := Z.land flags 3.
Definition kCFBitVectorImmutable : Z := 0.
Definition kCFBitVectorMutable : Z := 1.

Definition NumBuckets (bv : CFBitVector) : Z := capacity_ bv ÷ CF_BITS_PER_BUCKET + 1.

Definition BitBucketMask (bottomBit topBit : Z) : Z :=
  let shiftL := CF_BITS_PER_BUCKET - topBit + bottomBit - 1 in
  let result := unot 8 0 in
  let result := u8 (Z.shiftl result shiftL) in
  Z.shiftr result bottomBit.

Definition BitVectorBit (buckets : list Z) (idx : Z) : res Z :=
  let bucketIdx := idx ÷ CF_BITS_PER_BUCKET in
  let bitOfBucket := Z.land idx (CF_BITS_PER_BUCKET - 1) in
  let? v := load buckets bucketIdx in
  Ok (Z.land (Z.shiftr v (CF_BITS_PER_BUCKET - 1 - bitOfBucket)) 1).
Definition SetBitVectorBit (buckets : list Z) (idx value : Z) : res (list Z) :=
  let bucketIdx := idx ÷ CF_BITS_PER_BUCKET in
  let bitOfBucket := Z.land idx (CF_BITS_PER_BUCKET - 1) in
  let? v := load buckets bucketIdx in
  if nz value
  then store buckets bucketIdx (Z.lor v (Z.shiftl 1 (CF_BITS_PER_BUCKET - 1 - bitOfBucket)))
  else store buckets bucketIdx (Z.land v (Z.lnot (Z.shiftl 1 (CF_BITS_PER_BUCKET - 1 - bitOfBucket)))).
Definition FlipBitVectorBit (buckets : list Z) (idx : Z) : res (list Z) :=
  let bucketIdx := idx ÷ CF_BITS_PER_BUCKET in
  let bitOfBucket := Z.land idx (CF_BITS_PER_BUCKET - 1) in
  let? v := load buckets bucketIdx in
  store buckets bucketIdx (Z.lxor v (Z.shiftl 1 (CF_BITS_PER_BUCKET - 1 - bitOfBucket))).

(** [__CFBitVectorEqual]: all buckets used are compared, and one more when the
    count is a multiple of 8. [n] is the number of rounds left. *)
Fixpoint BitVectorEqual_loop (n : nat) (b1 b2 : list Z) (idx : Z) : res bool :=
  match n with
  | O => Ok true
  | S n =>
    let? val1 := load b1 idx in
    let? val2 := load b2 idx in
    if negb (val1 =? val2) then Ok false else BitVectorEqual_loop n b1 b2 (idx + 1)
  end.
Definition BitVectorEqual (bv1 bv2 : CFBitVector) : res bool :=
  let cnt := count_ bv1 in
  if negb (cnt =? count_ bv2) then Ok false
  else if cnt =? 0 then Ok true
  else BitVectorEqual_loop (Z.to_nat (cnt ÷ CF_BITS_PER_BUCKET + 1)) (buckets_ bv1) (buckets_ bv2) 0.
Definition BitVectorHash (bv : CFBitVector) : Z := count_ bv.

Section Memory.
Context (malloc : Z -> option (list Z)).

(** [__CFBitVectorInit]: [None] is [NULL]; [bytes] is the caller's buffer, or
    [NULL]. The fields of a new instance are zero; [sizeof] is the size of the
    instance. *)
Definition BitVectorInit (sizeof flags capacity : Z) (bytes : option (list Z)) (numBits : Z) : res (option CFBitVector) :=
  match malloc sizeof with
  | None => Ok None
  | Some _ =>
    let memory := BitVector 0 0 [] 0 in
    let memory := set_capacity memory (RoundUpCapacity numBits) in
    match malloc (NumBuckets memory) with
    | None => Ok None
    | Some p =>
      let? p := memset p 0 (NumBuckets memory) in
      let memory := set_count (set_buckets memory p) numBits in
      let? memory :=
        match bytes with
        | None => Ok memory
        | Some bytes =>
          let n := numBits ÷ CF_BITS_PER_BYTE + (if nz (Z.land numBits CF_BITS_PER_BYTE_MASK) then 1 else 0) in
          let? p := memmove (buckets_ memory) bytes n in Ok (set_buckets memory p)
        end in
      Ok (Some (set_variety memory (MutableVarietyFromFlags flags)))
    end
  end.
Definition CFBitVectorCreate (sizeof : Z) (bytes : option (list Z)) (numBits : Z) :=
  BitVectorInit sizeof kCFBitVectorImmutable numBits bytes numBits.
Definition CFBitVectorCreateMutable (sizeof capacity : Z) :=
  BitVectorInit sizeof kCFBitVectorMutable capacity None 0.
Definition CFBitVectorCreateCopy (sizeof : Z) (bv : CFBitVector) :=
  BitVectorInit sizeof kCFBitVectorImmutable (count_ bv) (Some (buckets_ bv)) (count_ bv).
Definition CFBitVectorCreateMutableCopy (sizeof capacity : Z) (bv : CFBitVector) :=
  BitVectorInit sizeof kCFBitVectorMutable capacity (Some (buckets_ bv)) (count_ bv).

Definition CFBitVectorGetCount (bv : CFBitVector) : Z := count_ bv.

Definition BitVectorGrow (bv : CFBitVector) (numNewValues : Z) : res CFBitVector :=
  let oldCount := count_ bv in
  let capacity := RoundUpCapacity (oldCount + numNewValues) in
  let bv := set_capacity bv capacity in
  match realloc malloc (buckets_ bv) (NumBuckets bv) with
  | None => Fault AllocationFailed
  | Some p => Ok (set_buckets bv p)
  end.
End Memory.

(** A [CFRange]. *)
Record CFRange := CFRangeMake { location : Z; length_ : Z }.

Section Map.
Context {C : Type} (mapper : Z -> Z -> C -> res (Z * C)).

(** One bucket of which only the bits of the mask are replaced. *)
Definition map_masked (bv : CFBitVector) (context : C) (bucketIdx bucketValMask : Z) : res (CFBitVector * C) :=
  let? v := load (buckets_ bv) bucketIdx in
  let? (newBucketVal, context) := mapper v bucketValMask context in
  let? p := store (buckets_ bv) bucketIdx (Z.lor (Z.land v (Z.lnot bucketValMask)) (Z.land newBucketVal bucketValMask)) in
  Ok (set_buckets bv p, context).
Fixpoint map_whole (nBuckets : nat) (bv : CFBitVector) (context : C) (bucketIdx : Z) : res (CFBitVector * C * Z) :=
  match nBuckets with
  | O => Ok (bv, context, bucketIdx)
  | S nBuckets =>
    let? v := load (buckets_ bv) bucketIdx in
    let? (newBucketVal, context) := mapper v (unot 8 0) context in
    let? p := store (buckets_ bv) bucketIdx newBucketVal in
    map_whole nBuckets (set_buckets bv p) context (bucketIdx + 1)
  end.
Definition InternalMap (bv : CFBitVector) (range : CFRange) (context : C) : res (CFBitVector * C) :=
  if length_ range =? 0 then Ok (bv, context) else
  let bucketIdx := location range ÷ CF_BITS_PER_BUCKET in
  let bitOfBucket := Z.land (location range) (CF_BITS_PER_BUCKET - 1) in
  let '(bucketValMask, len) :=
    if bitOfBucket + length_ range <? CF_BITS_PER_BUCKET
    then (BitBucketMask bitOfBucket (bitOfBucket + length_ range - 1), 0)
    else (BitBucketMask bitOfBucket (CF_BITS_PER_BUCKET - 1), length_ range - (CF_BITS_PER_BUCKET - bitOfBucket)) in
  let? (bv, context) := map_masked bv context bucketIdx bucketValMask in
  let nBuckets := len ÷ CF_BITS_PER_BUCKET in
  let len := len - nBuckets * CF_BITS_PER_BUCKET in
  let? (bv, context, bucketIdx) := map_whole (Z.to_nat nBuckets) bv context (bucketIdx + 1) in
  if nz len then map_masked bv context bucketIdx (BitBucketMask 0 (len - 1)) else Ok (bv, context).
End Map.

(** ** Counting *)
Record occursContext := { oc_value : Z; oc_count : Z }.
Definition NibbleBitCount : list Z := [0; 1; 1; 2; 1; 2; 2; 3; 1; 2; 2; 3; 2; 3; 3; 4].
Fixpoint CountBits_loop (n : nat) (val count : Z) : res Z :=
  match n with
  | O => Ok count
  | S n =>
    let? c := load NibbleBitCount (Z.land val 15) in
    CountBits_loop n (Z.shiftr val 4) (count + c)
  end.
Definition CountBits (bucketValue bucketValueMask : Z) (context : occursContext) : res (Z * occursContext) :=
  let val := if nz (oc_value context) then Z.land bucketValue bucketValueMask
             else Z.land (unot 8 bucketValue) bucketValueMask in
  let? count := CountBits_loop (1 * 2) val (oc_count context) in
  Ok (bucketValue, {| oc_value := oc_value context; oc_count := count |}).
Definition CFBitVectorGetCountOfBit (bv : CFBitVector) (range : CFRange) (value : Z) : res Z :=
  if length_ range =? 0 then Ok 0
  else
    let? (_, context) := InternalMap CountBits bv range {| oc_value := value; oc_count := 0 |} in
    Ok (oc_count context).
Definition CFBitVectorContainsBit (bv : CFBitVector) (range : CFRange) (value : Z) : res bool :=
  let? n := CFBitVectorGetCountOfBit bv range value in Ok (nz n).

Definition CFBitVectorGetBitAtIndex (bv : CFBitVector) (idx : Z) : res Z := BitVectorBit (buckets_ bv) idx.

(** ** Extracting

    The caller's buffer is part of the context; [curByte] indexes it. *)
Record getBitsContext := GetBitsContext {
  gb_bytes : list Z;
  curByte : Z;
  initBits : Z;
  totalBits : Z;
  ignoreFirstInitBits : bool;
}.
Definition put_byte (c : getBitsContext) (v : Z) : res getBitsContext :=
  let? p := store (gb_bytes c) (curByte c) v in
  Ok (GetBitsContext p (curByte c) (initBits c) (totalBits c) (ignoreFirstInitBits c)).
(** The loop over whole bytes; a bucket has one byte, so [fuel] 1 is enough. *)
Fixpoint GetBits_loop (fuel : nat) (c : getBitsContext) (val nBits : Z) : res (getBitsContext * Z * Z) :=
  if CF_BITS_PER_BYTE <=? nBits then
    match fuel with
    | O => Fault OutOfFuel
    | S fuel =>
      let? c := put_byte c (Z.shiftr val (CF_BITS_PER_BUCKET - CF_BITS_PER_BYTE)) in
      let c := GetBitsContext (gb_bytes c) (curByte c + 1) (initBits c) (totalBits c - initBits c) (ignoreFirstInitBits c) in
      GetBits_loop fuel c 0 (nBits - CF_BITS_PER_BYTE)
    end
  else Ok (c, val, nBits).
Definition GetBits (bucketValue bucketValueMask : Z) (context : getBitsContext) : res (Z * getBitsContext) :=
  let val := Z.land bucketValue bucketValueMask in
  let nBits := Z.min (CF_BITS_PER_BUCKET - initBits context) (totalBits context) in
  let? (context, val) :=
    if 0 <? initBits context then
      let? context :=
        if negb (ignoreFirstInitBits context) then
          let? old := load (gb_bytes context) (curByte context) in
          let? c := put_byte context (Z.lor old (u8 (Z.shiftr val (CF_BITS_PER_BUCKET - initBits context)))) in
          Ok (GetBitsContext (gb_bytes c) (curByte c + 1) (initBits c) (totalBits c - initBits c) false)
        else Ok context in
      Ok (context, u8 (Z.shiftl val (initBits context)))
    else Ok (context, val) in
  let? (context, val, nBits) := GetBits_loop 1 context val nBits in
  let? context :=
    if 0 <? nBits then
      let? c := put_byte context (Z.shiftr val (CF_BITS_PER_BUCKET - CF_BITS_PER_BYTE)) in
      Ok (GetBitsContext (gb_bytes c) (curByte c) (initBits c) (totalBits c - nBits) (ignoreFirstInitBits c))
    else Ok context in
  Ok (bucketValue, context).
(** The caller's buffer afterwards. *)
Definition CFBitVectorGetBits (bv : CFBitVector) (range : CFRange) (bytes : list Z) : res (list Z) :=
  if length_ range =? 0 then Ok bytes
  else
    let context := GetBitsContext bytes 0 (Z.land (location range) (CF_BITS_PER_BUCKET - 1)) (length_ range) true in
    let? (_, context) := InternalMap GetBits bv range context in
    Ok (gb_bytes context).

(** ** Searching *)
Definition kCFNotFound : Z := -1.
Fixpoint FirstIndex_loop (n : nat) (bv : CFBitVector) (range : CFRange) (value idx : Z) : res Z :=
  match n with
  | O => Ok kCFNotFound
  | S n =>
    let? b := CFBitVectorGetBitAtIndex bv (location range + idx) in
    if value =? b then Ok (location range + idx) else FirstIndex_loop n bv range value (idx + 1)
  end.
Definition CFBitVectorGetFirstIndexOfBit (bv : CFBitVector) (range : CFRange) (value : Z) : res Z :=
  FirstIndex_loop (Z.to_nat (length_ range)) bv range value 0.
Fixpoint LastIndex_loop (idx : nat) (bv : CFBitVector) (range : CFRange) (value : Z) : res Z :=
  match idx with
  | O => Ok kCFNotFound
  | S idx =>
    let? b := CFBitVectorGetBitAtIndex bv (location range + Z.of_nat idx) in
    if value =? b then Ok (location range + Z.of_nat idx) else LastIndex_loop idx bv range value
  end.
Definition CFBitVectorGetLastIndexOfBit (bv : CFBitVector) (range : CFRange) (value : Z) : res Z :=
  LastIndex_loop (Z.to_nat (length_ range)) bv range value.

(** ** Updates *)
Definition ZeroBits (bucketValue bucketValueMask : Z) (context : unit) : res (Z * unit) := Ok (0, context).
Definition OneBits (bucketValue bucketValueMask : Z) (context : unit) : res (Z * unit) := Ok (unot 8 0, context).
Definition FlipBits (bucketValue bucketValueMask : Z) (context : unit) : res (Z * unit) :=
  Ok (Z.lxor (unot 8 0) bucketValue, context).
Definition map_bits (mapper : Z -> Z -> unit -> res (Z * unit)) (bv : CFBitVector) (range : CFRange) : res CFBitVector :=
  let? (bv, _) := InternalMap mapper bv range tt in Ok bv.

Definition CFBitVectorSetCount (malloc : Z -> option (list Z)) (bv : CFBitVector) (count : Z) : res CFBitVector :=
  let cnt := count_ bv in
  let? bv :=
    if variety_ bv =? kCFBitVectorMutable then
      if cnt <? count then BitVectorGrow malloc bv (count - cnt) else Ok bv
    else Ok bv in
  let? bv :=
    if cnt <? count then map_bits ZeroBits bv (CFRangeMake cnt (count - cnt)) else Ok bv in
  Ok (set_count bv count).
Definition CFBitVectorFlipBitAtIndex (bv : CFBitVector) (idx : Z) : res CFBitVector :=
  let? p := FlipBitVectorBit (buckets_ bv) idx in Ok (set_buckets bv p).
Definition CFBitVectorFlipBits (bv : CFBitVector) (range : CFRange) : res CFBitVector :=
  if length_ range =? 0 then Ok bv else map_bits FlipBits bv range.
Definition CFBitVectorSetBitAtIndex (bv : CFBitVector) (idx value : Z) : res CFBitVector :=
  let? p := SetBitVectorBit (buckets_ bv) idx value in Ok (set_buckets bv p).
Definition CFBitVectorSetBits (bv : CFBitVector) (range : CFRange) (value : Z) : res CFBitVector :=
  if length_ range =? 0 then Ok bv
  else if nz value then map_bits OneBits bv range else map_bits ZeroBits bv range.
Definition CFBitVectorSetAllBits (bv : CFBitVector) (value : Z) : res CFBitVector :=
  let nBuckets := count_ bv ÷ CF_BITS_PER_BUCKET in
  let leftover := count_ bv - nBuckets * CF_BITS_PER_BUCKET in
  let? bv :=
    if 0 <? leftover then
      let range := CFRangeMake (nBuckets * CF_BITS_PER_BUCKET) leftover in
      if nz value then map_bits OneBits bv range else map_bits ZeroBits bv range
    else Ok bv in
  let? p := memset (buckets_ bv) (if nz value then unot 8 0 else 0) nBuckets in
  Ok (set_buckets bv p).
