(* ===== verification/CFBitVectorTheory.v ===== *)
(** * CFBitVector.c against a list of booleans

    [represents] says that a bit vector stands for a list of bits. Every
    operation that changes a bit vector refines the operation on the list, and
    every query answers from the list. The one loop of the source that handles a
    range, [__CFBitVectorInternalMap], is first shown to visit each bit of the
    range once, piece by piece. *)

From stdpp Require Import prelude numbers list.
From Stdlib Require Import ZArith Lia Bool.
From S2P Require Import Prelude CFMemory CFBitVector.

Implicit Types (p : list Z) (bv : CFBitVector) (l : list bool).

(** The bit [i] of a block of bytes. *)
Definition get p (i : Z) : bool := Z.testbit (default 0 (p !! Z.to_nat (i / 8))) (7 - i mod 8).
Definition bytes_ok p : Prop := Forall (in_word 8) p.

(** ** Loads and stores *)
Lemma load_byte p i v : bytes_ok p -> p !! Z.to_nat i = Some v -> in_word 8 v.
Proof. intros Hp E. by eapply Forall_lookup in Hp. Qed.
Lemma store_ok p i w : 0 <= i < size p -> store p i w = Ok (<[Z.to_nat i := u8 w]> p).
Proof. apply overwrite_ok. Qed.
Lemma store_bytes p (i : nat) w : bytes_ok p -> bytes_ok (<[i := u8 w]> p).
Proof. intros. apply Forall_insert; [done|]. by apply wrap_in_word. Qed.
Lemma get_store p b w i : 0 <= b < size p -> 0 <= i ->
  get (<[Z.to_nat b := u8 w]> p) i = if i / 8 =? b then Z.testbit w (7 - i mod 8) else get p i.
Proof.
  intros Hb Hi. unfold get. pose proof (Z.mod_pos_bound i 8). pose proof (Z.div_pos i 8).
  destruct (Z.eqb_spec (i / 8) b) as [<-|Hn].
  - rewrite list_lookup_insert_eq by lia. simpl. rewrite testbit_wrap by lia.
    destruct (Z.ltb_spec (7 - i mod 8) 8); [done|lia].
  - rewrite list_lookup_insert_ne by lia. done.
Qed.
Lemma get_byte p b v i : p !! Z.to_nat b = Some v -> i / 8 = b -> get p i = Z.testbit v (7 - i mod 8).
Proof. intros E <-. unfold get. by rewrite E. Qed.

(** ** Indexes *)
Lemma land7 i : Z.land i (CF_BITS_PER_BUCKET - 1) = i mod 8.
Proof. apply (land_mask 3). lia. Qed.
Lemma quot8 i : 0 <= i -> i ÷ CF_BITS_PER_BUCKET = i / 8.
Proof. intros. by apply Z.quot_div_nonneg. Qed.

Lemma mask_testbit lo hi j : 0 <= lo -> lo <= hi <= 7 -> 0 <= j ->
  Z.testbit (BitBucketMask lo hi) j = (7 - hi <=? j) && (j <=? 7 - lo).
Proof.
  intros Hlo Hhi Hj. unfold BitBucketMask. cbv zeta. change CF_BITS_PER_BUCKET with 8.
  change (unot 8 0) with (2 ^ 8 - 1). rewrite Z.shiftr_spec by done.
  rewrite testbit_wrap, testbit_shiftl by lia.
  destruct (Z.leb_spec (8 - hi + lo - 1) (j + lo)), (Z.leb_spec (7 - hi) j), (Z.ltb_spec (j + lo) 8), (Z.leb_spec j (7 - lo));
    try lia; cbn [andb]; try done.
  rewrite testbit_pow2m1 by lia. by apply Z.ltb_lt; lia.
Qed.
Lemma whole_mask : BitBucketMask 0 7 = unot 8 0.
Proof. done. Qed.

(** ** Pieces of a range

    A piece is a bucket and the first and last of the bits of it visited. *)
Definition piece : Type := Z * Z * Z.
Fixpoint whole (n : nat) (b : Z) : list piece :=
  match n with O => [] | S n => (b, 0, 7) :: whole n (b + 1) end.
Definition pieces (loc len : Z) : list piece :=
  if len =? 0 then []
  else if loc mod 8 + len <? 8 then [(loc / 8, loc mod 8, loc mod 8 + len - 1)]
  else
    let rest := len - (8 - loc mod 8) in
    (loc / 8, loc mod 8, 7) :: whole (Z.to_nat (rest / 8)) (loc / 8 + 1) ++
    (if nz (rest mod 8) then [(loc / 8 + 1 + rest / 8, 0, rest mod 8 - 1)] else []).

(** The pieces partition the range, in order. *)
Fixpoint cover (ps : list piece) (loc len : Z) : Prop :=
  match ps with
  | [] => len = 0
  | (b, lo, hi) :: ps =>
    0 <= lo /\ lo <= hi <= 7 /\ loc = 8 * b + lo /\ cover ps (loc + (hi - lo + 1)) (len - (hi - lo + 1))
  end.
Lemma cover_nonneg ps loc len : cover ps loc len -> 0 <= len.
Proof.
  revert loc len. induction ps as [|[[b lo] hi] ps IH]; intros loc len; cbn [cover]; [lia|].
  intros (? & ? & _ & H%IH). lia.
Qed.
Lemma whole_cover n b ps len : cover ps (8 * b + 8 * Z.of_nat n) (len - 8 * Z.of_nat n) ->
  cover (whole n b ++ ps) (8 * b) len.
Proof.
  revert b len. induction n as [|n IH]; intros b len H; cbn [whole app cover].
  - by rewrite Z.mul_0_r, Z.add_0_r, Z.sub_0_r in H.
  - split_and!; try lia. replace (8 * b + (7 - 0 + 1)) with (8 * (b + 1)) by lia. apply IH.
    replace (8 * (b + 1) + 8 * Z.of_nat n) with (8 * b + 8 * Z.of_nat (S n)) by lia.
    by replace (len - (7 - 0 + 1) - 8 * Z.of_nat n) with (len - 8 * Z.of_nat (S n)) by lia.
Qed.
Lemma pieces_cover loc len : 0 <= loc -> 0 <= len -> cover (pieces loc len) loc len.
Proof.
  intros Hloc Hlen. unfold pieces. pose proof (Z.mod_pos_bound loc 8) as Hm. pose proof (Z.div_mod loc 8) as Hd.
  destruct (Z.eqb_spec len 0) as [->|]; [done|]. destruct (Z.ltb_spec (loc mod 8 + len) 8); cbn [cover].
  - split_and!; lia.
  - split_and!; try lia. set (rest := len - (8 - loc mod 8)).
    replace (loc + (7 - loc mod 8 + 1)) with (8 * (loc / 8 + 1)) by lia.
    replace (len - (7 - loc mod 8 + 1)) with rest by (unfold rest; lia).
    apply whole_cover. pose proof (Z.div_pos rest 8). rewrite Z2Nat.id by lia.
    pose proof (Z.mod_pos_bound rest 8). pose proof (Z.div_mod rest 8).
    destruct (nz (rest mod 8)) eqn:E; cbn [cover].
    + apply nz_true in E. split_and!; lia.
    + apply nz_false in E. lia.
Qed.

(** ** [InternalMap] visits the pieces *)
Section Visit.
Context {C : Type} (mapper : Z -> Z -> C -> res (Z * C)).
Fixpoint visit (ps : list piece) bv (c : C) : res (CFBitVector * C) :=
  match ps with
  | [] => Ok (bv, c)
  | (b, lo, hi) :: ps => let? (bv, c) := map_masked mapper bv c b (BitBucketMask lo hi) in visit ps bv c
  end.
Lemma visit_app ps qs bv c : visit (ps ++ qs) bv c = let? (bv, c) := visit ps bv c in visit qs bv c.
Proof.
  revert bv c. induction ps as [|[[b lo] hi] ps IH]; intros bv c; cbn [visit app]; [done|].
  destruct (map_masked _ _ _ _ _) as [[bv' c']|]; cbn [rbind]; [apply IH|done].
Qed.
Lemma replace_whole v w : u8 (Z.lor (Z.land v (Z.lnot (unot 8 0))) (Z.land w (unot 8 0))) = u8 w.
Proof. change (unot 8 0) with (2 ^ 8 - 1). zbits. Qed.
Lemma map_whole_visit n bv c b :
  map_whole mapper n bv c b = let? (bv, c) := visit (whole n b) bv c in Ok (bv, c, b + Z.of_nat n).
Proof.
  revert bv c b. induction n as [|n IH]; intros bv c b; cbn [map_whole whole visit]; [by rewrite Z.add_0_r|].
  unfold map_masked. rewrite whole_mask. destruct (load (buckets_ bv) b) as [v|] eqn:El; cbn [rbind]; [|done].
  destruct (mapper v (unot 8 0) c) as [[w c']|]; cbn [rbind]; [|done].
  unfold store, overwrite. rewrite El. cbn [rbind]. rewrite replace_whole, IH.
  by replace (b + 1 + Z.of_nat n) with (b + Z.of_nat (S n)) by lia.
Qed.
Lemma InternalMap_visit bv loc len c : 0 <= loc -> 0 <= len ->
  InternalMap mapper bv (CFRangeMake loc len) c = visit (pieces loc len) bv c.
Proof.
  intros Hloc Hlen. unfold InternalMap, pieces. cbn [length_ location]. destruct (Z.eqb_spec len 0); [done|].
  rewrite land7, quot8 by done. change CF_BITS_PER_BUCKET with 8. pose proof (Z.mod_pos_bound loc 8).
  destruct (Z.ltb_spec (loc mod 8 + len) 8); cbn [visit].
  - destruct (map_masked _ _ _ _ _) as [[bv' c']|]; done.
  - change (8 - 1) with 7. destruct (map_masked _ _ _ _ _) as [[bv' c']|]; cbn [rbind]; [|done].
    set (rest := len - (8 - loc mod 8)). assert (0 <= rest) by (unfold rest; lia).
    rewrite Z.quot_div_nonneg by lia. rewrite map_whole_visit, visit_app.
    destruct (visit _ bv' c') as [[bv2 c2]|]; cbn [rbind]; [|done].
    pose proof (Z.div_mod rest 8). pose proof (Z.div_pos rest 8).
    replace (rest - rest / 8 * 8) with (rest mod 8) by lia. rewrite Z2Nat.id by lia.
    destruct (nz (rest mod 8)); [|done]. cbn [visit]. by destruct (map_masked _ _ _ _ _) as [[bv3 c3]|].
Qed.
End Visit.

(** ** One piece *)
Lemma piece_bits b lo hi i : 0 <= lo -> lo <= hi <= 7 ->
  (8 * b + lo <=? i) && (i <? 8 * b + lo + (hi - lo + 1)) =
  (i / 8 =? b) && ((7 - hi <=? 7 - i mod 8) && (7 - i mod 8 <=? 7 - lo)).
Proof.
  intros Hlo Hhi. pose proof (Z.mod_pos_bound i 8). pose proof (Z.div_mod i 8). zcmp; try lia; try done.
Qed.
Lemma masked_bit v w lo hi j : 0 <= lo -> lo <= hi <= 7 -> 0 <= j ->
  Z.testbit (Z.lor (Z.land v (Z.lnot (BitBucketMask lo hi))) (Z.land w (BitBucketMask lo hi))) j =
  if (7 - hi <=? j) && (j <=? 7 - lo) then Z.testbit w j else Z.testbit v j.
Proof.
  intros Hlo Hhi Hj. rewrite Z.lor_spec, !Z.land_spec, Z.lnot_spec, mask_testbit by lia.
  by destruct ((7 - hi <=? j) && (j <=? 7 - lo)), (Z.testbit v j), (Z.testbit w j).
Qed.

(** A mapper that returns the bucket as it was changes no bucket. *)
Lemma map_masked_same {C} (mapper : Z -> Z -> C -> res (Z * C)) bv c c' b lo hi v :
  bytes_ok (buckets_ bv) -> 0 <= b -> buckets_ bv !! Z.to_nat b = Some v -> 0 <= lo -> lo <= hi <= 7 ->
  mapper v (BitBucketMask lo hi) c = Ok (v, c') -> map_masked mapper bv c b (BitBucketMask lo hi) = Ok (bv, c').
Proof.
  intros Hp Hb Ev Hlo Hhi Hm. pose proof (load_byte _ _ _ Hp Ev) as Hv. pose proof (lookup_lt_Some _ _ _ Ev).
  unfold map_masked. destruct (load_ok (buckets_ bv) b) as (v' & -> & Ev'); [lia|]. simplify_eq. cbn [rbind].
  rewrite Hm. cbn [rbind]. rewrite store_ok by lia. cbn [rbind]. do 2 f_equal.
  destruct bv as [n cap p va]. unfold set_buckets. cbn [buckets_ count_ capacity_ variety_] in *. f_equal.
  apply list_insert_id. rewrite Ev. f_equal. apply (bits_ext_word 8); [done|by apply wrap_in_word|lia|]. intros i Hi.
  rewrite testbit_wrap, masked_bit by lia. destruct (Z.ltb_spec i 8); [|lia]. by destruct ((7 - hi <=? i) && (i <=? 7 - lo)).
Qed.

(** A mapper that gives the new bucket by a function of its bits. *)
Section PureMap.
Context (mapper : Z -> Z -> unit -> res (Z * unit)) (f : Z -> Z) (g : bool -> bool).
Hypothesis mapper_pure : forall v m u, mapper v m u = Ok (f v, tt).
Hypothesis mapper_bits : forall v j, in_word 8 v -> 0 <= j < 8 -> Z.testbit (f v) j = g (Z.testbit v j).

Lemma map_masked_bits bv b lo hi : bytes_ok (buckets_ bv) -> 0 <= lo -> lo <= hi <= 7 -> 0 <= b < size (buckets_ bv) ->
  exists p', map_masked mapper bv tt b (BitBucketMask lo hi) = Ok (set_buckets bv p', tt) /\
    length p' = length (buckets_ bv) /\ bytes_ok p' /\
    forall i, 0 <= i -> get p' i =
      if (8 * b + lo <=? i) && (i <? 8 * b + lo + (hi - lo + 1)) then g (get (buckets_ bv) i) else get (buckets_ bv) i.
Proof.
  intros Hp Hlo Hhi Hb. unfold map_masked. destruct (load_ok _ _ Hb) as (v & -> & Ev). cbn [rbind].
  rewrite mapper_pure. cbn [rbind]. rewrite store_ok by done. cbn [rbind]. eexists. split; [done|].
  split; [apply length_insert|]. split; [by apply store_bytes|]. intros i Hi. pose proof (Z.mod_pos_bound i 8).
  rewrite get_store, piece_bits by done. destruct (Z.eqb_spec (i / 8) b) as [Eb|]; cbn [andb]; [|done].
  rewrite masked_bit by lia. rewrite (get_byte _ b v) by done.
  destruct (_ && _); [|done]. apply mapper_bits; [by eapply load_byte|lia].
Qed.
Lemma visit_bits ps bv loc len : bytes_ok (buckets_ bv) -> cover ps loc len -> 0 <= loc ->
  loc + len <= 8 * size (buckets_ bv) ->
  exists p', visit mapper ps bv tt = Ok (set_buckets bv p', tt) /\ length p' = length (buckets_ bv) /\ bytes_ok p' /\
    forall i, 0 <= i -> get p' i = if (loc <=? i) && (i <? loc + len) then g (get (buckets_ bv) i) else get (buckets_ bv) i.
Proof.
  revert bv loc len. induction ps as [|[[b lo] hi] ps IH]; intros bv loc len Hp Hc Hloc Hlen; cbn [cover visit] in *.
  { subst. exists (buckets_ bv). split; [by destruct bv|]. split_and!; try done. intros i Hi.
    destruct (Z.leb_spec loc i), (Z.ltb_spec i (loc + 0)); (done || lia). }
  destruct Hc as (Hlo & Hhi & -> & Hc). pose proof (cover_nonneg _ _ _ Hc).
  destruct (map_masked_bits bv b lo hi) as (p1 & -> & Hl1 & Hp1 & Hg1); [done|lia|lia|lia|]. cbn [rbind].
  destruct (IH (set_buckets bv p1) _ _ Hp1 Hc) as (p2 & -> & Hl2 & Hp2 & Hg2); [lia|cbn; rewrite Hl1; lia|].
  exists p2. split; [done|]. split; [cbn in *; congruence|]. split; [done|]. intros i Hi.
  rewrite Hg2 by done. cbn [buckets_ set_buckets]. rewrite !Hg1 by done.
  zcmp; try lia; cbn [andb]; try done.
Qed.
Lemma map_bits_ok bv loc len : bytes_ok (buckets_ bv) -> 0 <= loc -> 0 <= len -> loc + len <= 8 * size (buckets_ bv) ->
  exists p', map_bits mapper bv (CFRangeMake loc len) = Ok (set_buckets bv p') /\
    length p' = length (buckets_ bv) /\ bytes_ok p' /\
    forall i, 0 <= i -> get p' i = if (loc <=? i) && (i <? loc + len) then g (get (buckets_ bv) i) else get (buckets_ bv) i.
Proof.
  intros Hp Hloc Hlen Hb. unfold map_bits. rewrite InternalMap_visit by done.
  destruct (visit_bits _ _ _ _ Hp (pieces_cover loc len Hloc Hlen) Hloc Hb) as (p' & -> & H). by exists p'.
Qed.
End PureMap.

Lemma bit_of_ones j : 0 <= j < 8 -> Z.testbit (unot 8 0) j = true.
Proof. intros. change (unot 8 0) with (2 ^ 8 - 1). rewrite testbit_pow2m1 by lia. apply Z.ltb_lt. lia. Qed.
Definition OneBits_ok := map_bits_ok OneBits (fun _ => unot 8 0) (fun _ => true)
  (fun v m u => match u with tt => eq_refl end) (fun v j _ Hj => bit_of_ones j Hj).
Definition ZeroBits_ok := map_bits_ok ZeroBits (fun _ => 0) (fun _ => false)
  (fun v m u => match u with tt => eq_refl end) (fun v j _ _ => Z.bits_0 j).
Lemma FlipBits_ok bv loc len : bytes_ok (buckets_ bv) -> 0 <= loc -> 0 <= len -> loc + len <= 8 * size (buckets_ bv) ->
  exists p', map_bits FlipBits bv (CFRangeMake loc len) = Ok (set_buckets bv p') /\
    length p' = length (buckets_ bv) /\ bytes_ok p' /\
    forall i, 0 <= i -> get p' i = if (loc <=? i) && (i <? loc + len) then negb (get (buckets_ bv) i) else get (buckets_ bv) i.
Proof.
  apply (map_bits_ok FlipBits (fun v => Z.lxor (unot 8 0) v) negb); [by intros ? ? []|].
  intros v j _ Hj. by rewrite Z.lxor_spec, bit_of_ones by done.
Qed.

(** ** The list a bit vector stands for *)
Record bv_ok bv : Prop := {
  ok_count : 0 <= count_ bv <= capacity_ bv;
  ok_length : size (buckets_ bv) = capacity_ bv / 8 + 1;
  ok_bytes : bytes_ok (buckets_ bv);
}.
Definition bits_of p (n : Z) : list bool := map (fun i => get p (Z.of_nat i)) (seq 0 (Z.to_nat n)).
Definition represents bv l : Prop := bv_ok bv /\ bits_of (buckets_ bv) (count_ bv) = l.

Lemma bits_of_length p n : length (bits_of p n) = Z.to_nat n.
Proof. unfold bits_of. by rewrite length_map, length_seq. Qed.
Lemma bits_of_lookup p n (i : nat) : bits_of p n !! i = if decide (Z.of_nat i < n) then Some (get p (Z.of_nat i)) else None.
Proof.
  unfold bits_of. rewrite list_lookup_fmap. destruct (decide _).
  - by rewrite lookup_seq_lt by lia.
  - by rewrite lookup_seq_ge by lia.
Qed.
Lemma bits_of_get p n l i : bits_of p n = l -> 0 <= i < n -> l !! Z.to_nat i = Some (get p i).
Proof. intros <- Hi. rewrite bits_of_lookup, decide_True, Z2Nat.id by lia. done. Qed.
Lemma bits_of_ext p p' n : (forall i, 0 <= i < n -> get p i = get p' i) -> bits_of p n = bits_of p' n.
Proof.
  intros H. apply list_eq. intros i. rewrite !bits_of_lookup. destruct (decide _); [|done]. by rewrite H by lia.
Qed.
Lemma represents_length bv l : represents bv l -> count_ bv = Z.of_nat (length l) /\ count_ bv <= 8 * size (buckets_ bv) - 1.
Proof.
  intros [[Hc Hl _] <-]. rewrite bits_of_length. split; [lia|]. pose proof (Z.div_mod (capacity_ bv) 8).
  pose proof (Z.mod_pos_bound (capacity_ bv) 8). lia.
Qed.

(** What the operations do to the list. *)
Definition in_range (r : CFRange) (i : Z) : bool := (location r <=? i) && (i <? location r + length_ r).
Definition update_range (f : bool -> bool) (r : CFRange) l : list bool :=
  imap (fun i b => if in_range r (Z.of_nat i) then f b else b) l.
Definition valid_range (r : CFRange) l : Prop :=
  0 <= location r /\ 0 <= length_ r /\ location r + length_ r <= Z.of_nat (length l).
Definition resize_bits (n : Z) l : list bool := take (Z.to_nat n) l ++ replicate (Z.to_nat n - length l) false.

Lemma set_buckets_ok bv p' : bv_ok bv -> length p' = length (buckets_ bv) -> bytes_ok p' -> bv_ok (set_buckets bv p').
Proof. intros [Hc Hl _] Hl' Hp'. split; cbn; [done|by rewrite Hl'|done]. Qed.
(** New buckets that agree with an updated list represent it. *)
Lemma represents_update bv l p' f r : represents bv l -> length p' = length (buckets_ bv) -> bytes_ok p' ->
  (forall i, 0 <= i < count_ bv -> get p' i = if in_range r i then f (get (buckets_ bv) i) else get (buckets_ bv) i) ->
  represents (set_buckets bv p') (update_range f r l).
Proof.
  intros [Hok <-] Hl Hp H. split; [by apply set_buckets_ok|]. cbn [buckets_ set_buckets count_].
  apply list_eq. intros i. unfold update_range. rewrite list_lookup_imap, !bits_of_lookup.
  destruct (decide (Z.of_nat i < count_ bv)); [|done]. simpl. by rewrite H by lia.
Qed.

(** ** Single bits *)
Lemma bit_at_bound bv l i : represents bv l -> 0 <= i < Z.of_nat (length l) -> 0 <= i / 8 < size (buckets_ bv).
Proof. intros [H1 H2]%represents_length Hi. pose proof (Z.div_mod i 8). pose proof (Z.mod_pos_bound i 8). lia. Qed.
Lemma BitVectorBit_ok p i : 0 <= i -> i / 8 < size p -> BitVectorBit p i = Ok (Zb (get p i)).
Proof.
  intros Hi Hs. unfold BitVectorBit. rewrite land7, quot8 by done. pose proof (Z.div_pos i 8). pose proof (Z.mod_pos_bound i 8).
  destruct (load_ok p (i / 8)) as (v & -> & E); [lia|]. cbn [rbind]. f_equal.
  change (CF_BITS_PER_BUCKET - 1) with 7. rewrite (get_byte p (i / 8) v i E eq_refl).
  change 1 with (Z.ones 1). rewrite Z.land_ones, <- Z.bit0_mod, Z.shiftr_spec, Z.add_0_l by lia.
  by destruct (Z.testbit v _).
Qed.
(** A read-modify-write of the byte that holds bit [idx], at that bit. *)
Lemma point_update p idx v w (g : bool -> bool) : bytes_ok p -> 0 <= idx -> p !! Z.to_nat (idx / 8) = Some v ->
  (forall j, 0 <= j < 8 -> Z.testbit w j = if j =? 7 - idx mod 8 then g (Z.testbit v j) else Z.testbit v j) ->
  exists p', store p (idx / 8) w = Ok p' /\ length p' = length p /\ bytes_ok p' /\
    forall i, 0 <= i -> get p' i = if (idx <=? i) && (i <? idx + 1) then g (get p i) else get p i.
Proof.
  intros Hp Hidx E Hw. pose proof (Z.div_pos idx 8). assert (Hb : 0 <= idx / 8 < size p).
  { apply lookup_lt_Some in E. lia. }
  rewrite store_ok by done. eexists. split; [done|]. split; [apply length_insert|]. split; [by apply store_bytes|].
  intros i Hi. rewrite get_store by done. pose proof (Z.mod_pos_bound i 8). pose proof (Z.mod_pos_bound idx 8).
  pose proof (Z.div_mod i 8). pose proof (Z.div_mod idx 8).
  destruct (Z.eqb_spec (i / 8) (idx / 8)) as [Ed|]; [|zcmp; (lia || done)].
  rewrite Hw, (get_byte p _ v i E Ed) by lia. zcmp; (done || lia).
Qed.
Lemma one_bit k j : 0 <= k -> 0 <= j -> Z.testbit (Z.shiftl 1 k) j = (j =? k).
Proof. intros. rewrite Z.shiftl_1_l. by apply testbit_pow2. Qed.
Lemma SetBitVectorBit_ok p idx value : bytes_ok p -> 0 <= idx -> idx / 8 < size p ->
  exists p', SetBitVectorBit p idx value = Ok p' /\ length p' = length p /\ bytes_ok p' /\
    forall i, 0 <= i -> get p' i = if (idx <=? i) && (i <? idx + 1) then nz value else get p i.
Proof.
  intros Hp Hi Hs. unfold SetBitVectorBit. rewrite land7, quot8 by done. change (CF_BITS_PER_BUCKET - 1) with 7.
  pose proof (Z.div_pos idx 8). pose proof (Z.mod_pos_bound idx 8).
  destruct (load_ok p (idx / 8)) as (v & -> & E); [lia|]. cbn [rbind].
  destruct (nz value); (eapply (point_update p idx v _ (fun _ => _)); [done|done|done|]); intros j Hj.
  - rewrite Z.lor_spec, one_bit by lia. destruct (_ =? _); [apply orb_true_r|apply orb_false_r].
  - rewrite Z.land_spec, Z.lnot_spec, one_bit by lia. destruct (_ =? _); [apply andb_false_r|apply andb_true_r].
Qed.
Lemma FlipBitVectorBit_ok p idx : bytes_ok p -> 0 <= idx -> idx / 8 < size p ->
  exists p', FlipBitVectorBit p idx = Ok p' /\ length p' = length p /\ bytes_ok p' /\
    forall i, 0 <= i -> get p' i = if (idx <=? i) && (i <? idx + 1) then negb (get p i) else get p i.
Proof.
  intros Hp Hi Hs. unfold FlipBitVectorBit. rewrite land7, quot8 by done. change (CF_BITS_PER_BUCKET - 1) with 7.
  pose proof (Z.div_pos idx 8). pose proof (Z.mod_pos_bound idx 8).
  destruct (load_ok p (idx / 8)) as (v & -> & E); [lia|]. cbn [rbind].
  apply (point_update p idx v _ negb); [done|done|done|]. intros j Hj.
  rewrite Z.lxor_spec, one_bit by lia. destruct (_ =? _); [by rewrite xorb_true_r|apply xorb_false_r].
Qed.

(** ** Ranges *)
Lemma range_bound bv l loc len : represents bv l -> valid_range (CFRangeMake loc len) l ->
  0 <= loc /\ 0 <= len /\ loc + len <= 8 * size (buckets_ bv).
Proof. intros [H1 H2]%represents_length (? & ? & ?). cbn in *. lia. Qed.
Lemma update_none f r l : length_ r = 0 -> update_range f r l = l.
Proof.
  intros Hr. apply list_eq. intros i. unfold update_range. rewrite list_lookup_imap. destruct (l !! i); [|done]. simpl.
  unfold in_range. by destruct (Z.leb_spec (location r) (Z.of_nat i)), (Z.ltb_spec (Z.of_nat i) (location r + length_ r)); try lia.
Qed.
Lemma SetBits_refines bv l r value : represents bv l -> valid_range r l ->
  exists bv', CFBitVectorSetBits bv r value = Ok bv' /\ represents bv' (update_range (fun _ => nz value) r l).
Proof.
  destruct r as [loc len]. intros Hr Hv. destruct (range_bound bv l loc len Hr Hv) as (Hloc & Hlen & Hb).
  pose proof (ok_bytes _ (proj1 Hr)) as Hp. unfold CFBitVectorSetBits. cbn [length_].
  destruct (Z.eqb_spec len 0) as [->|]; [exists bv; split; [done|by rewrite update_none]|].
  destruct (nz value); [destruct (OneBits_ok bv loc len) as (p' & -> & Hl & Hp' & Hg)|
                        destruct (ZeroBits_ok bv loc len) as (p' & -> & Hl & Hp' & Hg)]; try done;
    (eexists; split; [done|]; apply represents_update; try done; intros i Hi; apply Hg; lia).
Qed.
Lemma FlipBits_refines bv l r : represents bv l -> valid_range r l ->
  exists bv', CFBitVectorFlipBits bv r = Ok bv' /\ represents bv' (update_range negb r l).
Proof.
  destruct r as [loc len]. intros Hr Hv. destruct (range_bound bv l loc len Hr Hv) as (Hloc & Hlen & Hb).
  pose proof (ok_bytes _ (proj1 Hr)) as Hp. unfold CFBitVectorFlipBits. cbn [length_].
  destruct (Z.eqb_spec len 0) as [->|]; [exists bv; split; [done|by rewrite update_none]|].
  destruct (FlipBits_ok bv loc len) as (p' & -> & Hl & Hp' & Hg); try done.
  eexists; split; [done|]; apply represents_update; try done; intros i Hi; apply Hg; lia.
Qed.
Lemma SetBit_refines bv l i value : represents bv l -> 0 <= i < Z.of_nat (length l) ->
  exists bv', CFBitVectorSetBitAtIndex bv i value = Ok bv' /\
    represents bv' (update_range (fun _ => nz value) (CFRangeMake i 1) l).
Proof.
  intros Hr Hi. pose proof (bit_at_bound bv l i Hr Hi). unfold CFBitVectorSetBitAtIndex.
  destruct (SetBitVectorBit_ok (buckets_ bv) i value) as (p' & -> & Hl & Hp' & Hg); [apply Hr|lia|lia|]. cbn [rbind].
  eexists; split; [done|]; apply represents_update; try done; intros j Hj; apply Hg; lia.
Qed.
Lemma FlipBit_refines bv l i : represents bv l -> 0 <= i < Z.of_nat (length l) ->
  exists bv', CFBitVectorFlipBitAtIndex bv i = Ok bv' /\ represents bv' (update_range negb (CFRangeMake i 1) l).
Proof.
  intros Hr Hi. pose proof (bit_at_bound bv l i Hr Hi). unfold CFBitVectorFlipBitAtIndex.
  destruct (FlipBitVectorBit_ok (buckets_ bv) i) as (p' & -> & Hl & Hp' & Hg); [apply Hr|lia|lia|]. cbn [rbind].
  eexists; split; [done|]; apply represents_update; try done; intros j Hj; apply Hg; lia.
Qed.

(** ** All bits *)
Lemma get_memset p n c p' i : memset p c n = Ok p' -> 0 <= n -> 0 <= i ->
  get p' i = if i / 8 <? n then Z.testbit (u8 c) (7 - i mod 8) else get p i.
Proof.
  unfold memset. destruct (Z.leb_spec n (size p)); [|done]. intros [= <-] Hn Hi. unfold get. pose proof (Z.div_pos i 8).
  destruct (Z.ltb_spec (i / 8) n).
  - rewrite lookup_app_l by (rewrite length_replicate; lia). by rewrite lookup_replicate_2 by lia.
  - rewrite lookup_app_r by (rewrite length_replicate; lia). rewrite length_replicate, lookup_drop.
    by replace (Z.to_nat n + (Z.to_nat (i / 8) - Z.to_nat n))%nat with (Z.to_nat (i / 8)) by lia.
Qed.
Lemma memset_ok p n c : 0 <= n <= size p -> bytes_ok p ->
  exists p', memset p c n = Ok p' /\ length p' = length p /\ bytes_ok p'.
Proof.
  intros Hn Hp. unfold memset. destruct (Z.leb_spec n (size p)); [|lia]. eexists. split; [done|]. split.
  - rewrite length_app, length_replicate, length_drop. lia.
  - apply Forall_app. split; [by apply Forall_replicate, wrap_in_word|by apply Forall_drop].
Qed.
Lemma SetAllBits_refines bv l value : represents bv l ->
  exists bv', CFBitVectorSetAllBits bv value = Ok bv' /\ represents bv' (replicate (length l) (nz value)).
Proof.
  intros Hr. destruct (represents_length bv l Hr) as [Hcnt Hb]. unfold CFBitVectorSetAllBits.
  rewrite quot8 by lia. change CF_BITS_PER_BUCKET with 8.
  pose proof (Z.div_mod (count_ bv) 8) as Hd. pose proof (Z.mod_pos_bound (count_ bv) 8) as Hm.
  set (n := count_ bv / 8) in *. assert (Hn : 0 <= n) by (apply Z.div_pos; lia).
  assert (Htail : exists p1, (if 0 <? count_ bv - n * 8
      then if nz value then map_bits OneBits bv (CFRangeMake (n * 8) (count_ bv - n * 8))
           else map_bits ZeroBits bv (CFRangeMake (n * 8) (count_ bv - n * 8))
      else Ok bv) = Ok (set_buckets bv p1) /\ length p1 = length (buckets_ bv) /\ bytes_ok p1 /\
      forall i, n * 8 <= i < count_ bv -> get p1 i = nz value).
  { pose proof (ok_bytes _ (proj1 Hr)) as Hp. destruct (Z.ltb_spec 0 (count_ bv - n * 8)).
    - destruct (nz value); [destruct (OneBits_ok bv (n * 8) (count_ bv - n * 8)) as (p1 & -> & Hl & Hp1 & Hg)|
        destruct (ZeroBits_ok bv (n * 8) (count_ bv - n * 8)) as (p1 & -> & Hl & Hp1 & Hg)]; try (done || lia);
        (exists p1; split_and!; try done; intros i Hi; rewrite Hg by lia; zcmp; (done || lia)).
    - exists (buckets_ bv). split; [by destruct bv|]. split_and!; [done|done|lia]. }
  destruct Htail as (p1 & -> & Hl1 & Hp1 & Hg1). cbn [rbind set_buckets buckets_].
  destruct (memset_ok p1 n (if nz value then unot 8 0 else 0)) as (p2 & E & Hl2 & Hp2); [lia|done|].
  rewrite E. cbn [rbind]. eexists. split; [done|]. split; [destruct Hr as [[? ? ?] _]; split; cbn; (done || congruence)|].
  cbn [buckets_ set_buckets count_]. apply list_eq. intros i. rewrite bits_of_lookup. destruct (decide _).
  - rewrite lookup_replicate_2 by lia. f_equal. rewrite (get_memset p1 n _ p2) by (done || lia).
    pose proof (Z.div_mod (Z.of_nat i) 8). pose proof (Z.mod_pos_bound (Z.of_nat i) 8).
    destruct (Z.ltb_spec (Z.of_nat i / 8) n); [|apply Hg1; lia].
    destruct (nz value); [change (u8 (unot 8 0)) with (unot 8 0); apply bit_of_ones; lia|apply Z.bits_0].
  - symmetry. apply lookup_ge_None. rewrite length_replicate. lia.
Qed.

(** ** Allocation *)
Definition malloc_ok (malloc : Z -> option (list Z)) : Prop :=
  forall n q, malloc n = Some q -> size q = n /\ bytes_ok q.

Lemma RoundUp_spec c : 0 <= c -> c <= RoundUpCapacity c <= c + 64 /\ RoundUpCapacity c mod 64 = 0.
Proof.
  intros Hc. unfold RoundUpCapacity. destruct (Z.eqb_spec c 0) as [->|]; [by vm_compute|].
  rewrite Z.quot_div_nonneg by lia. pose proof (Z.div_mod (c + 63) 64). pose proof (Z.mod_pos_bound (c + 63) 64).
  split; [lia|]. apply Z.mod_mul. lia.
Qed.
Lemma realloc_ok malloc p n q : malloc_ok malloc -> bytes_ok p -> 0 <= n -> realloc malloc p n = Some q ->
  size q = n /\ bytes_ok q /\ forall i, 0 <= i -> i / 8 < size p -> i / 8 < n -> get q i = get p i.
Proof.
  intros Hm Hp Hn E. destruct (malloc n) as [fresh|] eqn:Ef; [|unfold realloc in E; by rewrite Ef in E].
  destruct (Hm _ _ Ef) as [Hl Hb]. destruct (realloc_spec malloc p n q fresh Ef Hl E) as (Hs & Hq & ->).
  split; [done|]. split.
  - apply Forall_app. split; [by apply Forall_take|by apply Forall_drop].
  - intros i Hi H1 H2. pose proof (Z.div_pos i 8). unfold get. by rewrite Hq by lia.
Qed.
Lemma Grow_ok malloc bv l n : malloc_ok malloc -> represents bv l -> 0 <= n ->
  BitVectorGrow malloc bv n = Fault AllocationFailed \/
  exists bv', BitVectorGrow malloc bv n = Ok bv' /\ represents bv' l /\ count_ bv' = count_ bv /\
    variety_ bv' = variety_ bv /\ count_ bv + n <= capacity_ bv'.
Proof.
  intros Hm Hr Hn. pose proof Hr as [[Hc Hl Hp] Hb]. unfold BitVectorGrow.
  destruct (RoundUp_spec (count_ bv + n)) as [HR _]; [lia|]. set (cap := RoundUpCapacity _) in *.
  unfold NumBuckets. cbn [capacity_ set_capacity buckets_]. rewrite quot8 by lia.
  destruct (realloc _ _ _) as [q|] eqn:E; [right|by left]. pose proof (Z.div_pos cap 8).
  destruct (realloc_ok malloc _ (cap / 8 + 1) q Hm Hp) as (Hlq & Hbq & Hg); [lia|done|]. eexists. split; [done|].
  cbn [set_buckets set_capacity count_ capacity_ variety_ buckets_]. split; [|by split_and!; lia].
  split; [split; cbn; (done || lia)|]. cbn [set_buckets set_capacity count_ buckets_]. rewrite <- Hb. apply bits_of_ext.
  destruct (represents_length _ _ Hr) as [_ Hs]. intros i Hi.
  pose proof (Z.div_mod i 8). pose proof (Z.mod_pos_bound i 8). pose proof (Z.div_mod cap 8). pose proof (Z.mod_pos_bound cap 8).
  apply Hg; lia.
Qed.

Lemma resize_lookup n l (i : nat) : 0 <= n -> resize_bits n l !! i =
  if decide (Z.of_nat i < n) then Some (default false (l !! i)) else None.
Proof.
  intros Hn. unfold resize_bits. destruct (decide (Z.of_nat i < n)).
  - destruct (decide (i < length l)%nat) as [Hi|Hi].
    + rewrite lookup_app_l by (rewrite length_take; lia). rewrite lookup_take_lt by lia.
      destruct (lookup_lt_is_Some_2 l i Hi) as [b ->]. done.
    + rewrite lookup_app_r, length_take by (rewrite length_take; lia). rewrite lookup_replicate_2 by lia.
      rewrite (proj2 (lookup_ge_None l i)) by lia. done.
  - apply lookup_ge_None. rewrite length_app, length_take, length_replicate. lia.
Qed.
(** [CFBitVectorSetCount] on buckets known to have room. *)
Lemma SetCount_room bv l n : represents bv l -> 0 <= n -> n <= capacity_ bv -> exists bv',
  (let? bv := if count_ bv <? n then map_bits ZeroBits bv (CFRangeMake (count_ bv) (n - count_ bv)) else Ok bv in
   Ok (set_count bv n)) = Ok bv' /\ represents bv' (resize_bits n l).
Proof.
  intros Hr Hn Hcap. pose proof Hr as [[Hc Hl Hp] Hb].
  assert (Hgo : exists p', (if count_ bv <? n then map_bits ZeroBits bv (CFRangeMake (count_ bv) (n - count_ bv)) else Ok bv)
      = Ok (set_buckets bv p') /\ length p' = length (buckets_ bv) /\ bytes_ok p' /\
      forall i, 0 <= i < n -> get p' i = if i <? count_ bv then get (buckets_ bv) i else false).
  { destruct (Z.ltb_spec (count_ bv) n).
    - pose proof (Z.div_mod (capacity_ bv) 8). pose proof (Z.mod_pos_bound (capacity_ bv) 8).
      destruct (ZeroBits_ok bv (count_ bv) (n - count_ bv)) as (p' & -> & Hl' & Hp' & Hg); try (done || lia).
      exists p'. split_and!; try done. intros i Hi. rewrite Hg by lia. zcmp; (done || lia).
    - exists (buckets_ bv). split; [by destruct bv|]. split_and!; try done. intros i Hi.
      destruct (Z.ltb_spec i (count_ bv)); [done|lia]. }
  destruct Hgo as (p' & -> & Hl' & Hp' & Hg). cbn [rbind]. eexists. split; [done|].
  split; [split; cbn; [lia|by rewrite Hl'|done]|]. cbn [set_count set_buckets buckets_ count_].
  apply list_eq. intros i. rewrite bits_of_lookup, resize_lookup by done. destruct (decide _); [|done].
  f_equal. rewrite Hg by lia. rewrite <- Hb, bits_of_lookup.
  destruct (Z.ltb_spec (Z.of_nat i) (count_ bv)), (decide (Z.of_nat i < count_ bv)); (done || lia).
Qed.
Lemma SetCount_refines malloc bv l n : malloc_ok malloc -> represents bv l -> 0 <= n ->
  variety_ bv = kCFBitVectorMutable \/ n <= capacity_ bv ->
  CFBitVectorSetCount malloc bv n = Fault AllocationFailed \/
  exists bv', CFBitVectorSetCount malloc bv n = Ok bv' /\ represents bv' (resize_bits n l).
Proof.
  intros Hm Hr Hn Hroom. unfold CFBitVectorSetCount.
  destruct (Z.eqb_spec (variety_ bv) kCFBitVectorMutable); destruct (Z.ltb_spec (count_ bv) n) as [Hlt|Hge].
  - destruct (Grow_ok malloc bv l (n - count_ bv) Hm Hr ltac:(lia)) as [->|(bv1 & -> & Hr1 & Hc1 & _ & Hcap)]; [by left|right].
    cbn [rbind]. destruct (SetCount_room bv1 l n Hr1 Hn ltac:(lia)) as (bv' & E & Hr').
    rewrite Hc1, (proj2 (Z.ltb_lt _ _) Hlt) in E. by exists bv'.
  - right. cbn [rbind]. pose proof (ok_count _ (proj1 Hr)).
    destruct (SetCount_room bv l n Hr Hn ltac:(lia)) as (bv' & E & Hr').
    rewrite (proj2 (Z.ltb_ge _ _) Hge) in E. by exists bv'.
  - right. cbn [rbind]. destruct (SetCount_room bv l n Hr Hn) as (bv' & E & Hr'); [by destruct Hroom|].
    rewrite (proj2 (Z.ltb_lt _ _) Hlt) in E. by exists bv'.
  - right. cbn [rbind]. pose proof (ok_count _ (proj1 Hr)).
    destruct (SetCount_room bv l n Hr Hn ltac:(lia)) as (bv' & E & Hr').
    rewrite (proj2 (Z.ltb_ge _ _) Hge) in E. by exists bv'.
Qed.

(** ** Construction *)
Lemma zero_block q n : size q = n -> memset q 0 n = Ok (replicate (Z.to_nat n) 0).
Proof.
  intros <-. unfold memset. rewrite Z.leb_refl, Nat2Z.id, drop_all, app_nil_r. done.
Qed.
Lemma get_zero n i : get (replicate n 0) i = false.
Proof.
  unfold get. destruct (replicate n 0 !! _) as [v|] eqn:E; [apply lookup_replicate in E as [-> _]|]; apply Z.bits_0.
Qed.
Lemma bytes_for_bits n : 0 <= n -> n ÷ CF_BITS_PER_BYTE + (if nz (Z.land n CF_BITS_PER_BYTE_MASK) then 1 else 0) = (n + 7) / 8.
Proof.
  intros Hn. change CF_BITS_PER_BYTE_MASK with (CF_BITS_PER_BUCKET - 1). rewrite land7, quot8 by done.
  unfold nz. destruct (Z.eqb_spec (n mod 8) 0); cbn [negb]; dlia.
Qed.
(** [__CFBitVectorInit], given the bytes it copies. *)
Lemma Init_refines malloc sizeof flags capacity bytes n : malloc_ok malloc -> 0 <= n ->
  match bytes with Some b => bytes_ok b /\ n <= 8 * size b | None => True end ->
  BitVectorInit malloc sizeof flags capacity bytes n = Ok None \/
  exists bv, BitVectorInit malloc sizeof flags capacity bytes n = Ok (Some bv) /\
    represents bv (bits_of (default [] bytes) n) /\ variety_ bv = MutableVarietyFromFlags flags.
Proof.
  intros Hm Hn Hbytes. unfold BitVectorInit. destruct (malloc sizeof); [|by left].
  destruct (RoundUp_spec n Hn) as [HR _]. unfold NumBuckets. cbn [capacity_ set_capacity].
  set (cap := RoundUpCapacity n) in *. rewrite quot8 by lia.
  destruct (malloc (cap / 8 + 1)) as [q|] eqn:E; [right|by left]. apply Hm in E as [Hlq _].
  pose proof (Z.div_pos cap 8). rewrite zero_block by done. cbn [rbind].
  pose proof (Z.div_mod cap 8). pose proof (Z.mod_pos_bound cap 8).
  destruct bytes as [b|]; cbn [default]; unfold id.
  - destruct Hbytes as [Hb Hlb]. cbn [set_count set_buckets buckets_]. rewrite bytes_for_bits by done.
    assert (Hq : 0 <= (n + 7) / 8 <= size b /\ (n + 7) / 8 <= cap / 8 + 1 /\ n <= 8 * ((n + 7) / 8)) by dlia.
    unfold memmove. rewrite length_replicate.
    destruct (Z.leb_spec ((n + 7) / 8) (size b)), (Z.leb_spec ((n + 7) / 8) (Z.of_nat (Z.to_nat (cap / 8 + 1)))); try lia.
    cbn [andb rbind]. eexists. split; [done|]. split; [|done].
    split; [split; cbn|cbn [buckets_ set_variety set_buckets set_count count_]].
    + lia.
    + rewrite length_app, length_take, length_drop, length_replicate. lia.
    + apply Forall_app. split; [by apply Forall_take|apply Forall_drop, Forall_replicate]. done.
    + apply bits_of_ext. intros i Hi. pose proof (Z.div_mod i 8). pose proof (Z.mod_pos_bound i 8). unfold get.
      rewrite lookup_app_l by (rewrite length_take; lia). by rewrite lookup_take_lt by lia.
  - eexists. split; [done|]. split; [|done]. split; [split; cbn|cbn [buckets_ set_variety set_buckets set_count count_]].
    + lia.
    + rewrite length_replicate. lia.
    + by apply Forall_replicate.
    + apply bits_of_ext. intros i Hi. rewrite get_zero. unfold get. cbn. by rewrite Z.bits_0.
Qed.

(** ** Counting *)
Definition occurrences (l : list bool) (v : bool) : Z := Z.of_nat (count_occ Bool.bool_dec l v).
Lemma occurrences_app l1 l2 v : occurrences (l1 ++ l2) v = occurrences l1 v + occurrences l2 v.
Proof. unfold occurrences. rewrite count_occ_app. lia. Qed.
Lemma occurrences_negb l v : occurrences (map negb l) v = occurrences l (negb v).
Proof.
  unfold occurrences. f_equal. induction l as [|b l IH]; [done|]. cbn [map count_occ].
  destruct b, v; cbn [negb] in *; repeat destruct (Bool.bool_dec _ _); (done || congruence).
Qed.
(** The bits [lo] to [hi] of a byte. *)
Definition byte_bits (v lo n : Z) : list bool := map (fun k => Z.testbit v (7 - k)) (seqZ lo n).
Definition range_bits p (loc len : Z) : list bool := map (get p) (seqZ loc len).
Lemma range_bits_split p loc a len : 0 <= a <= len ->
  range_bits p loc len = range_bits p loc a ++ range_bits p (loc + a) (len - a).
Proof.
  intros Ha. unfold range_bits. replace len with (a + (len - a)) at 1 by lia.
  by rewrite seqZ_app, map_app by lia.
Qed.
Lemma range_bits_piece p b v lo hi : p !! Z.to_nat b = Some v -> 0 <= lo -> lo <= hi <= 7 ->
  range_bits p (8 * b + lo) (hi - lo + 1) = byte_bits v lo (hi - lo + 1).
Proof.
  intros E Hlo Hhi. unfold range_bits, byte_bits. apply list_eq. intros i. rewrite !list_lookup_fmap.
  destruct (decide (Z.of_nat i < hi - lo + 1)).
  - rewrite !lookup_seqZ_lt by lia. simpl. f_equal.
    assert (Hd : (8 * b + lo + Z.of_nat i) / 8 = b /\ (8 * b + lo + Z.of_nat i) mod 8 = lo + Z.of_nat i) by dlia.
    rewrite (get_byte p b v) by (done || apply Hd). by rewrite (proj2 Hd).
  - by rewrite !lookup_seqZ_ge by lia.
Qed.

Definition nibbles_ok (v : Z) : bool :=
  forallb (fun lo => forallb (fun hi =>
    match CountBits_loop 2 (Z.land v (BitBucketMask lo hi)) 0 with
    | Ok n => n =? occurrences (byte_bits v lo (hi - lo + 1)) true
    | Fault _ => false
    end)
    (seqZ lo (8 - lo))) (seqZ 0 8).
Lemma nibbles_counted v : in_word 8 v -> nibbles_ok v = true.
Proof. apply (forall_below 256). by vm_compute. Qed.
Lemma CountBits_loop_shift v c : (exists k, CountBits_loop 2 v 0 = Ok k) ->
  CountBits_loop 2 v c = let? k := CountBits_loop 2 v 0 in Ok (c + k).
Proof.
  intros [k E]. cbn [CountBits_loop] in *. destruct (load NibbleBitCount (Z.land v 15)) as [a|]; [|done]. cbn [rbind] in *.
  destruct (load NibbleBitCount _) as [b|]; [|done]. cbn [rbind]. f_equal. lia.
Qed.
Lemma CountBits_masked v lo hi c : in_word 8 v -> 0 <= lo -> lo <= hi <= 7 ->
  CountBits_loop 2 (Z.land v (BitBucketMask lo hi)) c = Ok (c + occurrences (byte_bits v lo (hi - lo + 1)) true).
Proof.
  intros Hv Hlo Hhi. pose proof (nibbles_counted v Hv) as H. unfold nibbles_ok in H.
  rewrite forallb_forall in H. specialize (H lo). rewrite forallb_forall in H.
  assert (E : CountBits_loop 2 (Z.land v (BitBucketMask lo hi)) 0 = Ok (occurrences (byte_bits v lo (hi - lo + 1)) true)).
  { specialize (H ltac:(apply list_elem_of_In, elem_of_seqZ; lia) hi ltac:(apply list_elem_of_In, elem_of_seqZ; lia)).
    destruct (CountBits_loop _ _ _); [|done]. by apply Z.eqb_eq in H as ->. }
  rewrite CountBits_loop_shift by by eexists. by rewrite E.
Qed.
Lemma CountBits_ok v lo hi val c : in_word 8 v -> 0 <= lo -> lo <= hi <= 7 ->
  CountBits v (BitBucketMask lo hi) {| oc_value := val; oc_count := c |} =
  Ok (v, {| oc_value := val; oc_count := c + occurrences (byte_bits v lo (hi - lo + 1)) (nz val) |}).
Proof.
  intros Hv Hlo Hhi. unfold CountBits. cbn [oc_value oc_count]. change (1 * 2)%nat with 2%nat.
  destruct (nz val); [by rewrite CountBits_masked|].
  rewrite CountBits_masked by (first [by apply wrap_in_word|done]). cbn [rbind]. do 4 f_equal.
  replace (byte_bits (unot 8 v) lo (hi - lo + 1)) with (map negb (byte_bits v lo (hi - lo + 1))); [apply occurrences_negb|].
  unfold byte_bits. rewrite map_map. apply map_ext_in. intros k Hk%list_elem_of_In%elem_of_seqZ.
  unfold unot. rewrite testbit_wrap, Z.lnot_spec by lia. by destruct (Z.ltb_spec (7 - k) 8); [|lia].
Qed.
Lemma visit_count ps bv loc len val c : bytes_ok (buckets_ bv) -> cover ps loc len -> 0 <= loc ->
  loc + len <= 8 * size (buckets_ bv) ->
  visit CountBits ps bv {| oc_value := val; oc_count := c |} =
  Ok (bv, {| oc_value := val; oc_count := c + occurrences (range_bits (buckets_ bv) loc len) (nz val) |}).
Proof.
  intros Hp. revert loc len c. induction ps as [|[[b lo] hi] ps IH]; intros loc len c Hc Hloc Hlen; cbn [cover visit] in *.
  { subst. unfold range_bits. cbn. by rewrite Z.add_0_r. }
  destruct Hc as (Hlo & Hhi & Eloc & Hc). pose proof (cover_nonneg _ _ _ Hc).
  destruct (load_ok (buckets_ bv) b) as (v & _ & Ev); [lia|]. pose proof (load_byte _ _ _ Hp Ev) as Hv.
  rewrite (map_masked_same CountBits bv _ _ b lo hi v Hp ltac:(lia) Ev Hlo Hhi (CountBits_ok v lo hi val c Hv Hlo Hhi)).
  cbn [rbind].
  rewrite (IH _ _ _ Hc) by lia. do 3 f_equal. rewrite (range_bits_split _ loc (hi - lo + 1)) by lia.
  rewrite occurrences_app, Eloc, (range_bits_piece _ b v) by done. lia.
Qed.

(** The slice of the list a range names. *)
Definition slice (r : CFRange) l : list bool := take (Z.to_nat (length_ r)) (drop (Z.to_nat (location r)) l).
Lemma slice_range_bits bv l loc len : represents bv l -> valid_range (CFRangeMake loc len) l ->
  range_bits (buckets_ bv) loc len = slice (CFRangeMake loc len) l.
Proof.
  intros Hr Hv. destruct (represents_length bv l Hr) as [Hc _]. destruct Hv as (H1 & H2 & H3). destruct Hr as [_ Hl].
  cbn [location length_] in *. unfold slice, range_bits. cbn [location length_]. apply list_eq. intros i.
  rewrite list_lookup_fmap. destruct (decide (Z.of_nat i < len)).
  - rewrite lookup_seqZ_lt, lookup_take_lt, lookup_drop by lia. simpl.
    replace (Z.to_nat loc + i)%nat with (Z.to_nat (loc + Z.of_nat i)) by lia. symmetry. eapply bits_of_get; [exact Hl|]. rewrite <- Hl, bits_of_length in H3. lia.
  - rewrite lookup_seqZ_ge, lookup_take_ge by lia. done.
Qed.
Lemma CountOfBit_ok bv l r value : represents bv l -> valid_range r l ->
  CFBitVectorGetCountOfBit bv r value = Ok (occurrences (slice r l) (nz value)).
Proof.
  destruct r as [loc len]. intros Hr Hv. destruct (range_bound bv l loc len Hr Hv) as (H1 & H2 & H3).
  unfold CFBitVectorGetCountOfBit. cbn [length_]. rewrite <- (slice_range_bits bv) by done.
  destruct (Z.eqb_spec len 0) as [->|]; [done|]. rewrite InternalMap_visit by done.
  rewrite (visit_count _ _ loc len) by (first [done|apply Hr|by apply pieces_cover]). done.
Qed.

(** ** Searching *)
Definition bit l (i : Z) : bool := default false (l !! Z.to_nat i).
Lemma GetBit_ok bv l i : represents bv l -> 0 <= i < Z.of_nat (length l) ->
  CFBitVectorGetBitAtIndex bv i = Ok (Zb (bit l i)).
Proof.
  intros Hr Hi. pose proof (bit_at_bound bv l i Hr Hi). unfold CFBitVectorGetBitAtIndex.
  rewrite BitVectorBit_ok by lia. destruct (represents_length bv l Hr). unfold bit.
  rewrite (bits_of_get (buckets_ bv) (count_ bv) l i) by (first [apply Hr|lia]). done.
Qed.
(** [r] is the first (last) index of [value] in [loc, loc + len), or -1. *)
Definition no_bit l (value lo hi : Z) : Prop := forall i, lo <= i < hi -> Zb (bit l i) <> value.
Definition first_index l (loc hi value r : Z) : Prop :=
  r = kCFNotFound /\ no_bit l value loc hi \/ loc <= r < hi /\ Zb (bit l r) = value /\ no_bit l value loc r.
Definition last_index l (loc hi value r : Z) : Prop :=
  r = kCFNotFound /\ no_bit l value loc hi \/ loc <= r < hi /\ Zb (bit l r) = value /\ no_bit l value (r + 1) hi.
Lemma no_bit_extend l value lo mid hi : no_bit l value lo mid -> no_bit l value mid hi -> no_bit l value lo hi.
Proof. intros H1 H2 i Hi. destruct (decide (i < mid)); [apply H1|apply H2]; lia. Qed.
Lemma no_bit_one l value i : Zb (bit l i) <> value -> no_bit l value i (i + 1).
Proof. intros H j Hj. by replace j with i by lia. Qed.
Lemma FirstIndex_ok bv l r value : represents bv l -> valid_range r l ->
  exists i, CFBitVectorGetFirstIndexOfBit bv r value = Ok i /\
    first_index l (location r) (location r + length_ r) value i.
Proof.
  intros Hr (Hloc & Hlen & Hle). unfold CFBitVectorGetFirstIndexOfBit.
  assert (H : forall n idx, 0 <= idx -> idx + Z.of_nat n = length_ r -> no_bit l value (location r) (location r + idx) ->
    exists i, FirstIndex_loop n bv r value idx = Ok i /\ first_index l (location r) (location r + length_ r) value i).
  { induction n as [|n IH]; intros idx Hidx Hn Hno; cbn [FirstIndex_loop].
    - exists kCFNotFound. split; [done|]. left. split; [done|]. by replace (length_ r) with idx by lia.
    - rewrite (GetBit_ok bv l) by (done || lia). cbn [rbind]. destruct (Z.eqb_spec value (Zb (bit l (location r + idx)))).
      + eexists. split; [done|]. right. split; [lia|]. by split.
      + apply IH; [lia|lia|]. rewrite Z.add_assoc. eapply no_bit_extend; [exact Hno|]. by apply no_bit_one. }
  apply H; [lia|lia|]. intros i Hi. lia.
Qed.
Lemma LastIndex_ok bv l r value : represents bv l -> valid_range r l ->
  exists i, CFBitVectorGetLastIndexOfBit bv r value = Ok i /\
    last_index l (location r) (location r + length_ r) value i.
Proof.
  intros Hr (Hloc & Hlen & Hle). unfold CFBitVectorGetLastIndexOfBit.
  assert (H : forall idx : nat, Z.of_nat idx <= length_ r ->
    no_bit l value (location r + Z.of_nat idx) (location r + length_ r) ->
    exists i, LastIndex_loop idx bv r value = Ok i /\ last_index l (location r) (location r + length_ r) value i).
  { induction idx as [|idx IH]; intros Hidx Hno; cbn [LastIndex_loop].
    - exists kCFNotFound. split; [done|]. left. split; [done|]. by rewrite Z.add_0_r in Hno.
    - replace (location r + Z.of_nat (S idx)) with (location r + Z.of_nat idx + 1) in Hno by lia.
      rewrite (GetBit_ok bv l) by (done || lia). cbn [rbind].
      destruct (Z.eqb_spec value (Zb (bit l (location r + Z.of_nat idx)))).
      + eexists. split; [done|]. right. split; [lia|]. by split.
      + apply IH; [lia|]. eapply no_bit_extend; [|exact Hno]. by apply no_bit_one. }
  apply H; [lia|]. intros i Hi. lia.
Qed.

(** ** Extraction from a byte boundary on *)
Definition getting out cur total : getBitsContext := GetBitsContext out cur 0 total true.
Lemma GetBits_step v m out cur total : 0 < total -> 0 <= cur < size out ->
  GetBits v m (getting out cur total) =
  Ok (v, if 8 <=? total then getting (<[Z.to_nat cur := u8 (Z.land v m)]> out) (cur + 1) total
         else getting (<[Z.to_nat cur := u8 (Z.land v m)]> out) cur 0).
Proof.
  intros Ht Hc. unfold GetBits, getting. cbn [initBits totalBits ignoreFirstInitBits Z.ltb Z.compare rbind].
  change (CF_BITS_PER_BUCKET - 0) with 8. destruct (Z.leb_spec 8 total).
  - rewrite Z.min_l by lia. unfold GetBits_loop. change CF_BITS_PER_BYTE with 8. change CF_BITS_PER_BUCKET with 8.
    cbn [Z.leb Z.compare Z.sub Z.add Z.opp Z.pos_sub Pos.compare Pos.compare_cont]. unfold put_byte. cbn [gb_bytes curByte].
    rewrite store_ok by done. cbn [rbind gb_bytes curByte initBits totalBits ignoreFirstInitBits].
    by rewrite Z.shiftr_0_r, Z.sub_0_r.
  - rewrite Z.min_r by lia. unfold GetBits_loop. change CF_BITS_PER_BYTE with 8. change CF_BITS_PER_BUCKET with 8.
    destruct (Z.leb_spec 8 total); [lia|]. cbn [rbind]. destruct (Z.ltb_spec 0 total); [|lia].
    unfold put_byte. cbn [gb_bytes curByte].
    rewrite store_ok by done. cbn [rbind gb_bytes curByte initBits totalBits ignoreFirstInitBits].
    change (8 - 8) with 0. by rewrite Z.shiftr_0_r, Z.sub_diag.
Qed.
(** The bits of the output after the first [done] of them were extracted. *)
Definition extracted p out out' loc cur done_ : Prop :=
  length out' = length out /\
  forall i, 0 <= i -> get out' i =
    if (8 * cur <=? i) && (i <? 8 * cur + 8 * ((done_ + 7) / 8))
    then (i - 8 * cur <? done_) && get p (loc + (i - 8 * cur)) else get out i.
(** One byte of output, of the first [n] bits of byte [b]. *)
Lemma extract_byte p out b cur n v : p !! Z.to_nat b = Some v -> 0 <= b -> 0 <= cur < size out -> 0 < n <= 8 ->
  extracted p out (<[Z.to_nat cur := u8 (Z.land v (BitBucketMask 0 (n - 1)))]> out) (8 * b) cur n.
Proof.
  intros Ev Hb Hc Hn. split; [apply length_insert|]. intros i Hi. rewrite get_store by done.
  assert (E1 : (n + 7) / 8 = 1) by dlia. rewrite E1. pose proof (Z.div_mod i 8). pose proof (Z.mod_pos_bound i 8).
  destruct (Z.eqb_spec (i / 8) cur) as [Ei|]; [|zcmp; (done || lia)].
  rewrite Z.land_spec, mask_testbit by lia.
  rewrite (get_byte p b v) by (first [done|dlia]).
  replace ((8 * b + (i - 8 * cur)) mod 8) with (i mod 8) by dlia.
  zcmp; try lia; cbn [andb]; by rewrite ?andb_true_r, ?andb_false_r.
Qed.
Lemma extract_more p out out1 out2 loc cur n m : extracted p out out1 loc cur n -> n mod 8 = 0 -> 0 <= n -> 0 < m ->
  extracted p out1 out2 (loc + n) (cur + n / 8) m -> extracted p out out2 loc cur (n + m).
Proof.
  intros [L1 G1] Hn Hn0 Hm [L2 G2]. split; [congruence|]. intros i Hi. rewrite G2, G1 by done. clear G1 G2.
  assert (E1 : (n + 7) / 8 = n / 8 /\ n = 8 * (n / 8) /\ (n + m + 7) / 8 = n / 8 + (m + 7) / 8) by dlia.
  destruct E1 as (E1 & E2 & E3). rewrite E1, E3. replace (loc + n + (i - 8 * (cur + n / 8))) with (loc + (i - 8 * cur)) by lia.
  assert (Hr : 0 < (m + 7) / 8 /\ m <= 8 * ((m + 7) / 8)) by dlia.
  generalize dependent ((m + 7) / 8). generalize dependent (n / 8). intros q E1 E2 k E3 Hr.
  zcmp; try lia; cbn [andb]; try done.
Qed.
Lemma visit_whole_GetBits bv n b out cur total : bytes_ok (buckets_ bv) -> 0 <= b -> b + Z.of_nat n <= size (buckets_ bv) ->
  8 <= total \/ n = 0%nat -> 0 <= cur -> cur + Z.of_nat n <= size out ->
  exists out', visit GetBits (whole n b) bv (getting out cur total) = Ok (bv, getting out' (cur + Z.of_nat n) total) /\
    extracted (buckets_ bv) out out' (8 * b) cur (8 * Z.of_nat n).
Proof.
  intros Hp. revert b out cur. induction n as [|n IH]; intros b out cur Hb Hbn Ht Hc Hout; cbn [whole visit].
  { exists out. rewrite Z.add_0_r. split; [done|]. split; [done|]. intros i Hi. change ((8 * Z.of_nat 0 + 7) / 8) with 0.
    zcmp; (done || lia). }
  destruct (load_ok (buckets_ bv) b) as (v & _ & Ev); [lia|].
  pose proof (GetBits_step v (BitBucketMask 0 7) out cur total ltac:(lia) ltac:(lia)) as Hs.
  rewrite (proj2 (Z.leb_le 8 total)) in Hs by lia.
  rewrite (map_masked_same GetBits bv _ _ b 0 7 v Hp Hb Ev ltac:(lia) ltac:(lia) Hs). cbn [rbind].
  set (out1 := <[Z.to_nat cur := _]> out) in *.
  destruct (IH (b + 1) out1 (cur + 1)) as (out' & -> & He); [lia|lia|lia|lia|unfold out1; rewrite length_insert; lia|].
  exists out'. split; [do 3 f_equal; lia|]. replace (8 * Z.of_nat (S n)) with (8 + 8 * Z.of_nat n) by lia.
  destruct n as [|n].
  - destruct He as [L G]. split; [rewrite L; apply length_insert|]. intros i Hi. rewrite G by done.
    destruct (extract_byte (buckets_ bv) out b cur 8 v) as [_ G1]; [done..|lia|lia|]. change (8 - 1) with 7 in G1. fold out1 in G1.
    rewrite G1 by done. change ((8 * Z.of_nat 0 + 7) / 8) with 0. change (8 + 8 * Z.of_nat 0) with 8.
    zcmp; (done || lia).
  - eapply extract_more; [apply (extract_byte _ _ b cur 8 v); (done || lia)|done|lia|lia|].
    change (8 - 1) with 7. change (8 / 8) with 1. fold out1. by replace (8 * b + 8) with (8 * (b + 1)) by lia.
Qed.
Lemma aligned_pieces loc len : 0 <= loc -> 0 < len -> loc mod 8 = 0 ->
  pieces loc len = whole (Z.to_nat (len / 8)) (loc / 8) ++
    (if nz (len mod 8) then [(loc / 8 + len / 8, 0, len mod 8 - 1)] else []).
Proof.
  intros Hloc Hlen Hm. unfold pieces. rewrite Hm, Z.add_0_l, Z.sub_0_r. destruct (Z.eqb_spec len 0); [lia|].
  destruct (Z.ltb_spec len 8).
  - rewrite (Z.div_small len), (Z.mod_small len) by lia. cbn [whole Z.to_nat app]. unfold nz.
    destruct (Z.eqb_spec len 0); [lia|]. cbn [negb]. by rewrite Z.add_0_r.
  - assert (E : (len - 8) / 8 = len / 8 - 1 /\ (len - 8) mod 8 = len mod 8 /\ 0 < len / 8) by dlia.
    destruct E as (-> & -> & Hq).
    replace (Z.to_nat (len / 8)) with (S (Z.to_nat (len / 8 - 1))) by lia. cbn [whole app].
    by replace (loc / 8 + 1 + (len / 8 - 1)) with (loc / 8 + len / 8) by lia.
Qed.
Lemma GetBits_aligned bv l r out : represents bv l -> valid_range r l -> location r mod 8 = 0 -> length_ r <= 8 * size out ->
  exists out', CFBitVectorGetBits bv r out = Ok out' /\ length out' = length out /\
    forall i, 0 <= i -> get out' i =
      if i <? 8 * ((length_ r + 7) / 8) then (i <? length_ r) && bit l (location r + i) else get out i.
Proof.
  destruct r as [loc len]. cbn [location length_]. intros Hr Hv Hal Hout.
  destruct (range_bound bv l loc len Hr Hv) as (H1 & H2 & H3). pose proof (ok_bytes _ (proj1 Hr)) as Hp.
  enough (H : exists out', CFBitVectorGetBits bv (CFRangeMake loc len) out = Ok out' /\
    extracted (buckets_ bv) out out' loc 0 len).
  { destruct H as (out' & -> & L & G). exists out'. split; [done|]. split; [done|]. intros i Hi. rewrite G by done.
    rewrite Z.mul_0_r, Z.add_0_l, Z.sub_0_r. destruct (Z.leb_spec 0 i); [|lia]. cbn [andb].
    destruct (Z.ltb_spec i (8 * ((len + 7) / 8))); [|done]. destruct (Z.ltb_spec i len); [|done]. cbn [andb].
    destruct (represents_length bv l Hr). destruct Hv as (_ & _ & Hv). cbn [location length_] in Hv. unfold bit.
    by rewrite (bits_of_get (buckets_ bv) (count_ bv) l (loc + i)) by (first [apply Hr|lia]). }
  unfold CFBitVectorGetBits. cbn [location length_]. destruct (Z.eqb_spec len 0) as [->|].
  { exists out. split; [done|]. split; [done|]. intros i Hi. change ((0 + 7) / 8) with 0. zcmp; (done || lia). }
  rewrite InternalMap_visit, aligned_pieces, visit_app by (done || lia). rewrite land7, Hal. fold (getting out 0 len).
  assert (E : loc = 8 * (loc / 8) /\ len = 8 * (len / 8) + len mod 8 /\ 0 <= len mod 8 < 8 /\ 0 <= len / 8 /\ 0 <= loc / 8) by dlia.
  destruct E as (El & En & Em & Eq & Eb).
  destruct (visit_whole_GetBits bv (Z.to_nat (len / 8)) (loc / 8) out 0 len) as (out1 & -> & He1); try (done || lia).
  cbn [rbind]. rewrite Z2Nat.id in * by lia. rewrite <- El in He1. destruct (nz (len mod 8)) eqn:Hnz.
  - apply nz_true in Hnz. cbn [visit]. destruct (load_ok (buckets_ bv) (loc / 8 + len / 8)) as (v & _ & Ev); [lia|].
    destruct He1 as [L1 G1].
    pose proof (GetBits_step v (BitBucketMask 0 (len mod 8 - 1)) out1 (0 + len / 8) len ltac:(lia) ltac:(lia)) as Hs.
    set (out2 := <[Z.to_nat (0 + len / 8) := _]> out1) in *.
    rewrite (map_masked_same GetBits bv _ _ (loc / 8 + len / 8) 0 (len mod 8 - 1) v Hp ltac:(lia) Ev ltac:(lia) ltac:(lia) Hs). cbn [rbind].
    exists out2. split; [by destruct (8 <=? len)|].
    assert (He2 : extracted (buckets_ bv) out1 out2 (8 * (loc / 8 + len / 8)) (0 + len / 8) (len mod 8)).
    { apply extract_byte; (done || lia). }
    destruct (decide (len / 8 = 0)) as [Hz|].
    + destruct He2 as [L2 G2]. split; [congruence|]. intros i Hi. rewrite G2, G1 by done. rewrite Hz in *.
      replace (len mod 8) with len by lia. replace (8 * (loc / 8 + 0)) with loc by lia. change ((8 * 0 + 7) / 8) with 0.
      zcmp; (done || lia).
    + rewrite En. eapply extract_more; [by split|dlia|lia|lia|].
      replace (8 * (len / 8) / 8) with (len / 8) by dlia. by replace (loc + 8 * (len / 8)) with (8 * (loc / 8 + len / 8)) by lia.
  - apply nz_false in Hnz. exists out1. split; [done|]. by replace (8 * (len / 8)) with len in He1 by lia.
Qed.

(** ** Equality

    [__CFBitVectorEqual] answers true only for equal lists. *)
Lemma Equal_loop_sound n b1 b2 idx : 0 <= idx -> BitVectorEqual_loop n b1 b2 idx = Ok true ->
  forall i, idx <= i < idx + Z.of_nat n -> b1 !! Z.to_nat i = b2 !! Z.to_nat i.
Proof.
  revert idx. induction n as [|n IH]; intros idx Hidx E i Hi; [lia|]. cbn [BitVectorEqual_loop] in E.
  unfold load in E. destruct (Z.ltb_spec idx 0); [lia|].
  destruct (b1 !! Z.to_nat idx) as [v1|] eqn:E1; [|done]. destruct (b2 !! Z.to_nat idx) as [v2|] eqn:E2; [|done].
  cbn [rbind] in E. destruct (Z.eqb_spec v1 v2) as [->|]; [|done]. cbn [negb] in E.
  destruct (decide (i = idx)) as [->|]; [congruence|]. apply (IH (idx + 1)); [lia|done|lia].
Qed.
Lemma Equal_loop_total n b1 b2 idx : 0 <= idx -> idx + Z.of_nat n <= size b1 -> idx + Z.of_nat n <= size b2 ->
  exists r, BitVectorEqual_loop n b1 b2 idx = Ok r /\
    ((forall i, idx <= i < idx + Z.of_nat n -> b1 !! Z.to_nat i = b2 !! Z.to_nat i) -> r = true).
Proof.
  revert idx. induction n as [|n IH]; intros idx Hidx H1 H2; cbn [BitVectorEqual_loop]; [by exists true|].
  destruct (load_ok b1 idx) as (v1 & -> & E1); [lia|]. destruct (load_ok b2 idx) as (v2 & -> & E2); [lia|]. cbn [rbind].
  destruct (Z.eqb_spec v1 v2) as [->|Hne]; cbn [negb].
  - destruct (IH (idx + 1)) as (r & -> & Hr); [lia..|]. exists r. split; [done|]. intros H. apply Hr. intros i Hi. apply H. lia.
  - exists false. split; [done|]. intros H. specialize (H idx ltac:(lia)). congruence.
Qed.
Lemma Equal_ok bv1 bv2 l1 l2 : represents bv1 l1 -> represents bv2 l2 ->
  exists r, BitVectorEqual bv1 bv2 = Ok r /\ (r = true -> l1 = l2) /\
    (l1 = l2 -> (forall i, 0 <= i <= count_ bv1 / 8 -> buckets_ bv1 !! Z.to_nat i = buckets_ bv2 !! Z.to_nat i) -> r = true).
Proof.
  intros Hr1 Hr2. destruct (represents_length _ _ Hr1) as [C1 S1]. destruct (represents_length _ _ Hr2) as [C2 S2].
  unfold BitVectorEqual. destruct (Z.eqb_spec (count_ bv1) (count_ bv2)) as [E|E]; cbn [negb].
  2: { exists false. split; [done|]. split; [done|]. intros ->. congruence. }
  destruct (Z.eqb_spec (count_ bv1) 0) as [E0|].
  { exists true. split; [done|]. split; [|done]. intros _. destruct l1, l2; simpl in *; (done || lia). }
  rewrite quot8 by lia. pose proof (Z.div_pos (count_ bv1) 8). pose proof (Z.div_mod (count_ bv1) 8).
  pose proof (Z.mod_pos_bound (count_ bv1) 8).
  destruct (Equal_loop_total (Z.to_nat (count_ bv1 / 8 + 1)) (buckets_ bv1) (buckets_ bv2) 0) as (r & Er & Ht); [lia|lia|lia|].
  exists r. split; [done|]. split.
  - intros ->. pose proof (Equal_loop_sound _ _ _ 0 ltac:(lia) Er) as Hs. destruct Hr1 as [_ <-], Hr2 as [_ <-].
    rewrite <- E. apply bits_of_ext. intros i Hi. pose proof (Z.div_mod i 8). pose proof (Z.mod_pos_bound i 8).
    unfold get. by rewrite Hs by lia.
  - intros _ H'. apply Ht. intros i Hi. apply H'. lia.
Qed.

(** ** Properties *)

(** The updates of bit vectors refine those of lists of booleans. A constructed or copied vector
    stands for the first bits of its source; setting, flipping and clearing bits
    or ranges of bits updates exactly these; [SetCount] truncates the list or
    extends it with zeros, reallocating a mutable vector. Every one of them stays
    within the block of bytes and fails only when memory cannot be allocated,
    whatever the contents of fresh memory. *)
Lemma bitvector_updates_correct malloc bv l r i n value : malloc_ok malloc -> represents bv l ->
  valid_range r l -> 0 <= i < Z.of_nat (length l) -> 0 <= n ->
  (exists bv', CFBitVectorSetBits bv r value = Ok bv' /\ represents bv' (update_range (fun _ => nz value) r l)) /\
  (exists bv', CFBitVectorFlipBits bv r = Ok bv' /\ represents bv' (update_range negb r l)) /\
  (exists bv', CFBitVectorSetBitAtIndex bv i value = Ok bv' /\
     represents bv' (update_range (fun _ => nz value) (CFRangeMake i 1) l)) /\
  (exists bv', CFBitVectorFlipBitAtIndex bv i = Ok bv' /\ represents bv' (update_range negb (CFRangeMake i 1) l)) /\
  (exists bv', CFBitVectorSetAllBits bv value = Ok bv' /\ represents bv' (replicate (length l) (nz value))) /\
  (variety_ bv = kCFBitVectorMutable -> CFBitVectorSetCount malloc bv n = Fault AllocationFailed \/
     exists bv', CFBitVectorSetCount malloc bv n = Ok bv' /\ represents bv' (resize_bits n l)) /\
  (forall sizeof bytes, bytes_ok bytes -> n <= 8 * size bytes ->
     CFBitVectorCreate malloc sizeof (Some bytes) n = Ok None \/
     exists bv', CFBitVectorCreate malloc sizeof (Some bytes) n = Ok (Some bv') /\ represents bv' (bits_of bytes n)) /\
  (forall sizeof capacity, CFBitVectorCreateMutableCopy malloc sizeof capacity bv = Ok None \/
     exists bv', CFBitVectorCreateMutableCopy malloc sizeof capacity bv = Ok (Some bv') /\ represents bv' l /\
       variety_ bv' = kCFBitVectorMutable) /\
  (forall sizeof capacity, CFBitVectorCreateMutable malloc sizeof capacity = Ok None \/
     exists bv', CFBitVectorCreateMutable malloc sizeof capacity = Ok (Some bv') /\ represents bv' []).
Proof.
  intros Hm Hr Hv Hi Hn. split; [by apply SetBits_refines|]. split; [by apply FlipBits_refines|].
  split; [by apply SetBit_refines|]. split; [by apply FlipBit_refines|]. split; [by apply SetAllBits_refines|].
  split; [intros Hvar; apply SetCount_refines; by auto|]. split; [|split].
  - intros sizeof bytes Hb Hl.
    destruct (Init_refines malloc sizeof kCFBitVectorImmutable n (Some bytes) n Hm Hn (conj Hb Hl)) as [E|(bv' & E & H & _)];
      [by left|right; by exists bv'].
  - intros sizeof capacity. destruct (represents_length bv l Hr) as [Hc Hs].
    destruct (Init_refines malloc sizeof kCFBitVectorMutable capacity (Some (buckets_ bv)) (count_ bv) Hm)
      as [E|(bv' & E & H & Hvar)]; [lia|split; [apply Hr|lia]|by left|right].
    exists bv'. split; [done|]. split; [|done]. destruct Hr as [_ <-]. done.
  - intros sizeof capacity. destruct (Init_refines malloc sizeof kCFBitVectorMutable capacity None 0 Hm)
      as [E|(bv' & E & H & _)]; [done|done|by left|right; by exists bv'].
Qed.

(** The queries of a bit vector answer from the list it stands for:
    [GetBitAtIndex], the number of occurrences of a bit in a range and whether it
    occurs, the first and the last index of a bit or [kCFNotFound]. From a byte
    boundary on, [GetBits] fills the caller's buffer with the bits of the range,
    zeros to the end of the last byte, and leaves the rest alone. Equality
    answers true only for equal lists, and does so when the bytes it compares
    beyond the last bit agree too. *)
Lemma bitvector_queries_correct bv l r i value out bv' l' : represents bv l -> valid_range r l ->
  0 <= i < Z.of_nat (length l) -> represents bv' l' ->
  CFBitVectorGetBitAtIndex bv i = Ok (Zb (bit l i)) /\
  CFBitVectorGetCountOfBit bv r value = Ok (occurrences (slice r l) (nz value)) /\
  CFBitVectorContainsBit bv r value = Ok (bool_decide (nz value ∈ slice r l)) /\
  (exists j, CFBitVectorGetFirstIndexOfBit bv r value = Ok j /\
     first_index l (location r) (location r + length_ r) value j) /\
  (exists j, CFBitVectorGetLastIndexOfBit bv r value = Ok j /\
     last_index l (location r) (location r + length_ r) value j) /\
  (location r mod 8 = 0 -> length_ r <= 8 * size out ->
     exists out', CFBitVectorGetBits bv r out = Ok out' /\ length out' = length out /\
       forall k, 0 <= k -> get out' k =
         if k <? 8 * ((length_ r + 7) / 8) then (k <? length_ r) && bit l (location r + k) else get out k) /\
  (exists e, BitVectorEqual bv bv' = Ok e /\ (e = true -> l = l') /\
     (l = l' -> (forall k, 0 <= k <= count_ bv / 8 -> buckets_ bv !! Z.to_nat k = buckets_ bv' !! Z.to_nat k) -> e = true)).
Proof.
  intros Hr Hv Hi Hr'. split; [by apply GetBit_ok|]. split; [by apply CountOfBit_ok|]. split.
  { unfold CFBitVectorContainsBit. rewrite (CountOfBit_ok bv l) by done. cbn [rbind]. f_equal. unfold occurrences.
    pose proof (count_occ_In Bool.bool_dec (slice r l) (nz value)) as H.
    rewrite <- list_elem_of_In in H. unfold nz at 1.
    destruct (Z.eqb_spec (Z.of_nat (count_occ Bool.bool_dec (slice r l) (nz value))) 0); cbn [negb]; symmetry.
    - apply bool_decide_eq_false. intros Hin%H. lia.
    - apply bool_decide_eq_true, H. lia. }
  split; [by apply FirstIndex_ok|]. split; [by apply LastIndex_ok|]. split; [by apply GetBits_aligned|by apply Equal_ok].
Qed.

(** C33: bit vectors refine lists of booleans. A constructed or copied vector
    stands for the first bits of its source; setting, flipping and clearing bits
    or ranges of bits updates exactly these; [SetCount] truncates the list or
    extends it with zeros, reallocating a mutable vector. The queries answer from
    the list: a bit, the number of occurrences of a bit in a range and whether it
    occurs, the first and the last index of a bit or [kCFNotFound]. From a byte
    boundary on, [GetBits] fills the caller's buffer with the bits of the range,
    zeros to the end of the last byte, and leaves the rest alone. Equality
    answers true only for equal lists, and does so when the bytes it compares
    beyond the last bit agree too. Every one of them stays within the block of
    bytes and fails only when memory cannot be allocated, whatever the contents of
    fresh memory. *)
Theorem bitvector_refines_list malloc bv l r i n value out bv2 l2 : malloc_ok malloc -> represents bv l ->
  valid_range r l -> 0 <= i < Z.of_nat (length l) -> 0 <= n -> represents bv2 l2 ->
  (exists bv', CFBitVectorSetBits bv r value = Ok bv' /\ represents bv' (update_range (fun _ => nz value) r l)) /\
  (exists bv', CFBitVectorFlipBits bv r = Ok bv' /\ represents bv' (update_range negb r l)) /\
  (exists bv', CFBitVectorSetBitAtIndex bv i value = Ok bv' /\
     represents bv' (update_range (fun _ => nz value) (CFRangeMake i 1) l)) /\
  (exists bv', CFBitVectorFlipBitAtIndex bv i = Ok bv' /\ represents bv' (update_range negb (CFRangeMake i 1) l)) /\
  (exists bv', CFBitVectorSetAllBits bv value = Ok bv' /\ represents bv' (replicate (length l) (nz value))) /\
  (variety_ bv = kCFBitVectorMutable -> CFBitVectorSetCount malloc bv n = Fault AllocationFailed \/
     exists bv', CFBitVectorSetCount malloc bv n = Ok bv' /\ represents bv' (resize_bits n l)) /\
  (forall sizeof bytes, bytes_ok bytes -> n <= 8 * size bytes ->
     CFBitVectorCreate malloc sizeof (Some bytes) n = Ok None \/
     exists bv', CFBitVectorCreate malloc sizeof (Some bytes) n = Ok (Some bv') /\ represents bv' (bits_of bytes n)) /\
  (forall sizeof capacity, CFBitVectorCreateMutableCopy malloc sizeof capacity bv = Ok None \/
     exists bv', CFBitVectorCreateMutableCopy malloc sizeof capacity bv = Ok (Some bv') /\ represents bv' l /\
       variety_ bv' = kCFBitVectorMutable) /\
  (forall sizeof capacity, CFBitVectorCreateMutable malloc sizeof capacity = Ok None \/
     exists bv', CFBitVectorCreateMutable malloc sizeof capacity = Ok (Some bv') /\ represents bv' []) /\
  CFBitVectorGetBitAtIndex bv i = Ok (Zb (bit l i)) /\
  CFBitVectorGetCountOfBit bv r value = Ok (occurrences (slice r l) (nz value)) /\
  CFBitVectorContainsBit bv r value = Ok (bool_decide (nz value ∈ slice r l)) /\
  (exists j, CFBitVectorGetFirstIndexOfBit bv r value = Ok j /\
     first_index l (location r) (location r + length_ r) value j) /\
  (exists j, CFBitVectorGetLastIndexOfBit bv r value = Ok j /\
     last_index l (location r) (location r + length_ r) value j) /\
  (location r mod 8 = 0 -> length_ r <= 8 * size out ->
     exists out', CFBitVectorGetBits bv r out = Ok out' /\ length out' = length out /\
       forall k, 0 <= k -> get out' k =
         if k <? 8 * ((length_ r + 7) / 8) then (k <? length_ r) && bit l (location r + k) else get out k) /\
  (exists e, BitVectorEqual bv bv2 = Ok e /\ (e = true -> l = l2) /\
     (l = l2 -> (forall k, 0 <= k <= count_ bv / 8 -> buckets_ bv !! Z.to_nat k = buckets_ bv2 !! Z.to_nat k) -> e = true)).
Proof.
  intros Hm Hr Hv Hi Hn Hr2.
  destruct (bitvector_updates_correct malloc bv l r i n value Hm Hr Hv Hi Hn) as (H1 & H2 & H3 & H4 & H5 & H6 & H7 & H8 & H9).
  do 9 (split; [done|]). by apply bitvector_queries_correct.
Qed.

(** ** Witnesses and anomalies *)
Module BitVectorWitness.
(** Memory whose fresh bytes are all 0xAA. *)
Definition malloc (n : Z) : option (list Z) :=
  if (0 <=? n) && (n <=? 1000) then Some (replicate (Z.to_nat n) 170) else None.
Lemma malloc_sound : malloc_ok malloc.
Proof.
  intros n q. unfold malloc. destruct (Z.leb_spec 0 n), (Z.leb_spec n 1000); cbn [andb]; try done.
  intros [= <-]. rewrite length_replicate. split; [lia|by apply Forall_replicate].
Qed.
Definition bv : CFBitVector := BitVector 30 64 [202; 254; 186; 191; 0; 0; 0; 0; 0] kCFBitVectorMutable.
Definition bits : list bool := bits_of [202; 254; 186; 191] 30.
Lemma bv_represents : represents bv bits.
Proof. split; [split; [done|done|]|by vm_compute]. repeat constructor; done. Qed.
Definition shrunk : CFBitVector := BitVector 6 64 [202; 254; 186; 191; 0; 0; 0; 0; 0] kCFBitVectorMutable.
Lemma range_ok : valid_range (CFRangeMake 8 19) bits.
Proof. unfold valid_range. change (Z.of_nat (length bits)) with 30. cbn. lia. Qed.

Lemma bitvector_refines_list_witness : (exists bv', CFBitVectorSetCount malloc bv 100 = Ok bv' /\
  represents bv' (resize_bits 100 bits)) /\
  CFBitVectorGetCountOfBit bv (CFRangeMake 8 19) 1 = Ok 14 /\
  exists out', CFBitVectorGetBits bv (CFRangeMake 8 19) [1; 2; 3; 4] = Ok out' /\ length out' = 4%nat.
Proof.
  destruct (bitvector_refines_list malloc bv bits (CFRangeMake 8 19) 3 100 1 [1; 2; 3; 4] bv bits malloc_sound bv_represents range_ok)
    as (_ & _ & _ & _ & _ & H & _ & _ & _ & _ & Hc & _ & _ & _ & Hg & _); [by vm_compute|lia|apply bv_represents|].
  split; [destruct (H eq_refl) as [E|H']; [vm_compute in E; discriminate E|exact H']|].
  split; [rewrite Hc; by vm_compute|]. destruct (Hg eq_refl ltac:(cbn; lia)) as (out' & E & L & _).
  exists out'. split; [exact E|exact L].
Defined.

(** Two vectors that stand for the same six bits but compare unequal: what
    [SetCount] cut off is still in the bucket [__CFBitVectorEqual] compares. *)
Example shrunk_not_equal :
  CFBitVectorSetCount malloc bv 6 = Ok shrunk /\
  bits_of (buckets_ shrunk) 6 = bits_of [200] 6 /\
  BitVectorEqual shrunk (BitVector 6 64 [200; 0; 0; 0; 0; 0; 0; 0; 0] kCFBitVectorMutable) = Ok false.
Proof. by vm_compute. Qed.
(** [GetBits] from the middle of a byte loses the bits of the first bucket: the
    fifteen bits from 1 on are 1001 0101 1111 110, and the buffer gets 252. *)
Example GetBits_unaligned :
  CFBitVectorGetBits bv (CFRangeMake 1 15) [0; 0] = Ok [252; 0] /\
  range_bits [149; 252] 0 15 = slice (CFRangeMake 1 15) bits.
Proof. by vm_compute. Qed.
End BitVectorWitness.
