(* ===== verification/CFBinaryHeap.v ===== *)
(** * CFBinaryHeap.c: binary heaps of CoreFoundation
    (src/sdk/RunLoopDemo/RunLoopDemo/CF-1153.18)

    A heap keeps its items in an array, the smallest first. Items are pointers
    ([Z]); what the heap calls back are parameters: [call_retain f v], the pointer
    the retain callback [f] answers for [v], and [call_compare f a b info]. The
    operations return the calls of the retain and release callbacks they made, in
    order. Definitions only; CFBinaryHeapTheory.v has the theorems.

    As in CFBitVector.v the build is the release build, where assertions expand to
    nothing. *)

From stdpp Require Import prelude numbers list.
From Stdlib Require Import ZArith Lia Bool.
From S2P Require Import Prelude CFMemory.

(** The index of the most significant set bit, from 1. *)
Fixpoint flsl_loop (fuel : nat) (mask idx : Z) : Z :=
  match fuel with
  | O => idx
  | S fuel => if nz mask then flsl_loop fuel (Z.shiftr mask 1) (idx + 1) else idx
  end.
Definition flsl (mask : Z) : Z := flsl_loop 64 (u64 mask) 0.

(** [1 << flsl(capacity)] is computed in [int]. *)
Definition RoundUpCapacity (capacity : Z) : res Z :=
  if capacity <? 4 then Ok 4
  else if flsl capacity <? 31 then Ok (Z.shiftl 1 (flsl capacity)) else Fault IntegerOverflow.
Definition NumBucketsForCapacity (capacity : Z) : Z := capacity.

(** Function pointers, 0 being [NULL]. *)
Record CallBacks := {
  retain : Z;
  release : Z;
  copyDescription : Z;
  compare : Z;
}.
Definition no_callbacks : CallBacks := {| retain := 0; release := 0; copyDescription := 0; compare := 0 |}.

Record CFBinaryHeap := BinaryHeap {
  count_ : Z;
  capacity_ : Z;
  callbacks_ : CallBacks;
  info_ : Z;
  buckets_ : list Z;
  variety_ : Z;
}.
Implicit Types (heap : CFBinaryHeap).
Definition set_count heap (v : Z) :=
  BinaryHeap v (capacity_ heap) (callbacks_ heap) (info_ heap) (buckets_ heap) (variety_ heap).
Definition set_capacity heap (v : Z) :=
  BinaryHeap (count_ heap) v (callbacks_ heap) (info_ heap) (buckets_ heap) (variety_ heap).
Definition set_callbacks heap (v : CallBacks) :=
  BinaryHeap (count_ heap) (capacity_ heap) v (info_ heap) (buckets_ heap) (variety_ heap).
Definition set_info heap (v : Z) :=
  BinaryHeap (count_ heap) (capacity_ heap) (callbacks_ heap) v (buckets_ heap) (variety_ heap).
Definition set_buckets heap (v : list Z) :=
  BinaryHeap (count_ heap) (capacity_ heap) (callbacks_ heap) (info_ heap) v (variety_ heap).
Definition set_variety heap (v : Z) :=
  BinaryHeap (count_ heap) (capacity_ heap) (callbacks_ heap) (info_ heap) (buckets_ heap) v.

Definition kCFBinaryHeapMutable : Z := 1.
Definition MutableVarietyFromFlags (flags : Z) : Z := Z.land flags 3.

(** Calls of the retain and release callbacks. *)
Inductive call := Retained (v : Z) | Released (v : Z).

Section Callbacks.
Context (malloc : Z -> option (list Z)) (call_retain : Z -> Z -> Z) (call_compare : Z -> Z -> Z -> Z -> Z).

(** The test every loop of the heap makes: [a] comes after [b]. *)
Definition greater heap (a b : Z) : bool :=
  if nz (compare (callbacks_ heap))
  then call_compare (compare (callbacks_ heap)) a b (info_ heap) =? kCFCompareGreaterThan
  else b <? a.

Definition BinaryHeapGrow heap (numNewValues : Z) : res CFBinaryHeap :=
  let oldCount := count_ heap in
  let? capacity := RoundUpCapacity (oldCount + numNewValues) in
  let heap := set_capacity (set_capacity heap capacity) (NumBucketsForCapacity capacity) in
  match realloc malloc (buckets_ heap) (capacity_ heap) with
  | None => Fault AllocationFailed
  | Some p => Ok (set_buckets heap p)
  end.

(** The hole at [idx] moves up past the items that come after [value]. *)
Fixpoint AddValue_loop (fuel : nat) heap (value idx : Z) : res (CFBinaryHeap * Z) :=
  if 0 <? idx then
    match fuel with
    | O => Fault OutOfFuel
    | S fuel =>
      let pidx := Z.shiftr (idx - 1) 1 in
      let? item := load (buckets_ heap) pidx in
      if negb (greater heap item value) then Ok (heap, idx)
      else
        let? p := overwrite (buckets_ heap) idx item in
        AddValue_loop fuel (set_buckets heap p) value pidx
    end
  else Ok (heap, idx).
Definition CFBinaryHeapAddValue heap (value : Z) : res (CFBinaryHeap * list call) :=
  let? heap :=
    if variety_ heap =? kCFBinaryHeapMutable then
      if count_ heap =? capacity_ heap then BinaryHeapGrow heap 1 else Ok heap
    else Ok heap in
  let cnt := count_ heap in
  let heap := set_count heap (cnt + 1) in
  let? (heap, idx) := AddValue_loop (Z.to_nat cnt) heap value cnt in
  if nz (retain (callbacks_ heap)) then
    let? p := overwrite (buckets_ heap) idx (call_retain (retain (callbacks_ heap)) value) in
    Ok (set_buckets heap p, [Retained value])
  else
    let? p := overwrite (buckets_ heap) idx value in
    Ok (set_buckets heap p, []).

(** The hole at [idx] moves down past the smaller of the items below it, as long
    as that item does not come after [val]. *)
Fixpoint RemoveMinimum_loop (fuel : nat) heap (val idx : Z) : res (CFBinaryHeap * Z) :=
  let cidx := Z.shiftl idx 1 + 1 in
  if cidx <? count_ heap then
    match fuel with
    | O => Fault OutOfFuel
    | S fuel =>
      let? item := load (buckets_ heap) cidx in
      let? (item, cidx) :=
        if cidx + 1 <? count_ heap then
          let? item2 := load (buckets_ heap) (cidx + 1) in
          if greater heap item item2 then Ok (item2, cidx + 1) else Ok (item, cidx)
        else Ok (item, cidx) in
      if greater heap item val then Ok (heap, idx)
      else
        let? p := overwrite (buckets_ heap) idx item in
        RemoveMinimum_loop fuel (set_buckets heap p) val cidx
    end
  else Ok (heap, idx).
Definition CFBinaryHeapRemoveMinimumValue heap : res (CFBinaryHeap * list call) :=
  let cnt := count_ heap in
  if cnt =? 0 then Ok (heap, [])
  else
    let heap := set_count heap (cnt - 1) in
    let? calls :=
      if nz (release (callbacks_ heap)) then
        let? item := load (buckets_ heap) 0 in Ok [Released item]
      else Ok [] in
    let? val := load (buckets_ heap) (cnt - 1) in
    let? (heap, idx) := RemoveMinimum_loop (Z.to_nat cnt) heap val 0 in
    let? p := overwrite (buckets_ heap) idx val in
    Ok (set_buckets heap p, calls).

(** [__CFBinaryHeapInit]: [None] is [NULL]; [sizeof] is the size of the instance. *)
Fixpoint AddValues heap (values : list Z) : res (CFBinaryHeap * list call) :=
  match values with
  | [] => Ok (heap, [])
  | value :: values =>
    let? (heap, calls) := CFBinaryHeapAddValue heap value in
    let? (heap, calls') := AddValues heap values in
    Ok (heap, calls ++ calls')
  end.
Definition BinaryHeapInit (sizeof flags : Z) (values : list Z) (callBacks : option CallBacks) (compareContext : option Z) :
    res (option (CFBinaryHeap * list call)) :=
  match malloc sizeof with
  | None => Ok None
  | Some _ =>
    let? capacity := RoundUpCapacity 1 in
    let memory := BinaryHeap 0 0 no_callbacks 0 [] 0 in
    let memory := set_capacity (set_capacity memory capacity) (NumBucketsForCapacity capacity) in
    match malloc (capacity_ memory) with
    | None => Ok None
    | Some buckets =>
      let memory := set_count (set_buckets memory buckets) 0 in
      let memory := set_callbacks memory (match callBacks with Some c => c | None => no_callbacks end) in
      let memory := match compareContext with Some info => set_info memory info | None => memory end in
      let memory := set_variety memory kCFBinaryHeapMutable in
      let? (memory, calls) := AddValues memory values in
      Ok (Some (set_variety memory (MutableVarietyFromFlags flags), calls))
    end
  end.
Definition CFBinaryHeapCreate (sizeof capacity : Z) (callBacks : option CallBacks) (compareContext : option Z) :=
  BinaryHeapInit sizeof kCFBinaryHeapMutable [] callBacks compareContext.
Definition CFBinaryHeapCreateCopy (sizeof capacity : Z) heap :=
  BinaryHeapInit sizeof kCFBinaryHeapMutable (take (Z.to_nat (count_ heap)) (buckets_ heap))
    (Some (callbacks_ heap)) (Some (info_ heap)).

Definition CFBinaryHeapGetCount heap : Z := count_ heap.
Definition same_value heap (value item : Z) : bool :=
  (value =? item) || (nz (compare (callbacks_ heap)) &&
    (kCFCompareEqualTo =? call_compare (compare (callbacks_ heap)) value item (info_ heap))).
Fixpoint CountOfValue_loop (n : nat) heap (value idx cnt : Z) : res Z :=
  match n with
  | O => Ok cnt
  | S n =>
    let? item := load (buckets_ heap) idx in
    CountOfValue_loop n heap value (idx + 1) (if same_value heap value item then cnt + 1 else cnt)
  end.
Definition CFBinaryHeapGetCountOfValue heap (value : Z) : res Z :=
  CountOfValue_loop (Z.to_nat (count_ heap)) heap value 0 0.
Fixpoint ContainsValue_loop (n : nat) heap (value idx : Z) : res bool :=
  match n with
  | O => Ok false
  | S n =>
    let? item := load (buckets_ heap) idx in
    if same_value heap value item then Ok true else ContainsValue_loop n heap value (idx + 1)
  end.
Definition CFBinaryHeapContainsValue heap (value : Z) : res bool :=
  ContainsValue_loop (Z.to_nat (count_ heap)) heap value 0.

(** 0 is [NULL]. *)
Definition CFBinaryHeapGetMinimum heap : res Z :=
  if 0 <? count_ heap then load (buckets_ heap) 0 else Ok 0.
(** The value stored through the caller's pointer, if any. *)
Definition CFBinaryHeapGetMinimumIfPresent heap : res (option Z) :=
  if count_ heap =? 0 then Ok None
  else let? item := load (buckets_ heap) 0 in Ok (Some item).

(** The loop of [CFBinaryHeapGetValues] and [CFBinaryHeapApplyFunction] over a
    copy of the heap: the values in the order of removal. *)
Fixpoint drain (fuel : nat) heapCopy : res (list Z * list call) :=
  if 0 <? count_ heapCopy then
    match fuel with
    | O => Fault OutOfFuel
    | S fuel =>
      let? value := CFBinaryHeapGetMinimum heapCopy in
      let? (heapCopy, calls) := CFBinaryHeapRemoveMinimumValue heapCopy in
      let? (values, calls') := drain fuel heapCopy in
      Ok (value :: values, calls ++ calls')
    end
  else Ok ([], []).
(** A copy that cannot be allocated is used all the same. *)
Definition CFBinaryHeapGetValues (sizeof : Z) heap : res (list Z * list call) :=
  let cnt := count_ heap in
  if cnt =? 0 then Ok ([], [])
  else
    let? copy := CFBinaryHeapCreateCopy sizeof cnt heap in
    match copy with
    | None => Fault AllocationFailed
    | Some (heapCopy, calls) =>
      let? (values, calls') := drain (Z.to_nat (count_ heapCopy)) heapCopy in
      Ok (values, calls ++ calls')
    end.
(** The values the function is applied to, in order. *)
Definition CFBinaryHeapApplyFunction (sizeof : Z) heap : res (list Z * list call) :=
  let cnt := count_ heap in
  if cnt =? 0 then Ok ([], [])
  else
    let? copy := CFBinaryHeapCreateCopy sizeof cnt heap in
    match copy with
    | None => Fault AllocationFailed
    | Some (heapCopy, calls) =>
      let? (values, calls') := drain (Z.to_nat (count_ heapCopy)) heapCopy in
      Ok (values, calls ++ calls')
    end.

(** [__CFBinaryHeapEqual]. *)
Fixpoint Equal_loop (cmp info : Z) (list1 list2 : list Z) : bool :=
  match list1, list2 with
  | val1 :: list1, val2 :: list2 =>
    if negb (val1 =? val2) then
      if cmp =? 0 then false
      else if call_compare cmp val1 val2 info =? 0 then false
      else Equal_loop cmp info list1 list2
    else Equal_loop cmp info list1 list2
  | _, _ => true
  end.
Definition BinaryHeapEqual (sizeof : Z) heap1 heap2 : res bool :=
  let cnt := count_ heap1 in
  if negb (cnt =? count_ heap2) then Ok false
  else
    let cmp := compare (callbacks_ heap1) in
    if negb (cmp =? compare (callbacks_ heap2)) then Ok false
    else if cnt =? 0 then Ok true
    else
      let? (list1, _) := CFBinaryHeapGetValues sizeof heap1 in
      let? (list2, _) := CFBinaryHeapGetValues sizeof heap2 in
      Ok (Equal_loop cmp (info_ heap1) list1 list2).
Definition BinaryHeapHash heap : Z := count_ heap.

Fixpoint release_all (n : nat) heap (idx : Z) : res (list call) :=
  match n with
  | O => Ok []
  | S n =>
    let? item := load (buckets_ heap) idx in
    let? calls := release_all n heap (idx + 1) in
    Ok (Released item :: calls)
  end.
Definition CFBinaryHeapRemoveAllValues heap : res (CFBinaryHeap * list call) :=
  let cnt := count_ heap in
  let? calls := if nz (release (callbacks_ heap)) then release_all (Z.to_nat cnt) heap 0 else Ok [] in
  Ok (set_count heap 0, calls).
(** [collectable]: the allocator is garbage collected. *)
Definition BinaryHeapDeallocate (collectable : bool) heap : res (CFBinaryHeap * list call) :=
  if collectable && (retain (callbacks_ heap) =? 0) && (release (callbacks_ heap) =? 0) then Ok (heap, [])
  else
    let? (heap, calls) := CFBinaryHeapRemoveAllValues heap in
    if variety_ heap =? kCFBinaryHeapMutable then Ok (set_buckets heap [], calls) else Ok (heap, calls).
End Callbacks.
