(* ===== verification/CFBinaryHeapTheory.v ===== *)
(** * CFBinaryHeap.c keeps its items in heap order

    The items of a heap are the first [count_] elements of its array. Adding a
    value and removing the minimum move a hole along a path of the tree; between
    two moves the items other than the hole's are those of the heap, and the
    order fails at most around the hole ([up_hole], [down_hole]). It follows that
    the operations implement a priority queue on the multiset of the items, and
    that draining a copy sorts them. *)

From stdpp Require Import prelude numbers list.
From Stdlib Require Import ZArith Lia Bool Sorted.
From S2P Require Import Prelude CFMemory CFBinaryHeap.

(** ** The array *)
Definition at_ (b : list Z) (i : Z) : Z := default 0 (b !! Z.to_nat i).
Definition items_of (b : list Z) (n : Z) : list Z := take (Z.to_nat n) b.
Definition parent (i : Z) : Z := (i - 1) / 2.

Lemma parent_shift i : Z.shiftr (i - 1) 1 = parent i.
Proof. rewrite Z.shiftr_div_pow2 by lia. done. Qed.
Lemma child_shift i : Z.shiftl i 1 + 1 = 2 * i + 1.
Proof. rewrite Z.shiftl_mul_pow2 by lia. lia. Qed.
Lemma parent_bounds i : 0 < i -> 0 <= parent i < i.
Proof. unfold parent. dlia. Qed.
Lemma parent_children i j : 0 < i -> parent i = j <-> i = 2 * j + 1 \/ i = 2 * j + 2.
Proof. unfold parent. dlia. Qed.

Lemma load_at b i : 0 <= i < size b -> load b i = Ok (at_ b i).
Proof. intros Hi. destruct (load_ok b i Hi) as (v & -> & E). unfold at_. by rewrite E. Qed.
Lemma at_insert b j w i : 0 <= i -> 0 <= j < size b -> at_ (<[Z.to_nat j := w]> b) i = if i =? j then w else at_ b i.
Proof.
  intros Hi Hj. unfold at_. destruct (Z.eqb_spec i j) as [->|].
  - by rewrite list_lookup_insert_eq by lia.
  - by rewrite list_lookup_insert_ne by lia.
Qed.
Lemma items_lookup b n i : 0 <= i < n -> n <= size b -> items_of b n !! Z.to_nat i = Some (at_ b i).
Proof.
  intros Hi Hn. unfold items_of, at_. rewrite lookup_take_lt by lia.
  destruct (lookup_lt_is_Some_2 b (Z.to_nat i)) as [v ->]; [lia|done].
Qed.
Lemma items_length b n : 0 <= n <= size b -> Z.of_nat (length (items_of b n)) = n.
Proof. intros Hn. unfold items_of. rewrite length_take. lia. Qed.

(** Replacing one element. *)
Lemma insert_perm (l : list Z) (i : nat) a w : l !! i = Some a -> a :: <[i := w]> l ≡ₚ w :: l.
Proof.
  revert i. induction l as [|x l IH]; intros [|i] E; simplify_eq/=; [by apply Permutation_swap|].
  rewrite (Permutation_swap x a), (IH i E). apply Permutation_swap.
Qed.
(** [b] holds the items [old] and, at [idx], something to be overwritten. *)
Definition hole b n idx old : Prop := items_of b n ≡ₚ at_ b idx :: old.
Lemma fill_hole b n idx old w : 0 <= idx < n -> n <= size b -> hole b n idx old ->
  items_of (<[Z.to_nat idx := w]> b) n ≡ₚ w :: old.
Proof.
  intros Hi Hn H. unfold items_of at 1. rewrite take_insert_lt by lia. fold (items_of b n).
  apply (Permutation_cons_inv (a := at_ b idx)). rewrite insert_perm by by apply items_lookup.
  unfold hole in H. rewrite H. apply Permutation_swap.
Qed.
Lemma move_hole b n idx idx' old : 0 <= idx < n -> 0 <= idx' < n -> idx <> idx' -> n <= size b -> hole b n idx old ->
  hole (<[Z.to_nat idx := at_ b idx']> b) n idx' old.
Proof.
  intros Hi Hi' Hne Hn H. unfold hole. rewrite at_insert by lia. destruct (Z.eqb_spec idx' idx); [lia|].
  by apply fill_hole.
Qed.

Section Theory.
Context (malloc : Z -> option (list Z)) (call_retain : Z -> Z -> Z) (call_compare : Z -> Z -> Z -> Z -> Z).
Context (cb : CallBacks) (info : Z).
Implicit Types (heap : CFBinaryHeap).

(** [a] may come before [b]. *)
Definition after (a b : Z) : bool :=
  if nz (compare cb) then call_compare (compare cb) a b info =? kCFCompareGreaterThan else b <? a.
Definition le (a b : Z) : Prop := after a b = false.
(** The value the heap stores for one added to it. *)
Definition stored (v : Z) : Z := if nz (retain cb) then call_retain (retain cb) v else v.

(** What the comparison must satisfy: "not greater" is a total preorder. *)
Record callbacks_ok : Prop := {
  le_total : forall a b, after a b = true -> le b a;
  le_trans : forall a b c, le a b -> le b c -> le a c;
}.
(** What the header does not ask for, and the order of the heap depends on:
    retaining a value does not change its place. *)
Definition in_place : Prop := forall v x, (le (stored v) x <-> le v x) /\ (le x (stored v) <-> le x v).
Context (Hcb : callbacks_ok).
Lemma le_refl a : le a a.
Proof. destruct (after a a) eqn:E; [|done]. by apply (le_total Hcb). Qed.

Definition ordered b n : Prop := forall i, 0 < i < n -> le (at_ b (parent i)) (at_ b i).

Lemma root_minimal b n i : ordered b n -> 0 <= i < n -> le (at_ b 0) (at_ b i).
Proof.
  intros Ho Hi. destruct Hi as [H0 Hn]. revert Hn. pattern i. apply Z_lt_induction; [|done]. clear i H0. intros i IH Hi.
  destruct (decide (i < 0)); [unfold at_; replace (Z.to_nat i) with 0%nat by lia; apply le_refl|].
  destruct (decide (i = 0)) as [->|]; [apply le_refl|]. pose proof (parent_bounds i ltac:(lia)).
  apply (le_trans Hcb) with (at_ b (parent i)); [apply IH; lia|apply Ho; lia].
Qed.

(** The heap, with its callbacks and context. *)
Record shape heap : Prop := {
  sh_callbacks : callbacks_ heap = cb;
  sh_info : info_ heap = info;
}.
Lemma greater_after heap a b : shape heap -> greater call_compare heap a b = after a b.
Proof. intros [Ec Ei]. unfold greater, after. by rewrite Ec, Ei. Qed.

(** *** Moving up

    The order holds but between the hole and its parent, for the value [v] that
    will fill the hole. *)
Record up_hole b n idx v : Prop := {
  up_rest : forall i, 0 < i < n -> i <> idx -> parent i <> idx -> le (at_ b (parent i)) (at_ b i);
  up_below : forall i, 0 < i < n -> parent i = idx -> le v (at_ b i);
  up_above : forall i, 0 < i < n -> 0 < idx -> parent i = idx -> le (at_ b (parent idx)) (at_ b i);
}.
Lemma up_step b n idx v : 0 < idx < n -> n <= size b -> up_hole b n idx v -> after (at_ b (parent idx)) v = true ->
  up_hole (<[Z.to_nat idx := at_ b (parent idx)]> b) n (parent idx) v.
Proof.
  intros Hi Hn [Hr Hb Ha] Hgt. pose proof (parent_bounds idx ltac:(lia)) as Hp. pose proof (le_total Hcb _ _ Hgt) as Hle.
  split.
  - intros i Hi' Hne Hpne. pose proof (parent_bounds i ltac:(lia)). rewrite !at_insert by lia.
    destruct (Z.eqb_spec (parent i) idx) as [E|], (Z.eqb_spec i idx) as [->|]; [lia| |congruence|by apply Hr].
    apply Ha; lia.
  - intros i Hi' Hpi. pose proof (parent_bounds i ltac:(lia)). rewrite at_insert by lia.
    destruct (Z.eqb_spec i idx) as [->|]; [done|]. apply (le_trans Hcb) with (at_ b (parent idx)); [done|].
    rewrite <- Hpi. apply Hr; lia.
  - intros i Hi' Hpos Hpi. pose proof (parent_bounds i ltac:(lia)). pose proof (parent_bounds (parent idx) Hpos).
    rewrite !at_insert by lia. destruct (Z.eqb_spec (parent (parent idx)) idx); [lia|].
    assert (Hpp : le (at_ b (parent (parent idx))) (at_ b (parent idx))) by (apply Hr; lia).
    destruct (Z.eqb_spec i idx); [done|]. apply (le_trans Hcb) with (at_ b (parent idx)); [done|].
    rewrite <- Hpi. apply Hr; lia.
Qed.
Lemma up_fill b n idx v : in_place -> 0 <= idx < n -> n <= size b -> up_hole b n idx v ->
  idx = 0 \/ le (at_ b (parent idx)) v -> ordered (<[Z.to_nat idx := stored v]> b) n.
Proof.
  intros Hp Hi Hn [Hr Hb _] Hv i Hi'. pose proof (parent_bounds i ltac:(lia)). rewrite !at_insert by lia.
  destruct (Z.eqb_spec (parent i) idx) as [E|], (Z.eqb_spec i idx) as [->|]; [lia| | |by apply Hr].
  - apply (proj1 (Hp v _)). by apply Hb.
  - apply (proj2 (Hp v _)). destruct Hv; [lia|done].
Qed.
Lemma AddValue_loop_ok fuel heap v idx old : shape heap -> let n := count_ heap in let b := buckets_ heap in
  0 <= idx < n -> n <= size b -> idx <= Z.of_nat fuel -> (in_place -> up_hole b n idx v) -> hole b n idx old ->
  exists p idx', AddValue_loop call_compare fuel heap v idx = Ok (set_buckets heap p, idx') /\ length p = length b /\
    0 <= idx' < n /\ (in_place -> ordered (<[Z.to_nat idx' := stored v]> p) n) /\
    items_of (<[Z.to_nat idx' := stored v]> p) n ≡ₚ stored v :: old.
Proof.
  revert heap idx. induction fuel as [|fuel IH]; intros heap idx Hs n b Hi Hn Hf Hup Hh.
  { assert (idx = 0) as -> by lia. exists b, 0. cbn [AddValue_loop Z.ltb Z.compare]. unfold b. split; [by destruct heap|].
    split; [done|]. split; [lia|]. split; [intros Hp; apply up_fill; auto|by apply fill_hole]. }
  cbn [AddValue_loop]. rewrite parent_shift. fold b. destruct (Z.ltb_spec 0 idx).
  - pose proof (parent_bounds idx ltac:(lia)). rewrite load_at by lia. cbn [rbind]. rewrite greater_after by done.
    destruct (after (at_ b (parent idx)) v) eqn:E; cbn [negb].
    + rewrite overwrite_ok by lia. cbn [rbind].
      destruct (IH (set_buckets heap (<[Z.to_nat idx := at_ b (parent idx)]> b)) (parent idx)) as (p & idx' & -> & Hl & H');
        cbn [count_ set_buckets buckets_]; fold n; rewrite ?length_insert; try lia.
      * by destruct Hs.
      * intros Hp. apply up_step; (done || lia || auto).
      * apply move_hole; (done || lia).
      * exists p, idx'. split; [done|]. split; [rewrite Hl; apply length_insert|done].
    + exists b, idx. split; [by destruct heap|]. split; [done|]. split; [lia|].
      split; [intros Hp; apply up_fill; auto|by apply fill_hole].
  - assert (idx = 0) as -> by lia. exists b, 0. split; [by destruct heap|].
    split; [done|]. split; [lia|]. split; [intros Hp; apply up_fill; auto|by apply fill_hole].
Qed.

(** *** Moving down

    The order holds but between the hole and its children, for the value [val]
    that will fill the hole. *)
Record down_hole b n idx val : Prop := {
  down_rest : forall i, 0 < i < n -> i <> idx -> parent i <> idx -> le (at_ b (parent i)) (at_ b i);
  down_below : forall i, 0 < i < n -> 0 < idx -> parent i = idx -> le (at_ b (parent idx)) (at_ b i);
  down_above : 0 < idx -> le (at_ b (parent idx)) val;
}.
(** [c] is the smaller child of [idx]. *)
Record least_child b n idx c : Prop := {
  lc_child : 0 < c < n /\ parent c = idx;
  lc_least : forall i, 0 < i < n -> parent i = idx -> le (at_ b c) (at_ b i);
}.
Lemma down_step b n idx c val : 0 <= idx < n -> n <= size b -> down_hole b n idx val -> least_child b n idx c ->
  le (at_ b c) val -> down_hole (<[Z.to_nat idx := at_ b c]> b) n c val.
Proof.
  intros Hi Hn [Hr Hb Ha] [[Hc Hpc] Hleast] Hle. pose proof (parent_bounds c ltac:(lia)). split.
  - intros i Hi' Hne Hpne. pose proof (parent_bounds i ltac:(lia)). rewrite !at_insert by lia.
    destruct (Z.eqb_spec (parent i) idx) as [E|], (Z.eqb_spec i idx) as [->|]; [lia| | |by apply Hr].
    + by apply Hleast.
    + by apply Hb; [lia|lia|].
  - intros i Hi' _ Hpi. pose proof (parent_bounds i ltac:(lia)). rewrite !at_insert by lia. rewrite Hpc, Z.eqb_refl.
    destruct (Z.eqb_spec i idx); [lia|]. rewrite <- Hpi. apply Hr; lia.
  - intros _. rewrite at_insert by lia. by rewrite Hpc, Z.eqb_refl.
Qed.
Lemma down_fill b n idx val : 0 <= idx < n -> n <= size b -> down_hole b n idx val ->
  (forall i, 0 < i < n -> parent i = idx -> le val (at_ b i)) -> ordered (<[Z.to_nat idx := val]> b) n.
Proof.
  intros Hi Hn [Hr Hb Ha] Hv i Hi'. pose proof (parent_bounds i ltac:(lia)). rewrite !at_insert by lia.
  destruct (Z.eqb_spec (parent i) idx) as [E|], (Z.eqb_spec i idx) as [->|]; [lia|by apply Hv|apply Ha; lia|by apply Hr].
Qed.
(** The child the loop selects. *)
Lemma select_child heap idx : shape heap -> let n := count_ heap in let b := buckets_ heap in
  0 <= idx -> 2 * idx + 1 < n -> n <= size b -> exists c,
  (if 2 * idx + 1 + 1 <? n then
     let? item2 := load b (2 * idx + 1 + 1) in
     if greater call_compare heap (at_ b (2 * idx + 1)) item2 then Ok (item2, 2 * idx + 1 + 1) else Ok (at_ b (2 * idx + 1), 2 * idx + 1)
   else Ok (at_ b (2 * idx + 1), 2 * idx + 1)) = Ok (at_ b c, c) /\ least_child b n idx c.
Proof.
  intros Hs n b Hi Hc Hn.
  assert (Hpar : forall i, 0 < i -> parent i = idx <-> i = 2 * idx + 1 \/ i = 2 * idx + 2) by (intros; by apply parent_children).
  destruct (Z.ltb_spec (2 * idx + 1 + 1) n).
  - rewrite load_at by lia. cbn [rbind]. rewrite greater_after by done.
    destruct (after (at_ b (2 * idx + 1)) (at_ b (2 * idx + 1 + 1))) eqn:E.
    + exists (2 * idx + 1 + 1). split; [done|]. split; [split; [lia|]; apply Hpar; lia|].
      intros i Hi' [-> | ->]%Hpar; [by apply (le_total Hcb)|replace (2 * idx + 1 + 1) with (2 * idx + 2) by lia; apply le_refl|lia].
    + exists (2 * idx + 1). split; [done|]. split; [split; [lia|]; apply Hpar; lia|].
      intros i Hi' [-> | ->]%Hpar; [apply le_refl|by replace (2 * idx + 2) with (2 * idx + 1 + 1) by lia|lia].
  - exists (2 * idx + 1). split; [done|]. split; [split; [lia|]; apply Hpar; lia|].
    intros i Hi' [-> | ->]%Hpar; [apply le_refl|lia|lia].
Qed.
Lemma RemoveMinimum_loop_ok fuel heap val idx old : shape heap -> let n := count_ heap in let b := buckets_ heap in
  0 <= idx < n -> n <= size b -> n <= idx + Z.of_nat fuel -> (in_place -> down_hole b n idx val) -> hole b n idx old ->
  exists p idx', RemoveMinimum_loop call_compare fuel heap val idx = Ok (set_buckets heap p, idx') /\ length p = length b /\
    0 <= idx' < n /\ (in_place -> ordered (<[Z.to_nat idx' := val]> p) n) /\ items_of (<[Z.to_nat idx' := val]> p) n ≡ₚ val :: old.
Proof.
  revert heap idx. induction fuel as [|fuel IH]; intros heap idx Hs n b Hi Hn Hf Hdown Hh; [lia|].
  cbn [RemoveMinimum_loop]. rewrite child_shift. fold b n. destruct (Z.ltb_spec (2 * idx + 1) n).
  - rewrite load_at by lia. cbn [rbind]. destruct (select_child heap idx Hs) as (c & E & Hleast); [lia|done|done|].
    fold b n in E, Hleast. rewrite E. cbn [rbind]. rewrite greater_after by done.
    destruct (lc_child _ _ _ _ Hleast) as [Hc Hpc]. pose proof (parent_bounds c ltac:(lia)).
    destruct (after (at_ b c) val) eqn:Ec.
    + exists b, idx. split; [by destruct heap|]. split; [done|]. split; [lia|]. split; [|by apply fill_hole].
      intros Hp. apply down_fill; auto. intros i Hi' Hpi.
      apply (le_trans Hcb) with (at_ b c); [by apply (le_total Hcb)|by apply (lc_least _ _ _ _ Hleast)].
    + rewrite overwrite_ok by lia. cbn [rbind].
      destruct (IH (set_buckets heap (<[Z.to_nat idx := at_ b c]> b)) c) as (p & idx' & -> & Hl & H');
        cbn [count_ set_buckets buckets_]; fold n; rewrite ?length_insert; try lia.
      * by destruct Hs.
      * intros Hp. apply down_step; (done || lia || auto).
      * apply move_hole; (done || lia).
      * exists p, idx'. split; [done|]. split; [rewrite Hl; apply length_insert|done].
  - exists b, idx. split; [by destruct heap|]. split; [done|]. split; [lia|]. split; [|by apply fill_hole].
    intros Hp. apply down_fill; auto. intros i Hi' Hpi%parent_children; lia.
Qed.

(** ** Capacities *)
Lemma flsl_loop_spec fuel mask idx : 0 <= mask < 2 ^ Z.of_nat fuel ->
  flsl_loop fuel mask idx = idx + (if mask =? 0 then 0 else Z.log2 mask + 1).
Proof.
  revert mask idx. induction fuel as [|fuel IH]; intros mask idx Hm; cbn [flsl_loop].
  { assert (mask = 0) as -> by (change (2 ^ Z.of_nat 0) with 1 in Hm; lia). cbn. lia. }
  unfold nz. destruct (Z.eqb_spec mask 0); cbn [negb]; [lia|].
  rewrite Nat2Z.inj_succ, Z.pow_succ_r in Hm by lia.
  assert (Hd : Z.shiftr mask 1 = mask / 2) by by rewrite Z.shiftr_div_pow2.
  rewrite IH by (rewrite Hd; dlia). rewrite Hd. destruct (Z.eqb_spec (mask / 2) 0) as [E|E].
  - assert (mask = 1) as -> by dlia. cbn. lia.
  - assert (Hl : Z.log2 mask = Z.log2 (mask / 2) + 1); [|lia].
    assert (0 < mask / 2) by dlia. rewrite <- Hd, Z.log2_shiftr by lia.
    assert (1 <= Z.log2 mask) by (apply Z.log2_le_pow2; [lia|]; dlia). lia.
Qed.
Lemma flsl_log2 c : 0 < c < 2 ^ 64 -> flsl c = Z.log2 c + 1.
Proof.
  intros Hc. unfold flsl. rewrite wrap_small, flsl_loop_spec by (change (Z.of_nat 64) with 64; lia).
  destruct (Z.eqb_spec c 0); lia.
Qed.
(** The new capacity has room, until the shift of [int] overflows. *)
Lemma RoundUpCapacity_spec c : 0 <= c < 2 ^ 64 ->
  (c < 2 ^ 30 -> exists N, RoundUpCapacity c = Ok N /\ c < N <= 2 ^ 30) /\
  (2 ^ 30 <= c -> RoundUpCapacity c = Fault IntegerOverflow).
Proof.
  intros Hc. unfold RoundUpCapacity. destruct (Z.ltb_spec c 4); [split; [by eexists|lia]|].
  rewrite flsl_log2 by lia. destruct (Z.log2_spec c) as [Hlo Hhi]; [lia|]. rewrite <- Z.add_1_r in Hhi. split; intros Hs.
  - assert (Z.log2 c < 30) by (apply Z.log2_lt_pow2; lia). destruct (Z.ltb_spec (Z.log2 c + 1) 31); [|lia].
    eexists. split; [done|]. rewrite Z.shiftl_1_l. split; [lia|]. apply Z.pow_le_mono_r; lia.
  - assert (30 <= Z.log2 c) by (apply Z.log2_le_pow2; lia). by destruct (Z.ltb_spec (Z.log2 c + 1) 31); [lia|].
Qed.

(** ** The invariant of a heap *)
Record heap_ok heap : Prop := {
  hp_shape : shape heap;
  hp_count : 0 <= count_ heap <= capacity_ heap;
  hp_size : size (buckets_ heap) = capacity_ heap;
  hp_mutable : variety_ heap = kCFBinaryHeapMutable;
  hp_ordered : in_place -> ordered (buckets_ heap) (count_ heap);
}.
Definition items heap : list Z := items_of (buckets_ heap) (count_ heap).
Definition blocks_ok : Prop := forall n q, malloc n = Some q -> size q = n.
Definition retained (vs : list Z) : list call := if nz (retain cb) then map Retained vs else [].
Definition released (vs : list Z) : list call := if nz (release cb) then map Released vs else [].
Context (Hblocks : blocks_ok).

Lemma heap_Grow_ok heap : heap_ok heap -> count_ heap + 1 < 2 ^ 30 ->
  BinaryHeapGrow malloc heap 1 = Fault AllocationFailed \/
  exists heap', BinaryHeapGrow malloc heap 1 = Ok heap' /\ heap_ok heap' /\ count_ heap' = count_ heap /\
    items heap' = items heap /\ count_ heap < capacity_ heap'.
Proof.
  intros [Hs Hc Hl Hv Ho] Hlt. unfold BinaryHeapGrow.
  destruct (RoundUpCapacity_spec (count_ heap + 1)) as [HR _]; [lia|]. destruct (HR Hlt) as (N & -> & HN). cbn [rbind].
  unfold NumBucketsForCapacity. cbn [set_capacity capacity_ buckets_].
  destruct (malloc N) as [fresh|] eqn:E; [|left; unfold realloc; by rewrite E].
  destruct (realloc malloc (buckets_ heap) N) as [q|] eqn:Eq; [right|by left].
  destruct (realloc_spec malloc (buckets_ heap) N q fresh E (Hblocks _ _ E) Eq) as (Hq & Hsame & _).
  eexists. split; [done|]. cbn [set_buckets set_capacity count_ capacity_ buckets_ variety_].
  assert (Hat : forall i, 0 <= i < count_ heap -> at_ q i = at_ (buckets_ heap) i).
  { intros i Hi. unfold at_. by rewrite Hsame by lia. }
  split; [|split; [done|split; [|lia]]].
  - split; cbn; try done; [by destruct Hs|lia|]. intros Hp i Hi. pose proof (parent_bounds i ltac:(lia)).
    rewrite !Hat by lia. apply Ho; (done || lia).
  - unfold items, items_of. cbn. apply list_eq. intros i. destruct (decide (Z.of_nat i < count_ heap)).
    + rewrite !lookup_take_lt by lia. apply Hsame; lia.
    + by rewrite !lookup_take_ge by lia.
Qed.

(** ** Adding *)
Lemma add_to_room heap v : heap_ok heap -> count_ heap < capacity_ heap ->
  exists p idx, AddValue_loop call_compare (Z.to_nat (count_ heap)) (set_count heap (count_ heap + 1)) v (count_ heap) =
    Ok (set_buckets (set_count heap (count_ heap + 1)) p, idx) /\ 0 <= idx < size p /\
    heap_ok (set_buckets (set_count heap (count_ heap + 1)) (<[Z.to_nat idx := stored v]> p)) /\
    items_of (<[Z.to_nat idx := stored v]> p) (count_ heap + 1) ≡ₚ stored v :: items heap.
Proof.
  intros [Hs Hc Hl Hv Ho] Hroom. set (b := buckets_ heap) in *. set (n := count_ heap) in *.
  destruct (AddValue_loop_ok (Z.to_nat n) (set_count heap (n + 1)) v n (items heap)) as (p & idx & E & Hlp & Hi & Hord & Hperm);
    cbn [count_ buckets_ set_count]; fold b; try lia.
  - by destruct Hs.
  - intros Hpl. split; [|intros i Hi' Hp; pose proof (parent_bounds i ltac:(lia)); lia..].
    intros i Hi' Hne _. apply Ho; (done || lia).
  - unfold hole, items, items_of. fold b n. replace (Z.to_nat (n + 1)) with (S (Z.to_nat n)) by lia.
    destruct (lookup_lt_is_Some_2 b (Z.to_nat n)) as [w Ew]; [lia|]. rewrite (take_S_r _ _ w Ew).
    unfold at_. rewrite Ew. simpl. by rewrite Permutation_app_comm.
  - cbn [count_ buckets_ set_count] in *. fold b in Hlp. exists p, idx. split; [exact E|]. split; [lia|]. split; [|done].
    split; cbn; rewrite ?length_insert; (done || lia || by destruct Hs).
Qed.
Lemma AddValue_ok heap v : heap_ok heap -> count_ heap + 1 < 2 ^ 30 ->
  CFBinaryHeapAddValue malloc call_retain call_compare heap v = Fault AllocationFailed \/
  exists heap', CFBinaryHeapAddValue malloc call_retain call_compare heap v = Ok (heap', retained [v]) /\ heap_ok heap' /\
    count_ heap' = count_ heap + 1 /\ items heap' ≡ₚ stored v :: items heap.
Proof.
  intros Hh Hlt. unfold CFBinaryHeapAddValue. rewrite (hp_mutable _ Hh), Z.eqb_refl.
  assert (Hroom : (if count_ heap =? capacity_ heap then BinaryHeapGrow malloc heap 1 else Ok heap) = Fault AllocationFailed \/
    exists h, (if count_ heap =? capacity_ heap then BinaryHeapGrow malloc heap 1 else Ok heap) = Ok h /\ heap_ok h /\
      count_ h = count_ heap /\ items h = items heap /\ count_ h < capacity_ h).
  { destruct (Z.eqb_spec (count_ heap) (capacity_ heap)).
    - destruct (heap_Grow_ok heap Hh Hlt) as [->|(h & -> & Hh' & Hc & Hi & Hr)]; [by left|right]. exists h. split_and!; (done || lia).
    - right. exists heap. pose proof (hp_count _ Hh). split_and!; (done || lia). }
  destruct Hroom as [->|(h & -> & Hh' & Hc & Hi & Hr)]; [by left|right]. cbn [rbind].
  destruct (add_to_room h v Hh' Hr) as (p & idx & -> & Hidx & Hok & Hperm). cbn [rbind].
  pose proof (sh_callbacks _ (hp_shape _ Hh')) as Hcbs. cbn [set_buckets set_count callbacks_ buckets_]. rewrite Hcbs.
  rewrite <- Hi, <- Hc. unfold retained. unfold stored in *.
  destruct (nz (retain cb)); rewrite overwrite_ok by done; cbn [rbind]; eexists; (split; [done|]); split_and!; done.
Qed.
Lemma AddValue_overflow heap v : heap_ok heap -> 2 ^ 30 <= count_ heap + 1 < 2 ^ 64 -> count_ heap = capacity_ heap ->
  CFBinaryHeapAddValue malloc call_retain call_compare heap v = Fault IntegerOverflow.
Proof.
  intros Hh Hge Hfull. unfold CFBinaryHeapAddValue. rewrite (hp_mutable _ Hh), Z.eqb_refl, <- Hfull, Z.eqb_refl.
  unfold BinaryHeapGrow. destruct (RoundUpCapacity_spec (count_ heap + 1)) as [_ HR]; [pose proof (hp_count _ Hh); lia|].
  by rewrite HR by lia.
Qed.

(** ** Removing the minimum *)
Lemma items_cons b n : 0 < n <= size b -> exists rest, items_of b n = at_ b 0 :: rest.
Proof.
  intros Hn. unfold items_of, at_. destruct b as [|x b]; [simpl in Hn; lia|].
  destruct (Z.to_nat n) as [|k] eqn:E; [lia|]. by exists (take k b).
Qed.
Lemma items_snoc b n : 0 < n <= size b -> items_of b n = items_of b (n - 1) ++ [at_ b (n - 1)].
Proof.
  intros Hn. unfold items_of, at_. destruct (lookup_lt_is_Some_2 b (Z.to_nat (n - 1))) as [w Ew]; [lia|].
  replace (Z.to_nat n) with (S (Z.to_nat (n - 1))) by lia. by rewrite (take_S_r _ _ w Ew), Ew.
Qed.
Lemma remove_loop heap : heap_ok heap -> 0 < count_ heap ->
  let n := count_ heap - 1 in let val := at_ (buckets_ heap) n in
  exists p idx, RemoveMinimum_loop call_compare (Z.to_nat (count_ heap)) (set_count heap n) val 0 =
    Ok (set_buckets (set_count heap n) p, idx) /\ length p = length (buckets_ heap) /\ 0 <= idx < size p /\
    (in_place -> ordered (<[Z.to_nat idx := val]> p) n) /\
    items heap ≡ₚ at_ (buckets_ heap) 0 :: items_of (<[Z.to_nat idx := val]> p) n.
Proof.
  intros [Hs Hc Hl Hv Ho] Hpos n val. set (b := buckets_ heap) in *.
  pose proof (items_snoc b (count_ heap) ltac:(lia)) as Hsnoc. fold n val in Hsnoc.
  assert (Hn : n = count_ heap - 1) by done. clearbody n.
  destruct (decide (n = 0)) as [E0|].
  - exists b, 0. assert (E1 : count_ heap = 1) by lia.
    replace (Z.to_nat (count_ heap)) with 1%nat by lia. cbn [RemoveMinimum_loop set_count count_].
    rewrite child_shift. destruct (Z.ltb_spec (2 * 0 + 1) n); [lia|].
    split; [by destruct heap|]. split; [done|]. split; [lia|]. split; [intros _ i Hi; lia|].
    unfold items. fold b. rewrite Hsnoc. unfold val. rewrite E0. done.
  - destruct (items_cons b n) as [rest Hrest]; [lia|].
    destruct (RemoveMinimum_loop_ok (Z.to_nat (count_ heap)) (set_count heap n) val 0 rest) as (p & idx & E & Hlp & Hi & Hord & Hp);
      cbn [count_ buckets_ set_count]; fold b; try lia.
    + by destruct Hs.
    + intros Hpl. split; [|lia..]. intros i Hi _ _. apply Ho; (done || lia).
    + unfold hole. by rewrite Hrest.
    + cbn [count_ buckets_ set_count] in *. fold b in Hlp. exists p, idx. split; [done|]. split; [done|]. split; [lia|].
      split; [done|]. unfold items. fold b. rewrite Hp, Hsnoc, Hrest. cbn [app]. constructor.
      by rewrite Permutation_app_comm.
Qed.
Lemma RemoveMinimum_ok heap : heap_ok heap -> 0 < count_ heap ->
  exists heap', CFBinaryHeapRemoveMinimumValue call_compare heap = Ok (heap', released [at_ (buckets_ heap) 0]) /\
    heap_ok heap' /\ count_ heap' = count_ heap - 1 /\ items heap ≡ₚ at_ (buckets_ heap) 0 :: items heap'.
Proof.
  intros Hh Hpos. pose proof Hh as [Hs Hc Hl Hv Ho]. unfold CFBinaryHeapRemoveMinimumValue.
  destruct (Z.eqb_spec (count_ heap) 0); [lia|]. cbn [set_count callbacks_ buckets_]. rewrite (sh_callbacks _ Hs).
  rewrite !load_at by lia. unfold released.
  destruct (remove_loop heap Hh Hpos) as (p & idx & E & Hlp & Hidx & Hord & Hperm).
  destruct (nz (release cb)); cbn [rbind map]; rewrite E; cbn [rbind set_buckets set_count buckets_];
    rewrite overwrite_ok by done; cbn [rbind]; eexists; (split; [done|]);
    (split; [split; cbn; rewrite ?length_insert; (done || lia || by destruct Hs)|by split]).
Qed.

(** ** Draining *)
Lemma GetMinimum_ok heap : heap_ok heap -> 0 < count_ heap -> CFBinaryHeapGetMinimum heap = Ok (at_ (buckets_ heap) 0).
Proof.
  intros Hh Hpos. pose proof (hp_count _ Hh). pose proof (hp_size _ Hh). unfold CFBinaryHeapGetMinimum.
  destruct (Z.ltb_spec 0 (count_ heap)); [|lia]. by apply load_at; lia.
Qed.
Lemma minimum_le heap x : in_place -> heap_ok heap -> x ∈ items heap -> le (at_ (buckets_ heap) 0) x.
Proof.
  intros Hpl [Hs Hc Hl Hv Ho] [i Hi]%list_elem_of_lookup. pose proof (lookup_lt_Some _ _ _ Hi) as Hlt.
  pose proof (items_length (buckets_ heap) (count_ heap)) as Hlen. unfold items in *.
  pose proof (items_lookup (buckets_ heap) (count_ heap) (Z.of_nat i)) as Hat. rewrite Nat2Z.id in Hat.
  rewrite Hat in Hi by lia. injection Hi as <-. apply (root_minimal _ (count_ heap)); [by apply Ho|lia].
Qed.
Lemma items_nil heap : count_ heap = 0 -> items heap = [].
Proof. intros E. unfold items. by rewrite E. Qed.
Lemma drain_ok fuel heap : heap_ok heap -> count_ heap <= Z.of_nat fuel ->
  exists vs, drain call_compare fuel heap = Ok (vs, released vs) /\ vs ≡ₚ items heap /\ (in_place -> StronglySorted le vs).
Proof.
  revert heap. induction fuel as [|fuel IH]; intros heap Hh Hf; cbn [drain].
  - pose proof (hp_count _ Hh). destruct (Z.ltb_spec 0 (count_ heap)); [lia|].
    exists []. rewrite items_nil by lia. split; [|split; [done|constructor]]. unfold released. by destruct (nz (release cb)).
  - destruct (Z.ltb_spec 0 (count_ heap)).
    + rewrite GetMinimum_ok by done. cbn [rbind].
      destruct (RemoveMinimum_ok heap Hh) as (heap' & -> & Hh' & Hc' & Hp); [done|]. cbn [rbind].
      destruct (IH heap' Hh') as (vs & -> & Hvs & Hsort); [lia|]. cbn [rbind].
      exists (at_ (buckets_ heap) 0 :: vs). split; [|split].
      * do 2 f_equal. unfold released. by destruct (nz (release cb)).
      * by rewrite Hp, Hvs.
      * intros Hpl. constructor; [by apply Hsort|]. apply Forall_forall. intros x Hx. apply minimum_le; [done|done|].
        rewrite Hp. rewrite Hvs in Hx. by apply list_elem_of_further.
    + pose proof (hp_count _ Hh). exists []. rewrite items_nil by lia. split; [|split; [done|constructor]].
      unfold released. by destruct (nz (release cb)).
Qed.

(** ** Construction and copies *)
Lemma retained_app l1 l2 : retained (l1 ++ l2) = retained l1 ++ retained l2.
Proof. unfold retained. destruct (nz (retain cb)); [apply map_app|done]. Qed.
Lemma AddValues_ok heap vs : heap_ok heap -> count_ heap + Z.of_nat (length vs) < 2 ^ 30 ->
  AddValues malloc call_retain call_compare heap vs = Fault AllocationFailed \/
  exists heap', AddValues malloc call_retain call_compare heap vs = Ok (heap', retained vs) /\ heap_ok heap' /\
    items heap' ≡ₚ map stored vs ++ items heap.
Proof.
  revert heap. induction vs as [|v vs IH]; intros heap Hh Hlt; cbn [AddValues].
  { right. exists heap. split; [|done]. unfold retained. by destruct (nz (retain cb)). }
  cbn [length] in Hlt. destruct (AddValue_ok heap v Hh) as [->|(h & -> & Hh' & Hc & Hp)]; [lia|by left|]. cbn [rbind].
  destruct (IH h Hh') as [->|(h' & -> & Hh'' & Hp')]; [lia|by left|right]. cbn [rbind]. exists h'.
  split; [by rewrite <- retained_app|]. split; [done|]. rewrite Hp', Hp. cbn [map app]. by rewrite Permutation_middle.
Qed.
Lemma Init_ok sizeof vs : Z.of_nat (length vs) < 2 ^ 30 ->
  BinaryHeapInit malloc call_retain call_compare sizeof kCFBinaryHeapMutable vs (Some cb) (Some info) = Ok None \/
  BinaryHeapInit malloc call_retain call_compare sizeof kCFBinaryHeapMutable vs (Some cb) (Some info) = Fault AllocationFailed \/
  exists heap, BinaryHeapInit malloc call_retain call_compare sizeof kCFBinaryHeapMutable vs (Some cb) (Some info) =
    Ok (Some (heap, retained vs)) /\ heap_ok heap /\ items heap ≡ₚ map stored vs.
Proof.
  intros Hlt. unfold BinaryHeapInit. destruct (malloc sizeof); [|by left].
  change (RoundUpCapacity 1) with (Ok 4). cbn [rbind set_capacity capacity_]. unfold NumBucketsForCapacity.
  destruct (malloc 4) as [q|] eqn:E; [right|by left].
  set (m := set_variety _ kCFBinaryHeapMutable).
  assert (Hm : heap_ok m).
  { split; cbn; try done; [by apply Hblocks|]. intros _ i Hi. lia. }
  destruct (AddValues_ok m vs Hm) as [->|(h & -> & Hh & Hp)]; [done|by left|right]. cbn [rbind]. eexists. split; [done|].
  destruct Hh as [Hs Hc Hl Hv Ho]. split; [split; (done || by destruct Hs)|].
  transitivity (map stored vs ++ items m); [done|]. by rewrite (items_nil m), app_nil_r.
Qed.

(** ** Searching *)
Lemma CountOfValue_loop_ok heap v n idx cnt : 0 <= idx -> idx + Z.of_nat n <= size (buckets_ heap) ->
  CountOfValue_loop call_compare n heap v idx cnt =
  Ok (cnt + Z.of_nat (length (List.filter (same_value call_compare heap v) (take n (drop (Z.to_nat idx) (buckets_ heap)))))).
Proof.
  revert idx cnt. induction n as [|n IH]; intros idx cnt Hi Hn; cbn [CountOfValue_loop].
  { rewrite take_0. cbn. by rewrite Z.add_0_r. }
  destruct (load_ok (buckets_ heap) idx) as (w & -> & Ew); [lia|]. cbn [rbind].
  rewrite IH by lia. replace (Z.to_nat (idx + 1)) with (S (Z.to_nat idx)) by lia.
  rewrite (drop_S _ w (Z.to_nat idx)) by done. cbn [take List.filter]. f_equal.
  destruct (same_value call_compare heap v w); cbn [length]; lia.
Qed.
Lemma CountOfValue_ok heap v : heap_ok heap -> CFBinaryHeapGetCountOfValue call_compare heap v =
  Ok (Z.of_nat (length (List.filter (same_value call_compare heap v) (items heap)))).
Proof.
  intros [Hs Hc Hl _ _]. unfold CFBinaryHeapGetCountOfValue. rewrite CountOfValue_loop_ok by lia. done.
Qed.
Lemma ContainsValue_loop_ok heap v n idx : 0 <= idx -> idx + Z.of_nat n <= size (buckets_ heap) ->
  ContainsValue_loop call_compare n heap v idx =
  Ok (existsb (same_value call_compare heap v) (take n (drop (Z.to_nat idx) (buckets_ heap)))).
Proof.
  revert idx. induction n as [|n IH]; intros idx Hi Hn; cbn [ContainsValue_loop]; [by rewrite take_0|].
  destruct (load_ok (buckets_ heap) idx) as (w & -> & Ew); [lia|]. cbn [rbind].
  rewrite IH by lia. replace (Z.to_nat (idx + 1)) with (S (Z.to_nat idx)) by lia.
  rewrite (drop_S _ w (Z.to_nat idx)) by done. cbn [take existsb]. by destruct (same_value call_compare heap v w).
Qed.
Lemma ContainsValue_ok heap v : heap_ok heap -> CFBinaryHeapContainsValue call_compare heap v =
  Ok (existsb (same_value call_compare heap v) (items heap)).
Proof.
  intros [Hs Hc Hl _ _]. unfold CFBinaryHeapContainsValue. by rewrite ContainsValue_loop_ok by lia.
Qed.
Lemma release_all_ok heap n idx : 0 <= idx -> idx + Z.of_nat n <= size (buckets_ heap) ->
  release_all n heap idx = Ok (map Released (take n (drop (Z.to_nat idx) (buckets_ heap)))).
Proof.
  revert idx. induction n as [|n IH]; intros idx Hi Hn; cbn [release_all]; [by rewrite take_0|].
  destruct (load_ok (buckets_ heap) idx) as (w & -> & Ew); [lia|]. cbn [rbind].
  rewrite IH by lia. replace (Z.to_nat (idx + 1)) with (S (Z.to_nat idx)) by lia.
  by rewrite (drop_S _ w (Z.to_nat idx)) by done.
Qed.
Lemma RemoveAllValues_ok heap : heap_ok heap ->
  CFBinaryHeapRemoveAllValues heap = Ok (set_count heap 0, released (items heap)) /\ heap_ok (set_count heap 0).
Proof.
  intros [Hs Hc Hl Hv Ho]. split.
  - unfold CFBinaryHeapRemoveAllValues. rewrite (sh_callbacks _ Hs). unfold released.
    destruct (nz (release cb)); [|done]. by rewrite release_all_ok by lia.
  - split; cbn; try done; [by destruct Hs|lia|]. intros _ i Hi. lia.
Qed.
End Theory.

(** ** Properties *)
Section Properties.
Context (malloc : Z -> option (list Z)) (call_retain : Z -> Z -> Z) (call_compare : Z -> Z -> Z -> Z -> Z).
Context (cb : CallBacks) (info : Z).
Context (Hcb : callbacks_ok call_compare cb info) (Hblocks : blocks_ok malloc).
Implicit Types (heap : CFBinaryHeap).
Abbreviation heap_ok := (heap_ok call_retain call_compare cb info).
Abbreviation in_place := (in_place call_retain call_compare cb info).
Abbreviation le := (le call_compare cb info).
Abbreviation stored := (stored call_retain cb).
Abbreviation retained := (retained cb).
Abbreviation released := (released cb).

(** C34: a binary heap of fewer than 2^30 - 1 items is a priority queue on the multiset of its items, for a comparison
    callback that is a total preorder ([callbacks_ok]) and blocks of the size asked for. Adding
    stores the retained value, moving to a larger array when the heap is full;
    removing the minimum removes one item once, the one that [GetMinimum]
    returns; [ContainsValue] and [GetCountOfValue] answer from the items;
    [RemoveAllValues] releases every item once; all stay within the array. These hold
    whatever the retain callback returns. The heap order is kept ([heap_ok]), and the minimum is
    an item that comes after no other, as long as retaining a value does not change its
    place in the order ([in_place]). The header does not ask for this and lets the
    callback return another value; but [CFBinaryHeapAddValue] finds the
    place of the value it is given and stores the one that the callback returns ([retained_out_of_order]).
    A full heap of 2^30 - 1 items or more cannot grow: the new capacity overflows [int]. *)
Theorem heap_priority_queue heap v : heap_ok heap -> count_ heap + 1 < 2 ^ 30 ->
  (CFBinaryHeapAddValue malloc call_retain call_compare heap v = Fault AllocationFailed \/
   exists heap', CFBinaryHeapAddValue malloc call_retain call_compare heap v = Ok (heap', retained [v]) /\
     heap_ok heap' /\ items heap' ≡ₚ stored v :: items heap) /\
  (count_ heap = 0 -> CFBinaryHeapRemoveMinimumValue call_compare heap = Ok (heap, []) /\
     CFBinaryHeapGetMinimum heap = Ok 0 /\ CFBinaryHeapGetMinimumIfPresent heap = Ok None) /\
  (0 < count_ heap -> exists m heap', CFBinaryHeapGetMinimum heap = Ok m /\
     CFBinaryHeapGetMinimumIfPresent heap = Ok (Some m) /\ m ∈ items heap /\ (in_place -> forall x, x ∈ items heap -> le m x) /\
     CFBinaryHeapRemoveMinimumValue call_compare heap = Ok (heap', released [m]) /\
     heap_ok heap' /\ items heap ≡ₚ m :: items heap') /\
  CFBinaryHeapContainsValue call_compare heap v = Ok (existsb (same_value call_compare heap v) (items heap)) /\
  CFBinaryHeapGetCountOfValue call_compare heap v =
    Ok (Z.of_nat (length (List.filter (same_value call_compare heap v) (items heap)))) /\
  (exists heap', CFBinaryHeapRemoveAllValues heap = Ok (heap', released (items heap)) /\ heap_ok heap' /\ items heap' = []) /\
  (forall full, heap_ok full -> count_ full = capacity_ full -> 2 ^ 30 <= count_ full + 1 < 2 ^ 64 ->
     CFBinaryHeapAddValue malloc call_retain call_compare full v = Fault IntegerOverflow).
Proof.
  intros Hh Hlt. split; [|split; [|split; [|split; [|split; [|split]]]]].
  - destruct (AddValue_ok malloc call_retain call_compare cb info Hcb Hblocks heap v Hh Hlt) as [->|(h & -> & H1 & _ & H2)];
      [by left|right]. by exists h.
  - intros E. unfold CFBinaryHeapRemoveMinimumValue, CFBinaryHeapGetMinimum, CFBinaryHeapGetMinimumIfPresent. by rewrite E.
  - intros Hpos. destruct (RemoveMinimum_ok call_retain call_compare cb info Hcb heap Hh Hpos) as (h & E & H1 & _ & H2).
    exists (at_ (buckets_ heap) 0), h. split; [by eapply GetMinimum_ok|]. split.
    + unfold CFBinaryHeapGetMinimumIfPresent. destruct (Z.eqb_spec (count_ heap) 0); [lia|].
      pose proof (hp_size _ _ _ _ _ Hh). pose proof (hp_count _ _ _ _ _ Hh). by rewrite load_at by lia.
    + split; [rewrite H2; set_solver|]. split; [|done]. intros Hpl x. by apply (minimum_le call_retain call_compare cb info Hcb).
  - by eapply ContainsValue_ok.
  - by eapply CountOfValue_ok.
  - destruct (RemoveAllValues_ok call_retain call_compare cb info heap Hh) as [E H]. eexists. split; [exact E|]. by split.
  - intros full Hf E Hge. by apply (AddValue_overflow malloc call_retain call_compare cb info).
Qed.

(** C35: [GetValues] and [ApplyFunction] terminate and visit every item of the heap once, as
    retained by the copy they drain, for a comparison callback that is a total preorder
    ([callbacks_ok]) and blocks of the size asked for, whatever the order of the array. They visit
    them smallest first, as long as retaining a value does not change its place in the order
    ([in_place], which the header does not ask for; see C34 and the findings). The copy
    retains every item once and releases every value once. A copy of a heap holds its items, as
    retained, and a heap created is empty. They fail only when memory cannot be allocated.
    Heaps have fewer than 2^30 items. *)
Theorem heap_values_sorted sizeof capacity heap : heap_ok heap -> count_ heap < 2 ^ 30 ->
  (CFBinaryHeapGetValues malloc call_retain call_compare sizeof heap = Fault AllocationFailed \/
   exists vs, CFBinaryHeapGetValues malloc call_retain call_compare sizeof heap = Ok (vs, retained (items heap) ++ released vs) /\
     CFBinaryHeapApplyFunction malloc call_retain call_compare sizeof heap = Ok (vs, retained (items heap) ++ released vs) /\
     vs ≡ₚ map stored (items heap) /\ (in_place -> StronglySorted le vs)) /\
  (CFBinaryHeapCreateCopy malloc call_retain call_compare sizeof capacity heap = Ok None \/
   CFBinaryHeapCreateCopy malloc call_retain call_compare sizeof capacity heap = Fault AllocationFailed \/
   exists copy, CFBinaryHeapCreateCopy malloc call_retain call_compare sizeof capacity heap =
     Ok (Some (copy, retained (items heap))) /\ heap_ok copy /\ items copy ≡ₚ map stored (items heap)) /\
  (CFBinaryHeapCreate malloc call_retain call_compare sizeof capacity (Some cb) (Some info) = Ok None \/
   CFBinaryHeapCreate malloc call_retain call_compare sizeof capacity (Some cb) (Some info) = Fault AllocationFailed \/
   exists new, CFBinaryHeapCreate malloc call_retain call_compare sizeof capacity (Some cb) (Some info) =
     Ok (Some (new, retained [])) /\ heap_ok new /\ items new = []).
Proof.
  intros Hh Hlt. pose proof Hh as [[Ecb Einfo] Hc Hl _ _].
  pose proof (items_length (buckets_ heap) (count_ heap)) as Hlen. fold (items heap) in Hlen.
  pose proof (Init_ok malloc call_retain call_compare cb info Hcb Hblocks sizeof (items heap)) as Hcopy.
  assert (EC : forall c, CFBinaryHeapCreateCopy malloc call_retain call_compare sizeof c heap =
    BinaryHeapInit malloc call_retain call_compare sizeof kCFBinaryHeapMutable (items heap) (Some cb) (Some info)).
  { intros c. unfold CFBinaryHeapCreateCopy. by rewrite Ecb, Einfo. }
  split; [|split].
  - unfold CFBinaryHeapGetValues, CFBinaryHeapApplyFunction. rewrite !EC. destruct (Z.eqb_spec (count_ heap) 0) as [E0|].
    { right. exists []. rewrite (items_nil heap) by done. unfold CFBinaryHeapTheory.retained, CFBinaryHeapTheory.released.
      split; [by destruct (nz (retain cb)), (nz (release cb))|].
      split; [by destruct (nz (retain cb)), (nz (release cb))|]. split; [done|constructor]. }
    destruct Hcopy as [->|[->|(h & -> & Hh' & Hp)]]; [lia|by left|by left|right]. cbn [rbind].
    destruct (drain_ok call_retain call_compare cb info Hcb (Z.to_nat (count_ h)) h Hh') as (vs & -> & Hvs & Hs); [lia|].
    cbn [rbind]. exists vs. split; [done|]. split; [done|]. split; [by rewrite Hvs, Hp|done].
  - rewrite EC. destruct Hcopy as [->|[->|(h & -> & Hh' & Hp)]]; [lia|by left|by right; left|right; right].
    by exists h.
  - unfold CFBinaryHeapCreate.
    destruct (Init_ok malloc call_retain call_compare cb info Hcb Hblocks sizeof []) as [->|[->|(h & -> & Hh' & Hp)]];
      [done|by left|by right; left|right; right]. exists h. split; [done|]. split; [done|]. by apply Permutation_nil_r.
Qed.
End Properties.

(** ** Witnesses and anomalies

    Items compared by tens; the retain callback answers its argument. *)
Module HeapWitness.
Definition malloc (n : Z) : option (list Z) := if 0 <=? n then Some (replicate (Z.to_nat n) 170) else None.
Definition call_retain (f v : Z) : Z := v.
Definition call_compare (f a b info : Z) : Z := Z.sgn (a / 10 - b / 10).
Definition cb : CallBacks := {| retain := 1; release := 1; copyDescription := 0; compare := 1 |}.
Lemma blocks_sound : blocks_ok malloc.
Proof.
  intros n q. unfold malloc. destruct (Z.leb_spec 0 n); [|done]. intros [= <-]. rewrite length_replicate. lia.
Qed.
Lemma after_tens a b : after call_compare cb 0 a b = (b / 10 <? a / 10).
Proof.
  unfold after, call_compare, kCFCompareGreaterThan. cbn [nz compare cb Z.eqb negb].
  change (nz 1) with true. cbn iota. destruct (Z.eqb_spec (Z.sgn (a / 10 - b / 10)) 1) as [E|E], (Z.ltb_spec (b / 10) (a / 10)); lia.
Qed.
Lemma callbacks_sound : callbacks_ok call_compare cb 0.
Proof.
  split; unfold le; [intros a b|intros a b c]; rewrite !after_tens, ?Z.ltb_ge, ?Z.ltb_lt; lia.
Qed.
Definition heap : CFBinaryHeap := BinaryHeap 5 8 cb 0 [5; 30; 41; 50; 42; 0; 0; 0] kCFBinaryHeapMutable.
Lemma kept_in_place : in_place call_retain call_compare cb 0.
Proof. done. Qed.
Lemma heap_sound : heap_ok call_retain call_compare cb 0 heap.
Proof.
  split; try done. intros _ i Hi. cbn in Hi. unfold le. rewrite after_tens.
  assert (i = 1 \/ i = 2 \/ i = 3 \/ i = 4) as [->|[->|[->| ->]]] by lia; by vm_compute.
Qed.

Lemma heap_priority_queue_witness : exists heap', CFBinaryHeapAddValue malloc call_retain call_compare heap 7 =
  Ok (heap', [Retained 7]) /\ items heap' ≡ₚ 7 :: items heap.
Proof.
  destruct (heap_priority_queue malloc call_retain call_compare cb 0 callbacks_sound blocks_sound heap 7 heap_sound ltac:(cbn; lia))
    as ([E|(h & E & _ & Hp)] & _); [vm_compute in E; discriminate E|]. exists h. split; [exact E|exact Hp].
Defined.
Lemma heap_values_sorted_witness : exists vs calls, CFBinaryHeapGetValues malloc call_retain call_compare 64 heap = Ok (vs, calls) /\
  StronglySorted (le call_compare cb 0) vs.
Proof.
  destruct (heap_values_sorted malloc call_retain call_compare cb 0 callbacks_sound blocks_sound 64 1 heap heap_sound ltac:(cbn; lia))
    as ([E|(vs & E & _ & _ & Hs)] & _); [vm_compute in E; discriminate E|].
  exists vs, (retained cb (items heap) ++ released cb vs). split; [exact E|exact (Hs kept_in_place)].
Defined.
(** A retain callback that returns a copy of the value, which compares by its address
    like the original: 900 is the copy of 7. The heap is then out of order, and the
    minimum it answers is not the smallest item. *)
Definition call_copy (f v : Z) : Z := if v =? 7 then 900 else v.
Definition copying : CallBacks := {| retain := 1; release := 1; copyDescription := 0; compare := 0 |}.
Example retained_out_of_order :
  let one := BinaryHeap 1 4 copying 0 [50; 0; 0; 0] kCFBinaryHeapMutable in
  exists h, CFBinaryHeapAddValue malloc call_copy call_compare one 7 = Ok (h, [Retained 7]) /\ items h = [900; 50] /\
    CFBinaryHeapGetMinimum h = Ok 900.
Proof. cbv zeta. eexists. split; [vm_compute; reflexivity|]. split; reflexivity. Qed.

(** [__CFBinaryHeapEqual] takes the answer of the comparison for a truth value:
    heaps whose values compare equal are unequal, heaps whose values compare
    different are equal. *)
Example equality_inverted :
  let one v := BinaryHeap 1 4 cb 0 [v; 0; 0; 0] kCFBinaryHeapMutable in
  BinaryHeapEqual malloc call_retain call_compare 64 (one 40) (one 41) = Ok false /\
  BinaryHeapEqual malloc call_retain call_compare 64 (one 40) (one 70) = Ok true.
Proof. by vm_compute. Qed.
End HeapWitness.
