(* ===== verification/ReturnAutorelease.v ===== *)
(** * objc-object.h, NSObject.mm: returning autoreleased values

    A function that returns an autoreleased object looks at the instructions its
    caller executes next; when these show a caller that takes part, it leaves the
    object as it is and records its retain count (+0 or +1) in thread-local
    storage. The model has the recognition of the caller on each architecture,
    the thread-local disposition, and the four entry points of the convention.

    Code memory is a function from addresses to bytes. Retains, releases and
    autoreleases of the object are events; whether the object overrides them
    ([hasCustomRR]) and whether it is tagged or nil are parameters. *)

From stdpp Require Import prelude numbers list.
From Stdlib Require Import ZArith Lia Bool.
From S2P Require Import Prelude.

(** ** The caller's instructions *)
Inductive arch := X86_64 | ARM | ARM64 | I386 | Unknown.

Section Code.
(** [mem] is the memory of the process; the two addresses are those of
    [objc_retainAutoreleasedReturnValue] and of
    [objc_unsafeClaimAutoreleasedReturnValue]. *)
Context (mem : Z -> Z) (retainRV claimRV : Z).

(** Unaligned little-endian loads. *)
Fixpoint load_le (n : nat) (a : Z) : Z :=
  match n with O => 0 | S n => mem (u64 a) + 256 * load_le n (a + 1) end.
Definition load_u16 (a : Z) : Z := load_le 2 a.
Definition load_u32 (a : Z) : Z := load_le 4 a.
Definition load_i32 (a : Z) : Z := sint 32 (load_le 4 a).
Definition load_ptr (a : Z) : Z := load_le 8 a.

Definition callerAcceptsOptimizedReturn_x86_64 (ra0 : Z) : bool :=
  let ra1 := ra0 in
  if negb (load_u32 ra1 =? 0xe8c78948) then false
  else
    let ra1 := u64 (ra1 + (load_i32 (ra1 + 4) + 8)) in
    if negb (load_u16 ra1 =? 0x25ff) then false
    else
      let ra1 := u64 (ra1 + (6 + load_i32 (ra1 + 2))) in
      let sym := load_ptr ra1 in
      if negb (sym =? retainRV) && negb (sym =? claimRV) then false else true.
Definition callerAcceptsOptimizedReturn_arm (ra : Z) : bool :=
  if nz (Z.land ra 1) then (if load_u16 (ra - 1) =? 0x463f then true else false)
  else (if load_u32 ra =? 0xe1a07007 then true else false).
Definition callerAcceptsOptimizedReturn_arm64 (ra : Z) : bool :=
  if load_u32 ra =? 0xaa1d03fd then true else false.
Definition callerAcceptsOptimizedReturn_i386 (ra : Z) : bool :=
  if load_u16 ra =? 0xed89 then true else false.
Definition callerAcceptsOptimizedReturn (A : arch) (ra : Z) : bool :=
  match A with
  | X86_64 => callerAcceptsOptimizedReturn_x86_64 ra
  | ARM => callerAcceptsOptimizedReturn_arm ra
  | ARM64 => callerAcceptsOptimizedReturn_arm64 ra
  | I386 => callerAcceptsOptimizedReturn_i386 ra
  | Unknown => false
  end.
End Code.

(** ** The disposition and the entry points *)
Inductive ReturnDisposition := ReturnAtPlus0 | ReturnAtPlus1.
Inductive operation := Retain | Release | Autorelease.
(** An operation of the root class, or the message of an override. *)
Inductive event := Root (op : operation) | Message (op : operation).
Record thread := Thread {
  disposition : ReturnDisposition;
  events : list event;
}.

Section Convention.
(** [support]: SUPPORT_RETURN_AUTORELEASE. [accepts ra]: the caller at the return
    address [ra] is recognised. [obj_nil]: the object is nil or tagged. *)
Context (support : bool) (accepts : Z -> bool) (obj_nil hasCustomRR : bool).

Definition getReturnDisposition (t : thread) : ReturnDisposition := disposition t.
Definition setReturnDisposition (t : thread) (d : ReturnDisposition) : thread := Thread d (events t).
Definition record_event (t : thread) (e : event) : thread := Thread (disposition t) (events t ++ [e]).
Definition at_plus0 (d : ReturnDisposition) : bool := match d with ReturnAtPlus0 => true | ReturnAtPlus1 => false end.

(** [ra] is [__builtin_return_address(0)]. *)
Definition prepareOptimizedReturn (t : thread) (d : ReturnDisposition) (ra : Z) : res (thread * bool) :=
  if support then
    assert? (at_plus0 (getReturnDisposition t)) in
    if accepts ra then Ok (if at_plus0 d then t else setReturnDisposition t d, true)
    else Ok (t, false)
  else Ok (t, false).
Definition acceptOptimizedReturn (t : thread) : thread * ReturnDisposition :=
  if support then
    let d := getReturnDisposition t in (setReturnDisposition t ReturnAtPlus0, d)
  else (t, ReturnAtPlus0).

(** [objc_object::autorelease] with [rootAutorelease], through
    [objc_autorelease]; [ra'] is the return address seen there. *)
Definition rootAutorelease (t : thread) (ra' : Z) : res thread :=
  if obj_nil then Ok t
  else
    let? (t, optimized) := prepareOptimizedReturn t ReturnAtPlus1 ra' in
    if optimized then Ok t else Ok (record_event t (Root Autorelease)).
Definition autorelease (t : thread) (ra' : Z) : res thread :=
  assert? (negb obj_nil) in
  if negb hasCustomRR then rootAutorelease t ra' else Ok (record_event t (Message Autorelease)).
Definition objc_autorelease (t : thread) (ra' : Z) : res thread :=
  if obj_nil then Ok t else autorelease t ra'.
Definition objc_retain (t : thread) : thread :=
  if obj_nil then t else record_event t (if hasCustomRR then Message Retain else Root Retain).
Definition objc_release (t : thread) : thread :=
  if obj_nil then t else record_event t (if hasCustomRR then Message Release else Root Release).
Definition objc_releaseAndReturn (t : thread) : thread := objc_release t.
Definition objc_retainAutorelease (t : thread) (ra' : Z) : res thread := objc_autorelease (objc_retain t) ra'.
Definition objc_retainAutoreleaseAndReturn (t : thread) (ra' : Z) : res thread := objc_retainAutorelease t ra'.

Definition objc_autoreleaseReturnValue (t : thread) (ra ra' : Z) : res thread :=
  let? (t, optimized) := prepareOptimizedReturn t ReturnAtPlus1 ra in
  if optimized then Ok t else objc_autorelease t ra'.
Definition objc_retainAutoreleaseReturnValue (t : thread) (ra ra' : Z) : res thread :=
  let? (t, optimized) := prepareOptimizedReturn t ReturnAtPlus0 ra in
  if optimized then Ok t else objc_retainAutoreleaseAndReturn t ra'.
Definition objc_retainAutoreleasedReturnValue (t : thread) : thread :=
  let (t, d) := acceptOptimizedReturn t in
  if negb (at_plus0 d) then t else objc_retain t.
Definition objc_unsafeClaimAutoreleasedReturnValue (t : thread) : thread :=
  let (t, d) := acceptOptimizedReturn t in
  if at_plus0 d then t else objc_releaseAndReturn t.

(** *** What the convention promises

    The callee holds the object with [start] references of its own; the caller
    is to hold it with [want]. *)
Definition effect (e : event) : Z :=
  match e with Root Retain | Message Retain => 1 | _ => -1 end.
Definition balance (t : thread) : Z := foldr (fun e n => effect e + n) 0 (events t).
Inductive callee := AutoreleaseRV | RetainAutoreleaseRV.
Inductive caller := RetainRV | ClaimRV.
Definition start (c : callee) : Z := match c with AutoreleaseRV => 1 | RetainAutoreleaseRV => 0 end.
Definition want (c : caller) : Z := match c with RetainRV => 1 | ClaimRV => 0 end.
Definition run_callee (c : callee) : thread -> Z -> Z -> res thread :=
  match c with AutoreleaseRV => objc_autoreleaseReturnValue | RetainAutoreleaseRV => objc_retainAutoreleaseReturnValue end.
Definition run_caller (c : caller) : thread -> thread :=
  match c with RetainRV => objc_retainAutoreleasedReturnValue | ClaimRV => objc_unsafeClaimAutoreleasedReturnValue end.
Definition idle : thread := Thread ReturnAtPlus0 [].
End Convention.

(** ** Recognition *)
Definition code_at (mem : Z -> Z) (a : Z) (bytes : list Z) : Prop :=
  forall i b, bytes !! i = Some b -> mem (u64 (a + Z.of_nat i)) = b.
Lemma code_at_nil mem a : code_at mem a [] <-> True.
Proof. split; [done|]. intros _ i b. by rewrite lookup_nil. Qed.
Lemma code_at_cons mem a b bytes : code_at mem a (b :: bytes) <-> mem (u64 a) = b /\ code_at mem (a + 1) bytes.
Proof.
  unfold code_at. split.
  - intros H. split; [rewrite <- (H 0%nat b eq_refl); do 2 f_equal; lia|]. intros i c Hi.
    rewrite <- (H (S i) c Hi). do 2 f_equal. lia.
  - intros [H0 H] [|i] c Hi; simplify_eq/=; [do 2 f_equal; lia|]. rewrite <- (H i c Hi). do 2 f_equal. lia.
Qed.
Definition memory_ok (mem : Z -> Z) : Prop := forall a, in_word 8 (mem a).
(** A load equals a number when its bytes are the number's. *)
Lemma load_step mem n a b c : memory_ok mem -> in_word 8 b -> load_le mem (S n) a = b + 256 * c <-> mem (u64 a) = b /\ load_le mem n (a + 1) = c.
Proof. intros Hm Hb. cbn [load_le]. pose proof (Hm (u64 a)). unfold in_word in *. lia. Qed.

Section Recognition.
Context (mem : Z -> Z) (retainRV claimRV : Z) (Hm : memory_ok mem).
Lemma load_u16_is a v : in_word 16 v -> load_u16 mem a = v <-> code_at mem a [v mod 256; v / 256].
Proof.
  intros Hv. unfold load_u16, in_word in *. rewrite !code_at_cons, code_at_nil.
  replace v with (v mod 256 + 256 * (v / 256 + 256 * 0)) at 1 by dlia.
  rewrite load_step by (first [done|unfold in_word; dlia]). rewrite load_step by (first [done|unfold in_word; dlia]).
  cbn [load_le]. tauto.
Qed.
Lemma load_u32_is a v : in_word 32 v ->
  load_u32 mem a = v <-> code_at mem a [v mod 256; v / 256 mod 256; v / 65536 mod 256; v / 16777216].
Proof.
  intros Hv. unfold load_u32, in_word in *. rewrite !code_at_cons, code_at_nil.
  replace v with (v mod 256 + 256 * (v / 256 mod 256 + 256 * (v / 65536 mod 256 + 256 * (v / 16777216 + 256 * 0)))) at 1 by dlia.
  do 4 (rewrite load_step by (first [done|unfold in_word; dlia])). cbn [load_le]. tauto.
Qed.

(** The instructions each architecture recognises, as the bytes in memory. On
    x86_64: [movq %rax, %rdi; callq stub], the stub being
    [jmpq *symbol(%rip)] and the symbol one of the two callers. *)
Definition recognised (A : arch) (ra : Z) : Prop :=
  match A with
  | X86_64 =>
    code_at mem ra [0x48; 0x89; 0xc7; 0xe8] /\
    let stub := u64 (ra + (load_i32 mem (ra + 4) + 8)) in
    code_at mem stub [0xff; 0x25] /\
    let sym := load_ptr mem (u64 (stub + (6 + load_i32 mem (stub + 2)))) in sym = retainRV \/ sym = claimRV
  | ARM => if Z.odd ra then code_at mem (ra - 1) [0x3f; 0x46] else code_at mem ra [0x07; 0x70; 0xa0; 0xe1]
  | ARM64 => code_at mem ra [0xfd; 0x03; 0x1d; 0xaa]
  | I386 => code_at mem ra [0x89; 0xed]
  | Unknown => False
  end.
Lemma if_eqb_true (a b : Z) : (if a =? b then true else false) = true <-> a = b.
Proof. destruct (Z.eqb_spec a b); split; done. Qed.
Lemma nz_land1 ra : nz (Z.land ra 1) = Z.odd ra.
Proof. change 1 with (2 ^ 0). rewrite nz_bit by done. apply Z.bit0_odd. Qed.
Lemma accepts_recognised A ra : callerAcceptsOptimizedReturn mem retainRV claimRV A ra = true <-> recognised A ra.
Proof.
  destruct A; cbn [callerAcceptsOptimizedReturn recognised].
  - unfold callerAcceptsOptimizedReturn_x86_64. cbv zeta.
    pose proof (load_u32_is ra 0xe8c78948 ltac:(by vm_compute)) as H1. vm_compute (_ :: _) in H1.
    destruct (Z.eqb_spec (load_u32 mem ra) 0xe8c78948) as [E|E]; cbn [negb]; [|split; [done|intros (H & _); by apply H1 in H]].
    apply H1 in E. set (stub := u64 _).
    pose proof (load_u16_is stub 0x25ff ltac:(by vm_compute)) as H2. vm_compute (_ :: _) in H2.
    destruct (Z.eqb_spec (load_u16 mem stub) 0x25ff) as [E2|E2]; cbn [negb]; [|split; [done|intros (_ & H & _); by apply H2 in H]].
    apply H2 in E2. set (sym := load_ptr mem _).
    destruct (Z.eqb_spec sym retainRV), (Z.eqb_spec sym claimRV); cbn [negb andb]; split; try done; try tauto.
  - unfold callerAcceptsOptimizedReturn_arm. rewrite nz_land1. destruct (Z.odd ra); rewrite if_eqb_true.
    + by rewrite load_u16_is.
    + by rewrite load_u32_is.
  - unfold callerAcceptsOptimizedReturn_arm64. by rewrite if_eqb_true, load_u32_is.
  - unfold callerAcceptsOptimizedReturn_i386. by rewrite if_eqb_true, load_u16_is.
  - done.
Qed.
(** Jumps have other opcodes than the call: 0xe9, 0xeb, or 0xff. *)
Lemma only_calls ra : mem (u64 (ra + 3)) <> 0xe8 -> callerAcceptsOptimizedReturn mem retainRV claimRV X86_64 ra = false.
Proof.
  intros H. apply not_true_iff_false. intros [Hc _]%accepts_recognised. apply H. exact (Hc 3%nat 0xe8 eq_refl).
Qed.
End Recognition.

(** ** Properties *)

(** C36: the autoreleased-return convention. The recognition of the caller tests
    exactly the instruction bytes that [recognised] gives for the architecture: the magic nop on
    i386, arm and arm64, as the comment in the source documents it; on x86_64 the move to the first
    argument followed by a call, and the call must go to a stub that jumps through a
    symbol pointer to one of the two callers. There the comment documents a call or a jump
    instruction, but a jump is not recognised, nor any other instruction but the call. When the caller
    accepts the value, then whatever callee returned it, and whether or not the
    caller was recognised, nobody faults, the disposition is reset, and the
    retains, releases and autoreleases done take the object from the references
    the callee had to those the caller wants; a recognised caller saves every
    operation but the one that makes up the difference. A callee that does not
    recognise its caller hands the value over at +0, with the disposition clear.
    Were a caller recognised that does not accept, the next return would find the
    disposition set. Nil and tagged values are never touched. All this is with the
    optimization compiled in, from a clear disposition. *)
Theorem return_convention_correct mem retainRV claimRV A custom c d ra ra' : memory_ok mem ->
  let accepts := callerAcceptsOptimizedReturn mem retainRV claimRV A in
  (accepts ra = true <-> recognised mem retainRV claimRV A ra) /\
  (A = X86_64 -> mem (u64 (ra + 3)) <> 0xe8 -> accepts ra = false) /\
  (exists t, run_callee true accepts false custom c idle ra ra' = Ok t /\
     start c + balance (run_caller true false custom d t) = want d /\
     disposition (run_caller true false custom d t) = ReturnAtPlus0 /\
     (accepts ra = true -> length (events (run_caller true false custom d t)) = Z.to_nat (Z.abs (want d - start c)))) /\
  (accepts ra = false -> accepts ra' = false -> exists t, run_callee true accepts false custom c idle ra ra' = Ok t /\
     start c + balance t = 0 /\ disposition t = ReturnAtPlus0) /\
  balance (run_caller true false custom d idle) = want d /\
  (accepts ra = true -> exists t, run_callee true accepts false custom AutoreleaseRV idle ra ra' = Ok t /\
     run_callee true accepts false custom c t ra ra' = Fault AssertFailed) /\
  (exists t, run_callee true accepts true custom c idle ra ra' = Ok t /\ events (run_caller true true custom d t) = []).
Proof.
  intros Hm accepts. split; [by apply accepts_recognised|]. split; [by intros ->; apply only_calls|]. generalize accepts. clear.
  intros accepts. unfold run_callee, objc_autoreleaseReturnValue, objc_retainAutoreleaseReturnValue,
    objc_retainAutoreleaseAndReturn, objc_retainAutorelease, objc_autorelease, autorelease, rootAutorelease, prepareOptimizedReturn.
  destruct (accepts ra) eqn:E, (accepts ra') eqn:E', c, d, custom; cbn; rewrite ?E, ?E'; cbn; rewrite ?E, ?E'; cbn.
  all: repeat (match goal with |- _ /\ _ => split | |- _ -> _ => intros ? end); try discriminate; try reflexivity.
  all: try (eexists; split; [reflexivity|]; cbn; rewrite ?E; cbn; repeat (split || intros ?); (reflexivity || discriminate)).
Qed.

(** ** Witness *)
Module ReturnWitness.
(** An arm64 caller: the nop [mov fp, fp] at address 4096. *)
Definition code (a : Z) : Z := nth (Z.to_nat (a - 4096)) [0xfd; 0x03; 0x1d; 0xaa] 0.
Lemma code_ok : memory_ok code.
Proof.
  intros a. unfold code. set (i := Z.to_nat (a - 4096)). destruct i as [|[|[|[|[|i]]]]]; by vm_compute.
Qed.
Lemma return_convention_correct_witness :
  callerAcceptsOptimizedReturn code 8 16 ARM64 4096 = true /\
  exists t, run_callee true (callerAcceptsOptimizedReturn code 8 16 ARM64) false false AutoreleaseRV idle 4096 4096 = Ok t /\
    disposition t = ReturnAtPlus1 /\ disposition (run_caller true false false RetainRV t) = ReturnAtPlus0.
Proof.
  split; [by vm_compute|].
  destruct (return_convention_correct code 8 16 ARM64 false AutoreleaseRV RetainRV 4096 4096 code_ok)
    as (_ & _ & (t & E & _ & D & _) & _).
  exists t. split; [exact E|]. split; [|exact D]. vm_compute in E. by injection E as <-.
Defined.
End ReturnWitness.
