(* ===== verification/RawIsa.v ===== *)
(** * objc-object.h: objects without a nonpointer isa

    The second set of inline functions of the header, compiled where nonpointer
    isas are not supported (the 64-bit simulator, for one). The first word of an
    object is its class; the retain count and the weak flag are in the side
    table, and whether instances have associated objects is noted in the class.

    Every operation reads or writes the isa at most once, so the operations are
    functions of the [raw_world] they find: the isa, the side table of the
    object's stripe, and the classes' flags. *)

From stdpp Require Import prelude numbers list.
From Stdlib Require Import ZArith Lia Bool.
From S2P Require Import Prelude ObjcOS DenseMap SideTable TaggedPointer ObjcObject ReturnAutorelease.

(** The tables that dispatch on tagged pointers reads. *)
Record tag_tables := TagTables { tags : tag_config; unrecognized : Z; tag_classes : classes }.

Record raw_world (W : Type) := RawWorld {
  isa_cls : Z;
  rside : SideTable W;
  assoc_flags : Z -> bool;
}.
Arguments RawWorld {W} isa_cls rside assoc_flags.
Arguments isa_cls {W} r.
Arguments rside {W} r.
Arguments assoc_flags {W} r.

Definition note_assoc (f : Z -> bool) (cls : Z) : Z -> bool := fun c => if decide (c = cls) then true else f c.

Section RawIsa.
(** [usable]: the class is realised or a future class. *)
Context (K : class_info) (usable : Z -> bool) (tagged : option tag_tables).
Context {W : Type} {HW : WeakTableOps W} (garbage : nat -> Z * Z) (this : Z).
Implicit Types w : raw_world W.

Definition raw_isTaggedPointer : bool := match tagged with Some T => isTaggedPointer (tags T) this | None => false end.
(** [isa_t] holds the class. *)
Definition setClass (cls : Z) : Z := cls.
Definition getClass (bits : Z) : Z := bits.
Definition getDecodedClass (bits : Z) : Z := getClass bits.
Definition ISA w : res Z := assert? (negb raw_isTaggedPointer) in Ok (getClass (isa_cls w)).
Definition rawISA w : res Z := ISA w.
Definition hasNonpointerIsa : bool := false.
Definition getIsa w : res Z :=
  match tagged with
  | Some T => if negb raw_isTaggedPointer then ISA w else Ok (tagged_getIsa (tags T) (unrecognized T) (tag_classes T) this)
  | None => ISA w
  end.

Definition store_isa w (bits : Z) : raw_world W := RawWorld bits (rside w) (assoc_flags w).
Definition initIsa w (cls : Z) : res (raw_world W) :=
  assert? (negb raw_isTaggedPointer) in Ok (store_isa w (setClass cls)).
Definition initClassIsa w (cls : Z) : res (raw_world W) := initIsa w cls.
Definition initProtocolIsa w (cls : Z) : res (raw_world W) := initIsa w cls.
Definition initInstanceIsa w (cls : Z) (hasCxxDtor : bool) : res (raw_world W) := initIsa w cls.

Definition instancesHaveAssociatedObjects w (cls : Z) : res bool := assert? (usable cls) in Ok (assoc_flags w cls).
Definition setInstancesHaveAssociatedObjects w (cls : Z) : res (raw_world W) :=
  assert? (usable cls) in Ok (RawWorld (isa_cls w) (rside w) (note_assoc (assoc_flags w) cls)).
(** The exchange is atomic: [isa_cls w] is what it finds. *)
Definition changeIsa w (cls : Z) : res (raw_world W * Z) :=
  assert? (negb raw_isTaggedPointer) in
  let newisa := setClass cls in
  let oldisa := isa_cls w in
  let w := store_isa w newisa in
  let oldcls := getDecodedClass oldisa in
  let? w :=
    if nz oldcls then
      let? assoc := instancesHaveAssociatedObjects w oldcls in
      if assoc : bool then setInstancesHaveAssociatedObjects w cls else Ok w
    else Ok w in
  Ok (w, oldcls).

Definition hasAssociatedObjects w : res bool := let? cls := getIsa w in instancesHaveAssociatedObjects w cls.
Definition setHasAssociatedObjects w : res (raw_world W) := let? cls := getIsa w in setInstancesHaveAssociatedObjects w cls.

Definition with_side {A} w (r : res (SideTable W * A)) : res (raw_world W * A) :=
  let? (t, a) := r in Ok (RawWorld (isa_cls w) t (assoc_flags w), a).
Definition with_side_ w (r : res (SideTable W)) : res (raw_world W) :=
  let? t := r in Ok (RawWorld (isa_cls w) t (assoc_flags w)).
Definition isWeaklyReferenced w : res (raw_world W * bool) :=
  assert? (negb raw_isTaggedPointer) in with_side w (sidetable_isWeaklyReferenced garbage (rside w) this).
Definition setWeaklyReferenced_nolock w : res (raw_world W) :=
  assert? (negb raw_isTaggedPointer) in with_side_ w (sidetable_setWeaklyReferenced_nolock garbage (rside w) this false).
Definition hasCxxDtor w : res bool :=
  assert? (negb raw_isTaggedPointer) in Ok (cls_hasCxxDtor K (getClass (isa_cls w))).
Definition rootIsDeallocating w : res bool :=
  if raw_isTaggedPointer then Ok false else sidetable_isDeallocating garbage (rside w) this.
Definition clearDeallocating w : res (raw_world W) := with_side_ w (sidetable_clearDeallocating garbage (rside w) this).
Definition objc_destructInstance w : res (raw_world W * list teardown) :=
  let? cxx := hasCxxDtor w in
  let? assoc := hasAssociatedObjects w in
  let? w := clearDeallocating w in
  Ok (w, (if cxx : bool then [CxxDestruct] else []) ++ (if assoc : bool then [RemoveAssociations] else []) ++ [ClearDeallocating]).
Definition object_dispose w : res (raw_world W * list teardown) :=
  let? (w, l) := objc_destructInstance w in Ok (w, l ++ [Free]).
Definition rootDealloc w : res (raw_world W * list teardown) :=
  if raw_isTaggedPointer then Ok (w, []) else object_dispose w.

Definition rootRetain w : res (raw_world W) :=
  if raw_isTaggedPointer then Ok w else with_side_ w (sidetable_retain garbage (rside w) this false false).
Definition retain w : res (raw_world W * retained) :=
  assert? (negb raw_isTaggedPointer) in
  let? cls := ISA w in
  if negb (hasCustomRR K cls) then
    let? w := with_side_ w (sidetable_retain garbage (rside w) this false false) in Ok (w, RetainedSelf)
  else Ok (w, MsgSendRetain).
Definition rootTryRetain w : res (raw_world W * bool) :=
  if raw_isTaggedPointer then Ok (w, true) else with_side w (sidetable_tryRetain garbage (rside w) this false).
(** Whether the object is to be deallocated; [performDealloc] says whether
    [dealloc] is sent then. *)
Definition side_release w (performDealloc : bool) : res (raw_world W * released) :=
  let? (w, result) := with_side w (sidetable_release garbage (rside w) this false false) in
  Ok (w, Released result (result && performDealloc)).
Definition rootRelease w : res (raw_world W * released) :=
  if raw_isTaggedPointer then Ok (w, Released false false) else side_release w true.
Definition rootReleaseShouldDealloc w : res (raw_world W * released) :=
  if raw_isTaggedPointer then Ok (w, Released false false) else side_release w false.
Definition release w : res (raw_world W * released) :=
  assert? (negb raw_isTaggedPointer) in
  let? cls := ISA w in
  if negb (hasCustomRR K cls) then side_release w true else Ok (w, MsgSendRelease).
Definition rootRetainCount w : res (raw_world W * Z) :=
  if raw_isTaggedPointer then Ok (w, this) else with_side w (sidetable_retainCount garbage (rside w) this).
(** The thread's pending return is that of ReturnAutorelease. *)
Definition autorelease (support : bool) (accepts : Z -> bool) w (t : thread) (ra : Z) : res thread :=
  if raw_isTaggedPointer then Ok t
  else
    let? cls := ISA w in
    if negb (hasCustomRR K cls) then ReturnAutorelease.rootAutorelease support accepts raw_isTaggedPointer t ra
    else Ok (record_event t (Message Autorelease)).

(** ** What the operations promise

    The object as a client sees it: its class, its reference count with the
    flags that go along, and the classes noted to have instances with
    associations. *)
Record raw_object := RawObject { o_class : Z; o_state : obj_state; o_assoc : Z -> bool }.
Inductive request :=
  | RootRetain | SendRetain | TryRetain | RootRelease | ReleaseShouldDealloc | SendRelease
  | SetWeak | IsWeak | IsDeallocating | Count | SetAssoc | HasAssoc | ChangeIsa (cls : Z).
Inductive answer := Done | Yes (b : bool) | Word (z : Z) | Retained (r : retained) | ReleasedBy (r : released).
Definition run w (q : request) : res (raw_world W * answer) :=
  match q with
  | RootRetain => let? w := rootRetain w in Ok (w, Done)
  | SendRetain => let? (w, r) := retain w in Ok (w, Retained r)
  | TryRetain => let? (w, b) := rootTryRetain w in Ok (w, Yes b)
  | RootRelease => let? (w, r) := rootRelease w in Ok (w, ReleasedBy r)
  | ReleaseShouldDealloc => let? (w, r) := rootReleaseShouldDealloc w in Ok (w, ReleasedBy r)
  | SendRelease => let? (w, r) := release w in Ok (w, ReleasedBy r)
  | SetWeak => let? w := setWeaklyReferenced_nolock w in Ok (w, Done)
  | IsWeak => let? (w, b) := isWeaklyReferenced w in Ok (w, Yes b)
  | IsDeallocating => let? b := rootIsDeallocating w in Ok (w, Yes b)
  | Count => let? (w, n) := rootRetainCount w in Ok (w, Word n)
  | SetAssoc => let? w := setHasAssociatedObjects w in Ok (w, Done)
  | HasAssoc => let? b := hasAssociatedObjects w in Ok (w, Yes b)
  | ChangeIsa cls => let? (w, old) := changeIsa w cls in Ok (w, Word old)
  end.

Definition with_state (o : raw_object) (s : obj_state) : raw_object := RawObject (o_class o) s (o_assoc o).
Definition with_assoc (o : raw_object) (cls : Z) : raw_object := RawObject (o_class o) (o_state o) (note_assoc (o_assoc o) cls).
Definition spec_release (o : raw_object) (performDealloc : bool) : raw_object * answer :=
  let (s, last) := less (o_state o) in (with_state o s, ReleasedBy (Released last (last && performDealloc))).
Definition spec (o : raw_object) (q : request) : raw_object * answer :=
  match q with
  | RootRetain => (with_state o (more (o_state o)), Done)
  | SendRetain =>
    if hasCustomRR K (o_class o) then (o, Retained MsgSendRetain)
    else (with_state o (more (o_state o)), Retained RetainedSelf)
  | TryRetain =>
    if is_deallocating (o_state o) then (o, Yes false) else (with_state o (more (o_state o)), Yes true)
  | RootRelease => spec_release o true
  | ReleaseShouldDealloc => spec_release o false
  | SendRelease => if hasCustomRR K (o_class o) then (o, ReleasedBy MsgSendRelease) else spec_release o true
  | SetWeak => (with_state o (set_weak (o_state o)), Done)
  | IsWeak => (o, Yes (is_weak (o_state o)))
  | IsDeallocating => (o, Yes (is_deallocating (o_state o)))
  | Count => (o, Word (1 + retains (o_state o)))
  | SetAssoc => (with_assoc o (o_class o), Done)
  | HasAssoc => (o, Yes (o_assoc o (o_class o)))
  | ChangeIsa cls =>
    let o' := RawObject cls (o_state o) (o_assoc o) in
    ((if nz (o_class o) && o_assoc o (o_class o) then with_assoc o' cls else o'), Word (o_class o))
  end.
(** Requests a correct program makes: no release of an object that is already
    deallocating and has nothing retained. *)
Definition legal (o : raw_object) (q : request) : Prop :=
  match q with
  | RootRelease | ReleaseShouldDealloc | SendRelease => o_state o <> Deallocating 0 (is_weak (o_state o))
  | _ => True
  end.
Record stands_for w (o : raw_object) : Prop := {
  sf_class : isa_cls w = o_class o;
  sf_word : word_of garbage (rside w) this = encode (o_state o);
  sf_assoc : assoc_flags w = o_assoc o;
}.

Lemma encode_count s : countable s -> encode s / 4 = retains s.
Proof. unfold countable. destruct s as [n b|n b], b; cbn [encode retains Zb]; intros; dlia. Qed.

(** What an operation keeps of a world, whatever the request. *)
Record kept w w' : Prop := {
  kp_refs : refs garbage (refcnts (rside w'));
  kp_lock : slock (rside w') = slock (rside w);
  kp_weak : weak_table (rside w') = weak_table (rside w);
  kp_others : forall o, in_word 64 o -> o <> this -> word_of garbage (rside w') o = word_of garbage (rside w) o;
}.
Lemma kept_same w w' : refs garbage (refcnts (rside w)) -> rside w' = rside w -> kept w w'.
Proof. intros Hr E. split; by rewrite ?E. Qed.
Definition step w (q : request) (r : raw_object * answer) : Prop :=
  exists w', run w q = Ok (w', snd r) /\ stands_for w' (fst r) /\ kept w w'.

Section Step.
Context (w : raw_world W) (o : raw_object).
Context (Htag : raw_isTaggedPointer = false) (Hrd : ready garbage (rside w) this false).
Context (Hsf : stands_for w o) (Hs : countable (o_state o)).
Lemma ISA_ok : ISA w = Ok (o_class o).
Proof. unfold ISA. rewrite Htag. cbn. f_equal. apply Hsf. Qed.
Lemma getIsa_ok : getIsa w = Ok (o_class o).
Proof. unfold getIsa. rewrite Htag. cbn [negb]. rewrite ISA_ok. by destruct tagged. Qed.
(** A request that changes nothing. *)
Lemma step_same q a : run w q = Ok (w, a) -> step w q (o, a).
Proof. intros E. exists w. split; [done|]. split; [done|]. by apply kept_same; [apply Hrd|]. Qed.
(** A request that changes the word. *)
Lemma step_word q a t s : stepped garbage (rside w) t this false (encode s) ->
  run w q = Ok (RawWorld (isa_cls w) t (assoc_flags w), a) -> step w q (with_state o s, a).
Proof.
  intros Hst E. eexists. split; [done|]. destruct Hsf. split; split; cbn; try done.
  - by apply (stepped_word garbage _ _ _ _ _ Hst).
  - apply Hst.
  - rewrite (st_lock _ _ _ _ _ _ Hst). symmetry. apply Hrd.
  - apply Hst.
  - apply (st_updated _ _ _ _ _ _ Hst).
Qed.
Lemma retain_step q a : (forall t, sidetable_retain garbage (rside w) this false false = Ok t ->
    run w q = Ok (RawWorld (isa_cls w) t (assoc_flags w), a)) -> step w q (with_state o (more (o_state o)), a).
Proof.
  intros H. destruct (sidetable_retain_ok garbage (rside w) this false Hrd) as (t & E & Hst).
  rewrite (sf_word _ _ Hsf), encode_more in Hst by done. by apply (step_word q a t); [|apply H].
Qed.
Lemma release_step q perform : o_state o <> Deallocating 0 (is_weak (o_state o)) ->
  run w q = (let? (w', r) := side_release w perform in Ok (w', ReleasedBy r)) -> step w q (spec_release o perform).
Proof.
  intros Hne Er. destruct (sidetable_release_ok garbage (rside w) this false Hrd) as (t & E & Hst).
  rewrite (sf_word _ _ Hsf), encode_less in E, Hst by done. unfold spec_release.
  destruct (less (o_state o)) as [s last]. apply (step_word q _ t); [done|].
  rewrite Er. unfold side_release, with_side. by rewrite E.
Qed.
Lemma tryRetain_step : step w TryRetain (spec o TryRetain).
Proof.
  destruct (sidetable_tryRetain_ok garbage (rside w) this false Hrd) as (t & E & Hst). unfold tryRetain_word in E, Hst.
  destruct (encode_flags _ Hs) as (_ & Fd & _). rewrite (sf_word _ _ Hsf), Fd in E, Hst. cbn [spec].
  assert (E' : run w TryRetain = Ok (RawWorld (isa_cls w) t (assoc_flags w), Yes (negb (is_deallocating (o_state o)))))
    by (cbn [run]; unfold rootTryRetain, with_side; rewrite Htag, E; by destruct (is_deallocating _)).
  destruct (is_deallocating (o_state o)) eqn:Ed; cbn [fst snd negb] in *.
  - destruct (step_word _ _ _ (o_state o) Hst E') as (w' & Er & Hw' & Hk). exists w'. split; [done|]. by destruct o.
  - apply (step_word _ _ t); [|done]. by rewrite <- encode_more.
Qed.
Lemma setAssoc_step : usable (o_class o) = true -> step w SetAssoc (spec o SetAssoc).
Proof.
  intros Hu. eexists. cbn [run]. unfold setHasAssociatedObjects, setInstancesHaveAssociatedObjects.
  rewrite getIsa_ok. cbn [rbind]. rewrite Hu. split; [done|]. destruct Hsf as [Hc Hw Ha].
  split; [|apply kept_same; [apply Hrd|done]]. split; cbn; [done|done|]. by rewrite Ha.
Qed.
Lemma changeIsa_step cls : (nz (o_class o) = true -> usable (o_class o) = true) -> usable cls = true ->
  step w (ChangeIsa cls) (spec o (ChangeIsa cls)).
Proof.
  intros Hu Hc. destruct Hsf as [Ec Ew Ea]. unfold step. cbn [run]. unfold changeIsa, setClass, getDecodedClass, getClass, store_isa.
  rewrite Htag. cbn [negb rassert rbind rside assoc_flags isa_cls]. rewrite Ec.
  unfold instancesHaveAssociatedObjects, setInstancesHaveAssociatedObjects. cbn [assoc_flags isa_cls rside spec].
  destruct (nz (o_class o)); cbn [andb].
  - rewrite Hu, Hc, Ea by done. cbn [rassert rbind].
    destruct (o_assoc o (o_class o)); cbn [rbind]; eexists; (split; [done|]);
      (split; [by split|apply kept_same; [apply Hrd|done]]).
  - cbn [rbind]. eexists. split; [done|]. split; [by split|apply kept_same; [apply Hrd|done]].
Qed.
End Step.
End RawIsa.

(** C37: objects without a nonpointer isa keep their contract. The object's class can be used, its
    count is not saturated ([countable]), the side table is well formed, has room, and has its lock free,
    and its weak table clears the object, if it is flagged, without fault. Whatever a program
    asks of such an object, short of releasing it after the end (see the findings), the operation
    succeeds, answers what the reference-counted object of [spec] answers, and
    leaves a world that stands for the object [spec] leaves; the side table
    stays well formed, its lock free, its weak table and the other objects'
    words as they were. The release of the last reference returns true, and [rootRelease]
    sends [dealloc] then, although the comment above it says that it does not call -dealloc;
    only [rootReleaseShouldDealloc] does not. Deallocation drops the object's word, clears its
    weak references when there are some, and runs the destructor and the
    removal of associations when the class says so, before freeing. A new isa is
    read back; an autorelease, the caller's return not being recognised, is one
    autorelease of the root class or one message to an override. Tagged pointers
    are never counted. *)
Theorem raw_object_refines K usable tagged W (HW : WeakTableOps W) garbage this (w : raw_world W) o q wt :
  raw_isTaggedPointer tagged this = false -> ready garbage (rside w) this false -> stands_for garbage this w o ->
  countable (o_state o) -> usable (o_class o) = true ->
  (if is_weak (o_state o) then weak_clear_no_lock (weak_table (rside w)) this = Ok wt else wt = weak_table (rside w)) ->
  (legal o q -> match q with ChangeIsa cls => usable cls = true | _ => True end ->
   step K usable tagged garbage this w q (spec K o q)) /\
  (exists w', rootDealloc K usable tagged garbage this w =
     Ok (w', (if cls_hasCxxDtor K (o_class o) then [CxxDestruct] else []) ++
             (if o_assoc o (o_class o) then [RemoveAssociations] else []) ++ [ClearDeallocating] ++ [Free]) /\
     stepped garbage (with_weak (rside w) wt) (rside w') this false 0) /\
  (forall cls dtor, exists w', initInstanceIsa tagged this w cls dtor = Ok w' /\ ISA tagged this w' = Ok cls /\ rside w' = rside w) /\
  (forall accepts t ra, accepts ra = false -> disposition t = ReturnAtPlus0 ->
   autorelease K tagged this true accepts w t ra =
     Ok (record_event t (if hasCustomRR K (o_class o) then Message Autorelease else Root Autorelease))) /\
  (forall T ptr r, isTaggedPointer (tags T) ptr = true -> In r [RootRetain; TryRetain; RootRelease; ReleaseShouldDealloc; IsDeallocating; Count] ->
   exists a, run K usable (Some T) garbage ptr w r = Ok (w, a)).
Proof.
  intros Htag Hrd Hsf Hs Hu Hweak. split_and!.
  - intros Hl Hq. pose proof Hsf as [Hc Hw Ha]. destruct (encode_flags _ Hs) as (Fw & Fd & _). destruct q; cbn [legal] in Hl.
    + apply retain_step; try done. intros t E. cbn [run]. unfold rootRetain, with_side_. by rewrite Htag, E.
    + cbn [spec]. destruct (hasCustomRR K (o_class o)) eqn:Er.
      * apply step_same; try done. cbn [run]. unfold retain. rewrite Htag, (ISA_ok tagged garbage this w o) by done. cbn [negb rassert rbind]. by rewrite Er.
      * apply retain_step; try done. intros t E. cbn [run]. unfold retain. rewrite Htag, (ISA_ok tagged garbage this w o) by done. cbn [negb rassert rbind].
        rewrite Er. cbn [negb]. unfold with_side_. by rewrite E.
    + by apply tryRetain_step.
    + apply release_step; try done. cbn [run]. unfold rootRelease. by rewrite Htag.
    + apply release_step; try done. cbn [run]. unfold rootReleaseShouldDealloc. by rewrite Htag.
    + cbn [spec]. destruct (hasCustomRR K (o_class o)) eqn:Er; [apply step_same|apply release_step]; try done; cbn [run]; unfold release;
        rewrite Htag, (ISA_ok tagged garbage this w o) by done; cbn [rbind rassert negb]; by rewrite Er.
    + destruct (sidetable_setWeaklyReferenced_ok garbage (rside w) this false Hrd) as (t & E & Hst).
      rewrite Hw, encode_set_weak in Hst by done. apply (step_word _ _ _ _ _ w o) with (t := t); try done.
      cbn [run]. unfold setWeaklyReferenced_nolock, with_side_. by rewrite Htag, E.
    + apply step_same; try done. cbn [run]. unfold isWeaklyReferenced, with_side. rewrite Htag, (sidetable_isWeaklyReferenced_ok garbage _ _ Hrd), Hw, Fw.
      by destruct w.
    + apply step_same; try done. cbn [run]. unfold rootIsDeallocating. by rewrite Htag, (sidetable_isDeallocating_ok garbage _ _ false Hrd), Hw, Fd.
    + apply step_same; try done. cbn [run]. unfold rootRetainCount, with_side. rewrite Htag, (sidetable_retainCount_ok garbage _ _ Hrd), Hw, encode_count by done.
      by destruct w.
    + by apply setAssoc_step.
    + apply step_same; try done. cbn [run]. unfold hasAssociatedObjects, instancesHaveAssociatedObjects.
      rewrite (getIsa_ok tagged garbage this w o) by done. cbn [rbind]. by rewrite Hu, Ha.
    + by apply changeIsa_step.
  - pose proof Hsf as [Hc Hw Ha]. destruct (encode_flags _ Hs) as (Fw & _).
    destruct (sidetable_clearDeallocating_ok garbage (rside w) this wt Hrd) as (t & E & Hst); [by rewrite Hw, Fw|].
    unfold rootDealloc, object_dispose, objc_destructInstance, hasCxxDtor, hasAssociatedObjects, instancesHaveAssociatedObjects, clearDeallocating, with_side_.
    rewrite Htag, (getIsa_ok tagged garbage this w o) by done. cbn [negb rassert rbind]. rewrite Hu, E, Ha. cbn [rassert rbind]. unfold getClass. rewrite Hc, <- !app_assoc.
    by eexists.
  - intros cls dtor. unfold initInstanceIsa, initIsa, ISA. rewrite Htag. by eexists.
  - intros accepts t ra Ha Hd. unfold autorelease, ReturnAutorelease.rootAutorelease, prepareOptimizedReturn, getReturnDisposition.
    rewrite Htag, (ISA_ok tagged garbage this w o) by done. cbn [rbind]. by destruct (hasCustomRR K (o_class o)); [|cbn [negb]; rewrite Hd, Ha].
  - intros T ptr r Ht Hr. cbn [In] in Hr. repeat destruct Hr as [<-|Hr]; [..|done]; cbn [run];
      unfold rootRetain, rootTryRetain, rootRelease, rootReleaseShouldDealloc, rootIsDeallocating, rootRetainCount, raw_isTaggedPointer; rewrite Ht; by eexists.
Qed.

(** ** Witness *)
Module RawWitness.
Import SideTableWitness.
#[local] Existing Instance no_weak_table.
Definition plain : class_info := {|
  isFuture _ := false; canAllocNonpointer _ := false; instancesRequireRawIsa _ := true; cls_hasCxxDtor _ := true;
  classArrayIndex _ := 0; hasCustomRR _ := false; canCallSwiftRR _ := false; isMetaClass _ := false;
|}.
Definition fresh : raw_world unit := RawWorld 0x2000 (empty_side false) (fun _ => false).
Definition newborn : raw_object := RawObject 0x2000 (Live 0 false) (fun _ => false).
Lemma raw_object_refines_witness : exists w',
  run plain (fun _ => true) None memory object fresh SendRelease = Ok (w', ReleasedBy (Released true true)) /\
  word_of memory (rside w') object = 2.
Proof.
  destruct (raw_object_refines plain (fun _ => true) None unit no_weak_table memory object fresh newborn SendRelease tt)
    as (H & _); [reflexivity|exact (object_ready false)| |vm_compute; split; [discriminate|reflexivity]|reflexivity|reflexivity|].
  { split; [reflexivity|by vm_compute|reflexivity]. }
  destruct (H ltac:(discriminate) I) as (w' & E & Hw & _). exists w'. split; [exact E|exact (sf_word _ _ _ _ Hw)].
Defined.
End RawWitness.
