(* ===== verification/MethodCache.v ===== *)
(** * objc-cache.mm: method caches

    Each class has a hash table from selectors to implementations. One thread at
    a time, the holder of the runtime lock, fills, replaces and erases tables;
    [objc_msgSend] reads them at any moment without a lock. A replaced table is
    garbage, which is freed when the kernel reports that no thread is inside a
    reader.

    The model has the memory that readers and writers share. A writer's
    operation is a program of a small monad that performs the atomic stores of
    the source one by one and keeps the memory before each of them, so that a
    world is a history. A reader is the translation of [CacheLookup], in which
    each load finds the memory of a moment of its own. The configurations without
    preoptimized caches are modelled. *)

From stdpp Require Import prelude numbers list gmap.
From Stdlib Require Import ZArith Lia Bool.
From S2P Require Import Prelude ObjcOS.

(** ** Data *)
Inductive arch := X86_64 | I386 | ARM | ARM64 | ARM64_BIG_ADDRS | ARM64_32.
#[export] Instance arch_eq_dec : EqDecision arch.
Proof. solve_decision. Defined.

(** How [cache_t] stores the mask. *)
Inductive mask_storage := OUTLINED | HIGH_16 | HIGH_16_BIG_ADDRS | LOW_4.
(** How a bucket stores the implementation. *)
Inductive imp_encoding := ENCODING_NONE | ENCODING_ISA_XOR | ENCODING_PTRAUTH.

Record bucket_t := Bucket { _sel : Z; _imp : Z }.
Record cache_t := Cache { _bucketsAndMaybeMask : Z; _maybeMask : Z; _occupied : Z }.

(** Memory: blocks of buckets by address, caches by class, the static variables
    of the file. [asked] counts the calls of [_collecting_in_critical], [quiet]
    those that found no reader. *)
Record mem := Mem {
  heap : gmap Z (list bucket_t);
  classes : gmap Z cache_t;
  emptyBucketsList : list Z;
  garbage_refs : list Z;
  garbage_first : bool;
  garbage_max : Z;
  garbage_byte_size : Z;
  asked : nat;
  quiet : nat;
}.
Record world := World { now : mem; past : list mem }.

Definition set_heap (f : gmap Z (list bucket_t) -> gmap Z (list bucket_t)) (m : mem) : mem :=
  Mem (f (heap m)) (classes m) (emptyBucketsList m) (garbage_refs m) (garbage_first m)
    (garbage_max m) (garbage_byte_size m) (asked m) (quiet m).
Definition set_classes (f : gmap Z cache_t -> gmap Z cache_t) (m : mem) : mem :=
  Mem (heap m) (f (classes m)) (emptyBucketsList m) (garbage_refs m) (garbage_first m)
    (garbage_max m) (garbage_byte_size m) (asked m) (quiet m).
Definition set_emptyBucketsList (l : list Z) (m : mem) : mem :=
  Mem (heap m) (classes m) l (garbage_refs m) (garbage_first m)
    (garbage_max m) (garbage_byte_size m) (asked m) (quiet m).
Definition set_garbage (refs : list Z) (first : bool) (max bytes : Z) (m : mem) : mem :=
  Mem (heap m) (classes m) (emptyBucketsList m) refs first max bytes (asked m) (quiet m).
Definition set_asked (a q : nat) (m : mem) : mem :=
  Mem (heap m) (classes m) (emptyBucketsList m) (garbage_refs m) (garbage_first m)
    (garbage_max m) (garbage_byte_size m) a q.

(** The machine, the build and the rest of the process. [L__objc_empty_cache] is
    the address of the read-only block of empty buckets. *)
Class CacheEnv := {
  machine : arch;
  ptrauth_calls : bool;
  debug : bool;
  L__objc_empty_cache : Z;
  calloc : gset Z -> Z -> option Z;
  ptrauth_resign : Z -> Z -> Z;
  ptrauth_auth : Z -> Z -> Z;
  isInitialized : Z -> bool;
  in_critical : nat -> bool;
}.

(** ** The monad of writers *)
Definition M (A : Type) : Type := world -> res (A * world).
Definition ret {A} (a : A) : M A := fun w => Ok (a, w).
Definition bind {A B} (m : M A) (k : A -> M B) : M B := fun w => let? (a, w) := m w in k a w.
Definition fail {A} (f : fault) : M A := fun _ => Fault f.
Definition check (b : bool) : M unit := fun w => assert? b in Ok (tt, w).
Definition get : M mem := fun w => Ok (now w, w).
(** One store. *)
Definition store (f : mem -> mem) : M unit := fun w => Ok (tt, World (f (now w)) (now w :: past w)).
Notation "'let!' x := m 'in' k" := (bind m (fun x => k))
  (at level 10, x pattern, m at level 100, k at level 200) : word_scope.
Notation "'do!' m 'in' k" := (bind m (fun _ => k))
  (at level 10, m at level 100, k at level 200) : word_scope.

(** ** The monad of readers

    [view n] is the memory that the [n]-th load finds. *)
Definition R (A : Type) : Type := (nat -> mem) -> nat -> res (A * nat).
Definition rret {A} (a : A) : R A := fun _ n => Ok (a, n).
Definition rthen {A B} (m : R A) (k : A -> R B) : R B :=
  fun view n => let? (a, n) := m view n in k a view n.
Definition rload {A} (f : mem -> option A) : R A :=
  fun view n => match f (view n) with Some a => Ok (a, S n) | None => Fault OutOfBounds end.
Notation "'load!' x := m 'in' k" := (rthen m (fun x => k))
  (at level 10, x pattern, m at level 100, k at level 200) : word_scope.

(** What a reader does: call or return an implementation, or take the slow path. *)
Inductive answer := Miss | Hit (imp : Z).
(** What a reader is for: [cache_getImp], or a message and its lookup. *)
Inductive mode := GETIMP | CALL.

Section Cache.
Context `{CacheEnv}.

Definition LP64 : bool := match machine with I386 | ARM | ARM64_32 => false | _ => true end.
Definition arm64 : bool := match machine with ARM64 | ARM64_BIG_ADDRS | ARM64_32 => true | _ => false end.
Definition pointer_bits : Z := if LP64 then 64 else 32.
Definition mask_bits : Z := if LP64 then 32 else 16.
Definition sizeof_bucket : Z := if LP64 then 16 else 8.
Definition CACHE_MASK_STORAGE : mask_storage :=
  match machine with
  | ARM64_BIG_ADDRS => HIGH_16_BIG_ADDRS
  | ARM64 => HIGH_16
  | ARM64_32 => LOW_4
  | _ => OUTLINED
  end.
Definition CACHE_IMP_ENCODING : imp_encoding :=
  if ptrauth_calls then ENCODING_PTRAUTH
  else match machine with ARM => ENCODING_NONE | _ => ENCODING_ISA_XOR end.

Definition CACHE_END_MARKER : Z := if arm64 then 0 else 1.
Definition cache_fill_ratio (capacity : Z) : Z :=
  let capacity := wrap mask_bits capacity in
  if arm64 && LP64 then u32 (capacity * 7) / 8 else u32 (capacity * 3) / 4.
Definition CACHE_ALLOW_FULL_UTILIZATION : bool := arm64 && LP64.
Definition INIT_CACHE_SIZE_LOG2 : Z :=
  if negb (CACHE_END_MARKER =? 0) || (arm64 && negb LP64) then 2 else 1.
Definition INIT_CACHE_SIZE : Z := Z.shiftl 1 INIT_CACHE_SIZE_LOG2.
Definition MAX_CACHE_SIZE : Z := Z.shiftl 1 16.
Definition FULL_UTILIZATION_CACHE_SIZE : Z := Z.shiftl 1 3.
Definition EMPTY_BYTES : Z := if debug then (8 + 1) * 16 else (1024 + 1) * 16.
Definition garbage_threshold : Z := 32 * 1024.
Definition INIT_GARBAGE_COUNT : Z := 128.

(** The value of the symbol [_objc_empty_cache]. *)
Definition objc_empty_cache : Z :=
  match CACHE_MASK_STORAGE with LOW_4 => L__objc_empty_cache + 0xf | _ => L__objc_empty_cache end.

Definition cache_next (i mask : Z) : Z :=
  if arm64 then (if nz i then i - 1 else mask) else Z.land (wrap mask_bits (i + 1)) mask.
Definition cache_hash (sel mask : Z) : Z := wrap mask_bits (Z.land sel mask).

(** ** [bucket_t] *)
Definition modifierForSEL (base newSel cls : Z) : Z := Z.lxor (Z.lxor base newSel) cls.
Definition encodeImp (base newImp newSel cls : Z) : Z :=
  if newImp =? 0 then 0 else
    match CACHE_IMP_ENCODING with
    | ENCODING_PTRAUTH => ptrauth_resign (modifierForSEL base newSel cls) newImp
    | ENCODING_ISA_XOR => Z.lxor newImp cls
    | ENCODING_NONE => newImp
    end.
Definition decodeImp (base imp sel cls : Z) : Z :=
  match CACHE_IMP_ENCODING with
  | ENCODING_PTRAUTH => ptrauth_auth (modifierForSEL base sel cls) imp
  | ENCODING_ISA_XOR => Z.lxor imp cls
  | ENCODING_NONE => imp
  end.
(** [bucket_t::imp] *)
Definition imp (base cls : Z) (e : bucket_t) : Z :=
  if _imp e =? 0 then 0 else decodeImp base (_imp e) (_sel e) cls.

(** ** Loads and stores of writers

    The block of [_objc_empty_cache] is read-only. *)
Definition bucket_at (m : mem) (b i : Z) : option bucket_t :=
  if i <? 0 then None else heap m !! b ≫= (fun blk => blk !! Z.to_nat i).
Definition load_bucket (b i : Z) : M bucket_t :=
  let! m := get in
  match bucket_at m b i with Some e => ret e | None => fail OutOfBounds end.
Definition store_bucket (b i : Z) (f : bucket_t -> bucket_t) : M unit :=
  do! load_bucket b i in
  if b =? L__objc_empty_cache then fail OutOfBounds
  else store (set_heap (alter (alter f (Z.to_nat i)) b)).
Definition load_cache (cls : Z) : M cache_t :=
  let! m := get in
  match classes m !! cls with Some c => ret c | None => fail OutOfBounds end.
Definition store_cache (cls : Z) (f : cache_t -> cache_t) : M unit :=
  do! load_cache cls in store (set_classes (alter f cls)).
Definition bytesForCapacity (cap : Z) : Z := wrap pointer_bits (sizeof_bucket * u32 cap).
Definition calloc_buckets (bytes : Z) : M Z :=
  let! m := get in
  match calloc (dom (heap m)) bytes with
  | None => fail AllocationFailed
  | Some a =>
    do! store (set_heap <[a := replicate (Z.to_nat (bytes / sizeof_bucket)) (Bucket 0 0)]>) in ret a
  end.
Definition free (b : Z) : M unit :=
  let! m := get in
  match heap m !! b with
  | None => fail OutOfBounds
  | Some _ => store (set_heap (delete b))
  end.

(** [bucket_t::set]: one store of a pair on arm64, else the implementation first. *)
Definition set (atomic encoded : bool) (base b i newSel newImp cls : Z) : M unit :=
  let! e := load_bucket b i in
  do! check ((_sel e =? 0) || (_sel e =? newSel)) in
  let encodedImp := if encoded then encodeImp base newImp newSel cls else newImp in
  if arm64 then store_bucket b i (fun _ => Bucket newSel encodedImp)
  else
    do! store_bucket b i (fun e => Bucket (_sel e) encodedImp) in
    if atomic then
      let! e := load_bucket b i in
      if negb (_sel e =? newSel) then store_bucket b i (fun e => Bucket newSel (_imp e)) else ret tt
    else store_bucket b i (fun e => Bucket newSel (_imp e)).

(** ** [cache_t] *)
Definition maskShift : Z := 48.
Definition maxMask : Z := Z.shiftl 1 (64 - maskShift) - 1.
Definition maskMask : Z := Z.shiftl 1 4 - 1.
Definition bucketsMask : Z :=
  match CACHE_MASK_STORAGE with
  | OUTLINED => unot pointer_bits 0
  | HIGH_16_BIG_ADDRS => Z.shiftl 1 maskShift - 1
  | HIGH_16 => Z.shiftl 1 (maskShift - 4) - 1
  | LOW_4 => unot pointer_bits maskMask
  end.

Definition mask (c : cache_t) : Z :=
  match CACHE_MASK_STORAGE with
  | OUTLINED => _maybeMask c
  | HIGH_16 | HIGH_16_BIG_ADDRS => wrap mask_bits (Z.shiftr (_bucketsAndMaybeMask c) maskShift)
  | LOW_4 => wrap mask_bits (Z.shiftr 0xffff (Z.land (_bucketsAndMaybeMask c) maskMask))
  end.
Definition buckets (c : cache_t) : Z := Z.land (_bucketsAndMaybeMask c) bucketsMask.
Definition occupied (c : cache_t) : Z := _occupied c.
Definition capacity (c : cache_t) : Z := if nz (mask c) then u32 (mask c + 1) else 0.

Definition incrementOccupied (cls : Z) : M unit :=
  store_cache cls (fun c => Cache (_bucketsAndMaybeMask c) (_maybeMask c) (u16 (_occupied c + 1))).
Definition set_word (cls word : Z) : M unit :=
  store_cache cls (fun c => Cache word (_maybeMask c) (_occupied c)).
Definition clear_occupied (cls : Z) : M unit :=
  store_cache cls (fun c => Cache (_bucketsAndMaybeMask c) (_maybeMask c) 0).

Definition setBucketsAndMask (cls newBuckets newMask : Z) : M unit :=
  match CACHE_MASK_STORAGE with
  | OUTLINED =>
    do! set_word cls newBuckets in
    do! store_cache cls (fun c => Cache (_bucketsAndMaybeMask c) newMask (_occupied c)) in
    clear_occupied cls
  | HIGH_16 | HIGH_16_BIG_ADDRS =>
    do! check (newBuckets <=? bucketsMask) in
    do! check (newMask <=? maxMask) in
    do! set_word cls (Z.lor (wrap pointer_bits (Z.shiftl newMask maskShift)) newBuckets) in
    clear_occupied cls
  | LOW_4 =>
    do! check (newBuckets =? Z.land newBuckets bucketsMask) in
    do! check (newMask <=? 0xffff) in
    let! shift := (fun w => let? s := mask16ShiftBits (u16 newMask) in Ok (s, w)) in
    do! set_word cls (Z.lor newBuckets shift) in
    do! clear_occupied cls in
    let! c := load_cache cls in
    do! check (buckets c =? newBuckets) in
    check (mask c =? newMask)
  end.

(** [_originalPreoptCache] shares its memory with the mask and the count. *)
Definition initializeToEmpty (cls : Z) : M unit :=
  do! store (set_classes (partial_alter (fun o =>
        let c := default (Cache 0 0 0) o in Some (Cache objc_empty_cache (_maybeMask c) (_occupied c))) cls)) in
  store_cache cls (fun c => Cache (_bucketsAndMaybeMask c) 0 0).

(** The version for configurations without preoptimized caches. *)
Definition isConstantOptimizedCache (c : cache_t) : bool := false.

(** ** Allocation of buckets *)
Definition endMarker (cap : Z) : Z := bytesForCapacity cap / sizeof_bucket - 1.
Definition allocateBuckets (newCapacity : Z) : M Z :=
  let newCapacity := wrap mask_bits newCapacity in
  let! newBuckets := calloc_buckets (bytesForCapacity newCapacity) in
  if CACHE_END_MARKER =? 0 then ret newBuckets
  else
    let first := match machine with ARM => wrap pointer_bits (newBuckets - sizeof_bucket) | _ => newBuckets end in
    do! set false false newBuckets newBuckets (endMarker newCapacity) 1 first 0 in
    ret newBuckets.

Definition emptyBuckets : Z := Z.land objc_empty_cache bucketsMask.
(** The buckets that exist already, or nil. *)
Definition emptyBucketsFound (m : mem) (capacity : Z) : Z :=
  let capacity := wrap mask_bits capacity in
  if bytesForCapacity capacity <=? EMPTY_BYTES then emptyBuckets
  else default 0 (emptyBucketsList m !! Z.to_nat (log2u capacity)).
Definition emptyBucketsForCapacity (capacity : Z) (allocate : bool) : M Z :=
  let bytes := bytesForCapacity (wrap mask_bits capacity) in
  let index := Z.to_nat (log2u (wrap mask_bits capacity)) in
  let! m := get in
  if bytes <=? EMPTY_BYTES then ret emptyBuckets
  else if (length (emptyBucketsList m) <=? index)%nat then
    if negb allocate then ret 0
    else
      let! newBuckets := calloc_buckets bytes in
      let list := emptyBucketsList m ++ replicate (S index - length (emptyBucketsList m)) newBuckets in
      do! store (set_emptyBucketsList list) in
      match list !! index with Some b => ret b | None => fail OutOfBounds end
  else match emptyBucketsList m !! index with Some b => ret b | None => fail OutOfBounds end.
Definition isConstantEmptyCache (c : cache_t) : M bool :=
  if occupied c =? 0 then
    let! b := emptyBucketsForCapacity (capacity c) false in ret (buckets c =? b)
  else ret false.
Definition canBeFreed (c : cache_t) : M bool :=
  let! e := isConstantEmptyCache c in ret (negb e && negb (isConstantOptimizedCache c)).

(** ** Garbage *)
Definition _garbage_make_room : M unit :=
  let! m := get in
  if garbage_first m then
    store (set_garbage (garbage_refs m) false INIT_GARBAGE_COUNT (garbage_byte_size m))
  else if Z.of_nat (length (garbage_refs m)) =? garbage_max m then
    store (set_garbage (garbage_refs m) false (garbage_max m * 2) (garbage_byte_size m))
  else ret tt.

Definition _collecting_in_critical : M bool :=
  let! m := get in
  let answer := in_critical (asked m) in
  do! store (set_asked (S (asked m)) (if answer then quiet m else S (quiet m))) in
  ret answer.
(** [while (_collecting_in_critical());] *)
Fixpoint wait_for_readers (fuel : nat) : M unit :=
  match fuel with
  | O => fail OutOfFuel
  | S fuel => let! busy := _collecting_in_critical in if busy then wait_for_readers fuel else ret tt
  end.
(** The loop over [garbage_count]. *)
Fixpoint dispose (count : nat) : M unit :=
  match count with
  | O => ret tt
  | S count =>
    let! m := get in
    match garbage_refs m !! count with
    | None => fail OutOfBounds
    | Some dead =>
      do! store (set_garbage (take count (garbage_refs m)) (garbage_first m) (garbage_max m) (garbage_byte_size m)) in
      do! free dead in
      dispose count
    end
  end.
Definition collect : M unit :=
  let! m := get in
  do! dispose (length (garbage_refs m)) in
  let! m := get in
  store (set_garbage [] (garbage_first m) (garbage_max m) 0).
Definition collectNolock (fuel : nat) (collectALot : bool) : M unit :=
  let! m := get in
  if (garbage_byte_size m <? garbage_threshold) && negb collectALot then ret tt
  else if negb collectALot then
    let! busy := _collecting_in_critical in if busy then ret tt else collect
  else do! wait_for_readers fuel in collect.

Definition collect_free (data capacity : Z) : M unit :=
  do! _garbage_make_room in
  let! m := get in
  do! check (Z.of_nat (length (garbage_refs m)) <? garbage_max m) in
  do! store (set_garbage (garbage_refs m ++ [data]) (garbage_first m) (garbage_max m)
        (wrap pointer_bits (garbage_byte_size m + bytesForCapacity (wrap mask_bits capacity)))) in
  collectNolock 0 false.

(** ** Filling, erasing, freeing *)
Definition reallocate (cls oldCapacity newCapacity : Z) (freeOld : bool) : M unit :=
  let newCapacity := wrap mask_bits newCapacity in
  let! c := load_cache cls in
  let oldBuckets := buckets c in
  let! newBuckets := allocateBuckets newCapacity in
  do! check (0 <? newCapacity) in
  do! check (wrap mask_bits (newCapacity - 1) =? newCapacity - 1) in
  do! setBucketsAndMask cls newBuckets (wrap mask_bits (newCapacity - 1)) in
  if freeOld then collect_free oldBuckets oldCapacity else ret tt.

Definition bad_cache {A} : M A := fail BadCache.

Fixpoint insert_scan (fuel : nat) (cls sel imp b m begin i : Z) : M unit :=
  match fuel with
  | O => fail OutOfFuel
  | S fuel =>
    let! e := load_bucket b i in
    if _sel e =? 0 then
      do! incrementOccupied cls in set true true b b i sel imp cls
    else
      let! e := load_bucket b i in
      if _sel e =? sel then ret tt
      else
        let i := cache_next i m in
        if negb (i =? begin) then insert_scan fuel cls sel imp b m begin i else bad_cache
  end.

(** Whether the table takes one more entry as it is. *)
Definition has_room (newOccupied capacity : Z) : bool :=
  (newOccupied + CACHE_END_MARKER <=? cache_fill_ratio capacity)
  || (CACHE_ALLOW_FULL_UTILIZATION && (capacity <=? FULL_UTILIZATION_CACHE_SIZE)
      && (newOccupied + CACHE_END_MARKER <=? capacity)).
Definition grown (capacity : Z) : Z :=
  let capacity := if nz capacity then u32 (capacity * 2) else INIT_CACHE_SIZE in
  if MAX_CACHE_SIZE <? capacity then MAX_CACHE_SIZE else capacity.

Definition insert (cls sel imp : Z) : M unit :=
  if negb (isInitialized cls) then ret tt
  else
    let! c := load_cache cls in
    if isConstantOptimizedCache c then fail FatalError
    else
      do! check (nz sel && isInitialized cls) in
      let newOccupied := wrap mask_bits (occupied c + 1) in
      let oldCapacity := capacity c in
      let! empty := isConstantEmptyCache c in
      let! capacity :=
        if empty then
          let capacity := if nz oldCapacity then oldCapacity else INIT_CACHE_SIZE in
          do! reallocate cls oldCapacity capacity false in ret capacity
        else if has_room newOccupied oldCapacity then ret oldCapacity
        else
          let capacity := grown oldCapacity in
          do! reallocate cls oldCapacity capacity true in ret capacity
      in
      let! c := load_cache cls in
      let b := buckets c in
      let m := wrap mask_bits (capacity - 1) in
      let begin := cache_hash sel m in
      insert_scan (S (Z.to_nat m)) cls sel imp b m begin begin.

(** The loop for a cache that is not preoptimized: the entries copied, [len] at most. *)
Fixpoint copy_loop (count len : nat) (b cls index : Z) : M (list (Z * Z)) :=
  match count, len with
  | S count, S len' =>
    let! e := load_bucket b index in
    if nz (_sel e) then
      let! rest := copy_loop count len' b cls (index + 1) in ret ((_sel e, imp b cls e) :: rest)
    else copy_loop count len b cls (index + 1)
  | _, _ => ret []
  end.
Definition copyCacheNolock (cls : Z) (len : nat) : M (list (Z * Z)) :=
  let! c := load_cache cls in copy_loop (Z.to_nat (capacity c)) len (buckets c) cls 0.
(** The entries of the array that it returns, which [calloc] has ended with a nil. *)
Definition class_copyImpCache (cls : Z) : M (list (Z * Z)) :=
  let! c := load_cache cls in
  let count := Z.to_nat (occupied c) in
  if nz (occupied c) then copyCacheNolock cls count else ret [].

Definition eraseNolock (cls : Z) : M unit :=
  let! c := load_cache cls in
  if 0 <? occupied c then
    let capacity := capacity c in
    let oldBuckets := buckets c in
    let! buckets := emptyBucketsForCapacity capacity true in
    do! setBucketsAndMask cls buckets (wrap mask_bits (capacity - 1)) in
    collect_free oldBuckets capacity
  else ret tt.

Definition destroy (cls : Z) : M unit :=
  let! c := load_cache cls in
  let! f := canBeFreed c in
  if f then free (buckets c) else ret tt.
(** What the end of a class does to its cache: [destroy], then [free(cls)]. *)
Definition free_class (cls : Z) : M unit :=
  do! destroy cls in store (set_classes (delete cls)).

(** ** Readers: [CacheLookup] *)
Definition bucket_off (m : mem) (b off : Z) : option bucket_t :=
  if off mod sizeof_bucket =? 0 then bucket_at m b (off / sizeof_bucket) else None.
Definition load_sel (b off : Z) : R Z := rload (fun m => _sel <$> bucket_off m b off).
Definition load_imp (b off : Z) : R Z := rload (fun m => _imp <$> bucket_off m b off).
Definition load_pair (b off : Z) : R bucket_t := rload (fun m => bucket_off m b off).
Definition load_word (cls : Z) : R Z := rload (fun m => _bucketsAndMaybeMask <$> classes m !! cls).
Definition load_mask (cls : Z) : R Z := rload (fun m => _maybeMask <$> classes m !! cls).
Definition rout_of_fuel {A} : R A := fun _ _ => Fault OutOfFuel.

(** The register with the implementation, when the selector has been found. *)
Definition CacheHit (md : mode) (base imp sel cls : Z) : answer :=
  match md with
  | GETIMP => if imp =? 0 then Hit 0 else Hit (decodeImp base imp sel cls)
  | CALL => Hit (decodeImp base imp sel cls)
  end.

(** The loop of x86-64 from the comparison on; [again] in its clone. *)
Fixpoint scan_x86_64 (fuel : nat) (md : mode) (again : bool) (cls sel b off : Z) : R answer :=
  match fuel with
  | O => rout_of_fuel
  | S fuel =>
    load! s := load_sel b off in
    if s =? sel then load! i := load_imp b off in rret (CacheHit md b i sel cls)
    else
      load! s := load_sel b off in
      if s <=? 1 then
        if again || (s <? 1) then rret Miss
        else load! first := load_imp b off in scan_x86_64 fuel md true cls sel first 0
      else scan_x86_64 fuel md again cls sel b (off + 16)
  end.
Definition CacheLookup_x86_64 (fuel : nat) (md : mode) (cls sel : Z) : R answer :=
  load! m := load_mask cls in
  let off := Z.shiftl (Z.land (u32 sel) m) 4 in
  load! b := load_word cls in
  scan_x86_64 fuel md false cls sel b off.

(** The two loops of arm64, down to the first bucket and down to the bucket
    probed first. *)
Fixpoint scan_arm64 (fuel : nat) (md : mode) (cls sel b off : Z) (wrapped : R answer) : R answer :=
  match fuel with
  | O => rout_of_fuel
  | S fuel =>
    load! e := load_pair b off in
    if _sel e =? sel then rret (CacheHit md b (_imp e) sel cls)
    else if _sel e =? 0 then rret Miss
    else if 0 <=? off - sizeof_bucket then scan_arm64 fuel md cls sel b (off - sizeof_bucket) wrapped
    else wrapped
  end.
Fixpoint rescan_arm64 (fuel : nat) (md : mode) (cls sel b off first : Z) : R answer :=
  match fuel with
  | O => rout_of_fuel
  | S fuel =>
    load! e := load_pair b off in
    if _sel e =? sel then rret (CacheHit md b (_imp e) sel cls)
    else if negb (_sel e =? 0) && (first <? off - sizeof_bucket) then
      rescan_arm64 fuel md cls sel b (off - sizeof_bucket) first
    else rret Miss
  end.
Definition PTRSHIFT : Z := if LP64 then 3 else 2.
(** The registers for the buckets, for the hash and for the last bucket, the latter
    in bytes, from the word of the cache. *)
Definition arm64_word (w sel : Z) : Z * Z * Z :=
  match CACHE_MASK_STORAGE with
  | HIGH_16_BIG_ADDRS =>
    let p11 := Z.shiftr w 48 in
    (Z.land w 0xffffffffffff, Z.land (u32 sel) (u32 p11), Z.shiftl (u32 p11) (1 + PTRSHIFT))
  | HIGH_16 =>
    (Z.land w 0xffffffffffff, Z.land sel (Z.shiftr w 48), Z.shiftr w (48 - (1 + PTRSHIFT)))
  | _ =>
    let p11 := Z.shiftr 0xffff (Z.land w 0xf) in
    (Z.land w (unot 32 0xf), Z.land sel p11, Z.shiftl p11 (1 + PTRSHIFT))
  end.
Definition CacheLookup_arm64 (fuel : nat) (md : mode) (cls sel : Z) : R answer :=
  load! w := load_word cls in
  let '(b, hash, last) := arm64_word w sel in
  let first := Z.shiftl hash (1 + PTRSHIFT) in
  scan_arm64 fuel md cls sel b first (rescan_arm64 fuel md cls sel b last first).

(** The reader of this machine; the 32-bit ones are not modelled. *)
Definition CacheLookup (fuel : nat) (md : mode) (cls sel : Z) : R answer :=
  if arm64 then CacheLookup_arm64 fuel md cls sel else CacheLookup_x86_64 fuel md cls sel.
End Cache.
