(* ===== verification/MethodCacheTheory.v ===== *)
(** * The theory of method caches: words, probing, tables

    What the environment promises; how mask and buckets share a word; the order
    in which buckets are probed; the well-formedness of one table and of all the
    memory ([wf]); what a cache holds, as a finite map ([contents]). *)

From stdpp Require Import prelude numbers list gmap fin_maps.
From Stdlib Require Import ZArith Lia Bool.
From S2P Require Import Prelude ObjcOS MethodCache.

(** ** Programs of writers *)
Section Wp.
Context (allowed : fault -> Prop).

(** The weakest precondition of a program that may end in an allowed fault. *)
Definition wp {A} (p : M A) (Q : A -> world -> Prop) (w : world) : Prop :=
  match p w with Ok (a, w') => Q a w' | Fault f => allowed f end.

Lemma wp_ret {A} (a : A) Q w : Q a w -> wp (ret a) Q w.
Proof. done. Qed.
Lemma wp_bind {A B} (p : M A) (k : A -> M B) Q w : wp p (fun a => wp (k a) Q) w -> wp (bind p k) Q w.
Proof. unfold wp, bind. by destruct (p w) as [[a w']|f]. Qed.
Lemma wp_mono {A} (p : M A) (Q Q' : A -> world -> Prop) w :
  wp p Q w -> (forall a w', Q a w' -> Q' a w') -> wp p Q' w.
Proof. unfold wp. destruct (p w) as [[a w']|f]; naive_solver. Qed.
Lemma wp_get Q w : Q (now w) w -> wp get Q w.
Proof. done. Qed.
Lemma wp_fail {A} f (Q : A -> world -> Prop) w : allowed f -> wp (fail f) Q w.
Proof. done. Qed.
Lemma wp_check b (Q : unit -> world -> Prop) w : b = true -> Q tt w -> wp (check b) Q w.
Proof. unfold wp, check. intros -> HQ. done. Qed.
Lemma wp_store f (Q : unit -> world -> Prop) w : Q tt (World (f (now w)) (now w :: past w)) -> wp (store f) Q w.
Proof. done. Qed.
End Wp.
Create HintDb wp.
#[export] Hint Resolve wp_ret wp_get wp_check wp_store : wp.

(** ** The environment *)
Section Theory.
Context `{Env : CacheEnv}.

(** An address that a cache can store. *)
Definition storable (a : Z) : Prop := a <> 0 /\ in_word pointer_bits a /\ Z.land a bucketsMask = a.

Class CacheEnvOk := {
  empty_storable : storable L__objc_empty_cache;
  calloc_fresh s n a : calloc s n = Some a -> a ∉ s /\ storable a;
  auth_resign d i : ptrauth_auth d (ptrauth_resign d i) = i;
  resign_nonnull d i : i <> 0 -> ptrauth_resign d i <> 0;
}.
Context {EnvOk : CacheEnvOk}.

(** The largest binary logarithm of a capacity that [mask_t] can count. *)
Definition max_log : Z := if LP64 then 16 else 15.
Definition min_log : Z := match CACHE_MASK_STORAGE with LOW_4 => 1 | _ => 0 end.
Definition is_mask (j m : Z) : Prop := min_log <= j <= max_log /\ m = 2 ^ j - 1.

Ltac machines :=
  unfold bucketsMask, max_log, min_log, is_mask, mask_bits, pointer_bits, sizeof_bucket in *;
  unfold CACHE_MASK_STORAGE, LP64, arm64 in *; destruct machine in *.

Lemma log_range j : min_log <= j <= max_log -> 0 <= j <= 16.
Proof. machines; lia. Qed.
Lemma pow_log j : min_log <= j <= max_log -> 1 <= 2 ^ j <= 65536 /\ 2 ^ j <= 2 ^ max_log /\ 2 ^ j < 2 ^ mask_bits /\ 2 ^ j < 2 ^ 32.
Proof.
  intros Hj. pose proof (log_range j Hj). pose proof (Z.pow_le_mono_r 2 j max_log ltac:(lia) ltac:(lia)).
  assert (0 < 2 ^ j) by (apply pow2_pos; lia). machines; cbn in *; lia.
Qed.
Lemma pow_log_room j : min_log <= j <= max_log -> 2 ^ j + 1 < 2 ^ mask_bits.
Proof.
  intros Hj. destruct (pow_log j Hj) as (_ & H & _). clear Hj. machines; cbn in *; lia.
Qed.
Lemma mask_bits_pos : 0 <= mask_bits.
Proof. machines; lia. Qed.
Lemma wrap_mask_bits x : 0 <= x < 2 ^ mask_bits -> wrap mask_bits x = x.
Proof. apply wrap_small. Qed.
Lemma sizeof_bucket_pos : 0 < sizeof_bucket.
Proof. machines; lia. Qed.

(** *** Mask and buckets in a cache *)
Lemma buckets_lor a x k : 0 <= k -> in_word k x -> Z.land a (2 ^ k - 1) = 0 ->
  Z.land (Z.lor a x) (2 ^ k - 1) = x.
Proof.
  intros Hk Hx Ha. rewrite Z.land_lor_distr_l, Ha, Z.lor_0_l, land_mask by done. by apply Z.mod_small.
Qed.
Lemma storable_below a k : 0 <= k -> bucketsMask = 2 ^ k - 1 -> storable a -> in_word k a.
Proof.
  intros Hk E (_ & _ & Ha). rewrite E, land_mask in Ha by done. rewrite <- Ha. apply Z.mod_pos_bound.
  by apply pow2_pos.
Qed.
Lemma shiftl_low m k n : 0 <= k <= n -> Z.land (Z.shiftl m n) (2 ^ k - 1) = 0.
Proof.
  intros Hk. rewrite land_mask, Z.shiftl_mul_pow2 by lia.
  replace n with ((n - k) + k) by lia. rewrite Z.pow_add_r by lia.
  rewrite Z.mul_assoc. apply Z.mod_mul. pose proof (pow2_pos k). lia.
Qed.
Lemma shiftr_lor_high m x n k : 0 <= k <= n -> in_word k x -> 0 <= m -> Z.shiftr (Z.lor (Z.shiftl m n) x) n = m.
Proof.
  intros Hk Hx Hm. rewrite Z.shiftr_lor, Z.shiftr_shiftl_l, Z.sub_diag, Z.shiftl_0_r by lia.
  rewrite (Z.shiftr_div_pow2 x), Z.div_small; [apply Z.lor_0_r| |lia].
  unfold in_word in Hx. pose proof (Z.pow_le_mono_r 2 k n ltac:(lia) ltac:(lia)). lia.
Qed.

(** The word that [setBucketsAndMask] stores. *)
Definition packed (b m : Z) : Z :=
  match CACHE_MASK_STORAGE with
  | OUTLINED => b
  | HIGH_16 | HIGH_16_BIG_ADDRS => Z.lor (wrap pointer_bits (Z.shiftl m maskShift)) b
  | LOW_4 => Z.lor b (16 - Z.log2 (m + 1))
  end.
(** The mask that goes with a word, where it is in the word. *)
Definition word_mask (w old : Z) : Z := mask (Cache w old 0).

Lemma buckets_packed b m old occ j : storable b -> is_mask j m ->
  buckets (Cache (packed b m) old occ) = b.
Proof.
  intros Hb [Hj Hm]. pose proof (pow_log j Hj) as Hp.
  assert (Hmm : 0 <= m < 65536) by lia.
  unfold buckets, packed, _bucketsAndMaybeMask, wrap. destruct CACHE_MASK_STORAGE eqn:Es.
  - by destruct Hb as (_ & _ & ->).
  - assert (E : bucketsMask = 2 ^ 44 - 1) by (unfold bucketsMask; by rewrite Es).
    assert (Hw : pointer_bits = 64) by (machines; done). rewrite Hw.
    rewrite Z.mod_small by (unfold maskShift; rewrite Z.shiftl_mul_pow2 by lia; lia).
    rewrite E. apply buckets_lor; [lia|by apply storable_below|]. apply shiftl_low. unfold maskShift; lia.
  - assert (E : bucketsMask = 2 ^ 48 - 1) by (unfold bucketsMask; by rewrite Es).
    assert (Hw : pointer_bits = 64) by (machines; done). rewrite Hw.
    rewrite Z.mod_small by (unfold maskShift; rewrite Z.shiftl_mul_pow2 by lia; lia).
    rewrite E. apply buckets_lor; [lia|by apply storable_below|]. apply shiftl_low. unfold maskShift; lia.
  - assert (Hj1 : 1 <= j <= 15) by (machines; try done; lia).
    rewrite Hm. replace (2 ^ j - 1 + 1) with (2 ^ j) by lia. rewrite Z.log2_pow2 by lia.
    destruct Hb as (_ & Hb & Hb'). rewrite Z.land_lor_distr_l, Hb'.
    assert (E : bucketsMask = unot 32 (2 ^ 4 - 1)) by (machines; done). rewrite E, land_unot_mask.
    + rewrite Z.mod_small by lia. by rewrite Z.sub_diag, Z.lor_0_r.
    + lia.
    + unfold in_word. lia.
Qed.
Lemma mask_packed b m old occ j : storable b -> is_mask j m ->
  mask (Cache (packed b m) (match CACHE_MASK_STORAGE with OUTLINED => m | _ => old end) occ) = m.
Proof.
  intros Hb [Hj Hm]. pose proof (pow_log j Hj) as Hp.
  assert (Hmm : 0 <= m < 65536) by lia.
  unfold mask, packed, _bucketsAndMaybeMask, _maybeMask. destruct CACHE_MASK_STORAGE eqn:Es; [done| | |].
  - assert (Hw : pointer_bits = 64) by (machines; done). rewrite Hw.
    assert (E : bucketsMask = 2 ^ 44 - 1) by (unfold bucketsMask; by rewrite Es).
    rewrite (wrap_small 64) by (unfold maskShift; rewrite Z.shiftl_mul_pow2 by lia; lia).
    rewrite (shiftr_lor_high _ _ _ 44); [apply wrap_mask_bits; lia|unfold maskShift; lia|by apply storable_below|lia].
  - assert (Hw : pointer_bits = 64) by (machines; done). rewrite Hw.
    assert (E : bucketsMask = 2 ^ 48 - 1) by (unfold bucketsMask; by rewrite Es).
    rewrite (wrap_small 64) by (unfold maskShift; rewrite Z.shiftl_mul_pow2 by lia; lia).
    rewrite (shiftr_lor_high _ _ _ 48); [apply wrap_mask_bits; lia|unfold maskShift; lia|by apply storable_below|lia].
  - assert (Hj1 : 1 <= j <= 15) by (machines; try done; lia).
    rewrite Hm. replace (2 ^ j - 1 + 1) with (2 ^ j) by lia. rewrite Z.log2_pow2 by lia.
    destruct Hb as (_ & Hb & Hb'). change maskMask with (2 ^ 4 - 1).
    assert (E : bucketsMask = unot 32 (2 ^ 4 - 1)) by (machines; done).
    assert (Hb4 : Z.land b (2 ^ 4 - 1) = 0).
    { assert (Hw : pointer_bits = 32) by (machines; done).
      rewrite E, land_unot_mask in Hb' by (try lia; by rewrite Hw in Hb). rewrite land_mask by lia. lia. }
    rewrite buckets_lor; [|lia|unfold in_word; lia|done].
    assert (Hs : Z.shiftr 0xffff (16 - j) = 2 ^ j - 1).
    { rewrite Z.shiftr_div_pow2 by lia. symmetry. apply Z.div_unique with (2 ^ (16 - j) - 1); [left; split;[|lia]|].
      - pose proof (pow2_pos (16 - j)). lia.
      - assert (2 ^ j * 2 ^ (16 - j) = 65536) by (rewrite <- Z.pow_add_r by lia; by replace (j + (16 - j)) with 16 by lia).
        lia. }
    rewrite Hs. apply wrap_mask_bits. lia.
Qed.

(** The words of an empty cache, and what the checks of [setBucketsAndMask] see. *)
Lemma empty_packed : objc_empty_cache = packed L__objc_empty_cache (2 ^ min_log - 1).
Proof.
  destruct empty_storable as (_ & Hw & Hb). unfold objc_empty_cache, packed.
  assert (Hm : min_log = match CACHE_MASK_STORAGE with LOW_4 => 1 | _ => 0 end) by done. rewrite Hm.
  destruct CACHE_MASK_STORAGE eqn:Es; try done.
  assert (E : bucketsMask = unot 32 (2 ^ 4 - 1)) by (machines; done).
  assert (Hp : pointer_bits = 32) by (machines; done). rewrite Hp in Hw.
  rewrite E, land_unot_mask in Hb by (try lia; done). apply Z.add_nocarry_lor.
  change (16 - Z.log2 (2 ^ 1 - 1 + 1)) with (2 ^ 4 - 1). rewrite land_mask by lia. lia.
Qed.
Lemma storable_le a : storable a -> a <= bucketsMask.
Proof.
  intros (Hn & Hw & Ha). rewrite <- Ha.
  assert (0 <= bucketsMask) by (machines; vm_compute; discriminate).
  rewrite <- (Z.lor_ldiff_and bucketsMask a) at 2. rewrite <- Z.add_nocarry_lor.
  - assert (0 <= Z.ldiff bucketsMask a) by (apply Z.ldiff_nonneg; lia). rewrite Z.land_comm. lia.
  - apply Z.bits_inj'. intros i _. rewrite !Z.land_spec, Z.ldiff_spec, Z.bits_0.
    by destruct (Z.testbit bucketsMask i), (Z.testbit a i).
Qed.
Lemma mask16ShiftBits_mask j : 1 <= j <= 16 -> mask16ShiftBits (2 ^ j - 1) = Ok (16 - j).
Proof.
  intros Hj. assert (H : j ∈ map Z.of_nat (seq 1 16)).
  { apply list_elem_of_In, in_map_iff. exists (Z.to_nat j). split; [lia|]. apply in_seq. lia. }
  cbn in H. repeat (apply elem_of_cons in H as [->|H]; [reflexivity|]). by apply elem_of_nil in H.
Qed.

(** *** Probing a table of [2^j] buckets *)
Definition probe (j h t : Z) : Z := if arm64 then (h - t) mod 2 ^ j else (h + t) mod 2 ^ j.

Lemma cache_probe_range j h t : 0 <= j -> 0 <= probe j h t < 2 ^ j.
Proof. intros. unfold probe. destruct arm64; apply Z.mod_pos_bound; by apply pow2_pos. Qed.
Lemma probe_0 j h : 0 <= h < 2 ^ j -> probe j h 0 = h.
Proof. intros. unfold probe. rewrite Z.sub_0_r, Z.add_0_r. destruct arm64; by apply Z.mod_small. Qed.
Lemma cache_probe_inj j h t u : 0 <= j -> 0 <= t < 2 ^ j -> 0 <= u < 2 ^ j -> probe j h t = probe j h u -> t = u.
Proof.
  intros Hj Ht Hu E. pose proof (pow2_pos j Hj). 
  assert (D : (t - u) mod 2 ^ j = 0).
  { unfold probe in E. destruct arm64.
    - replace (t - u) with ((h - u) - (h - t)) by lia. by rewrite Zminus_mod, E, Z.sub_diag.
    - replace (t - u) with ((h + t) - (h + u)) by lia. by rewrite Zminus_mod, E, Z.sub_diag. }
  apply Z.mod_divide in D as [q Hq]; [|lia]. assert (q = 0) by nia. lia.
Qed.
Lemma probe_surj j h i : 0 <= j -> 0 <= i < 2 ^ j -> exists t, 0 <= t < 2 ^ j /\ probe j h t = i.
Proof.
  intros Hj Hi. pose proof (pow2_pos j Hj). unfold probe. destruct arm64.
  - exists ((h - i) mod 2 ^ j). split; [by apply Z.mod_pos_bound|].
    rewrite Zminus_mod_idemp_r. replace (h - (h - i)) with i by lia. by apply Z.mod_small.
  - exists ((i - h) mod 2 ^ j). split; [by apply Z.mod_pos_bound|].
    rewrite Zplus_mod_idemp_r. replace (h + (i - h)) with i by lia. by apply Z.mod_small.
Qed.
Lemma cache_probe_next j h t : min_log <= j <= max_log -> cache_next (probe j h t) (2 ^ j - 1) = probe j h (t + 1).
Proof.
  intros Hj. pose proof (pow_log j Hj) as Hp. pose proof (log_range j Hj) as Hj0.
  pose proof (cache_probe_range j h t ltac:(lia)) as Hr. unfold cache_next. unfold probe in *. destruct arm64.
  - replace (h - (t + 1)) with ((h - t) - 1) by lia. rewrite <- (Zminus_mod_idemp_l (h - t)).
    destruct (nz ((h - t) mod 2 ^ j)) eqn:En.
    + apply nz_true in En. symmetry. apply Z.mod_small. lia.
    + apply nz_false in En. rewrite En. apply Z.mod_unique with (-1); lia.
  - replace (h + (t + 1)) with ((h + t) + 1) by lia. rewrite <- (Zplus_mod_idemp_l (h + t)).
    rewrite wrap_mask_bits by lia. by rewrite land_mask by lia.
Qed.
Lemma hash_mask sel j : min_log <= j <= max_log -> cache_hash sel (2 ^ j - 1) = sel mod 2 ^ j.
Proof.
  intros Hj. pose proof (pow_log j Hj). pose proof (log_range j Hj). unfold cache_hash. rewrite land_mask by lia.
  apply wrap_mask_bits. pose proof (Z.mod_pos_bound sel (2 ^ j)). lia.
Qed.

(** *** Tables *)
(** What the end marker of a block holds. *)
Definition marker (b : Z) : bucket_t :=
  Bucket 1 (match machine with ARM => wrap pointer_bits (b - sizeof_bucket) | _ => b end).
Definition live (e : bucket_t) : Prop := 1 < _sel e.
#[export] Instance live_dec e : Decision (live e).
Proof. unfold live. apply _. Defined.

(** The implementations that have been found for a class and a selector. *)
Context (valid : Z -> Z -> Z -> Prop).

(** A bucket that holds a selector holds an implementation of it. *)
Definition coded (cls b : Z) (e : bucket_t) : Prop :=
  live e -> exists i, valid cls (_sel e) i /\ _imp e = encodeImp b i (_sel e) cls.

Record table (cls b j : Z) (occ : nat) (blk : list bucket_t) : Prop := {
  table_length : Z.of_nat (length blk) = 2 ^ j;
  table_sel i e : blk !! i = Some e ->
    _sel e = 0 \/ live e \/ (CACHE_END_MARKER = 1 /\ Z.of_nat i = 2 ^ j - 1 /\ e = marker b);
  table_end : CACHE_END_MARKER = 1 -> blk !! Z.to_nat (2 ^ j - 1) = Some (marker b);
  table_count : length (filter live blk) = occ;
  table_unique i i' e e' : blk !! i = Some e -> blk !! i' = Some e' -> live e -> _sel e = _sel e' -> i = i';
  table_coded i e : blk !! i = Some e -> coded cls b e;
  table_reach i e : blk !! i = Some e -> live e -> exists t, 0 <= t < 2 ^ j /\
    Z.of_nat i = probe j (_sel e mod 2 ^ j) t /\
    forall u, 0 <= u < t -> exists e', blk !! Z.to_nat (probe j (_sel e mod 2 ^ j) u) = Some e' /\ _sel e' <> 0;
}.

Lemma end_marker_cases : CACHE_END_MARKER = 0 /\ arm64 = true \/ CACHE_END_MARKER = 1 /\ arm64 = false.
Proof. unfold CACHE_END_MARKER. destruct arm64; auto. Qed.

(** What a reader of [cls] may find at [b]: empty buckets, or a table whose last
    bucket ends it. *)
Record readable (cls b : Z) (blk : list bucket_t) : Prop := {
  readable_coded i e : blk !! i = Some e -> coded cls b e;
  readable_end : CACHE_END_MARKER = 1 ->
    (forall i e, blk !! i = Some e -> _sel e = 0) \/ blk !! (length blk - 1)%nat = Some (marker b);
  readable_marker i e : CACHE_END_MARKER = 1 -> blk !! i = Some e -> _sel e = 1 -> e = marker b;
  readable_sel i e : blk !! i = Some e -> _sel e = 0 \/ 1 <= _sel e;
  readable_length : Z.of_nat (length blk) <= 65536;
}.

Definition zeros (n : nat) : list bucket_t := replicate n (Bucket 0 0).
Lemma zeros_lookup n i e : zeros n !! i = Some e -> e = Bucket 0 0.
Proof. by intros [-> _]%lookup_replicate. Qed.
Lemma length_zeros n : length (zeros n) = n.
Proof. apply length_replicate. Qed.
Lemma readable_zeros cls b n : Z.of_nat n <= 65536 -> readable cls b (zeros n).
Proof.
  intros Hn. split.
  - intros i e Hi. rewrite (zeros_lookup n i e Hi). unfold coded, live. cbn. lia.
  - intros _. left. intros i e Hi. by rewrite (zeros_lookup n i e Hi).
  - intros i e _ Hi. by rewrite (zeros_lookup n i e Hi).
  - intros i e Hi. rewrite (zeros_lookup n i e Hi). by left.
  - by rewrite length_zeros.
Qed.
Lemma readable_table cls b j occ blk : min_log <= j <= max_log -> table cls b j occ blk -> readable cls b blk.
Proof.
  intros Hj T. split.
  - apply (table_coded _ _ _ _ _ T).
  - intros He. right. pose proof (table_end _ _ _ _ _ T He) as Hl.
    pose proof (table_length _ _ _ _ _ T). replace (length blk - 1)%nat with (Z.to_nat (2 ^ j - 1)) by lia. done.
  - intros i e _ Hi Hs. destruct (table_sel _ _ _ _ _ T i e Hi) as [E|[E|(_ & _ & E)]]; [lia|unfold live in E; lia|done].
  - intros i e Hi. destruct (table_sel _ _ _ _ _ T i e Hi) as [E|[E|(_ & _ & ->)]]; [by left|right; unfold live in E; lia|by right].
  - rewrite (table_length _ _ _ _ _ T). by apply pow_log.
Qed.

(** *** Well-formed memory *)
(** The blocks of empty buckets, which belong to no class. *)
Definition shared (m : mem) (b : Z) : Prop := b = L__objc_empty_cache \/ b ∈ emptyBucketsList m.

Inductive cache_ok (m : mem) (cls : Z) (c : cache_t) : Prop :=
  | cache_empty j : is_mask j (mask c) -> occupied c = 0 -> buckets c = emptyBucketsFound m (capacity c) ->
      buckets c <> 0 -> cache_ok m cls c
  | cache_table j occ blk : is_mask j (mask c) -> 1 <= j -> occupied c = Z.of_nat occ ->
      heap m !! buckets c = Some blk -> ~ shared m (buckets c) -> buckets c <> 0 ->
      table cls (buckets c) j occ blk -> cache_ok m cls c.

(** How a cache's word, buckets and mask go together. *)
Definition word_ok (c : cache_t) : Prop := storable (buckets c) /\
  exists j, is_mask j (mask c) /\ _bucketsAndMaybeMask c = packed (buckets c) (2 ^ j - 1).

Definition empty_count : nat := Z.to_nat (EMPTY_BYTES / sizeof_bucket).
(** Garbage: blocks that no class refers to. *)
Record garbage_ok (m : mem) (refs : list Z) : Prop := {
  garbage_unique : NoDup refs;
  garbage_block g : g ∈ refs -> is_Some (heap m !! g);
  garbage_private g : g ∈ refs -> ~ shared m g;
  garbage_unused g cls c : g ∈ refs -> classes m !! cls = Some c -> buckets c <> g;
}.
Record blocks_ok (m : mem) : Prop := {
  blocks_empty : heap m !! L__objc_empty_cache = Some (zeros empty_count);
  blocks_list i b : emptyBucketsList m !! i = Some b ->
    storable b /\ exists n, heap m !! b = Some (zeros n) /\ 2 ^ Z.of_nat i <= Z.of_nat n <= 65536;
}.
Record core (m : mem) : Prop := {
  core_blocks : blocks_ok m;
  core_class cls c : classes m !! cls = Some c -> cache_ok m cls c;
  core_disjoint cls cls' c c' : classes m !! cls = Some c -> classes m !! cls' = Some c' ->
    buckets c = buckets c' -> cls = cls' \/ shared m (buckets c);
  core_word cls c : classes m !! cls = Some c -> word_ok c;
}.
Definition room (m : mem) : Prop :=
  if garbage_first m then garbage_refs m = []
  else Z.of_nat (length (garbage_refs m)) <= garbage_max m /\ 128 <= garbage_max m.
Record wf (m : mem) : Prop := {
  wf_core : core m;
  wf_garbage : garbage_ok m (garbage_refs m);
  wf_room : room m;
}.

Lemma shared_zeros m b : blocks_ok m -> shared m b -> exists n, heap m !! b = Some (zeros n).
Proof.
  intros B [->|Hb]; [by exists empty_count; apply blocks_empty|].
  apply list_elem_of_lookup_1 in Hb as [i Hi]. destruct (blocks_list m B i b Hi) as (_ & n & Hn & _). by exists n.
Qed.
Lemma capacity_mask j c : is_mask j (mask c) -> capacity c = if decide (j = 0) then 0 else 2 ^ j.
Proof.
  intros [Hj Hm]. pose proof (pow_log j Hj). pose proof (log_range j Hj). unfold capacity. rewrite Hm.
  destruct (decide (j = 0)) as [->|]; [done|].
  assert (2 <= 2 ^ j) by (apply (Z.pow_le_mono_r 2 1 j); lia).
  assert (En : nz (2 ^ j - 1) = true) by (apply nz_true; lia). rewrite En. rewrite wrap_small; lia.
Qed.
Lemma bytes_for j : min_log <= j <= max_log -> bytesForCapacity (2 ^ j) = sizeof_bucket * 2 ^ j.
Proof.
  intros Hj. pose proof (pow_log j Hj). unfold bytesForCapacity. rewrite (wrap_small 32) by lia.
  apply wrap_small. machines; lia.
Qed.
Lemma min_log_max : min_log <= min_log <= max_log.
Proof. machines; lia. Qed.
Lemma emptyBuckets_block : emptyBuckets = L__objc_empty_cache.
Proof.
  unfold emptyBuckets. rewrite empty_packed. apply (buckets_packed _ _ 0 0 min_log); [apply empty_storable|].
  split; [apply min_log_max|done].
Qed.
Lemma found_cases m j : blocks_ok m -> min_log <= j <= max_log ->
  let b := emptyBucketsFound m (if decide (j = 0) then 0 else 2 ^ j) in
  b <> 0 -> shared m b /\ storable b /\ exists n, heap m !! b = Some (zeros n) /\ 2 ^ j <= Z.of_nat n <= 65536.
Proof.
  intros B Hj b. unfold b, emptyBucketsFound. clear b. pose proof (pow_log j Hj) as Hp. pose proof (log_range j Hj).
  pose proof sizeof_bucket_pos as Hs.
  pose proof emptyBuckets_block as He.
  assert (Hc : 9 <= Z.of_nat empty_count <= 65536).
  { unfold empty_count, EMPTY_BYTES. clear. machines; destruct debug; vm_compute; split; discriminate. }
  destruct (decide (j = 0)) as [->|].
  - rewrite wrap_mask_bits by (machines; lia).
    assert (E0 : bytesForCapacity 0 = 0) by (unfold bytesForCapacity; rewrite Z.mul_0_r; machines; done).
    rewrite E0. destruct (Z.leb_spec 0 EMPTY_BYTES) as [_|Hx]; [|unfold EMPTY_BYTES in Hx; destruct debug; lia].
    rewrite He. intros _. split; [by left|]. split; [apply empty_storable|]. exists empty_count.
    split; [by apply blocks_empty|lia].
  - rewrite wrap_mask_bits by lia. rewrite bytes_for by done.
    destruct (Z.leb_spec (sizeof_bucket * 2 ^ j) EMPTY_BYTES) as [Hle|_].
    + rewrite He. intros _. split; [by left|]. split; [apply empty_storable|]. exists empty_count.
      split; [by apply blocks_empty|]. unfold empty_count in Hc |- *.
      assert (2 ^ j <= EMPTY_BYTES / sizeof_bucket) by (apply Z.div_le_lower_bound; lia). lia.
    + rewrite log2u_correct by lia. rewrite Z.log2_pow2 by lia.
      destruct (emptyBucketsList m !! Z.to_nat j) as [b|] eqn:Eb; [|done]. cbn. intros _.
      destruct (blocks_list m B _ b Eb) as (Hst & n1 & Hn1 & Hl). rewrite Z2Nat.id in Hl by lia.
      split; [right; by eapply list_elem_of_lookup_2|]. split; [done|]. by exists n1.
Qed.
Lemma cache_block m cls c : blocks_ok m -> cache_ok m cls c ->
  exists blk, heap m !! buckets c = Some blk /\ mask c + 1 <= Z.of_nat (length blk) /\ readable cls (buckets c) blk.
Proof.
  intros B [j Hm Ho Hb Hn|j occ blk Hm Hj Ho Hb Hs Hn T].
  - rewrite (capacity_mask j c Hm) in Hb. destruct Hm as [Hj Hm]. rewrite Hb in Hn |- *.
    destruct (found_cases m j B Hj Hn) as (_ & _ & n & Hh & Hl). exists (zeros n). split; [done|].
    rewrite length_zeros. split; [lia|]. apply readable_zeros; lia.
  - exists blk. split; [done|]. pose proof Hm as [_ Hm']. pose proof (table_length _ _ _ _ _ T). split; [lia|].
    eapply readable_table; [apply Hm|done].
Qed.

(** *** Memories that differ where no class looks *)
Lemma found_shared m c : blocks_ok m -> (exists j, is_mask j (mask c)) -> buckets c = emptyBucketsFound m (capacity c) ->
  buckets c <> 0 -> shared m (buckets c).
Proof.
  intros B [j Hj] Hb Hn. rewrite (capacity_mask j c Hj) in Hb. rewrite Hb in *. apply (found_cases m j B); [apply Hj|done].
Qed.
Lemma blocks_same m m' : blocks_ok m -> emptyBucketsList m' = emptyBucketsList m ->
  (forall b, shared m b -> heap m' !! b = heap m !! b) -> blocks_ok m'.
Proof.
  intros [B1 B2] El Eh. split.
  - rewrite Eh; [done|by left].
  - intros i b Hi. rewrite El in Hi. destruct (B2 i b Hi) as (Hs & n & Hn & Hl). split; [done|]. exists n.
    split; [|done]. rewrite Eh; [done|]. right. by eapply list_elem_of_lookup_2.
Qed.
Lemma cache_same m m' cls c : cache_ok m cls c -> emptyBucketsList m' = emptyBucketsList m ->
  heap m' !! buckets c = heap m !! buckets c -> cache_ok m' cls c.
Proof.
  intros [j Hm Ho Hb Hn|j occ blk Hm Hj Ho Hb Hs Hn T] El Eh.
  - eapply cache_empty; try done. unfold emptyBucketsFound. by rewrite El.
  - eapply cache_table; try done; [by rewrite Eh|]. unfold shared. by rewrite El.
Qed.
Lemma core_same m m' : core m -> classes m' = classes m -> emptyBucketsList m' = emptyBucketsList m ->
  (forall b, shared m b -> heap m' !! b = heap m !! b) ->
  (forall cls c, classes m !! cls = Some c -> heap m' !! buckets c = heap m !! buckets c) -> core m'.
Proof.
  intros [B C D W] Ec El Hs Hc. split; [by eapply blocks_same| | |by rewrite Ec].
  - intros cls c. rewrite Ec. intros E. eapply cache_same; [by apply C|done|by eapply Hc].
  - unfold shared. rewrite Ec, El. apply D.
Qed.
(** A change of one class. *)
Lemma core_update m m' cls c' : core m -> classes m' = <[cls := c']> (classes m) ->
  emptyBucketsList m' = emptyBucketsList m -> (forall b, shared m b -> heap m' !! b = heap m !! b) ->
  (forall cls2 c2, cls2 <> cls -> classes m !! cls2 = Some c2 -> heap m' !! buckets c2 = heap m !! buckets c2) ->
  cache_ok m' cls c' -> word_ok c' ->
  (forall cls2 c2, cls2 <> cls -> classes m !! cls2 = Some c2 -> buckets c2 = buckets c' -> shared m (buckets c')) ->
  core m'.
Proof.
  intros [B C D W] Ec El Hs Hc Hk Hw Hd. split; [by eapply blocks_same| | |].
  - intros cls2 c2. rewrite Ec. destruct (decide (cls = cls2)) as [<-|Hn].
    + rewrite lookup_insert_eq. by intros [= <-].
    + rewrite lookup_insert_ne by done. intros E. eapply cache_same; [by apply C|done|by eapply Hc].
  - unfold shared. rewrite El. intros c1 c2 x1 x2. rewrite Ec.
    destruct (decide (cls = c1)) as [<-|H1], (decide (cls = c2)) as [<-|H2];
      rewrite ?lookup_insert_eq, ?lookup_insert_ne by done; [by left| | |apply D].
    + intros [= <-] E2 Eb. right. by apply (Hd c2 x2).
    + intros E1 [= <-] Eb. right. rewrite Eb. by apply (Hd c1 x1).
  - intros c1 x1. rewrite Ec. intros [[<- <-]|[_ E]]%lookup_insert_Some; [done|by eapply W].
Qed.

(** *** What a cache holds *)
Definition entries (cls b : Z) (blk : list bucket_t) : list (Z * Z) :=
  (fun e => (_sel e, imp b cls e)) <$> filter live blk.
Definition contents (m : mem) (cls : Z) : gmap Z Z :=
  match classes m !! cls with
  | Some c => match heap m !! buckets c with
              | Some blk => list_to_map (entries cls (buckets c) blk) | None => ∅ end
  | None => ∅
  end.

Lemma filter_insert_new {A} (P : A -> Prop) `{forall x, Decision (P x)} (l : list A) i x y :
  l !! i = Some x -> ~ P x -> P y -> length (filter P (<[i := y]> l)) = S (length (filter P l)).
Proof.
  revert i. induction l as [|z l IH]; intros [|i] E Hx Hy; cbn -[filter] in *; try done.
  - injection E as ->. by rewrite filter_cons_True, filter_cons_False.
  - destruct (decide (P z)).
    + rewrite !filter_cons_True by done. cbn -[filter]. by rewrite IH.
    + rewrite !filter_cons_False by done. by apply IH.
Qed.
Lemma NoDup_fmap_filter {A B} (f : A -> B) (P : A -> Prop) `{forall x, Decision (P x)} (l : list A) :
  (forall i i' e e', l !! i = Some e -> l !! i' = Some e' -> P e -> P e' -> f e = f e' -> i = i') -> NoDup (f <$> filter P l).
Proof.
  induction l as [|x l IH]; intros Hu; [constructor|].
  assert (Hl : NoDup (f <$> filter P l)).
  { apply IH. intros i i' e e' H1 H2 H3 H4 H5. assert (S i = S i'); [|lia]. by apply (Hu (S i) (S i') e e'). }
  destruct (decide (P x)); [|by rewrite filter_cons_False].
  rewrite filter_cons_True by done. cbn -[filter]. constructor; [|done].
  intros (e & E & Hin)%list_elem_of_fmap. apply list_elem_of_filter in Hin as [He Hin].
  apply list_elem_of_lookup_1 in Hin as [i Hi]. by specialize (Hu 0%nat (S i) x e eq_refl Hi ltac:(done) He E).
Qed.

Section Table.
Context {cls b j : Z} {occ : nat} {blk : list bucket_t} (T : table cls b j occ blk).

Lemma entries_NoDup : NoDup (entries cls b blk).*1.
Proof.
  unfold entries. rewrite <- list_fmap_compose. apply NoDup_fmap_filter.
  intros i i' e e' H1 H2 H3 H4 H5. by eapply (table_unique _ _ _ _ _ T).
Qed.
Lemma cache_entries_lookup s v : (list_to_map (entries cls b blk) : gmap Z Z) !! s = Some v <->
  exists i e, blk !! i = Some e /\ live e /\ _sel e = s /\ imp b cls e = v.
Proof.
  rewrite <- elem_of_list_to_map by apply entries_NoDup. unfold entries. rewrite list_elem_of_fmap. split.
  - intros (e & [= -> ->] & [Hl Hin]%list_elem_of_filter). apply list_elem_of_lookup_1 in Hin as [i Hi]. by exists i, e.
  - intros (i & e & Hi & Hl & <- & <-). exists e. split; [done|]. apply list_elem_of_filter. split; [done|].
    by eapply list_elem_of_lookup_2.
Qed.
Lemma entries_None s : (list_to_map (entries cls b blk) : gmap Z Z) !! s = None <->
  forall i e, blk !! i = Some e -> live e -> _sel e <> s.
Proof.
  rewrite eq_None_not_Some. split.
  - intros H i e Hi Hl Hs. apply H. exists (imp b cls e). apply cache_entries_lookup. by exists i, e.
  - intros H [v Hv]. apply cache_entries_lookup in Hv as (i & e & Hi & Hl & Hs & _). by apply (H i e).
Qed.

End Table.

Lemma filter_all {A} (P : A -> Prop) `{forall x, Decision (P x)} (l : list A) :
  (forall x, x ∈ l -> P x) -> filter P l = l.
Proof.
  induction l as [|x l IH]; intros Hl; [done|]. rewrite filter_cons_True by (apply Hl; by left).
  f_equal. apply IH. intros y Hy. apply Hl. by right.
Qed.
(** A table that is not full has a free bucket. *)
Lemma table_free cls b j occ blk : table cls b j occ blk -> Z.of_nat occ + CACHE_END_MARKER < 2 ^ j ->
  exists i e, blk !! i = Some e /\ _sel e = 0.
Proof.
  intros T Hocc. destruct (decide (Exists (fun e => _sel e = 0) blk)) as [[e [Hin He]]%Exists_exists|Hno].
  { apply list_elem_of_lookup_1 in Hin as [i Hi]. by exists i, e. }
  exfalso. pose proof (table_length _ _ _ _ _ T) as Hl. pose proof (table_count _ _ _ _ _ T) as Hc.
  assert (Hs : forall i e, blk !! i = Some e -> live e \/ (CACHE_END_MARKER = 1 /\ Z.of_nat i = 2 ^ j - 1)).
  { intros i e Hi. destruct (table_sel _ _ _ _ _ T i e Hi) as [E|[E|(E1 & E2 & _)]]; [|by left|by right].
    exfalso. apply Hno, Exists_exists. exists e. split; [by eapply list_elem_of_lookup_2|done]. }
  assert (Hall : forall n, (CACHE_END_MARKER = 1 -> Z.of_nat n <= 2 ^ j - 1) -> length (filter live (take n blk)) = Nat.min n (length blk)).
  { intros n Hn. rewrite filter_all; [apply length_take|]. intros e Hin. apply list_elem_of_lookup_1 in Hin as [i Hi].
    apply lookup_take_Some in Hi as [Hi Hlt]. destruct (Hs i e Hi) as [?|[E ?]]; [done|]. specialize (Hn E). lia. }
  destruct end_marker_cases as [[E _]|[E _]]; rewrite E in *.
  - specialize (Hall (length blk) ltac:(lia)). rewrite take_ge in Hall by done. lia.
  - specialize (Hall (Z.to_nat (2 ^ j - 1)) ltac:(lia)).
    assert (Hle : (length (filter live (take (Z.to_nat (2 ^ j - 1)) blk)) <= length (filter live blk))%nat).
    { rewrite <- (take_drop (Z.to_nat (2 ^ j - 1)) blk) at 2. rewrite filter_app, length_app. lia. }
    lia.
Qed.
Lemma table_occ cls b j occ blk : table cls b j occ blk -> Z.of_nat occ <= 2 ^ j.
Proof.
  intros T. rewrite <- (table_length _ _ _ _ _ T), <- (table_count _ _ _ _ _ T).
  pose proof (length_filter live blk). lia.
Qed.

(** Filling the first free bucket of a selector's probe sequence. *)
Lemma table_insert cls b j occ blk (T : table cls b j occ blk) sel v t e : 1 < sel -> 0 <= t < 2 ^ j -> 0 <= j ->
  blk !! Z.to_nat (probe j (sel mod 2 ^ j) t) = Some e -> _sel e = 0 ->
  (forall u, 0 <= u < t -> exists e', blk !! Z.to_nat (probe j (sel mod 2 ^ j) u) = Some e' /\ _sel e' <> 0 /\ _sel e' <> sel) ->
  coded cls b (Bucket sel v) ->
  let i := Z.to_nat (probe j (sel mod 2 ^ j) t) in
  (forall i' e', blk !! i' = Some e' -> live e' -> _sel e' <> sel) /\
  table cls b j (S occ) (<[i := Bucket sel v]> blk) /\
  (list_to_map (entries cls b (<[i := Bucket sel v]> blk)) : gmap Z Z) =
    <[sel := imp b cls (Bucket sel v)]> (list_to_map (entries cls b blk)).
Proof.
  intros Hsel Ht Hj Hi He Hpath Hcode i.
  assert (Hlen : (i < length blk)%nat) by by eapply lookup_lt_Some.
  assert (Habs : forall i' e', blk !! i' = Some e' -> live e' -> _sel e' <> sel).
  { intros i' e' Hi' Hl' Hs'. destruct (table_reach _ _ _ _ _ T i' e' Hi' Hl') as (t' & Ht' & Hpi & Hp). rewrite Hs' in *.
    destruct (decide (t' < t)) as [Hlt|Hge].
    - destruct (Hpath t' ltac:(lia)) as (e2 & E2 & _ & Hn). rewrite <- Hpi, Nat2Z.id in E2. congruence.
    - destruct (decide (t' = t)) as [->|].
      + rewrite <- Hpi, Nat2Z.id, Hi' in Hi. injection Hi as ->. lia.
      + destruct (Hp t ltac:(lia)) as (e2 & E2 & Hn). rewrite Hi in E2. by injection E2 as <-. }
  assert (Hcases : forall n e', <[i := Bucket sel v]> blk !! n = Some e' -> (n = i /\ e' = Bucket sel v) \/ (n <> i /\ blk !! n = Some e')).
  { intros n e' [(<- & -> & _)|[? ?]]%list_lookup_insert_Some; [by left|right; by split]. }
  assert (T' : table cls b j (S occ) (<[i := Bucket sel v]> blk)).
  { split.
    - rewrite length_insert. apply T.
    - intros n e' [[-> ->]|[_ Hn]]%Hcases; [right; left; done|by apply (table_sel _ _ _ _ _ T)].
    - intros E. pose proof (table_end _ _ _ _ _ T E) as Hend. rewrite list_lookup_insert_ne; [done|].
      intros Eq. fold i in Hi. rewrite Eq, Hend in Hi. injection Hi as <-. done.
    - rewrite (filter_insert_new _ _ _ e); [by rewrite (table_count _ _ _ _ _ T)|done|unfold live; lia|done].
    - intros n n' e1 e2 [[-> ->]|[H1 H1']]%Hcases [[-> ->]|[H2 H2']]%Hcases Hl E; [done| | |by eapply (table_unique _ _ _ _ _ T)].
      + cbn in E. exfalso. apply (Habs n' e2); [done|unfold live in *; cbn in *; lia|done].
      + exfalso. by apply (Habs n e1).
    - intros n e' [[-> ->]|[_ Hn]]%Hcases; [done|by apply (table_coded _ _ _ _ _ T n)].
    - assert (Hkeep : forall x e', blk !! x = Some e' -> _sel e' <> 0 -> exists e'', <[i := Bucket sel v]> blk !! x = Some e'' /\ _sel e'' <> 0).
      { intros x e' Hx Hn. destruct (decide (x = i)) as [->|]; [|exists e'; by rewrite list_lookup_insert_ne].
        exists (Bucket sel v). rewrite list_lookup_insert_eq by done. split; [done|cbn; lia]. }
      intros n e' [[-> ->]|[_ Hn]]%Hcases Hl; cbn [_sel].
      + exists t. split; [done|]. split; [unfold i; rewrite Z2Nat.id; [done|by apply cache_probe_range]|].
        intros u Hu. destruct (Hpath u Hu) as (e2 & E2 & Hn & _). by eapply Hkeep.
      + destruct (table_reach _ _ _ _ _ T n e' Hn Hl) as (t' & Ht' & Hpi & Hp). exists t'. split; [done|]. split; [done|].
        intros u Hu. destruct (Hp u Hu) as (e2 & E2 & Hn2). by eapply Hkeep. }
  split; [done|]. split; [done|]. apply map_eq. intros s. apply option_eq. intros x.
  rewrite (cache_entries_lookup T'). destruct (decide (sel = s)) as [<-|Hs].
  - rewrite lookup_insert_eq. split.
    + intros (n & e' & [[-> ->]|[_ Hn]]%Hcases & Hl & Hs & <-); [done|]. by destruct (Habs n e').
    + intros [= <-]. exists i, (Bucket sel v). by rewrite list_lookup_insert_eq.
  - rewrite lookup_insert_ne, (cache_entries_lookup T) by done. split.
    + intros (n & e' & [[-> ->]|[_ Hn]]%Hcases & Hl & Hs' & <-); [done|by exists n, e'].
    + intros (n & e' & Hn & Hl & Hs' & <-). exists n, e'. split; [|done]. rewrite list_lookup_insert_ne; [done|].
      intros <-. fold i in Hi. rewrite Hn in Hi. injection Hi as ->. unfold live in Hl. lia.
Qed.

(** What is asked of implementations: not nil, and not at the address of their class. *)
Class ImpsOk := {
  valid_sel cls sel i : valid cls sel i -> 1 < sel;
  valid_imp cls sel i : valid cls sel i -> i <> 0 /\ i <> cls;
}.
Lemma encodeImp_nonzero b i sel cls : i <> 0 -> i <> cls -> encodeImp b i sel cls <> 0.
Proof.
  intros Hi Hc. unfold encodeImp. apply Z.eqb_neq in Hi as Hi'. rewrite Hi'. destruct CACHE_IMP_ENCODING; [done| |by apply resign_nonnull].
  intros E. by apply Z.lxor_eq in E.
Qed.
Lemma imp_decode_encode b i sel cls : i <> 0 -> i <> cls -> decodeImp b (encodeImp b i sel cls) sel cls = i.
Proof.
  intros Hi Hc. unfold encodeImp, decodeImp. apply Z.eqb_neq in Hi. rewrite Hi. destruct CACHE_IMP_ENCODING; [done| |by apply auth_resign].
  by rewrite Z.lxor_assoc, Z.lxor_nilpotent, Z.lxor_0_r.
Qed.
Lemma imp_encode b i sel cls : i <> 0 -> i <> cls -> imp b cls (Bucket sel (encodeImp b i sel cls)) = i.
Proof.
  intros Hi Hc. unfold imp. cbn [_imp _sel]. pose proof (encodeImp_nonzero b i sel cls Hi Hc) as Hn. apply Z.eqb_neq in Hn. rewrite Hn.
  by apply imp_decode_encode.
Qed.
End Theory.
