(* ===== verification/MethodCacheHistory.v ===== *)
(** * Histories of the method caches

    A lock-free reader sees memories of different moments. What it relies on is a
    property of the history: as long as no collection has found the readers quiet,
    a block that a class referred to is still there, its selectors stay with their
    implementations, and new ones appear in it only while the class refers to it;
    the masks of a class only grow. [hist_ok] says so for one class; [inv] adds
    what holds between two operations of writers. *)

From stdpp Require Import prelude numbers list gmap fin_maps.
From Stdlib Require Import ZArith Lia Bool.
From S2P Require Import Prelude ObjcOS MethodCache MethodCacheTheory.

Section History.
Context `{Env : CacheEnv} {EnvOk : CacheEnvOk} (valid : Z -> Z -> Z -> Prop) (k : Z).

Definition hist (w : world) : list mem := now w :: past w.

(** The mask of the class, and its buckets. *)
Definition kmask (m : mem) : Z := match classes m !! k with Some c => mask c | None => 0 end.
Definition refers (m : mem) (b : Z) : Prop := exists c, classes m !! k = Some c /\ buckets c = b.

(** Blocks keep their selectors. *)
Definition grows (blk blk' : list bucket_t) : Prop :=
  length blk = length blk' /\ forall i e, blk !! i = Some e -> _sel e <> 0 -> blk' !! i = Some e.

(** From one moment to the next, for a block that readers may hold. *)
Definition keeps (m m' : mem) (b : Z) : Prop := exists blk blk',
  heap m !! b = Some blk /\ heap m' !! b = Some blk' /\ readable valid k b blk' /\ grows blk blk' /\
  forall i e, blk' !! i = Some e -> live e -> blk !! i = Some e \/ refers m' b.
Definition referred_ok (m : mem) : Prop := forall c, classes m !! k = Some c ->
  word_ok c /\ exists blk, heap m !! buckets c = Some blk /\ mask c + 1 <= Z.of_nat (length blk) /\ readable valid k (buckets c) blk.
Definition newer (m m0 : mem) : Prop :=
  (quiet m0 <= quiet m)%nat /\ kmask m0 <= kmask m /\ (is_Some (classes m0 !! k) -> is_Some (classes m !! k)).

(** The blocks that a reader may hold that began after the last quiet moment. *)
Definition held_in (l : list mem) (m : mem) (b : Z) : Prop := exists m0, m0 ∈ l /\ quiet m0 = quiet m /\ refers m0 b.
Definition held (w : world) : Z -> Prop := held_in (hist w) (now w).

Definition moment (m : mem) (l : list mem) : Prop :=
  referred_ok m /\ (forall m0, m0 ∈ l -> newer m m0) /\
  forall m1 rest, l = m1 :: rest -> quiet m1 = quiet m -> forall b, held_in l m1 b -> keeps m1 m b.
Definition hist_ok (w : world) : Prop := forall i m l, drop i (hist w) = m :: l -> moment m l.

Lemma newer_refl m : newer m m.
Proof. split; [lia|]. split; [lia|done]. Qed.
Lemma newer_trans m m1 m0 : newer m m1 -> newer m1 m0 -> newer m m0.
Proof. intros (?&?&?) (?&?&?). split; [lia|]. split; [lia|auto]. Qed.
Lemma grows_refl blk : grows blk blk.
Proof. done. Qed.
Lemma grows_trans a b c : grows a b -> grows b c -> grows a c.
Proof. intros [H1 H2] [H3 H4]. split; [congruence|]. intros i e Hi He. by apply H4, He; apply H2. Qed.

Lemma held_now w b : refers (now w) b -> held w b.
Proof. intros H. exists (now w). split; [by left|done]. Qed.
Lemma hist_newer w m0 : hist_ok w -> m0 ∈ hist w -> newer (now w) m0.
Proof.
  intros H [->|Hm]%elem_of_cons; [apply newer_refl|]. by destruct (H 0%nat _ _ eq_refl) as (_ & Hn & _); apply Hn.
Qed.
Lemma hist_referred w : hist_ok w -> referred_ok (now w).
Proof. intros H. apply (H 0%nat _ _ eq_refl). Qed.

(** What a reader may hold is there. *)
Lemma held_block w b : hist_ok w -> held w b -> exists blk, heap (now w) !! b = Some blk /\ readable valid k b blk.
Proof.
  intros H (m0 & [->|Hm]%elem_of_cons & Hq & Hr).
  - destruct Hr as (c & Hc & <-). destruct (hist_referred w H c Hc) as (_ & blk & ? & _ & ?). by exists blk.
  - destruct (H 0%nat _ _ eq_refl) as (_ & Hn & Hk). destruct (past w) as [|m1 rest] eqn:Ep; [by apply elem_of_nil in Hm|].
    assert (Hm1 : newer m1 m0).
    { apply elem_of_cons in Hm as [->|Hm]; [apply newer_refl|].
      destruct (H 1%nat m1 rest) as (_ & Hn1 & _); [unfold hist; by rewrite Ep|]. by apply Hn1. }
    assert (Hn1 : newer (now w) m1) by (apply Hn; by left).
    destruct Hm1 as [? _], Hn1 as [? _].
    destruct (Hk m1 rest eq_refl ltac:(lia) b) as (blk & blk' & _ & Hb & Hrd & _).
    + exists m0. split; [done|]. split; [lia|done].
    + by exists blk'.
Qed.

Definition push (m : mem) (w : world) : world := World m (hist w).

Lemma hist_push w m : hist_ok w -> referred_ok m -> newer m (now w) ->
  (quiet (now w) = quiet m -> forall b, held w b -> keeps (now w) m b) -> hist_ok (push m w).
Proof.
  intros H Hr Hn Hk i m1 l E. destruct i as [|i].
  - injection E as <- <-. split; [done|]. split.
    + intros m0 Hm0. eapply newer_trans; [done|]. by apply hist_newer.
    + intros m1 rest [= <- <-] Hq b Hb. by apply Hk.
  - by apply (H i).
Qed.
Lemma held_push w m b : quiet m = quiet (now w) -> held (push m w) b <-> held w b \/ refers m b.
Proof.
  intros Hq. split.
  - intros (m0 & [->|Hm]%elem_of_cons & Hq0 & Hr); [by right|]. left. exists m0. split; [done|]. split; [cbn in Hq0; congruence|done].
  - intros [(m0 & Hm & Hq0 & Hr)|Hr]; [|by apply held_now]. exists m0. split; [by right|]. split; [cbn; congruence|done].
Qed.

Lemma keeps_same m m' b blk : heap m !! b = Some blk -> heap m' !! b = Some blk -> readable valid k b blk -> keeps m m' b.
Proof. intros E E' H. exists blk, blk. split; [done|]. split; [done|]. split; [done|]. split; [done|]. intros; by left. Qed.
Lemma kmask_eq m m' : classes m' !! k = classes m !! k -> kmask m' = kmask m.
Proof. unfold kmask. by intros ->. Qed.
Lemma refers_eq m m' b : classes m' !! k = classes m !! k -> refers m' b <-> refers m b.
Proof. unfold refers. by intros ->. Qed.
Lemma held_eq w m b : quiet m = quiet (now w) -> classes m !! k = classes (now w) !! k ->
  held (push m w) b <-> held w b.
Proof.
  intros Hq Hc. rewrite held_push, (refers_eq _ _ _ Hc) by done. split; [|by left].
  intros [H|H]; [done|by apply held_now].
Qed.

(** A store that readers of the class do not see. *)
Lemma hist_frame w m : hist_ok w -> quiet m = quiet (now w) -> classes m !! k = classes (now w) !! k ->
  (forall b, held w b -> heap m !! b = heap (now w) !! b) -> hist_ok (push m w).
Proof.
  intros H Hq Hc Hh. apply hist_push; [done| | |].
  - intros c E. rewrite Hc in E. rewrite Hh; [by apply (hist_referred w H)|]. apply held_now. by exists c.
  - split; [lia|]. rewrite (kmask_eq _ _ Hc), Hc. split; [lia|done].
  - intros _ b Hb. destruct (held_block w b H Hb) as (blk & E & Hr). apply (keeps_same _ _ _ blk); [done| |done]. by rewrite Hh.
Qed.
(** A store into the cache of a class. *)
Lemma hist_cache w m c : hist_ok w -> quiet m = quiet (now w) -> heap m = heap (now w) ->
  classes m !! k = Some c -> kmask (now w) <= mask c -> word_ok c ->
  (exists blk, heap m !! buckets c = Some blk /\ mask c + 1 <= Z.of_nat (length blk) /\ readable valid k (buckets c) blk) ->
  hist_ok (push m w).
Proof.
  intros H Hq Hh Hc Hm Hw Hb. apply hist_push; [done| | |].
  - intros c' E. rewrite Hc in E. by injection E as <-.
  - split; [lia|]. unfold kmask at 2. rewrite Hc. split; [done|by exists c].
  - intros _ b Hb'. destruct (held_block w b H Hb') as (blk & E & Hr). apply (keeps_same _ _ _ blk); [done| |done]. by rewrite Hh.
Qed.
(** A store into the buckets of the class. *)
Lemma hist_slot w m b blk blk' : hist_ok w -> quiet m = quiet (now w) -> classes m !! k = classes (now w) !! k ->
  refers (now w) b -> heap (now w) !! b = Some blk -> heap m = <[b := blk']> (heap (now w)) ->
  grows blk blk' -> readable valid k b blk' -> hist_ok (push m w).
Proof.
  intros H Hq Hc Hr Hb Hh Hg Hrd. apply hist_push; [done| | |].
  - intros c E. rewrite Hc in E. destruct (hist_referred w H c E) as (Hw & blk0 & E0 & Hl & Hrd0). rewrite Hh. split; [done|].
    destruct (decide (b = buckets c)) as [->|Hn]; [|rewrite lookup_insert_ne by done; by exists blk0].
    rewrite lookup_insert_eq. exists blk'. split; [done|]. destruct Hg as [Hg _]. rewrite <- Hg.
    rewrite Hb in E0. by injection E0 as ->.
  - split; [lia|]. rewrite (kmask_eq _ _ Hc), Hc. split; [lia|done].
  - intros _ b' Hb'. destruct (decide (b = b')) as [<-|Hn].
    + exists blk, blk'. rewrite Hh, lookup_insert_eq. do 4 (split; [done|]).
      intros i e _ _. right. by apply (refers_eq _ _ _ Hc).
    + destruct (held_block w b' H Hb') as (blk0 & E & Hr0). apply (keeps_same _ _ _ blk0); [done| |done].
      by rewrite Hh, lookup_insert_ne by done.
Qed.
(** A quiet moment. *)
Lemma hist_quiet w m : hist_ok w -> (quiet (now w) < quiet m)%nat -> heap m = heap (now w) ->
  classes m = classes (now w) -> hist_ok (push m w) /\ forall b, held (push m w) b -> refers m b.
Proof.
  intros H Hq Hh Hc. split.
  - apply hist_push; [done| | |lia].
    + intros c. rewrite Hc, Hh. by apply hist_referred.
    + split; [lia|]. unfold kmask. rewrite Hc. split; [lia|done].
  - intros b (m0 & [->|Hm]%elem_of_cons & Hq0 & Hr); [done|]. apply (hist_newer w m0 H) in Hm as [Hm _]. cbn in Hq0. lia.
Qed.

(** *** Between two operations *)
Record inv (w : world) : Prop := {
  inv_wf : wf valid (now w);
  inv_hist : hist_ok w;
  inv_held b : held w b -> refers (now w) b \/ shared (now w) b \/ b ∈ garbage_refs (now w);
}.

(** A world without a past. *)
Lemma inv_start m : wf valid m -> inv (World m []).
Proof.
  intros Hwf. split; [done| |].
  - intros [|i] m1 l E; [|by destruct i]. injection E as <- <-. split; [|split].
    + intros c Hc. split; [by eapply core_word; [apply (wf_core _ _ Hwf)|]|]. eapply cache_block; [apply (core_blocks _ _ (wf_core _ _ Hwf))|]. by apply (core_class _ _ (wf_core _ _ Hwf)).
    + intros m0 Hm. by apply elem_of_nil in Hm.
    + done.
  - intros b (m0 & [->|Hm]%elem_of_cons & _ & Hr); [by left|by apply elem_of_nil in Hm].
Qed.
(** A new memory, seen by readers like the old one, that is well formed. *)
Lemma inv_frame w m : inv w -> wf valid m -> quiet m = quiet (now w) -> classes m !! k = classes (now w) !! k ->
  (forall b, held w b -> heap m !! b = heap (now w) !! b) ->
  (forall b, shared (now w) b -> shared m b) ->
  (forall b, b ∈ garbage_refs (now w) -> held w b -> b ∈ garbage_refs m) -> inv (push m w).
Proof.
  intros I Hwf Hq Hc Hh Hs Hg. split; [done| |].
  - by apply hist_frame; [apply I|..].
  - intros b Hb. apply (held_eq w m b Hq Hc) in Hb. destruct (inv_held w I b Hb) as [H|[H|H]].
    + left. by apply (refers_eq _ _ _ Hc).
    + right; left. by apply Hs.
    + right; right. by apply Hg.
Qed.
End History.
