(* ===== verification/MethodCacheWriters.v ===== *)
(** * The writers of method caches

    Weakest preconditions of every operation of [cache_t], each proved to keep the
    history sound for the readers of one class, [k], store by store, and the memory
    well formed. *)

From stdpp Require Import prelude numbers list gmap fin_maps.
From Stdlib Require Import ZArith Lia Bool.
From S2P Require Import Prelude ObjcOS MethodCache MethodCacheTheory MethodCacheHistory.

Section Writers.
Context `{Env : CacheEnv} {EnvOk : CacheEnvOk} (valid : Z -> Z -> Z -> Prop) (k : Z).
Context (allowed : fault -> Prop) (alloc_allowed : allowed AllocationFailed).

Notation wp := (wp allowed).
Notation hist_ok := (hist_ok valid k).
Notation held := (held k).
Notation inv := (inv valid k).
Notation wf := (wf valid).
Notation core := (core valid).

(** ** Loads and stores *)
Lemma bucket_at_nat m b i blk : heap m !! b = Some blk -> bucket_at m b (Z.of_nat i) = blk !! i.
Proof.
  intros E. unfold bucket_at. destruct (Z.ltb_spec (Z.of_nat i) 0); [lia|]. rewrite E, Nat2Z.id. done.
Qed.
Lemma wp_load_bucket b i blk e Q w : heap (now w) !! b = Some blk -> blk !! i = Some e -> Q e w ->
  wp (load_bucket b (Z.of_nat i)) Q w.
Proof. intros Hb Hi HQ. apply wp_bind, wp_get. rewrite (bucket_at_nat _ _ _ _ Hb), Hi. by apply wp_ret. Qed.
Lemma wp_store_bucket b i blk e f (Q : unit -> world -> Prop) w : heap (now w) !! b = Some blk -> blk !! i = Some e ->
  b <> L__objc_empty_cache -> Q tt (push (set_heap <[b := <[i := f e]> blk]> (now w)) w) ->
  wp (store_bucket b (Z.of_nat i) f) Q w.
Proof.
  intros Hb Hi Hn HQ. apply wp_bind. eapply wp_load_bucket; [done..|]. apply Z.eqb_neq in Hn. rewrite Hn.
  apply wp_store. rewrite Nat2Z.id.
  assert (E : set_heap (alter (alter f i) b) (now w) = set_heap <[b := <[i := f e]> blk]> (now w)).
  { unfold set_heap. f_equal. apply map_eq. intros x. destruct (decide (b = x)) as [<-|].
    - rewrite lookup_alter_eq, lookup_insert_eq, Hb. cbn. f_equal. apply list_eq. intros n.
      destruct (decide (i = n)) as [<-|].
      + rewrite list_lookup_alter_eq, Hi, list_lookup_insert_eq; [done|]. by eapply lookup_lt_Some.
      + by rewrite list_lookup_alter_ne, list_lookup_insert_ne.
    - by rewrite lookup_alter_ne, lookup_insert_ne. }
  by rewrite E.
Qed.
Lemma wp_load_cache cls c Q w : classes (now w) !! cls = Some c -> Q c w -> wp (load_cache cls) Q w.
Proof. intros Hc HQ. apply wp_bind, wp_get. rewrite Hc. by apply wp_ret. Qed.
Lemma wp_store_cache cls c f (Q : unit -> world -> Prop) w : classes (now w) !! cls = Some c ->
  Q tt (push (set_classes <[cls := f c]> (now w)) w) -> wp (store_cache cls f) Q w.
Proof.
  intros Hc HQ. apply wp_bind. eapply wp_load_cache; [done|]. apply wp_store.
  assert (E : set_classes (alter f cls) (now w) = set_classes <[cls := f c]> (now w)).
  { unfold set_classes. f_equal. apply map_eq. intros x. destruct (decide (cls = x)) as [<-|].
    - by rewrite lookup_alter_eq, lookup_insert_eq, Hc.
    - by rewrite lookup_alter_ne, lookup_insert_ne. }
  by rewrite E.
Qed.

(** ** What readers do not see *)
Record unseen (w w' : world) : Prop := {
  unseen_quiet : quiet (now w') = quiet (now w);
  unseen_class : classes (now w') !! k = classes (now w) !! k;
  unseen_heap b : held w b -> heap (now w') !! b = heap (now w) !! b;
  unseen_hist : hist_ok w';
  unseen_held b : held w' b <-> held w b;
}.
Lemma unseen_refl w : hist_ok w -> unseen w w.
Proof. by split. Qed.
Lemma unseen_push w m : hist_ok w -> quiet m = quiet (now w) -> classes m !! k = classes (now w) !! k ->
  (forall b, held w b -> heap m !! b = heap (now w) !! b) -> unseen w (push m w).
Proof. intros. split; try done; [by apply hist_frame|]. intros b. by apply held_eq. Qed.
Lemma unseen_trans w w1 w2 : unseen w w1 -> unseen w1 w2 -> unseen w w2.
Proof.
  intros U V. split.
  - by rewrite (unseen_quiet _ _ V), (unseen_quiet _ _ U).
  - by rewrite (unseen_class _ _ V), (unseen_class _ _ U).
  - intros b Hb. rewrite (unseen_heap _ _ V), (unseen_heap _ _ U); [done..|]. by apply (unseen_held _ _ U).
  - apply V.
  - intros b. by rewrite (unseen_held _ _ V), (unseen_held _ _ U).
Qed.
(** A store into a block that no reader holds. *)
Lemma unseen_block w b blk : hist_ok w -> ~ held w b -> unseen w (push (set_heap <[b := blk]> (now w)) w).
Proof.
  intros H Hb. apply unseen_push; try done. intros x Hx. cbn. rewrite lookup_insert_ne; [done|]. by intros <-.
Qed.
Lemma absent_unheld w b : hist_ok w -> heap (now w) !! b = None -> ~ held w b.
Proof. intros H E Hb. destruct (held_block _ _ _ _ H Hb) as (blk & E' & _). congruence. Qed.

(** ** Allocation *)
Lemma wp_calloc n (Q : Z -> world -> Prop) w : 0 <= n ->
  (forall a, storable a -> heap (now w) !! a = None ->
     Q a (push (set_heap <[a := zeros (Z.to_nat n)]> (now w)) w)) ->
  wp (calloc_buckets (sizeof_bucket * n)) Q w.
Proof.
  intros Hn HQ. apply wp_bind, wp_get. destruct (calloc _ _) as [a|] eqn:Ea; [|by apply wp_fail].
  destruct (calloc_fresh _ _ _ Ea) as [Hf Hs]. apply wp_bind, wp_store, wp_ret.
  pose proof sizeof_bucket_pos. rewrite Z.mul_comm, Z.div_mul by lia. apply HQ; [done|]. by apply not_elem_of_dom in Hf.
Qed.

Definition fresh (a j : Z) : list bucket_t :=
  if CACHE_END_MARKER =? 0 then zeros (Z.to_nat (2 ^ j)) else <[Z.to_nat (2 ^ j - 1) := marker a]> (zeros (Z.to_nat (2 ^ j))).
Lemma zeros_at n i : (i < n)%nat -> zeros n !! i = Some (Bucket 0 0).
Proof. intros. by apply lookup_replicate_2. Qed.
Lemma filter_live_zeros n : filter live (zeros n) = [].
Proof. induction n as [|n IH]; [done|]. cbn [zeros replicate]. rewrite filter_cons_False; [done|]. unfold live. cbn. lia. Qed.
Lemma filter_live_marker n i a : filter live (<[i := marker a]> (zeros n)) = [].
Proof.
  revert i. induction n as [|n IH]; intros [|i]; try done; cbn -[filter].
  - rewrite filter_cons_False; [apply filter_live_zeros|]. unfold live, marker. cbn. lia.
  - rewrite filter_cons_False; [apply IH|]. unfold live. cbn. lia.
Qed.
Lemma fresh_table cls a j : min_log <= j <= max_log -> table valid cls a j 0 (fresh a j).
Proof.
  intros Hj. pose proof (pow_log j Hj).
  assert (Hx : forall i e, fresh a j !! i = Some e ->
    e = Bucket 0 0 \/ (CACHE_END_MARKER = 1 /\ Z.of_nat i = 2 ^ j - 1 /\ e = marker a)).
  { intros i e. unfold fresh. destruct end_marker_cases as [[-> _]|[-> _]]; cbn.
    - intros Hi. left. by eapply zeros_lookup.
    - intros [(<- & -> & _)|[_ Hi]]%list_lookup_insert_Some; [right; split; [done|]; split; [lia|done]|left; by eapply zeros_lookup]. }
  split.
  - unfold fresh. destruct (CACHE_END_MARKER =? 0); rewrite ?length_insert, length_zeros; lia.
  - intros i e Hi. destruct (Hx i e Hi) as [->|E]; [by left|by right; right].
  - intros E. unfold fresh. rewrite E. cbn. apply list_lookup_insert_eq. rewrite length_zeros. lia.
  - unfold fresh. destruct (CACHE_END_MARKER =? 0); [by rewrite filter_live_zeros|by rewrite filter_live_marker].
  - intros i i' e e' Hi _ Hl _. exfalso. destruct (Hx i e Hi) as [->|(_ & _ & ->)]; unfold live, marker in Hl; cbn in Hl; lia.
  - intros i e Hi Hl. exfalso. destruct (Hx i e Hi) as [->|(_ & _ & ->)]; unfold live, marker in Hl; cbn in Hl; lia.
  - intros i e Hi Hl. exfalso. destruct (Hx i e Hi) as [->|(_ & _ & ->)]; unfold live, marker in Hl; cbn in Hl; lia.
Qed.
Lemma fresh_zero a j : 1 <= j -> min_log <= j <= max_log -> exists i, fresh a j !! i = Some (Bucket 0 0).
Proof.
  intros H1 Hj. pose proof (pow_log j Hj). exists 0%nat. unfold fresh.
  assert (2 <= 2 ^ j) by (apply (Z.pow_le_mono_r 2 1 j); lia).
  destruct (CACHE_END_MARKER =? 0); [apply zeros_at; lia|]. rewrite list_lookup_insert_ne by lia. apply zeros_at. lia.
Qed.

Lemma wp_allocateBuckets j (Q : Z -> world -> Prop) w : min_log <= j <= max_log -> hist_ok w ->
  heap (now w) !! L__objc_empty_cache <> None ->
  (forall a w', storable a -> heap (now w) !! a = None -> now w' = set_heap <[a := fresh a j]> (now w) ->
     unseen w w' -> Q a w') ->
  wp (allocateBuckets (2 ^ j)) Q w.
Proof.
  intros Hj H HE HQ. pose proof (pow_log j Hj) as Hp. unfold allocateBuckets. rewrite wrap_mask_bits, bytes_for by (done || lia).
  apply wp_bind, wp_calloc; [lia|]. intros a Ha Hfresh. pose proof (absent_unheld _ _ H Hfresh) as Hu.
  set (w1 := push _ w). assert (U1 : unseen w w1) by by apply unseen_block.
  assert (Hf : fresh a j = if CACHE_END_MARKER =? 0 then zeros (Z.to_nat (2 ^ j)) else <[Z.to_nat (2 ^ j - 1) := marker a]> (zeros (Z.to_nat (2 ^ j)))) by done.
  destruct end_marker_cases as [[E Ea]|[E Ea]]; rewrite E in *; cbn [Z.eqb] in *; cbn in Hf.
  - apply wp_ret, HQ; try done. by rewrite Hf.
  - unfold endMarker. rewrite bytes_for by done. rewrite (Z.mul_comm sizeof_bucket), Z.div_mul by (pose proof sizeof_bucket_pos; lia).
    replace (2 ^ j - 1) with (Z.of_nat (Z.to_nat (2 ^ j - 1))) by lia. set (n := Z.to_nat (2 ^ j - 1)) in *.
    assert (Hn : zeros (Z.to_nat (2 ^ j)) !! n = Some (Bucket 0 0)) by (apply zeros_at; lia).
    assert (HaE : a <> L__objc_empty_cache) by congruence.
    assert (H1 : heap (now w1) !! a = Some (zeros (Z.to_nat (2 ^ j)))) by apply lookup_insert_eq.
    apply wp_bind. unfold set. apply wp_bind. eapply wp_load_bucket; [done..|]. apply wp_bind, wp_check; [done|].
    rewrite Ea. cbn [andb]. cbv zeta. apply wp_bind. eapply wp_store_bucket; [done..|]. cbn [_sel].
    set (w2 := push _ w1). assert (H2 : heap (now w2) !! a = Some (<[n := Bucket 0 (_imp (marker a))]> (zeros (Z.to_nat (2 ^ j)))))
      by apply lookup_insert_eq.
    eapply wp_store_bucket; [done| |done|].
    { apply list_lookup_insert_eq. rewrite length_zeros. lia. }
    apply wp_ret. set (w3 := push _ w2).
    assert (U2 : unseen w1 w2) by (apply unseen_block; [apply U1|by rewrite (unseen_held _ _ U1)]).
    assert (U3 : unseen w2 w3) by (apply unseen_block; [apply U2|by rewrite (unseen_held _ _ U2), (unseen_held _ _ U1)]).
    apply HQ; [done|done| |by eapply unseen_trans; [eapply unseen_trans|]].
    rewrite Hf. unfold w3, w2, w1, push, set_heap. cbn. by rewrite !insert_insert_eq, list_insert_insert_eq.
Qed.

(** ** Caches and their words *)
Definition readable_at (m : mem) (cls b msk : Z) : Prop := exists blk,
  heap m !! b = Some blk /\ msk + 1 <= Z.of_nat (length blk) /\ readable valid cls b blk.

(** A store into the cache of a class. *)
Lemma store_cache_hist cls c c' w : hist_ok w -> classes (now w) !! cls = Some c ->
  (cls = k -> mask c <= mask c' /\ word_ok c' /\ readable_at (now w) k (buckets c') (mask c')) ->
  let w' := push (set_classes <[cls := c']> (now w)) w in
  hist_ok w' /\ forall b, held w' b -> held w b \/ (cls = k /\ b = buckets c').
Proof.
  intros H Hc Hk w'. destruct (decide (cls = k)) as [E|Hn].
  - subst cls. destruct (Hk eq_refl) as (Hm & Hw & Hr).
    assert (Ec : classes (set_classes <[k := c']> (now w)) !! k = Some c') by apply lookup_insert_eq.
    split.
    + eapply hist_cache; try done. unfold kmask. by rewrite Hc.
    + intros b Hb. apply held_push in Hb as [Hb|(c2 & E2 & <-)]; [by left| |done].
      rewrite Ec in E2. injection E2 as <-. by right.
  - assert (Ec : classes (set_classes <[cls := c']> (now w)) !! k = classes (now w) !! k)
      by (cbn; by rewrite lookup_insert_ne).
    split; [by apply hist_frame|]. intros b Hb. left. by apply held_eq in Hb.
Qed.
Lemma set_classes_twice cls c c' m :
  set_classes <[cls := c']> (set_classes <[cls := c]> m) = set_classes <[cls := c']> m.
Proof. unfold set_classes. cbn. by rewrite insert_insert_eq. Qed.

(** One more store into the same cache. *)
Record stored (cls : Z) (c : cache_t) (w w' : world) : Prop := {
  stored_now : now w' = set_classes <[cls := c]> (now w);
  stored_hist : hist_ok w';
  stored_held b : held w' b -> held w b \/ (cls = k /\ b = buckets c);
}.
Lemma stored_again cls c c' w w' : stored cls c w w' -> (cls = k -> mask c <= mask c' /\ word_ok c' /\
  buckets c' = buckets c /\ readable_at (now w) k (buckets c') (mask c')) ->
  stored cls c' w (push (set_classes <[cls := c']> (now w')) w').
Proof.
  intros [E H Hh] Hk.
  assert (Ec : classes (now w') !! cls = Some c) by (rewrite E; apply lookup_insert_eq).
  assert (Hk' : cls = k -> mask c <= mask c' /\ word_ok c' /\ readable_at (now w') k (buckets c') (mask c')).
  { intros Ek. destruct (Hk Ek) as (? & ? & _ & Hr). split; [done|]. split; [done|]. by rewrite E. }
  destruct (store_cache_hist cls c c' w' H Ec Hk') as [H1 H2]. split.
  - cbn. by rewrite E, set_classes_twice.
  - done.
  - intros b Hb. destruct (H2 b Hb) as [Hb'|[-> ->]]; [|by right]. destruct (Hh b Hb') as [?|[-> ->]]; [by left|].
    right. split; [done|]. symmetry. by destruct (Hk eq_refl) as (_ & _ & ? & _).
Qed.

Lemma wp_setBucketsAndMask cls c b j (Q : unit -> world -> Prop) w : hist_ok w -> classes (now w) !! cls = Some c -> word_ok c ->
  storable b -> is_mask j (2 ^ j - 1) -> mask c <= 2 ^ j - 1 -> (cls = k -> readable_at (now w) k b (2 ^ j - 1)) ->
  (forall c' w', buckets c' = b -> mask c' = 2 ^ j - 1 -> occupied c' = 0 -> word_ok c' -> stored cls c' w w' -> Q tt w') ->
  wp (setBucketsAndMask cls b (2 ^ j - 1)) Q w.
Proof.
  intros H Hc Hw Hb Hj Hm Hk HQ. pose proof (pow_log j (proj1 Hj)) as Hp.
  set (c1 := Cache (packed b (2 ^ j - 1)) (_maybeMask c) (_occupied c)).
  set (msk := match CACHE_MASK_STORAGE with OUTLINED => 2 ^ j - 1 | _ => _maybeMask c end).
  assert (Hb1 : forall old occ, buckets (Cache (packed b (2 ^ j - 1)) old occ) = b)
    by (intros; by eapply buckets_packed).
  assert (Hm2 : forall occ, mask (Cache (packed b (2 ^ j - 1)) msk occ) = 2 ^ j - 1) by (intros; by eapply mask_packed).
  assert (Hm1 : mask c <= mask c1 <= 2 ^ j - 1).
  { pose proof (Hm2 (_occupied c)) as E. unfold c1. unfold msk, mask in *. destruct CACHE_MASK_STORAGE; cbn in *; lia. }
  assert (W3 : forall occ, word_ok (Cache (packed b (2 ^ j - 1)) msk occ)).
  { intros occ. split; [by rewrite Hb1|]. exists j. rewrite Hm2, Hb1. done. }
  assert (W1 : word_ok c1).
  { split; [by rewrite (Hb1 _ _ : buckets c1 = b)|]. rewrite (Hb1 _ _ : buckets c1 = b). destruct Hw as (_ & i & Hi & _).
    pose proof (Hm2 (_occupied c)) as E. unfold c1. unfold msk, mask, packed in *.
    destruct CACHE_MASK_STORAGE; cbn [_bucketsAndMaybeMask _maybeMask _occupied] in *;
      [by exists i|exists j; by rewrite E..]. }
  assert (S1 : stored cls c1 w (push (set_classes <[cls := c1]> (now w)) w)).
  { destruct (store_cache_hist cls c c1 w H Hc) as [H1 H2]; [|by split].
    intros E. split; [lia|]. split; [done|]. rewrite (Hb1 _ _ : buckets c1 = b). destruct (Hk E) as (blk & ? & ? & ?). exists blk. split; [done|]. split; [lia|done]. }
  assert (S3 : forall w' c2, stored cls c2 w w' -> buckets c2 = b -> mask c2 <= 2 ^ j - 1 ->
    forall occ, let c3 := Cache (packed b (2 ^ j - 1)) msk occ in stored cls c3 w (push (set_classes <[cls := c3]> (now w')) w')).
  { intros w' c2 S Eb Em occ c3. eapply stored_again; [done|]. intros E. unfold c3. rewrite Hm2, Hb1. split; [done|]. split; [apply W3|]. split; [done|]. by apply Hk. }
  assert (Hend : forall w' c2, stored cls c2 w w' -> buckets c2 = b -> mask c2 <= 2 ^ j - 1 ->
    _bucketsAndMaybeMask c2 = packed b (2 ^ j - 1) -> _maybeMask c2 = msk ->
    forall R : unit -> world -> Prop, (forall c' w', buckets c' = b -> mask c' = 2 ^ j - 1 -> occupied c' = 0 -> word_ok c' -> stored cls c' w w' -> R tt w') ->
    wp (clear_occupied cls) R w').
  { intros w' c2 S Eb Em E1 E2 R HR. eapply wp_store_cache; [by rewrite (stored_now _ _ _ _ S); apply lookup_insert_eq|].
    rewrite E1, E2. eapply HR; [apply Hb1|apply Hm2|done|apply W3|]. by eapply S3. }
  unfold setBucketsAndMask. destruct CACHE_MASK_STORAGE eqn:Es.
  - assert (Ep : packed b (2 ^ j - 1) = b) by (unfold packed; by rewrite Es).
    apply wp_bind. eapply wp_store_cache; [done|]. rewrite <- Ep at 1. fold c1.
    apply wp_bind. eapply wp_store_cache; [apply lookup_insert_eq|]. cbn [_bucketsAndMaybeMask _occupied c1].
    eapply Hend; [by eapply (S3 _ c1); [apply S1|apply Hb1|apply Hm1]|apply Hb1|by rewrite Hm2|done|done|done].
  - assert (Ep : packed b (2 ^ j - 1) = Z.lor (wrap pointer_bits (Z.shiftl (2 ^ j - 1) maskShift)) b) by (unfold packed; by rewrite Es).
    apply wp_bind, wp_check; [apply Z.leb_le; by apply storable_le|].
    apply wp_bind, wp_check; [change maxMask with 65535; apply Z.leb_le; lia|].
    apply wp_bind. eapply wp_store_cache; [done|]. rewrite <- Ep. fold c1.
    eapply Hend; [apply S1|apply Hb1|apply Hm1|done|done|done].
  - assert (Ep : packed b (2 ^ j - 1) = Z.lor (wrap pointer_bits (Z.shiftl (2 ^ j - 1) maskShift)) b) by (unfold packed; by rewrite Es).
    apply wp_bind, wp_check; [apply Z.leb_le; by apply storable_le|].
    apply wp_bind, wp_check; [change maxMask with 65535; apply Z.leb_le; lia|].
    apply wp_bind. eapply wp_store_cache; [done|]. rewrite <- Ep. fold c1.
    eapply Hend; [apply S1|apply Hb1|apply Hm1|done|done|done].
  - assert (Hj1 : 1 <= j) by (destruct Hj as [[Hj _] _]; unfold min_log in Hj; by rewrite Es in Hj).
    assert (Ep : packed b (2 ^ j - 1) = Z.lor b (16 - j))
      by (unfold packed; rewrite Es; replace (2 ^ j - 1 + 1) with (2 ^ j) by lia; by rewrite Z.log2_pow2 by lia).
    apply wp_bind, wp_check; [apply Z.eqb_eq; symmetry; apply Hb|].
    apply wp_bind, wp_check; [apply Z.leb_le; lia|]. pose proof (log_range j (proj1 Hj)).
    apply wp_bind. unfold MethodCacheTheory.wp at 1. cbv beta. rewrite (wrap_small 16) by lia. rewrite mask16ShiftBits_mask by lia. cbn [rbind].
    apply wp_bind. eapply wp_store_cache; [done|]. rewrite <- Ep. fold c1.
    apply wp_bind. eapply Hend; [apply S1|apply Hb1|apply Hm1|done|done|].
    intros c' w' E1 E2 E3 E4 S. apply wp_bind. eapply wp_load_cache; [by rewrite (stored_now _ _ _ _ S); apply lookup_insert_eq|].
    apply wp_bind, wp_check; [by apply Z.eqb_eq|]. apply wp_check; [by apply Z.eqb_eq|]. by eapply HQ.
Qed.

(** ** Garbage *)
(** Memories that differ in garbage, in [refs]. *)
Record tidied (refs : list Z) (m m' : mem) : Prop := {
  tidied_classes : classes m' = classes m;
  tidied_list : emptyBucketsList m' = emptyBucketsList m;
  tidied_heap b : b ∉ refs -> heap m' !! b = heap m !! b;
}.
Lemma tidied_refl refs m : tidied refs m m.
Proof. done. Qed.
Lemma tidied_trans refs m m1 m2 : tidied refs m m1 -> tidied refs m1 m2 -> tidied refs m m2.
Proof.
  intros [A1 A2 A3] [B1 B2 B3]. split; [congruence|congruence|]. intros b Hb. by rewrite B3, A3.
Qed.
Lemma unseen_bookkeeping w m : hist_ok w -> quiet m = quiet (now w) -> classes m = classes (now w) ->
  heap m = heap (now w) -> unseen w (push m w).
Proof. intros H Hq Hc Hh. apply unseen_push; [done|done|by rewrite Hc|by rewrite Hh]. Qed.

Lemma core_tidied refs m m' : core m -> tidied refs m m' -> garbage_ok m refs -> core m'.
Proof.
  intros C [E1 E2 E3] G. apply (core_same _ m); try done.
  - intros b Hb. apply E3. intros Hin. by apply (garbage_private _ _ G b Hin).
  - intros cls c Hc. apply E3. intros Hin. by apply (garbage_unused _ _ G _ _ _ Hin Hc).
Qed.

Lemma garbage_tidied refs m m' : garbage_ok m refs -> tidied [] m m' -> garbage_ok m' refs.
Proof.
  intros [G1 G2 G3 G4] [T1 T2 T3]. split; [done| | |].
  - intros g Hg. rewrite T3 by set_solver. auto.
  - unfold shared. rewrite T2. auto.
  - rewrite T1. auto.
Qed.
Lemma garbage_ok_nil m : garbage_ok m [].
Proof. split; [constructor|..]; set_solver. Qed.
Lemma core_bookkeeping m m' : core m -> tidied [] m m' -> core m'.
Proof. intros C T. eapply core_tidied; [done..|]. apply garbage_ok_nil. Qed.
Lemma wf_bookkeeping m m' : wf m -> tidied [] m m' -> garbage_refs m' = garbage_refs m -> room m' -> wf m'.
Proof.
  intros [C G R] T E R'. split; [by eapply core_bookkeeping| |done]. rewrite E. by eapply garbage_tidied.
Qed.

Lemma wp_dispose n (Q : unit -> world -> Prop) w : hist_ok w -> length (garbage_refs (now w)) = n ->
  NoDup (garbage_refs (now w)) ->
  (forall g, g ∈ garbage_refs (now w) -> is_Some (heap (now w) !! g) /\ ~ held w g) ->
  (forall w', unseen w w' -> tidied (garbage_refs (now w)) (now w) (now w') -> garbage_refs (now w') = [] ->
    garbage_first (now w') = garbage_first (now w) -> garbage_max (now w') = garbage_max (now w) -> Q tt w') ->
  wp (dispose n) Q w.
Proof.
  revert w Q. induction n as [|n IH]; intros w Q H Hl Hnd Hg HQ.
  - apply wp_ret, HQ; [by apply unseen_refl|done|by apply nil_length_inv|done|done].
  - cbn [dispose]. apply wp_bind, wp_get.
    destruct (garbage_refs (now w) !! n) as [dead|] eqn:Ed; [|apply lookup_ge_None_1 in Ed; lia].
    assert (Hsplit : garbage_refs (now w) = take n (garbage_refs (now w)) ++ [dead]).
    { rewrite <- (take_drop n (garbage_refs (now w))) at 1. f_equal. rewrite (drop_S _ dead n) by done. by rewrite drop_ge by lia. }
    rewrite Hsplit in Hnd, Hg. apply NoDup_app in Hnd as (Hnd & Hdis & _).
    destruct (Hg dead) as [[blk Hblk] Hu]; [set_solver|].
    apply wp_bind, wp_store. set (w1 := World _ _). apply wp_bind. unfold free. apply wp_bind, wp_get.
    change (heap (now w1)) with (heap (now w)). rewrite Hblk. apply wp_store. set (w2 := World _ _).
    assert (U1 : unseen w w1) by by apply unseen_bookkeeping.
    assert (U2 : unseen w1 w2).
    { apply unseen_push; [apply U1|done|done|]. intros b Hb. cbn. rewrite lookup_delete_ne; [done|]. intros <-.
      by apply (unseen_held _ _ U1) in Hb. }
    pose proof (unseen_trans _ _ _ U1 U2) as U.
    apply IH.
    + apply U.
    + cbn. rewrite length_take. lia.
    + done.
    + intros g Hgt. cbn in Hgt. destruct (Hg g) as [Hs Hh]; [set_solver|]. rewrite (unseen_held _ _ U). split; [|done].
      cbn. rewrite lookup_delete_ne; [done|]. intros <-. apply (Hdis dead Hgt). set_solver.
    + intros w' U' T Hn Hf Hx. apply HQ; [by eapply unseen_trans| |done|done|done].
      apply tidied_trans with (now w2).
      * split; [done|done|]. intros b Hb. cbn. rewrite lookup_delete_ne; [done|]. intros <-. apply Hb. rewrite Hsplit. set_solver.
      * destruct T as [T1 T2 T3]. split; [done|done|]. intros b Hb. apply T3. cbn. intros Hin. apply Hb. rewrite Hsplit. set_solver.
Qed.

(** The end of a collection, when no reader holds garbage. *)
Lemma wp_collect (Q : unit -> world -> Prop) w : hist_ok w -> core (now w) -> garbage_ok (now w) (garbage_refs (now w)) ->
  (if garbage_first (now w) then True else 128 <= garbage_max (now w)) ->
  (forall b, held w b -> refers k (now w) b) ->
  (forall w', inv w' -> tidied (garbage_refs (now w)) (now w) (now w') -> Q tt w') -> wp collect Q w.
Proof.
  intros H C G Hr Hh HQ. apply wp_bind, wp_get, wp_bind. apply wp_dispose; [done|done|apply G| |].
  { intros g Hg. split; [by apply (garbage_block _ _ G)|]. intros (c & Hc & Hb)%Hh. by apply (garbage_unused _ _ G _ _ _ Hg Hc). }
  intros w' U T Hn Hf Hx. apply wp_bind, wp_get, wp_store. set (w2 := World _ _).
  assert (T2 : tidied (garbage_refs (now w)) (now w) (now w2)) by by (destruct T as [? ? ?]; split).
  assert (U2 : unseen w w2) by (eapply unseen_trans; [done|]; apply unseen_bookkeeping; [apply U|done..]).
  apply HQ; [|done]. split; [split| |].
  - by eapply core_tidied.
  - apply garbage_ok_nil.
  - unfold room. cbn. rewrite Hf, Hx. destruct (garbage_first (now w)); [done|]. split; [lia|done].
  - apply U2.
  - intros b Hb. left. apply (unseen_held _ _ U2) in Hb. destruct (Hh b Hb) as (c & Hc & Hbc).
    exists c. split; [|done]. by rewrite (unseen_class _ _ U2).
Qed.

(** [_collecting_in_critical] *)
Lemma wp_collecting (Q : bool -> world -> Prop) w : inv w ->
  (forall w', inv w' -> tidied [] (now w) (now w') -> garbage_refs (now w') = garbage_refs (now w) ->
     in_critical (asked (now w)) = true -> asked (now w') = S (asked (now w)) -> Q true w') ->
  (forall w', hist_ok w' -> core (now w') -> garbage_ok (now w') (garbage_refs (now w')) -> room (now w') ->
     (forall b, held w' b -> refers k (now w') b) -> tidied [] (now w) (now w') ->
     garbage_refs (now w') = garbage_refs (now w) -> Q false w') ->
  wp _collecting_in_critical Q w.
Proof.
  intros I HT HF. apply wp_bind, wp_get, wp_bind, wp_store, wp_ret.
  pose proof (inv_wf _ _ _ I) as Hwf. destruct (in_critical _) eqn:Eq.
  - apply HT; [|done..]. apply (inv_frame _ _ w _ I); [by apply (wf_bookkeeping (now w)); [|..|apply Hwf]|done..|auto|auto].
  - set (w2 := World _ _). destruct (hist_quiet valid k w (now w2)) as [H1 H2]; [apply I|cbn; lia|done|done|].
    apply HF; try done; [by apply (core_bookkeeping (now w)); [apply Hwf|]|by eapply garbage_tidied; [apply Hwf|]|apply Hwf].
Qed.
Lemma room_max m : room m -> if garbage_first m then True else 128 <= garbage_max m.
Proof. unfold room. destruct (garbage_first m); [done|]. by intros [_ ?]. Qed.

Lemma wp_collectNolock fuel all (Q : unit -> world -> Prop) w : inv w ->
  (all = true -> (forall d, (d < fuel)%nat -> in_critical (asked (now w) + d)%nat = true) -> allowed OutOfFuel) ->
  (forall w', inv w' -> tidied (garbage_refs (now w)) (now w) (now w') -> Q tt w') -> wp (collectNolock fuel all) Q w.
Proof.
  intros I Hfuel HQ.
  assert (Hsub : forall m refs, tidied [] (now w) m -> tidied refs (now w) m).
  { intros m refs [T1 T2 T3]. split; [done|done|]. intros b _. apply T3. set_solver. }
  assert (Hcol : forall w', hist_ok w' -> core (now w') -> garbage_ok (now w') (garbage_refs (now w')) -> room (now w') ->
     (forall b, held w' b -> refers k (now w') b) -> tidied [] (now w) (now w') ->
     garbage_refs (now w') = garbage_refs (now w) -> wp collect Q w').
  { intros w' H C G R Hh T Hg. apply wp_collect; [done|done|done|by apply room_max|done|].
    intros w2 I2 T2. apply HQ; [done|]. eapply tidied_trans; [by apply Hsub|]. by rewrite <- Hg. }
  apply wp_bind, wp_get. destruct (_ && _); [by apply wp_ret, HQ|]. destruct all; cbn [negb].
  - apply wp_bind. specialize (Hfuel eq_refl). clear HQ.
    assert (Hloop : forall w', inv w' -> tidied [] (now w) (now w') -> garbage_refs (now w') = garbage_refs (now w) ->
      ((forall d, (d < fuel)%nat -> in_critical (asked (now w') + d)%nat = true) -> allowed OutOfFuel) ->
      wp (wait_for_readers fuel) (fun _ => wp collect Q) w'); [|by apply Hloop].
    clear Hfuel. induction fuel as [|fuel IH]; intros w' I' T' Hg' Hfuel; [apply wp_fail, Hfuel; lia|].
    cbn [wait_for_readers]. apply wp_bind, wp_collecting; [done| |].
    + intros w2 I2 T2 Hg2 Hbusy Hasked. apply IH; [done|by eapply tidied_trans|congruence|].
      intros Hd. apply Hfuel. intros [|d] Hlt; [by rewrite Nat.add_0_r|]. rewrite <- Nat.add_succ_comm, <- Hasked. apply Hd. lia.
    + intros w2 H C G R Hh T Hg. apply wp_ret, Hcol; try done; [by eapply tidied_trans|congruence].
  - apply wp_bind, wp_collecting; [done| |].
    + intros w2 I2 T2 Hg2 _ _. apply wp_ret, HQ; [done|by apply Hsub].
    + intros w2 H C G R Hh T Hg. by apply Hcol.
Qed.

(** [collect_free]: [data] is not referred to any more. *)
Lemma wp_collect_free data cap (Q : unit -> world -> Prop) w : hist_ok w -> core (now w) ->
  garbage_ok (now w) (garbage_refs (now w) ++ [data]) -> room (now w) ->
  (forall b, held w b -> refers k (now w) b \/ shared (now w) b \/ b ∈ garbage_refs (now w) ++ [data]) ->
  (forall w', inv w' -> tidied (garbage_refs (now w) ++ [data]) (now w) (now w') -> Q tt w') ->
  wp (collect_free data cap) Q w.
Proof.
  intros H C G R Hh HQ. apply wp_bind.
  assert (Hroom : wp _garbage_make_room (fun _ w' => exists max bytes,
     now w' = set_garbage (garbage_refs (now w)) false max bytes (now w) /\
     Z.of_nat (length (garbage_refs (now w))) < max /\ 128 <= max /\ unseen w w') w).
  { apply wp_bind, wp_get. unfold room in R. destruct (garbage_first (now w)) eqn:Ef.
    - apply wp_store. eexists _, _. split; [done|]. rewrite R. unfold INIT_GARBAGE_COUNT. cbn. split; [lia|]. split; [lia|]. by apply unseen_bookkeeping.
    - destruct (Z.eqb_spec (Z.of_nat (length (garbage_refs (now w)))) (garbage_max (now w))).
      + apply wp_store. eexists _, _. split; [done|]. split; [lia|]. split; [lia|]. by apply unseen_bookkeeping.
      + apply wp_ret. exists (garbage_max (now w)), (garbage_byte_size (now w)). split; [|split; [lia|split; [lia|by apply unseen_refl]]].
        unfold set_garbage. rewrite <- Ef. by destruct (now w). }
  eapply wp_mono; [exact Hroom|]. intros _ w1 (max & bytes & E1 & Hmax & H128 & U1).
  apply wp_bind, wp_get, wp_bind, wp_check; [rewrite E1; cbn; by apply Z.ltb_lt|].
  apply wp_bind, wp_store. set (w2 := World _ _).
  assert (U2 : unseen w w2) by (eapply unseen_trans; [done|]; apply unseen_bookkeeping; [apply U1|done..]).
  assert (Eg : garbage_refs (now w2) = garbage_refs (now w) ++ [data]) by (cbn; by rewrite E1).
  assert (T2 : tidied [] (now w) (now w2)) by (unfold w2; cbn; rewrite E1; done).
  assert (I2 : inv w2).
  { split; [split| |].
    - by eapply core_bookkeeping.
    - rewrite Eg. by eapply garbage_tidied.
    - unfold room. cbn. rewrite E1. cbn. rewrite length_app. cbn. lia.
    - apply U2.
    - intros b Hb. apply (unseen_held _ _ U2) in Hb. unfold shared, refers. rewrite Eg.
      rewrite (tidied_classes _ _ _ T2), (tidied_list _ _ _ T2). by apply Hh. }
  apply wp_collectNolock; [done|done|]. intros w3 I3 T3. apply HQ; [done|]. rewrite Eg in T3.
  eapply tidied_trans; [|done]. destruct T2 as [? ? T4]. split; [done|done|]. intros b _. apply T4. set_solver.
Qed.
End Writers.
