(* ===== verification/MethodCacheOps.v ===== *)
(** * Filling, erasing and freeing method caches

    The operations of [cache_t] from the ones of MethodCacheWriters.v: each keeps
    [inv], and what it does to the contents of every cache. *)

From stdpp Require Import prelude numbers list gmap fin_maps.
From Stdlib Require Import ZArith Lia Bool.
From S2P Require Import Prelude ObjcOS MethodCache MethodCacheTheory MethodCacheHistory MethodCacheWriters.

Section Ops.
Context `{Env : CacheEnv} {EnvOk : CacheEnvOk} (valid : Z -> Z -> Z -> Prop) (k : Z).
Context (allowed : fault -> Prop) (alloc_allowed : allowed AllocationFailed).

Notation wp := (wp allowed).
Notation hist_ok := (hist_ok valid k).
Notation held := (held k).
Notation inv := (inv valid k).
Notation wf := (wf valid).
Notation core := (core valid).
Notation unseen := (unseen valid k).
Notation stored := (stored valid k).

Lemma inv_unseen w w' : inv w -> unseen w w' -> wf (now w') -> (forall b, shared (now w) b -> shared (now w') b) ->
  (forall b, b ∈ garbage_refs (now w) -> b ∈ garbage_refs (now w')) -> inv w'.
Proof.
  intros I U Hwf Hs Hg. split; [done|apply U|]. intros b Hb. apply (unseen_held _ _ _ _ U) in Hb.
  destruct (inv_held _ _ _ I b Hb) as [H|[H|H]]; [left|right; left; by apply Hs|right; right; by apply Hg].
  apply (refers_eq _ (now w)); [|done]. by apply (unseen_class _ _ _ _ U).
Qed.

(** ** More blocks *)
Lemma wf_alloc m a blk : wf m -> heap m !! a = None -> wf (set_heap <[a := blk]> m).
Proof.
  intros [C G R] Ha.
  assert (Hn : forall b, is_Some (heap m !! b) -> heap (set_heap <[a := blk]> m) !! b = heap m !! b).
  { intros b [x Hb]. cbn. rewrite lookup_insert_ne; [done|]. intros <-. congruence. }
  split; [|split|done].
  - apply (core_same _ m); try done.
    + intros b Hb. apply Hn. destruct (shared_zeros _ _ (core_blocks _ _ C) Hb) as [n E]. by exists (zeros n).
    + intros cls c Hc. apply Hn. destruct (cache_block _ _ _ _ (core_blocks _ _ C) (core_class _ _ C _ _ Hc)) as (x & E & _). by exists x.
  - apply G.
  - intros g Hg. rewrite Hn; by apply (garbage_block _ _ G).
  - apply G.
  - apply G.
Qed.
Lemma found_extended m r cap : emptyBucketsFound m cap <> 0 ->
  emptyBucketsFound (set_emptyBucketsList (emptyBucketsList m ++ r) m) cap = emptyBucketsFound m cap.
Proof.
  unfold emptyBucketsFound. cbn. destruct (_ <=? _); [done|].
  destruct (emptyBucketsList m !! _) as [b|] eqn:E; [|done]. intros _. by rewrite (lookup_app_l_Some _ _ _ _ E).
Qed.
(** The list of empty buckets grows to capacity [2^j]. *)
Lemma wf_extend m a j : wf m -> storable a -> 0 <= j <= 16 -> heap m !! a = Some (zeros (Z.to_nat (2 ^ j))) ->
  (forall cls c, classes m !! cls = Some c -> buckets c <> a) -> a ∉ garbage_refs m ->
  wf (set_emptyBucketsList (emptyBucketsList m ++ replicate (S (Z.to_nat j) - length (emptyBucketsList m)) a) m).
Proof.
  intros [C G R] Ha Hj Hb Hc Hg. set (m' := set_emptyBucketsList _ m).
  assert (Hs : forall b, shared m' b -> shared m b \/ b = a).
  { intros b [->|Hin]; [left; by left|]. cbn in Hin. apply elem_of_app in Hin as [Hin|Hin]; [left; by right|].
    apply elem_of_replicate in Hin as [-> _]. by right. }
  assert (Hs' : forall b, shared m b -> shared m' b).
  { intros b [->|Hin]; [by left|]. right. cbn. apply elem_of_app. by left. }
  destruct C as [B Cc D W]. split; [split; [split| | |done]|split|done].
  - apply B.
  - intros i b Hi. cbn in Hi. apply lookup_app_Some in Hi as [Hi|[Hl Hi]]; [by apply B|].
    apply lookup_replicate in Hi as [-> Hi]. split; [done|]. exists (Z.to_nat (2 ^ j)). split; [done|].
    pose proof (pow2_pos j ltac:(lia)). rewrite Z2Nat.id by lia. split; [apply Z.pow_le_mono_r; lia|].
    change 65536 with (2 ^ 16). apply Z.pow_le_mono_r; lia.
  - intros cls c E. destruct (Cc _ _ E) as [i Hm Ho Hbk Hn|i occ blk Hm Hi Ho Hbk Hsh Hn T].
    + eapply cache_empty; [done|done| |done]. rewrite Hbk in Hn |- *. symmetry. by apply found_extended.
    + eapply cache_table; try done. intros [Hx|Hx]%Hs; [done|]. by apply (Hc cls c).
  - intros c1 c2 x1 x2 E1 E2 E. destruct (D _ _ _ _ E1 E2 E) as [?|Hx]; [by left|right; by apply Hs'].
  - apply G.
  - apply G.
  - intros g Hin [Hx| ->]%Hs; [by apply (garbage_private _ _ G g)|done].
  - apply G.
Qed.

(** ** Empty buckets *)
Lemma wp_empty_find cap (Q : Z -> world -> Prop) w : Q (emptyBucketsFound (now w) cap) w ->
  wp (emptyBucketsForCapacity cap false) Q w.
Proof.
  intros HQ. apply wp_bind, wp_get. unfold emptyBucketsFound in HQ. destruct (_ <=? EMPTY_BYTES); [by apply wp_ret|].
  destruct (Nat.leb_spec (length (emptyBucketsList (now w))) (Z.to_nat (log2u (wrap mask_bits cap)))) as [Hl|Hl].
  - rewrite lookup_ge_None_2 in HQ by done. by apply wp_ret.
  - destruct (emptyBucketsList (now w) !! _) as [b|] eqn:E; [by apply wp_ret|]. apply lookup_ge_None_1 in E. lia.
Qed.
Lemma wp_isConstantEmpty c (Q : bool -> world -> Prop) w :
  Q ((occupied c =? 0) && (buckets c =? emptyBucketsFound (now w) (capacity c))) w -> wp (isConstantEmptyCache c) Q w.
Proof.
  intros HQ. unfold isConstantEmptyCache. destruct (occupied c =? 0); [|by apply wp_ret].
  apply wp_bind, wp_empty_find, wp_ret. done.
Qed.
(** The test recognises exactly the shared blocks. *)
Lemma constant_empty_cases m cls c : core m -> classes m !! cls = Some c ->
  let e := (occupied c =? 0) && (buckets c =? emptyBucketsFound m (capacity c)) in
  (e = true /\ shared m (buckets c) /\ occupied c = 0 /\ exists j, is_mask j (mask c) /\
     capacity c = if decide (j = 0) then 0 else 2 ^ j) \/
  (e = false /\ ~ shared m (buckets c) /\ exists j occ blk, is_mask j (mask c) /\ 1 <= j /\ capacity c = 2 ^ j /\
     occupied c = Z.of_nat occ /\ heap m !! buckets c = Some blk /\ table valid cls (buckets c) j occ blk).
Proof.
  intros C Hc e. destruct (core_class _ _ C _ _ Hc) as [j Hm Ho Hb Hn|j occ blk Hm Hj Ho Hb Hs Hn T].
  - left. unfold e. rewrite Ho, <- Hb, !Z.eqb_refl. split; [done|]. split.
    + eapply found_shared; [apply C|by exists j|done|done].
    + split; [done|]. exists j. split; [done|]. by apply capacity_mask.
  - right. pose proof (capacity_mask j c Hm) as Ec. destruct (decide (j = 0)) as [|Hj0]; [lia|]. split; [|split; [done|]].
    + unfold e. apply andb_false_intro2, Z.eqb_neq. intros E. apply Hs.
      assert (Hf : buckets c = emptyBucketsFound m (if decide (j = 0) then 0 else 2 ^ j)) by (rewrite E, Ec; by destruct (decide _)).
      rewrite Hf. apply (found_cases m j); [apply C|apply Hm|]. by rewrite <- Hf.
    + exists j, occ, blk. done.
Qed.

(** Blocks that exist stay, and whether they are shared. *)
Record extended (m m' : mem) : Prop := {
  extended_classes : classes m' = classes m;
  extended_garbage : garbage_refs m' = garbage_refs m;
  extended_heap b : is_Some (heap m !! b) -> heap m' !! b = heap m !! b;
  extended_shared b : is_Some (heap m !! b) -> shared m' b <-> shared m b;
}.
Lemma wp_empty_make j (Q : Z -> world -> Prop) w : inv w -> 1 <= j -> min_log <= j <= max_log ->
  (forall w', inv w' -> extended (now w) (now w') -> emptyBucketsFound (now w') (2 ^ j) <> 0 ->
     Q (emptyBucketsFound (now w') (2 ^ j)) w') ->
  wp (emptyBucketsForCapacity (2 ^ j) true) Q w.
Proof.
  intros I Hj1 Hj HQ. pose proof (pow_log j Hj) as Hp. pose proof (log_range j Hj).
  pose proof (inv_wf _ _ _ I) as [C G R].
  assert (Elog : log2u (2 ^ j) = j) by (rewrite log2u_correct by lia; by apply Z.log2_pow2; lia).
  assert (Hext : extended (now w) (now w)) by done.
  assert (Hsh : forall m b, shared m b -> blocks_ok m -> b <> 0).
  { intros m b [->|Hin] B; [apply empty_storable|]. apply list_elem_of_lookup_1 in Hin as [i Hi]. by destruct (blocks_list _ B i b Hi) as ((? & _) & _). }
  unfold emptyBucketsForCapacity. rewrite wrap_mask_bits by lia. rewrite Elog, bytes_for by done.
  assert (Hfound : forall m, blocks_ok m -> (j < Z.of_nat (length (emptyBucketsList m)) \/ sizeof_bucket * 2 ^ j <= EMPTY_BYTES) ->
    (if sizeof_bucket * 2 ^ j <=? EMPTY_BYTES then emptyBuckets else default 0 (emptyBucketsList m !! Z.to_nat j)) =
      emptyBucketsFound m (2 ^ j) /\ emptyBucketsFound m (2 ^ j) <> 0).
  { intros m B Hin. unfold emptyBucketsFound. rewrite wrap_mask_bits, bytes_for by (done || lia). rewrite Elog.
    split; [done|]. destruct (Z.leb_spec (sizeof_bucket * 2 ^ j) EMPTY_BYTES).
    - rewrite emptyBuckets_block. apply empty_storable.
    - destruct (emptyBucketsList m !! Z.to_nat j) as [b|] eqn:Eb; [|apply lookup_ge_None_1 in Eb; lia].
      cbn. apply (Hsh m); [right; by eapply list_elem_of_lookup_2|done]. }
  apply wp_bind, wp_get. destruct (Z.leb_spec (sizeof_bucket * 2 ^ j) EMPTY_BYTES) as [Hle|Hgt].
  { destruct (Hfound (now w) (core_blocks _ _ C)) as [E Hn]; [by right|]. apply wp_ret. rewrite E. by apply HQ. }
  destruct (Nat.leb_spec (length (emptyBucketsList (now w))) (Z.to_nat j)) as [Hl|Hl].
  - cbn [negb]. apply wp_bind, wp_calloc; [done|lia|]. intros a Ha Hnone. set (w1 := push _ w).
    apply wp_bind, wp_store. set (w2 := World _ _).
    assert (U1 : unseen w w1) by (apply unseen_block; [apply I|]; eapply absent_unheld; [apply I|done]).
    assert (U : unseen w w2) by (eapply unseen_trans; [done|]; apply unseen_bookkeeping; [apply U1|done..]).
    assert (Hin : forall b, is_Some (heap (now w) !! b) -> b <> a) by (intros b [x E] ->; congruence).
    assert (W2 : wf (now w2)).
    { apply (wf_extend (now w1) a j); [by apply wf_alloc; [apply I|]|done|lia|apply lookup_insert_eq| |].
      - intros cls c Hc. apply Hin. destruct (cache_block _ _ _ _ (core_blocks _ _ C) (core_class _ _ C _ _ Hc)) as (x & E & _). by exists x.
      - intros Hg. apply (Hin a); [|done]. by apply (garbage_block _ _ G). }
    assert (X : extended (now w) (now w2)).
    { split; [done|done| |].
      - intros b Hb. cbn. rewrite lookup_insert_ne; [done|]. symmetry. by apply Hin.
      - intros b Hb. unfold shared. cbn. rewrite elem_of_app, elem_of_replicate. specialize (Hin b Hb). naive_solver. }
    assert (I2 : inv w2).
    { eapply inv_unseen; [done..| |done]. intros b Hb. apply (extended_shared _ _ X); [|done].
      destruct (shared_zeros _ _ (core_blocks _ _ C) Hb) as [n E]. by exists (zeros n). }
    destruct (Hfound (now w2) (core_blocks _ _ (wf_core _ _ W2))) as [E Hn].
    { left. cbn. rewrite length_app, length_replicate. lia. }
    assert (Eb : (emptyBucketsList (now w) ++ replicate (S (Z.to_nat j) - length (emptyBucketsList (now w))) a) !! Z.to_nat j = Some a).
    { rewrite lookup_app_r by done. apply lookup_replicate_2. lia. }
    assert (Ea : emptyBucketsFound (now w2) (2 ^ j) = a).
    { rewrite <- E. destruct (Z.leb_spec (sizeof_bucket * 2 ^ j) EMPTY_BYTES); [lia|].
      change (emptyBucketsList (now w2)) with (emptyBucketsList (now w) ++ replicate (S (Z.to_nat j) - length (emptyBucketsList (now w))) a).
      by rewrite Eb. }
    rewrite Eb. apply wp_ret. rewrite <- Ea. by apply HQ.
  - destruct (Hfound (now w) (core_blocks _ _ C)) as [E Hn]; [left; lia|].
    destruct (Z.leb_spec (sizeof_bucket * 2 ^ j) EMPTY_BYTES); [lia|].
    destruct (emptyBucketsList (now w) !! Z.to_nat j) as [b|] eqn:Eb; [|apply lookup_ge_None_1 in Eb; lia].
    apply wp_ret. cbn in E. rewrite E. by apply HQ.
Qed.

(** ** Replacing the buckets of a class *)
(** What holds when a class has got other buckets: its old ones are not referred
    to any more. *)
Record published (cls : Z) (c : cache_t) (w w' : world) : Prop := {
  published_core : core (now w');
  published_garbage : garbage_ok (now w') (garbage_refs (now w));
  published_room : room (now w');
  published_held b : held w' b ->
    refers k (now w') b \/ shared (now w') b \/ b ∈ garbage_refs (now w) \/ b = buckets c;
  published_old : ~ shared (now w) (buckets c) -> garbage_ok (now w') (garbage_refs (now w) ++ [buckets c]);
}.
Lemma publish cls c c' w w' : inv w -> classes (now w) !! cls = Some c -> stored cls c' w w' ->
  cache_ok valid (now w') cls c' -> word_ok c' -> buckets c' ∉ garbage_refs (now w) -> buckets c' <> buckets c \/ shared (now w) (buckets c) ->
  (forall cls2 c2, cls2 <> cls -> classes (now w) !! cls2 = Some c2 -> buckets c2 = buckets c' -> shared (now w) (buckets c')) ->
  published cls c w w'.
Proof.
  intros I Hc S Hok Hw Hg Hne Hd. pose proof (inv_wf _ _ _ I) as [C G R].
  pose proof (stored_now _ _ _ _ _ _ S) as E.
  assert (Ecls : classes (now w') = <[cls := c']> (classes (now w))) by by rewrite E.
  assert (G' : garbage_ok (now w') (garbage_refs (now w))).
  { rewrite E. destruct G as [G1 G2 G3 G4]. split; [done|done|done|]. intros g cls2 c2 Hin. cbn.
    destruct (decide (cls = cls2)) as [<-|Hn].
    - rewrite lookup_insert_eq. intros [= <-] <-. done.
    - rewrite lookup_insert_ne by done. by apply G4. }
  split.
  - eapply core_update; [done|done|by rewrite E|by rewrite E|by rewrite E|done|done|done].
  - done.
  - by rewrite E.
  - intros b Hb. assert (Hs : forall x, shared (now w) x -> shared (now w') x) by by rewrite E.
    destruct (stored_held _ _ _ _ _ _ S b Hb) as [Hb'|[<- ->]].
    + destruct (inv_held _ _ _ I b Hb') as [(c0 & E0 & <-)|[H|H]]; [|right; left; by apply Hs|auto].
      destruct (decide (cls = k)) as [<-|Hn]; [right; right; right; congruence|]. left. exists c0. split; [|done].
      rewrite Ecls. by rewrite lookup_insert_ne.
    + left. exists c'. split; [|done]. rewrite Ecls. apply lookup_insert_eq.
  - intros Hns. destruct Hne as [Hne|?]; [|done]. destruct G' as [G1 G2 G3 G4].
    assert (Hold : buckets c ∉ garbage_refs (now w)).
    { intros Hin. by apply (garbage_unused _ _ G _ _ _ Hin Hc). }
    split.
    + apply NoDup_app. split; [done|]. split; [|apply NoDup_singleton]. intros x Hx ->%list_elem_of_singleton. done.
    + intros g [Hin| ->%list_elem_of_singleton]%elem_of_app; [by apply G2|]. rewrite E. cbn.
      destruct (cache_block _ _ _ _ (core_blocks _ _ C) (core_class _ _ C _ _ Hc)) as (x & Ex & _). by exists x.
    + intros g [Hin| ->%list_elem_of_singleton]%elem_of_app; [by apply G3|]. by rewrite E.
    + intros g cls2 c2 [Hin| ->%list_elem_of_singleton]%elem_of_app Hc2; [by apply (G4 g cls2 c2)|].
      rewrite Ecls in Hc2. destruct (decide (cls = cls2)) as [<-|Hn].
      * rewrite lookup_insert_eq in Hc2. by injection Hc2 as <-.
      * rewrite lookup_insert_ne in Hc2 by done. intros Eb.
        destruct (core_disjoint _ _ C _ _ _ _ Hc2 Hc Eb) as [?|Hs]; [done|]. apply Hns. by rewrite <- Eb.
Qed.
(** The old buckets were shared, or become garbage. *)
Lemma published_inv cls c c' w w' : inv w -> stored cls c' w w' -> published cls c w w' ->
  shared (now w) (buckets c) -> inv w'.
Proof.
  intros I S [C G R H _] Hs. pose proof (stored_now _ _ _ _ _ _ S) as E. split; [split| |].
  - done.
  - by rewrite E in G |- *.
  - done.
  - apply S.
  - intros b Hb. destruct (H b Hb) as [?|[?|[?| ->]]]; [auto|auto|right; right; by rewrite E|right; left; by rewrite E].
Qed.
Lemma wp_published_free cls c c' cap (Q : unit -> world -> Prop) w w' : stored cls c' w w' -> published cls c w w' ->
  ~ shared (now w) (buckets c) ->
  (forall w2, inv w2 -> tidied (garbage_refs (now w) ++ [buckets c]) (now w') (now w2) -> Q tt w2) ->
  wp (collect_free (buckets c) cap) Q w'.
Proof.
  intros S [C G R H Hold] Hs HQ. pose proof (stored_now _ _ _ _ _ _ S) as E.
  assert (Eg : garbage_refs (now w') = garbage_refs (now w)) by by rewrite E.
  eapply wp_collect_free; rewrite ?Eg; [done|apply S|done|by apply Hold|done| |done].
  intros b Hb. destruct (H b Hb) as [?|[?|[?| ->]]]; [auto|auto| |]; right; right; set_solver.
Qed.

(** A class has got a new table. *)
Record replaced (cls j : Z) (c c' : cache_t) (w w' : world) : Prop := {
  replaced_classes : classes (now w') = <[cls := c']> (classes (now w));
  replaced_list : emptyBucketsList (now w') = emptyBucketsList (now w);
  replaced_mask : mask c' = 2 ^ j - 1;
  replaced_occupied : occupied c' = 0;
  replaced_block : heap (now w') !! buckets c' = Some (fresh (buckets c') j);
  replaced_fresh : heap (now w) !! buckets c' = None;
  replaced_storable : storable (buckets c');
  replaced_heap b : b <> buckets c' -> b <> buckets c \/ shared (now w) (buckets c) ->
    b ∉ garbage_refs (now w) -> heap (now w') !! b = heap (now w) !! b;
}.
Lemma wp_reallocate cls c j cap freeOld (Q : unit -> world -> Prop) w : inv w -> classes (now w) !! cls = Some c ->
  1 <= j -> min_log <= j <= max_log -> mask c <= 2 ^ j - 1 ->
  (if freeOld : bool then ~ shared (now w) (buckets c) else shared (now w) (buckets c)) ->
  (forall c' w', inv w' -> replaced cls j c c' w w' -> Q tt w') ->
  wp (reallocate cls cap (2 ^ j) freeOld) Q w.
Proof.
  intros I Hc Hj1 Hj Hm Hold HQ. pose proof (pow_log j Hj) as Hp. pose proof (inv_wf _ _ _ I) as [C G R].
  assert (2 <= 2 ^ j) by (apply (Z.pow_le_mono_r 2 1 j); lia).
  unfold reallocate. rewrite !wrap_mask_bits by lia.
  apply wp_bind. eapply wp_load_cache; [done|]. apply wp_bind. apply (wp_allocateBuckets valid k); [done|done|apply I| |].
  { by rewrite (blocks_empty _ (core_blocks _ _ C)). }
  intros a w1 Ha Hnone E1 U1.
  assert (I1 : inv w1) by (eapply inv_unseen; [done..| | |]; rewrite E1; [by apply wf_alloc; [apply I|]|done|done]).
  assert (Hc1 : classes (now w1) !! cls = Some c) by by rewrite E1.
  assert (Ea : heap (now w1) !! a = Some (fresh a j)) by (rewrite E1; apply lookup_insert_eq).
  assert (Hin : forall b, is_Some (heap (now w) !! b) -> b <> a) by (intros b [x E] ->; congruence).
  assert (Hsh : forall b, shared (now w1) b <-> shared (now w) b) by by rewrite E1.
  assert (Hgr : garbage_refs (now w1) = garbage_refs (now w)) by by rewrite E1.
  assert (Hna : ~ shared (now w) a).
  { intros Hs. destruct (shared_zeros _ _ (core_blocks _ _ C) Hs) as [n E]. congruence. }
  pose proof (fresh_table valid cls a j Hj) as T.
  apply wp_bind, wp_check; [apply Z.ltb_lt; lia|]. apply wp_bind, wp_check; [by apply Z.eqb_refl|].
  assert (Hw : word_ok c) by by apply (core_word _ _ C cls).
  apply wp_bind. eapply (wp_setBucketsAndMask valid k); [apply I1|done|done|done|done|done| |].
  { intros _. exists (fresh a j). split; [done|]. split; [rewrite (table_length _ _ _ _ _ _ T); lia|].
    eapply readable_table; [done|]. by apply fresh_table. }
  intros c' w2 Eb Em Eo Hw' S. pose proof (stored_now _ _ _ _ _ _ S) as E2. subst a.
  assert (Hold' : is_Some (heap (now w) !! buckets c)).
  { destruct (cache_block _ _ _ _ (core_blocks _ _ C) (core_class _ _ C _ _ Hc)) as (x & Ex & _). by exists x. }
  assert (P : published cls c w1 w2).
  { eapply (publish cls c c'); [done|done|done| |done| | |].
    - eapply (cache_table _ _ _ _ j 0); [done|done|done|by rewrite E2|rewrite E2; cbn; by rewrite E1|apply Ha|done].
    - rewrite Hgr. intros Hg. destruct (garbage_block _ _ G _ Hg) as [x Ex]. congruence.
    - left. intros E. by apply (Hin (buckets c)).
    - intros cls2 c2 _ Hc2 E. exfalso. rewrite E1 in Hc2. apply (Hin (buckets c2)); [|done].
      destruct (cache_block _ _ _ _ (core_blocks _ _ C) (core_class _ _ C _ _ Hc2)) as (x & Ex & _). by exists x. }
  assert (Hrep : forall w3 refs, tidied refs (now w2) (now w3) -> buckets c' ∉ refs ->
    (forall b, b <> buckets c \/ shared (now w) (buckets c) -> b ∉ garbage_refs (now w) -> b ∉ refs) -> replaced cls j c c' w w3).
  { intros w3 refs [T1 T2 T3] Hn Hsub. split; try done.
    - by rewrite T1, E2, E1. - by rewrite T2, E2, E1. - by rewrite T3, E2.
    - intros b Hb Hb2 Hg. rewrite T3 by by apply Hsub. rewrite E2, E1. cbn. by apply lookup_insert_ne. }
  destruct freeOld.
  - eapply wp_published_free; [done|done|by rewrite Hsh|]. intros w3 I3 T3. rewrite Hgr in T3. apply (HQ c' w3); [done|].
    eapply Hrep; [done| |].
    + intros [Hg|Hg%list_elem_of_singleton]%elem_of_app.
      * destruct (garbage_block _ _ G _ Hg) as [x Ex]. congruence.
      * by apply (Hin (buckets c)).
    + intros b [Hb|?] Hg; [|done]. intros [?|?%list_elem_of_singleton]%elem_of_app; done.
  - apply wp_ret, (HQ c' w2); [eapply published_inv; [done..|by rewrite Hsh]|].
    eapply (Hrep w2 []); [done|set_solver|set_solver].
Qed.

(** ** Filling a bucket *)
Lemma readable_insert cls b j occ blk i e e' : min_log <= j <= max_log -> table valid cls b j occ blk -> blk !! i = Some e -> _sel e = 0 ->
  _sel e' = 0 \/ live e' -> coded valid cls b e' -> readable valid cls b (<[i := e']> blk).
Proof.
  intros Hj T Hi He He' Hc. pose proof (readable_table _ _ _ _ _ _ Hj T) as Rd.
  assert (Hcases : forall n x, <[i := e']> blk !! n = Some x -> x = e' \/ blk !! n = Some x).
  { intros n x [(_ & -> & _)|[_ ?]]%list_lookup_insert_Some; [by left|by right]. }
  split.
  - intros n x [->|Hn]%Hcases; [done|by eapply (readable_coded _ _ _ _ Rd)].
  - intros E. right. pose proof (table_end _ _ _ _ _ _ T E) as Hend. pose proof (table_length _ _ _ _ _ _ T) as Hl.
    rewrite length_insert. replace (length blk - 1)%nat with (Z.to_nat (2 ^ j - 1)) by lia.
    rewrite list_lookup_insert_ne; [done|]. intros Eq. rewrite Eq, Hend in Hi. by injection Hi as <-.
  - intros n x E [->|Hn]%Hcases Hs; [destruct He' as [?|Hlv]; [lia|unfold live in Hlv; lia]|by eapply (readable_marker _ _ _ _ Rd)].
  - intros n x [->|Hn]%Hcases; [destruct He' as [?|Hlv]; [by left|right; unfold live in Hlv; lia]|by eapply (readable_sel _ _ _ _ Rd)].
  - rewrite length_insert. apply Rd.
Qed.
Lemma grows_insert (blk : list bucket_t) i e e' : blk !! i = Some e -> _sel e = 0 -> grows blk (<[i := e']> blk).
Proof.
  intros Hi He. split; [by rewrite length_insert|]. intros n x Hn Hx.
  rewrite list_lookup_insert_ne; [done|]. intros <-. rewrite Hi in Hn. by injection Hn as <-.
Qed.

(** A store into the buckets of a class, when only readers of that class see them. *)
Lemma slot_hist cls w b blk blk' : hist_ok w -> (cls <> k -> ~ held w b) -> (cls = k -> refers k (now w) b) ->
  heap (now w) !! b = Some blk -> grows blk blk' -> readable valid cls b blk' ->
  let w' := push (set_heap <[b := blk']> (now w)) w in hist_ok w' /\ forall x, held w' x <-> held w x.
Proof.
  intros H Hne Heq Hb Hg Hr w'. destruct (decide (cls = k)) as [->|Hn].
  - split; [|intros x; by apply held_eq]. eapply hist_slot; try done. by apply Heq.
  - destruct (unseen_block valid k w b blk' H (Hne Hn)) as [_ _ _ H1 H2]. done.
Qed.
(** No reader of the class holds the table of another one. *)
Lemma other_unheld cls c w : inv w -> classes (now w) !! cls = Some c -> ~ shared (now w) (buckets c) ->
  cls <> k -> ~ held w (buckets c).
Proof.
  intros I Hc Hs Hn Hb. pose proof (inv_wf _ _ _ I) as [C G R].
  destruct (inv_held _ _ _ I _ Hb) as [(c' & Hc' & E)|[?|Hg]]; [|done|by apply (garbage_unused _ _ G _ _ _ Hg Hc)].
  destruct (core_disjoint _ _ C _ _ _ _ Hc' Hc E) as [?|Hs']; [done|]. by rewrite E in Hs'.
Qed.

Definition occupy (c : cache_t) : cache_t := Cache (_bucketsAndMaybeMask c) (_maybeMask c) (u16 (_occupied c + 1)).
Definition filled (cls : Z) (c : cache_t) (blk : list bucket_t) (i : nat) (sel v : Z) (m : mem) : mem :=
  set_heap <[buckets c := <[i := Bucket sel v]> blk]> (set_classes <[cls := occupy c]> m).

Lemma wp_fill cls c j occ blk i e sel v (Q : unit -> world -> Prop) w : inv w -> classes (now w) !! cls = Some c ->
  ~ shared (now w) (buckets c) -> min_log <= j <= max_log -> heap (now w) !! buckets c = Some blk ->
  table valid cls (buckets c) j occ blk -> blk !! i = Some e -> _sel e = 0 -> 1 < sel -> valid cls sel v ->
  (forall w', hist_ok w' -> (forall x, held w' x -> held w x) ->
     now w' = filled cls c blk i sel (encodeImp (buckets c) v sel cls) (now w) -> Q tt w') ->
  wp (do! incrementOccupied cls in set true true (buckets c) (buckets c) (Z.of_nat i) sel v cls) Q w.
Proof.
  intros I Hc Hs Hjr Hb T Hi He Hsel Hv HQ. set (b := buckets c) in *. set (x := encodeImp b v sel cls) in *.
  assert (HbE : b <> L__objc_empty_cache) by (intros E; apply Hs; by left).
  assert (Hlen : (i < length blk)%nat) by by eapply lookup_lt_Some.
  apply wp_bind. eapply wp_store_cache; [done|]. fold (occupy c). set (w1 := push _ w).
  assert (Hb1 : heap (now w1) !! b = Some blk) by done.
  destruct (store_cache_hist valid k cls c (occupy c) w) as [H1 Hh1]; [apply I|done| |].
  { intros ->. split; [reflexivity|]. exact (hist_referred _ _ _ (inv_hist _ _ _ I) c Hc). }
  assert (Hh1' : forall y, held w1 y -> held w y).
  { intros y Hy. destruct (Hh1 y Hy) as [?|[-> ->]]; [done|]. apply held_now. by exists c. }
  assert (Hr1 : cls = k -> refers k (now w1) b).
  { intros <-. exists (occupy c). split; [apply lookup_insert_eq|done]. }
  assert (Hu1 : cls <> k -> ~ held w1 b) by (intros Hn Hy%Hh1'; by apply (other_unheld cls c w I)).
  assert (Hcoded : coded valid cls b (Bucket sel x)) by (intros _; by exists v).
  unfold set. apply wp_bind. eapply wp_load_bucket; [done..|]. apply wp_bind, wp_check; [by rewrite He|]. fold x.
  assert (Hend : forall w2 blk2 e2, hist_ok w2 -> (forall y, held w2 y -> held w1 y) -> blk2 !! i = Some e2 -> _sel e2 = 0 ->
     (forall e3, <[i := e3]> blk2 = <[i := e3]> blk) ->
     now w2 = set_heap <[b := blk2]> (now w1) \/ (w2 = w1 /\ blk2 = blk) ->
     Q tt (push (set_heap <[b := <[i := Bucket sel x]> blk2]> (now w2)) w2)).
  { intros w2 blk2 e2 H2 Hh2 Hi2 He2 Hins E2.
    assert (Hcl : classes (now w2) = classes (now w1)) by (destruct E2 as [-> |[-> _]]; done).
    destruct (slot_hist cls w2 b blk2 (<[i := Bucket sel x]> blk2)) as [H3 Hh3]; [done| | | | | |].
    - intros Hn Hy%Hh2. by apply Hu1.
    - intros E. apply (refers_eq _ (now w1)); [by rewrite Hcl|by apply Hr1].
    - destruct E2 as [-> |[-> ->]]; [apply lookup_insert_eq|done].
    - by eapply grows_insert.
    - rewrite Hins. eapply readable_insert; try done. by right.
    - apply HQ; [done|intros y Hy; by apply Hh1', Hh2, Hh3|]. unfold filled. fold b. cbn [now push]. rewrite Hins.
      destruct E2 as [-> |[-> ->]]; [|done]. unfold set_heap. cbn. by rewrite insert_insert_eq. }
  destruct arm64.
  - eapply wp_store_bucket; [done..|]. by eapply (Hend w1 blk); [| | | | |right].
  - apply wp_bind. eapply wp_store_bucket; [done..|]. rewrite He. set (w2 := push _ w1).
    set (blk2 := <[i := Bucket 0 x]> blk).
    destruct (slot_hist cls w1 b blk blk2) as [H2 Hh2]; [done|done|done|done|by eapply grows_insert| |].
    { eapply readable_insert; [done..|by left|]. intros Hl. unfold live in Hl. cbn in Hl. lia. }
    assert (Hb2 : heap (now w2) !! b = Some blk2) by apply lookup_insert_eq.
    assert (Hi2 : blk2 !! i = Some (Bucket 0 x)) by by apply list_lookup_insert_eq.
    apply wp_bind. eapply wp_load_bucket; [done..|]. cbn [_sel].
    destruct (Z.eqb_spec 0 sel); [lia|]. cbn [negb]. eapply wp_store_bucket; [done..|]. cbn [_imp].
    eapply (Hend w2 blk2); [done|intros y Hy; by apply Hh2|done|done| |by left].
    intros e3. unfold blk2. apply list_insert_insert_eq.
Qed.

Lemma wf_filled m cls c j occ blk i sel x : wf m -> classes m !! cls = Some c -> ~ shared m (buckets c) -> buckets c <> 0 ->
  is_mask j (mask c) -> 1 <= j -> occupied c = Z.of_nat occ -> Z.of_nat (S occ) < 65536 ->
  heap m !! buckets c = Some blk -> table valid cls (buckets c) j (S occ) (<[i := Bucket sel x]> blk) ->
  wf (filled cls c blk i sel x m).
Proof.
  intros [C G R] Hc Hs Hn Hm Hj Ho Hlt Hb T. split; [|split|done].
  - apply (core_update _ m _ cls (occupy c)); [done|done|done| | | |exact (core_word _ _ C _ _ Hc)|].
    + intros b Hsb. cbn. rewrite lookup_insert_ne; [done|]. by intros <-.
    + intros cls2 c2 Hne Hc2. cbn. rewrite lookup_insert_ne; [done|]. intros E.
      destruct (core_disjoint _ _ C _ _ _ _ Hc2 Hc) as [?|Hs2]; [done|done|]. by rewrite <- E in Hs2.
    + eapply cache_table; [exact Hm|exact Hj| |apply lookup_insert_eq|exact Hs|exact Hn|exact T].
      unfold occupied, occupy. cbn [_occupied]. unfold occupied in Ho. rewrite Ho. rewrite wrap_small; lia.
    + intros cls2 c2 Hne Hc2 E. by destruct (core_disjoint _ _ C _ _ _ _ Hc2 Hc E) as [?|Hs2]; [|rewrite E in Hs2].
  - apply G.
  - intros g Hg. cbn. destruct (decide (buckets c = g)) as [<-|]; [rewrite lookup_insert_eq; by eexists|].
    rewrite lookup_insert_ne by done. by apply (garbage_block _ _ G).
  - intros g Hg. by apply (garbage_private _ _ G).
  - intros g cls2 c2 Hg. cbn. destruct (decide (cls = cls2)) as [<-|].
    + rewrite lookup_insert_eq. intros [= <-]. by apply (garbage_unused _ _ G g cls c).
    + rewrite lookup_insert_ne by done. by apply (garbage_unused _ _ G).
Qed.

Lemma contents_at m cls c blk : classes m !! cls = Some c -> heap m !! buckets c = Some blk ->
  contents m cls = list_to_map (entries cls (buckets c) blk).
Proof. intros Hc Hb. unfold contents. by rewrite Hc, Hb. Qed.

Context {Hv : ImpsOk valid}.

(** The scan for a bucket: it finds the selector, or fills the first free bucket. *)
Lemma wp_insert_scan fuel cls c j occ blk sel v t (Q : unit -> world -> Prop) w : inv w ->
  classes (now w) !! cls = Some c -> ~ shared (now w) (buckets c) -> buckets c <> 0 -> is_mask j (mask c) -> 1 <= j ->
  occupied c = Z.of_nat occ -> Z.of_nat (S occ) < 65536 -> heap (now w) !! buckets c = Some blk ->
  table valid cls (buckets c) j occ blk -> valid cls sel v -> (exists i e, blk !! i = Some e /\ _sel e = 0) ->
  0 <= t < 2 ^ j -> 2 ^ j - t <= Z.of_nat fuel ->
  (forall u, 0 <= u < t -> exists e, blk !! Z.to_nat (probe j (sel mod 2 ^ j) u) = Some e /\ _sel e <> 0 /\ _sel e <> sel) ->
  (is_Some (contents (now w) cls !! sel) -> Q tt w) ->
  (forall w' i, inv w' -> contents (now w) cls !! sel = None ->
     now w' = filled cls c blk i sel (encodeImp (buckets c) v sel cls) (now w) ->
     contents (now w') cls = <[sel := v]> (contents (now w) cls) -> Q tt w') ->
  wp (insert_scan fuel cls sel v (buckets c) (2 ^ j - 1) (sel mod 2 ^ j) (probe j (sel mod 2 ^ j) t)) Q w.
Proof.
  intros I Hc Hs Hn Hm Hj Ho Hlt Hb T Hval Hz Ht Hfuel Hpath HQ1 HQ2. pose proof (proj1 Hm) as Hj0.
  pose proof (pow_log j Hj0) as Hp. pose proof (valid_sel _ _ _ _ Hval) as Hsel.
  revert t Ht Hfuel Hpath. induction fuel as [|fuel IH]; intros t Ht Hfuel Hpath; [lia|].
  pose proof (cache_probe_range j (sel mod 2 ^ j) t ltac:(lia)) as Hr.
  pose proof (table_length _ _ _ _ _ _ T) as Hl.
  destruct (lookup_lt_is_Some_2 blk (Z.to_nat (probe j (sel mod 2 ^ j) t))) as [e He]; [lia|].
  replace (probe j (sel mod 2 ^ j) t) with (Z.of_nat (Z.to_nat (probe j (sel mod 2 ^ j) t))) by lia.
  cbn [insert_scan]. apply wp_bind. eapply wp_load_bucket; [done..|]. destruct (Z.eqb_spec (_sel e) 0) as [H0|H0].
  - eapply wp_fill; [done..|]. intros w' H' Hh' E'. destruct (valid_imp _ _ _ _ Hval) as [Hv1 Hv2].
    destruct (table_insert valid _ _ _ _ _ T sel (encodeImp (buckets c) v sel cls) t e) as (Habs & T' & Ec); try done; [lia|by exists v|].
    rewrite (imp_encode _ _ _ _ Hv1 Hv2) in Ec.
    eapply HQ2; [split; [|done|]| |done|].
    + rewrite E'. by eapply wf_filled; [apply I|..].
    + intros y Hy%Hh'. rewrite E'. destruct (inv_held _ _ _ I y Hy) as [(c0 & E0 & <-)|[?|?]]; [left|by right; left|by right; right].
      destruct (decide (cls = k)) as [<-|Hk].
      * rewrite Hc in E0. injection E0 as <-. exists (occupy c). split; [apply lookup_insert_eq|done].
      * exists c0. split; [|done]. cbn. by rewrite lookup_insert_ne.
    + rewrite (contents_at _ _ _ _ Hc Hb). by apply (entries_None valid T).
    + rewrite (contents_at _ _ _ _ Hc Hb), E'. rewrite (contents_at _ cls (occupy c) (<[Z.to_nat (probe j (sel mod 2 ^ j) t) := Bucket sel (encodeImp (buckets c) v sel cls)]> blk)); [exact Ec|apply lookup_insert_eq|apply lookup_insert_eq].
  - apply wp_bind. eapply wp_load_bucket; [done..|]. destruct (Z.eqb_spec (_sel e) sel) as [Heq|Hne].
    + apply wp_ret, HQ1. rewrite (contents_at _ _ _ _ Hc Hb). exists (imp (buckets c) cls e).
      apply (cache_entries_lookup valid T). exists (Z.to_nat (probe j (sel mod 2 ^ j) t)), e. unfold live. rewrite Heq. done.
    + rewrite Z2Nat.id by lia. rewrite cache_probe_next by done.
      assert (Hpath' : forall u, 0 <= u < t + 1 -> exists e, blk !! Z.to_nat (probe j (sel mod 2 ^ j) u) = Some e /\ _sel e <> 0 /\ _sel e <> sel).
      { intros u Hu. destruct (decide (u = t)) as [->|]; [by exists e|]. apply Hpath. lia. }
      assert (Hlast : t + 1 < 2 ^ j).
      { destruct (decide (t + 1 < 2 ^ j)); [done|]. exfalso. destruct Hz as (i & e' & Hi & He').
        apply lookup_lt_Some in Hi as Hil. destruct (probe_surj j (sel mod 2 ^ j) (Z.of_nat i)) as (u & Hu & Eu); [lia|lia|].
        destruct (Hpath' u ltac:(lia)) as (e2 & E2 & H2 & _). rewrite Eu, Nat2Z.id, Hi in E2. by injection E2 as <-. }
      assert (Hb0 : probe j (sel mod 2 ^ j) (t + 1) =? sel mod 2 ^ j = false).
      { apply Z.eqb_neq. intros E. rewrite <- (probe_0 j (sel mod 2 ^ j)) in E at 2 by (apply Z.mod_pos_bound; lia).
        apply cache_probe_inj in E; lia. }
      rewrite Hb0. cbn [negb]. apply IH; [lia|lia|done].
Qed.

(** ** [insert] *)
(** Whether an insertion starts with an empty table: the buckets are shared, or full. *)
Definition starts_over (m : mem) (c : cache_t) : bool :=
  ((occupied c =? 0) && (buckets c =? emptyBucketsFound m (capacity c)))
  || negb (has_room (wrap mask_bits (occupied c + 1)) (capacity c)).
(** A table that is to grow, but has the largest size that a narrow [mask_t] can count. *)
Definition stuck (m : mem) (c : cache_t) : bool :=
  negb LP64 && (capacity c =? 2 ^ 15) && negb ((occupied c =? 0) && (buckets c =? emptyBucketsFound m (capacity c)))
  && negb (has_room (wrap mask_bits (occupied c + 1)) (capacity c)).

Lemma fill_ratio j : min_log <= j <= max_log -> cache_fill_ratio (2 ^ j) <= 2 ^ j /\ cache_fill_ratio (2 ^ j) < 65536.
Proof.
  intros Hj. pose proof (pow_log j Hj) as Hp. unfold cache_fill_ratio. rewrite wrap_mask_bits by lia.
  destruct (arm64 && LP64); rewrite wrap_small by lia; dlia.
Qed.
Lemma has_room_spec j occ : min_log <= j <= max_log -> 0 <= occ -> has_room (occ + 1) (2 ^ j) = true ->
  occ + CACHE_END_MARKER < 2 ^ j /\ occ + 1 < 65536.
Proof.
  intros Hj Ho H. destruct (fill_ratio j Hj). pose proof (pow_log j Hj). unfold has_room in H.
  assert (0 <= CACHE_END_MARKER) by (destruct end_marker_cases as [[-> _]|[-> _]]; lia).
  apply orb_true_iff in H as [H|H]; [apply Z.leb_le in H; lia|].
  apply andb_true_iff in H as [[_ Hx]%andb_true_iff Hy]. apply Z.leb_le in Hx, Hy. change FULL_UTILIZATION_CACHE_SIZE with 8 in Hx. lia.
Qed.

(** What holds after the table has been made ready for one more entry. *)
Record ready (cls : Z) (c : cache_t) (w w' : world) (j : Z) (c' : cache_t) (occ : nat) (blk : list bucket_t) : Prop := {
  ready_inv : inv w';
  ready_classes : classes (now w') = <[cls := c']> (classes (now w));
  ready_private : ~ shared (now w') (buckets c') /\ buckets c' <> 0;
  ready_mask : is_mask j (mask c') /\ 1 <= j /\ mask c <= mask c';
  ready_occ : occupied c' = Z.of_nat occ /\ Z.of_nat (S occ) < 65536 /\ Z.of_nat occ + CACHE_END_MARKER < 2 ^ j;
  ready_block : heap (now w') !! buckets c' = Some blk;
  ready_table : table valid cls (buckets c') j occ blk;
  ready_contents : contents (now w') cls = if starts_over (now w) c then ∅ else contents (now w) cls;
  ready_others cls2 : cls2 <> cls -> contents (now w') cls2 = contents (now w) cls2;
}.
Lemma replaced_others cls j c c' w w' cls2 : inv w -> classes (now w) !! cls = Some c -> replaced cls j c c' w w' ->
  cls2 <> cls -> contents (now w') cls2 = contents (now w) cls2.
Proof.
  intros I Hc P Hn. pose proof (inv_wf _ _ _ I) as [C G R]. unfold contents. rewrite (replaced_classes _ _ _ _ _ _ P).
  rewrite lookup_insert_ne by done. destruct (classes (now w) !! cls2) as [c2|] eqn:E2; [|done].
  destruct (cache_block _ _ _ _ (core_blocks _ _ C) (core_class _ _ C _ _ E2)) as (x & Ex & _).
  rewrite (replaced_heap _ _ _ _ _ _ P); [done| | |].
  - intros E. pose proof (replaced_fresh _ _ _ _ _ _ P) as Hf. rewrite <- E in Hf. congruence.
  - destruct (decide (buckets c2 = buckets c)) as [E|]; [|by left]. right.
    destruct (core_disjoint _ _ C _ _ _ _ E2 Hc E) as [?|Hs]; [done|]. by rewrite <- E.
  - intros Hg. by apply (garbage_unused _ _ G _ _ _ Hg E2).
Qed.
Lemma replaced_ready cls j c c' w w' : inv w -> classes (now w) !! cls = Some c -> inv w' -> replaced cls j c c' w w' ->
  1 <= j -> min_log <= j <= max_log -> mask c <= 2 ^ j - 1 -> starts_over (now w) c = true ->
  ready cls c w w' j c' 0 (fresh (buckets c') j).
Proof.
  intros I Hc I' P Hj1 Hj Hm Hso. pose proof (fresh_table valid cls (buckets c') j Hj) as T.
  assert (Hnone : heap (now w) !! buckets c' = None) by apply P.
  assert (Hcls : classes (now w') !! cls = Some c') by (rewrite (replaced_classes _ _ _ _ _ _ P); apply lookup_insert_eq).
  split; [done|apply P| |split; [split; [done|apply P]|split; [done|rewrite (replaced_mask _ _ _ _ _ _ P); done]]| |apply P|done| |].
  - split; [|apply (replaced_storable _ _ _ _ _ _ P)]. intros Hs.
    assert (Hs' : shared (now w) (buckets c')).
    { destruct Hs as [?|Hs]; [by left|]. right. by rewrite (replaced_list _ _ _ _ _ _ P) in Hs. }
    destruct (shared_zeros _ _ (core_blocks _ _ (wf_core _ _ (inv_wf _ _ _ I))) Hs') as [n E]. congruence.
  - split; [apply P|]. split; [lia|]. assert (2 <= 2 ^ j) by (apply (Z.pow_le_mono_r 2 1 j); lia).
    destruct end_marker_cases as [[-> _]|[-> _]]; lia.
  - rewrite Hso. rewrite (contents_at _ _ _ _ Hcls (replaced_block _ _ _ _ _ _ P)). unfold entries.
    by rewrite (nil_length_inv _ (table_count _ _ _ _ _ _ T)).
  - intros cls2 Hn. by eapply replaced_others.
Qed.

(** The sizes that [insert] asks for are powers of two. *)
Lemma init_size j : min_log <= j <= max_log -> let cap := if decide (j = 0) then 0 else 2 ^ j in
  exists j', (if nz cap then cap else INIT_CACHE_SIZE) = 2 ^ j' /\ 1 <= j' /\ min_log <= j' <= max_log /\ j <= j'.
Proof.
  intros Hj cap. unfold cap. destruct (decide (j = 0)) as [->|Hn].
  - exists INIT_CACHE_SIZE_LOG2. cbn [nz]. split.
    + unfold INIT_CACHE_SIZE. rewrite Z.shiftl_mul_pow2 by (unfold INIT_CACHE_SIZE_LOG2; destruct (_ || _); lia). change (nz 0) with false. cbv iota. lia.
    + pose proof min_log_max. unfold INIT_CACHE_SIZE_LOG2, max_log in *.
      destruct (_ || _), LP64; lia.
  - exists j. pose proof (log_range j Hj). split; [|lia].
    assert (E : nz (2 ^ j) = true) by (apply nz_true; pose proof (pow2_pos j); lia). by rewrite E.
Qed.
Lemma grown_capacity j c : min_log <= j <= max_log -> 1 <= j -> capacity c = 2 ^ j -> LP64 = true \/ capacity c <> 2 ^ 15 ->
  exists j', grown (2 ^ j) = 2 ^ j' /\ 1 <= j' /\ min_log <= j' <= max_log /\ j <= j'.
Proof.
  intros Hj Hj1 Hcap Hg. pose proof (log_range j Hj). pose proof (pow_log j Hj). unfold grown.
  assert (E : nz (2 ^ j) = true) by (apply nz_true; pose proof (pow2_pos j); lia). rewrite E.
  assert (Ed : u32 (2 ^ j * 2) = 2 ^ (j + 1)) by (rewrite Z.pow_add_r by lia; apply wrap_small; lia). rewrite Ed.
  change MAX_CACHE_SIZE with (2 ^ 16). destruct (Z.ltb_spec (2 ^ 16) (2 ^ (j + 1))) as [Hlt|Hge].
  - apply Z.pow_lt_mono_r_iff in Hlt; [|lia|lia]. assert (j = 16) by lia. subst j. exists 16. split; [done|]. lia.
  - exists (j + 1). split; [done|]. apply Z.pow_le_mono_r_iff in Hge; [|lia|lia].
    assert (j < 15 \/ LP64 = true) as Hlt.
    { destruct Hg as [Hg|Hg]; [by right|]. unfold max_log in Hj. destruct LP64; [by right|left]. assert (j <> 15) by (intros ->; by apply Hg). lia. }
    split; [lia|]. split; [|lia]. split; [lia|]. unfold max_log in *. destruct Hlt as [?|E']; [destruct LP64; lia|rewrite E' in *; lia].
Qed.

(** The capacity is chosen, and the table replaced where that is needed. *)
Lemma wp_make_room cls c (Q : Z -> world -> Prop) w : inv w -> classes (now w) !! cls = Some c -> stuck (now w) c = false ->
  (forall w' j c' occ blk, ready cls c w w' j c' occ blk -> Q (2 ^ j) w') ->
  wp (let! empty := isConstantEmptyCache c in
      if empty then
        let capacity := if nz (capacity c) then capacity c else INIT_CACHE_SIZE in
        do! reallocate cls (MethodCache.capacity c) capacity false in ret capacity
      else if has_room (wrap mask_bits (occupied c + 1)) (capacity c) then ret (capacity c)
      else
        let capacity := grown (capacity c) in
        do! reallocate cls (MethodCache.capacity c) capacity true in ret capacity) Q w.
Proof.
  intros I Hc Hg HQ. pose proof (inv_wf _ _ _ I) as [C G R].
  apply wp_bind, wp_isConstantEmpty. cbv zeta.
  destruct (constant_empty_cases _ _ _ C Hc) as [(He & Hs & Ho & j & Hm & Hcap)|(He & Hs & j & occ & blk & Hm & Hj1 & Hcap & Ho & Hb & T)]; rewrite He.
  - destruct (init_size j (proj1 Hm)) as (j' & E & Hj1' & Hj' & Hle). rewrite Hcap, E.
    pose proof (log_range j (proj1 Hm)). destruct Hm as [Hm Hm2]. pose proof (Z.pow_le_mono_r 2 j j' ltac:(lia) ltac:(lia)).
    apply wp_bind. eapply wp_reallocate; [done|done|done|done|lia|done|]. intros c' w' I' P. apply wp_ret.
    eapply HQ, (replaced_ready cls j' c c' w w'); try done; [lia|]. unfold starts_over. by rewrite He.
  - pose proof (table_occ _ _ _ _ _ _ T). pose proof (pow_log_room j (proj1 Hm)).
    assert (Hw : wrap mask_bits (occupied c + 1) = occupied c + 1) by (apply wrap_mask_bits; lia).
    destruct (has_room _ _) eqn:Er.
    + apply wp_ret. rewrite Hcap. rewrite Hw, Hcap, Ho in Er. destruct (has_room_spec j (Z.of_nat occ)); [apply Hm|lia|done|].
      apply (HQ w j c occ blk). split; try done.
      * by rewrite insert_id.
      * split; [done|]. by destruct (core_class _ _ C _ _ Hc).
      * split; [done|]. split; [lia|done].
      * unfold starts_over. rewrite He, Hw, Hcap, Ho, Er. done.
    + assert (Hg' : LP64 = true \/ capacity c <> 2 ^ 15).
      { unfold stuck in Hg. rewrite He, Er in Hg. cbn [negb] in Hg. rewrite !andb_true_r in Hg.
        apply andb_false_iff in Hg as [Hg|Hg]; [left; by apply negb_false_iff in Hg|right; by apply Z.eqb_neq in Hg]. }
      destruct (grown_capacity j c) as (j' & E & Hj1' & Hj' & Hle); [apply Hm|done|done|done|]. rewrite Hcap, E.
      destruct Hm as [Hm Hm2]. pose proof (Z.pow_le_mono_r 2 j j' ltac:(lia) ltac:(lia)).
      apply wp_bind. eapply wp_reallocate; [done|done|done|done|lia|done|]. intros c' w' I' P. apply wp_ret.
      eapply HQ, (replaced_ready cls j' c c' w w'); try done; [lia|]. unfold starts_over. by rewrite Er, orb_true_r.
Qed.
End Ops.
