(* ===== verification/MethodCacheUpdates.v ===== *)
(** * The updates of method caches

    What the operations that the runtime calls do: [insert], [eraseNolock],
    [collectNolock], [initializeToEmpty] and the end of a class. Each keeps [inv];
    what it does to the cache of its class, and that it leaves the others alone, is
    said of [contents]. *)

From stdpp Require Import prelude numbers list gmap fin_maps.
From Stdlib Require Import ZArith Lia Bool.
From S2P Require Import Prelude ObjcOS MethodCache MethodCacheTheory MethodCacheHistory MethodCacheWriters MethodCacheOps.

Section Updates.
Context `{Env : CacheEnv} {EnvOk : CacheEnvOk} (valid : Z -> Z -> Z -> Prop) {Hv : ImpsOk valid} (k : Z).
Context (allowed : fault -> Prop) (alloc_allowed : allowed AllocationFailed).

Notation wp := (wp allowed).
Notation hist_ok := (hist_ok valid k).
Notation held := (held k).
Notation inv := (inv valid k).
Notation wf := (wf valid).
Notation core := (core valid).
Notation unseen := (unseen valid k).

(** A cache with one more entry, which it may have already. *)
Definition with_entry (sel v : Z) (base : gmap Z Z) : gmap Z Z :=
  match base !! sel with Some _ => base | None => <[sel := v]> base end.

Lemma contents_filled m cls c blk i sel x cls2 : core m -> classes m !! cls = Some c -> ~ shared m (buckets c) ->
  cls2 <> cls -> contents (filled cls c blk i sel x m) cls2 = contents m cls2.
Proof.
  intros C Hc Hs Hn. unfold contents, filled. cbn. rewrite lookup_insert_ne by done.
  destruct (classes m !! cls2) as [c2|] eqn:E2; [|done]. rewrite lookup_insert_ne; [done|]. intros E.
  destruct (core_disjoint _ _ C _ _ _ _ E2 Hc) as [?|Hs2]; [done|done|]. by rewrite <- E in Hs2.
Qed.

Record insertion (cls sel v : Z) (c : cache_t) (m m' : mem) : Prop := {
  insertion_contents : contents m' cls = with_entry sel v (if starts_over m c then ∅ else contents m cls);
  insertion_others cls2 : cls2 <> cls -> contents m' cls2 = contents m cls2 /\ classes m' !! cls2 = classes m !! cls2;
  insertion_grows : exists c', classes m' !! cls = Some c' /\ mask c <= mask c';
}.
Lemma wp_insert cls c sel v (Q : unit -> world -> Prop) w : inv w -> classes (now w) !! cls = Some c -> stuck (now w) c = false ->
  isInitialized cls = true -> valid cls sel v ->
  (forall w', inv w' -> insertion cls sel v c (now w) (now w') -> Q tt w') -> wp (insert cls sel v) Q w.
Proof.
  intros I Hc Hg Hi Hval HQ. pose proof (valid_sel _ _ _ _ Hval) as Hsel. unfold insert. rewrite Hi. cbn [negb].
  apply wp_bind. eapply wp_load_cache; [done|]. cbn [isConstantOptimizedCache].
  assert (Hn : nz sel = true) by (apply nz_true; lia). apply wp_bind, wp_check; [by rewrite Hn|]. cbv zeta.
  assert (Hroom : wp (let! empty := isConstantEmptyCache c in
      if empty then
        let capacity := if nz (capacity c) then capacity c else INIT_CACHE_SIZE in
        do! reallocate cls (MethodCache.capacity c) capacity false in ret capacity
      else if has_room (wrap mask_bits (occupied c + 1)) (capacity c) then ret (capacity c)
      else
        let capacity := grown (capacity c) in
        do! reallocate cls (MethodCache.capacity c) capacity true in ret capacity)
    (fun cap w' => exists j c' occ blk, cap = 2 ^ j /\ ready valid k cls c w w' j c' occ blk) w).
  { eapply wp_make_room; [done..|]. intros w' j c' occ blk Hr. by exists j, c', occ, blk. }
  unfold wp, bind in Hroom |- *. destruct (isConstantEmptyCache c w) as [[e w0]|f]; [|done]. cbn [rbind] in *.
  cbv zeta in Hroom.
  match goal with |- context [rbind ?r _] => destruct r as [[cap w']|f] end; [|done]. cbn [rbind].
  destruct Hroom as (j & c' & occ & blk & -> & [I' Hcls Hpriv Hmask Hocc Hb T Hcon Hoth]).
  change (wp (let! c0 := load_cache cls in
    insert_scan (S (Z.to_nat (wrap mask_bits (2 ^ j - 1)))) cls sel v (buckets c0) (wrap mask_bits (2 ^ j - 1))
      (cache_hash sel (wrap mask_bits (2 ^ j - 1))) (cache_hash sel (wrap mask_bits (2 ^ j - 1)))) Q w').
  pose proof (pow_log j (proj1 (proj1 Hmask))) as Hp. rewrite wrap_mask_bits by lia. rewrite hash_mask by apply Hmask.
  assert (Hcls' : classes (now w') !! cls = Some c') by (rewrite Hcls; apply lookup_insert_eq).
  apply wp_bind. eapply wp_load_cache; [done|].
  rewrite <- (probe_0 j (sel mod 2 ^ j)) at 2 by (apply Z.mod_pos_bound; lia).
  eapply (wp_insert_scan valid k); [done|done|done|apply (proj1 Hpriv)|apply (proj2 Hpriv)|apply (proj1 Hmask)|apply (proj1 (proj2 Hmask))|apply (proj1 Hocc)|apply (proj1 (proj2 Hocc))|done|done|done| | | | | |].
  - eapply table_free; [done|]. apply Hocc.
  - lia.
  - lia.
  - lia.
  - intros Hsome. apply HQ; [done|]. split.
    + rewrite Hcon in Hsome |- *. unfold with_entry. by destruct Hsome as [x ->].
    + intros cls2 Hn2. split; [by apply Hoth|]. rewrite Hcls. by apply lookup_insert_ne.
    + exists c'. split; [done|]. apply Hmask.
  - intros w2 i I2 Hnone E2 Econ. apply HQ; [done|]. split.
    + rewrite Econ. rewrite Hcon in Hnone |- *. unfold with_entry. by rewrite Hnone.
    + intros cls2 Hn2. rewrite E2. split.
      * rewrite (contents_filled (now w') cls c'); [by apply Hoth|apply I'|done|apply Hpriv|done].
      * cbn. rewrite Hcls. by rewrite !lookup_insert_ne.
    + exists (occupy c'). rewrite E2. split; [apply lookup_insert_eq|]. change (mask (occupy c')) with (mask c'). apply Hmask.
Qed.
(** Where [mask_t] has 16 bits, a table of 32768 buckets cannot grow: the new
    capacity, 65536, is cut to 0 on the way to [reallocate]. Where there is an end
    marker it is written before the block, and else the assertion on the capacity fails. *)
Definition stuck_fault : fault := if arm64 then AssertFailed else OutOfBounds.
Lemma narrow_table_stuck cls c old freeOld (Q : unit -> world -> Prop) w : LP64 = false -> allowed stuck_fault ->
  classes (now w) !! cls = Some c -> wp (reallocate cls old (grown (2 ^ 15)) freeOld) Q w.
Proof.
  intros Hl Ha Hc. assert (E : wrap mask_bits (grown (2 ^ 15)) = 0) by (unfold mask_bits; rewrite Hl; reflexivity).
  unfold reallocate. rewrite E. apply wp_bind. eapply wp_load_cache; [done|]. unfold stuck_fault, LP64, arm64 in *.
  unfold wp, bind, allocateBuckets, calloc_buckets, set, load_bucket, endMarker, CACHE_END_MARKER, bytesForCapacity, sizeof_bucket, mask_bits, pointer_bits, arm64, LP64, bind, get.
  destruct machine; try discriminate Hl; cbn; by destruct (calloc _ _).
Qed.
Lemma wp_insert_stuck cls c sel v (Q : unit -> world -> Prop) w : allowed stuck_fault -> classes (now w) !! cls = Some c ->
  stuck (now w) c = true -> isInitialized cls = true -> valid cls sel v -> wp (insert cls sel v) Q w.
Proof.
  intros Ha Hc Hs Hi Hval. pose proof (valid_sel _ _ _ _ Hval) as Hsel. unfold insert. rewrite Hi. cbn [negb].
  apply wp_bind. eapply wp_load_cache; [done|]. cbn [isConstantOptimizedCache].
  assert (Hn : nz sel = true) by (apply nz_true; lia). apply wp_bind, wp_check; [by rewrite Hn|]. cbv zeta.
  unfold stuck in Hs. apply andb_prop in Hs as [[[Hl Hcap]%andb_prop He]%andb_prop Hr].
  apply negb_true_iff in Hl, He, Hr. apply Z.eqb_eq in Hcap.
  apply wp_bind, wp_isConstantEmpty. rewrite He, Hr, Hcap. apply wp_bind, wp_bind. by eapply narrow_table_stuck.
Qed.
(** Before [+initialize] is done, nothing is cached. *)
Lemma wp_insert_uninitialized cls sel v (Q : unit -> world -> Prop) w : isInitialized cls = false -> Q tt w ->
  wp (insert cls sel v) Q w.
Proof. intros Hi HQ. unfold insert. rewrite Hi. by apply wp_ret. Qed.

(** ** [eraseNolock] *)
Record erasure (cls : Z) (c : cache_t) (m m' : mem) : Prop := {
  erasure_contents : contents m' cls = ∅;
  erasure_others cls2 : cls2 <> cls -> contents m' cls2 = contents m cls2 /\ classes m' !! cls2 = classes m !! cls2;
  erasure_mask : exists c', classes m' !! cls = Some c' /\ mask c' = mask c;
}.
Lemma contents_none m cls c : core m -> classes m !! cls = Some c -> occupied c = 0 -> contents m cls = ∅.
Proof.
  intros C Hc Ho. destruct (constant_empty_cases _ _ _ _ C Hc) as [(_ & Hs & _)|(_ & _ & j & occ & blk & _ & _ & _ & Ho' & Hb & T)].
  - destruct (shared_zeros _ _ (core_blocks _ _ C) Hs) as [n E]. rewrite (contents_at _ _ _ _ Hc E). unfold entries. by rewrite filter_live_zeros.
  - rewrite (contents_at _ _ _ _ Hc Hb). unfold entries. assert (occ = 0%nat) by lia. subst occ.
    by rewrite (nil_length_inv _ (table_count _ _ _ _ _ _ T)).
Qed.
(** The contents of a class that an update does not concern. *)
Lemma contents_same m m' cls : core m -> classes m' !! cls = classes m !! cls ->
  (forall c, classes m !! cls = Some c -> heap m' !! buckets c = heap m !! buckets c) -> contents m' cls = contents m cls.
Proof. intros C Hc Hh. unfold contents. rewrite Hc. destruct (classes m !! cls) as [c|] eqn:E; [|done]. by rewrite Hh. Qed.

Lemma wp_eraseNolock cls c (Q : unit -> world -> Prop) w : inv w -> classes (now w) !! cls = Some c ->
  (forall w', inv w' -> erasure cls c (now w) (now w') -> Q tt w') -> wp (eraseNolock cls) Q w.
Proof.
  intros I Hc HQ. pose proof (inv_wf _ _ _ I) as [C G R]. apply wp_bind. eapply wp_load_cache; [done|].
  destruct (Z.ltb_spec 0 (occupied c)) as [Hpos|Hz].
  2: { apply wp_ret, HQ; [done|]. split; [|done|by exists c]. apply (contents_none _ _ c C Hc).
       destruct (core_class _ _ C _ _ Hc); lia. }
  destruct (constant_empty_cases _ _ _ _ C Hc) as [(_ & _ & Ho & _)|(_ & Hs & j & occ & blk & Hm & Hj1 & Hcap & Ho & Hb & T)]; [lia|].
  rewrite Hcap. apply wp_bind. pose proof (pow_log j (proj1 Hm)) as Hp. apply (wp_empty_make valid k); [done|done|done|apply Hm|].
  intros w1 I1 X Hne. set (b := emptyBucketsFound (now w1) (2 ^ j)) in *.
  pose proof (inv_wf _ _ _ I1) as [C1 G1 R1].
  assert (Hj0 : (if decide (j = 0) then 0 else 2 ^ j) = 2 ^ j) by (destruct (decide (j = 0)); [lia|done]).
  assert (Hf : shared (now w1) b /\ storable b /\ exists n, heap (now w1) !! b = Some (zeros n) /\ 2 ^ j <= Z.of_nat n <= 65536).
  { pose proof (found_cases (now w1) j (core_blocks _ _ C1) (proj1 Hm)) as Hf. cbv zeta in Hf. rewrite Hj0 in Hf. by apply Hf. }
  destruct Hf as (Hbs & Hbst & n & Hbn & Hn).
  assert (Hc1 : classes (now w1) !! cls = Some c) by by rewrite (extended_classes _ _ X).
  assert (Hs1 : ~ shared (now w1) (buckets c)) by (rewrite (extended_shared _ _ X); [done|by exists blk]).
  rewrite wrap_mask_bits by lia. apply wp_bind.
  eapply (wp_setBucketsAndMask valid k); [apply I1|done|by apply (core_word _ _ C1 cls)|done|split; [apply Hm|done]|destruct Hm as [_ ->]; done| |].
  { intros _. exists (zeros n). split; [done|]. rewrite length_zeros. split; [lia|]. apply readable_zeros. lia. }
  intros c' w2 Eb Em Eo Hw' S. pose proof (stored_now _ _ _ _ _ _ S) as E2.
  assert (Hm' : is_mask j (mask c')) by (split; [apply Hm|done]).
  assert (Hcap' : capacity c' = 2 ^ j) by (rewrite (capacity_mask j c' Hm'); done).
  assert (P : published valid k cls c w1 w2).
  { eapply (publish _ _ cls c c'); [done|done|done| |done| | |].
    - eapply cache_empty; [done|done| |by rewrite Eb; apply Hbst]. by rewrite Eb, Hcap', E2.
    - rewrite Eb. intros Hin. by apply (garbage_private _ _ G1 b).
    - left. rewrite Eb. intros E. by rewrite <- E in Hs1.
    - intros _ _ _ _ _. by rewrite Eb. }
  eapply wp_published_free; [done|done|done|done|]. intros w3 I3 [T1 T2 T3].
  assert (Hcl3 : classes (now w3) = <[cls := c']> (classes (now w))) by by rewrite T1, E2; cbn; rewrite (extended_classes _ _ X).
  assert (Hc3 : classes (now w3) !! cls = Some c') by (rewrite Hcl3; apply lookup_insert_eq).
  apply HQ; [done|]. split.
  - by apply (contents_none _ _ c' (wf_core _ _ (inv_wf _ _ _ I3)) Hc3).
  - intros cls2 Hn2. assert (Hs2 : classes (now w3) !! cls2 = classes (now w) !! cls2) by (rewrite Hcl3; by apply lookup_insert_ne).
    split; [|done]. apply contents_same; [done|done|]. intros c2 Hc2.
    destruct (cache_block _ _ _ _ (core_blocks _ _ C) (core_class _ _ C _ _ Hc2)) as (x & Ex & _).
    rewrite T3, E2; [cbn; apply (extended_heap _ _ X); by exists x|].
    assert (Hc21 : classes (now w1) !! cls2 = Some c2) by by rewrite (extended_classes _ _ X).
    intros Hin. destruct (published_old _ _ _ _ _ _ P Hs1) as [_ _ _ Hun].
    apply (Hun _ cls2 c2 Hin); [|done]. rewrite E2. cbn. by rewrite lookup_insert_ne.
  - exists c'. split; [done|]. destruct Hm as [_ ->]. done.
Qed.

(** ** [collectNolock] *)
Lemma contents_tidied m m' : core m -> garbage_ok m (garbage_refs m) -> tidied (garbage_refs m) m m' ->
  forall cls, contents m' cls = contents m cls.
Proof.
  intros C G [T1 T2 T3] cls. apply contents_same; [done|by rewrite T1|]. intros c Hc. apply T3.
  intros Hin. by apply (garbage_unused _ _ G _ _ _ Hin Hc).
Qed.
Lemma wp_collect_all fuel all (Q : unit -> world -> Prop) w : inv w ->
  (all = true -> (forall d, (d < fuel)%nat -> in_critical (asked (now w) + d)%nat = true) -> allowed OutOfFuel) ->
  (forall w', inv w' -> classes (now w') = classes (now w) -> (forall cls, contents (now w') cls = contents (now w) cls) -> Q tt w') ->
  wp (collectNolock fuel all) Q w.
Proof.
  intros I Hf HQ. eapply wp_collectNolock; [done..|]. intros w' I' T. pose proof (inv_wf _ _ _ I) as [C G R].
  apply HQ; [done|apply T|]. by apply contents_tidied.
Qed.

(** ** The end of a class, and its beginning *)
Lemma core_delete m m' cls : core m -> classes m' = delete cls (classes m) -> emptyBucketsList m' = emptyBucketsList m ->
  (forall b, shared m b -> heap m' !! b = heap m !! b) ->
  (forall cls2 c2, cls2 <> cls -> classes m !! cls2 = Some c2 -> heap m' !! buckets c2 = heap m !! buckets c2) -> core m'.
Proof.
  intros [B C D W] Ec El Hs Hc. split; [by eapply blocks_same| | |intros c1 x1; rewrite Ec; intros [_ E]%lookup_delete_Some; by eapply W].
  - intros cls2 c2. rewrite Ec. intros [Hn E]%lookup_delete_Some. eapply cache_same; [by apply C|done|by eapply Hc].
  - unfold shared. rewrite El. intros c1 c2 x1 x2. rewrite Ec. intros [_ E1]%lookup_delete_Some [_ E2]%lookup_delete_Some. by apply D.
Qed.
Record ended (cls : Z) (m m' : mem) : Prop := {
  ended_class : classes m' !! cls = None;
  ended_others cls2 : cls2 <> cls -> contents m' cls2 = contents m cls2 /\ classes m' !! cls2 = classes m !! cls2;
}.
Lemma wp_free_class cls c (Q : unit -> world -> Prop) w : inv w -> classes (now w) !! cls = Some c -> cls <> k ->
  (forall w', inv w' -> ended cls (now w) (now w') -> Q tt w') -> wp (free_class cls) Q w.
Proof.
  intros I Hc Hk HQ. pose proof (inv_wf _ _ _ I) as [C G R].
  assert (Hend : forall w1, unseen w w1 -> classes (now w1) = classes (now w) -> emptyBucketsList (now w1) = emptyBucketsList (now w) ->
    garbage_refs (now w1) = garbage_refs (now w) -> room (now w1) ->
    (forall b, b <> buckets c \/ shared (now w) b -> heap (now w1) !! b = heap (now w) !! b) ->
    wp (store (set_classes (delete cls))) Q w1).
  { intros w1 U Ec El Eg Er Hh. apply wp_store. set (w2 := World _ _).
    assert (U2 : unseen w w2).
    { eapply unseen_trans; [done|]. apply unseen_push; [apply U|done| |done]. cbn. by apply lookup_delete_ne. }
    assert (Hne : forall cls2 c2, cls2 <> cls -> classes (now w) !! cls2 = Some c2 -> heap (now w2) !! buckets c2 = heap (now w) !! buckets c2).
    { intros cls2 c2 Hn Hc2. apply Hh. destruct (decide (buckets c2 = buckets c)) as [E|]; [|by left]. right.
      by destruct (core_disjoint _ _ C _ _ _ _ Hc2 Hc E). }
    assert (Ecls : classes (now w2) = delete cls (classes (now w))) by (cbn; by rewrite Ec).
    apply HQ.
    - apply (inv_unseen valid k w); [done|done| |intros b; unfold shared; cbn; by rewrite El|intros b; cbn; by rewrite Eg].
      split; [|split|done].
      + eapply core_delete; [done|done|by cbn|intros b Hb; apply Hh; by right|done].
      + cbn. rewrite Eg. apply G.
      + cbn. rewrite Eg. intros g Hg. rewrite Hh; [by apply (garbage_block _ _ G)|]. left. intros ->. by apply (garbage_unused _ _ G _ _ _ Hg Hc).
      + cbn. rewrite Eg. intros g Hg. unfold shared. cbn. rewrite El. by apply (garbage_private _ _ G).
      + cbn. rewrite Eg, Ec. intros g cls2 c2 Hg [_ Hc2]%lookup_delete_Some. by apply (garbage_unused _ _ G g cls2).
    - split; [rewrite Ecls; apply lookup_delete_eq|]. intros cls2 Hn.
      assert (E2 : classes (now w2) !! cls2 = classes (now w) !! cls2) by (rewrite Ecls; by apply lookup_delete_ne).
      split; [|done]. apply contents_same; [done|done|]. intros c2 Hc2. by apply (Hne cls2). }
  apply wp_bind, wp_bind. eapply wp_load_cache; [done|]. apply wp_bind, wp_bind, wp_isConstantEmpty, wp_ret.
  destruct (constant_empty_cases _ _ _ _ C Hc) as [(-> & Hs & _)|(-> & Hs & j & occ & blk & _ & _ & _ & _ & Hb & _)]; cbn [negb andb isConstantOptimizedCache].
  - apply wp_ret, Hend; try done. apply unseen_refl, I.
  - apply wp_bind, wp_get. rewrite Hb. apply wp_store. set (w1 := World _ _). apply Hend; try done.
    + apply unseen_push; [apply I|done|done|]. intros b Hbh. cbn. rewrite lookup_delete_ne; [done|]. intros <-.
      by eapply other_unheld.
    + intros b Hd. cbn. rewrite lookup_delete_ne; [done|]. intros <-. by destruct Hd.
Qed.

Definition empty_cache_t : cache_t := Cache objc_empty_cache 0 0.
Lemma empty_cache_facts m : buckets empty_cache_t = L__objc_empty_cache /\ is_mask min_log (mask empty_cache_t) /\
  emptyBucketsFound m (capacity empty_cache_t) = L__objc_empty_cache /\ word_ok empty_cache_t.
Proof.
  pose proof min_log_max as Hj.
  assert (Hm : is_mask min_log (mask empty_cache_t)).
  { split; [done|]. unfold empty_cache_t. rewrite empty_packed.
    etransitivity; [|apply (mask_packed L__objc_empty_cache (2 ^ min_log - 1) 0 0 min_log); [apply empty_storable|by split]].
    assert (E0 : (match CACHE_MASK_STORAGE with OUTLINED => 2 ^ min_log - 1 | _ => 0 end) = 0)
      by (unfold min_log; by destruct CACHE_MASK_STORAGE). by rewrite E0. }
  assert (Hb : buckets empty_cache_t = L__objc_empty_cache).
  { unfold empty_cache_t. rewrite empty_packed. apply (buckets_packed _ _ 0 0 min_log); [apply empty_storable|by split]. }
  split; [done|split; [done|split]].
  - rewrite (capacity_mask _ _ Hm). unfold emptyBucketsFound. rewrite emptyBuckets_block.
    assert (Hle : bytesForCapacity (wrap mask_bits (if decide (min_log = 0) then 0 else 2 ^ min_log)) <=? EMPTY_BYTES = true); [|by rewrite Hle].
    clear. unfold min_log, bytesForCapacity, EMPTY_BYTES, CACHE_MASK_STORAGE, mask_bits, pointer_bits, sizeof_bucket, LP64.
    destruct machine, debug; reflexivity.
  - split; [rewrite Hb; apply empty_storable|]. exists min_log. split; [done|]. rewrite Hb. apply empty_packed.
Qed.

(** A class that is new to the caches. *)
Lemma wp_initializeToEmpty cls (Q : unit -> world -> Prop) w : inv w -> classes (now w) !! cls = None ->
  (forall w', inv w' -> classes (now w') = <[cls := empty_cache_t]> (classes (now w)) -> contents (now w') cls = ∅ ->
     (forall cls2, cls2 <> cls -> contents (now w') cls2 = contents (now w) cls2) -> Q tt w') ->
  wp (initializeToEmpty cls) Q w.
Proof.
  intros I Hc HQ. pose proof (inv_wf _ _ _ I) as [C G R]. destruct (empty_cache_facts (now w)) as (Hb & Hm & Hf & Hw).
  apply wp_bind, wp_store. set (w1 := World _ _).
  assert (E1 : now w1 = set_classes <[cls := empty_cache_t]> (now w)).
  { unfold w1, set_classes. cbn. f_equal. apply map_eq. intros x. destruct (decide (cls = x)) as [<-|].
    - by rewrite lookup_partial_alter_eq, lookup_insert_eq, Hc.
    - by rewrite lookup_partial_alter_ne, lookup_insert_ne. }
  assert (Hc1 : classes (now w1) !! cls = Some empty_cache_t) by (rewrite E1; apply lookup_insert_eq).
  eapply wp_store_cache; [done|]. set (w2 := push _ w1).
  assert (E2 : now w2 = now w1) by (change (set_classes <[cls := empty_cache_t]> (now w1) = now w1); rewrite E1; apply set_classes_twice).
  assert (Hr : readable_at valid (now w) k L__objc_empty_cache (mask empty_cache_t)).
  { exists (zeros empty_count). split; [apply C|]. rewrite length_zeros. 
    destruct (found_cases (now w) min_log (core_blocks _ _ C) min_log_max) as (_ & _ & n & Hn & Hl).
    - rewrite <- (capacity_mask _ _ Hm), Hf. apply empty_storable.
    - rewrite <- (capacity_mask _ _ Hm), Hf in Hn. rewrite (blocks_empty _ (core_blocks _ _ C)) in Hn. injection Hn as Hn.
      apply (f_equal length) in Hn. rewrite !length_zeros in Hn. destruct Hm as [_ Hm].
      split; [lia|]. apply readable_zeros. lia. }
  assert (H1 : hist_ok w1 /\ forall b, held w1 b -> held w b \/ (cls = k /\ b = L__objc_empty_cache)).
  { change w1 with (push (now w1) w). rewrite E1. destruct (decide (cls = k)) as [Ek|Hn].
    - subst cls. assert (Hk : classes (set_classes <[k := empty_cache_t]> (now w)) !! k = Some empty_cache_t) by apply lookup_insert_eq. split.
      + eapply hist_cache; [apply I|done|done|done| |done|by rewrite Hb]. unfold kmask. rewrite Hc. destruct Hm as [Hj Hm]. rewrite Hm.
        pose proof (pow_log _ Hj). lia.
      + intros b Hbh. apply held_push in Hbh as [?|(c2 & Ec2 & <-)]; [by left| |done]. rewrite Hk in Ec2. injection Ec2 as <-. by right.
    - assert (Hk : classes (set_classes <[cls := empty_cache_t]> (now w)) !! k = classes (now w) !! k) by (cbn; by rewrite lookup_insert_ne).
      split; [apply hist_frame; [apply I|done|done|done]|]. intros b Hbh. left. by apply held_eq in Hbh. }
  destruct H1 as [H1 Hh1].
  assert (U2 : unseen w1 w2) by (apply unseen_bookkeeping; [done|done|exact (f_equal classes E2)|done]).
  assert (Hcore : core (now w1)).
  { rewrite E1. eapply (core_update _ (now w) _ cls); try done.
    - eapply cache_empty; [done|done|rewrite Hb; symmetry; apply Hf|rewrite Hb; apply empty_storable].
    - intros _ _ _ _ _. left. done. }
  assert (W : wf (now w2)).
  { rewrite E2. split; [done| |by rewrite E1]. rewrite E1. destruct G as [G1 G2 G3 G4]. split; [done|done|done|].
    intros g cls2 c2 Hg. cbn. destruct (decide (cls = cls2)) as [<-|].
    - rewrite lookup_insert_eq. intros [= <-]. rewrite Hb. intros <-. apply (G3 _ Hg). by left.
    - rewrite lookup_insert_ne by done. by apply G4. }
  apply HQ.
  - split; [done|apply U2|]. intros b Hbh. apply (unseen_held _ _ _ _ U2) in Hbh. rewrite E2, E1.
    destruct (Hh1 b Hbh) as [Hbw|[-> ->]]; [|right; left; by left].
    destruct (inv_held _ _ _ I b Hbw) as [(c0 & Ec0 & <-)|[?|?]]; [left|by right; left|by right; right].
    exists c0. split; [|done]. cbn. rewrite lookup_insert_ne; [done|]. intros <-. congruence.
  - by rewrite E2, E1.
  - apply (contents_none _ _ empty_cache_t (wf_core _ _ W)); [by rewrite E2|done].
  - intros cls2 Hn. rewrite E2, E1. apply contents_same; [done|cbn; by rewrite lookup_insert_ne|done].
Qed.
End Updates.
