(* ===== verification/MethodCacheReaders.v ===== *)
(** * The lock-free readers of method caches

    A reader of class [k] whose loads find memories of a history that is sound for
    [k], in order, with no quiet moment in between: every load is inside a block,
    the reader ends, and it misses or returns an implementation that the cache held
    at a moment of the search. On a memory that does not change it finds exactly
    what the cache holds. *)

From stdpp Require Import prelude numbers list gmap fin_maps.
From Stdlib Require Import ZArith Lia Bool.
From S2P Require Import Prelude ObjcOS MethodCache MethodCacheTheory MethodCacheHistory.

Section Readers.
Context `{Env : CacheEnv} {EnvOk : CacheEnvOk} (valid : Z -> Z -> Z -> Prop) (k : Z).
Notation hist_ok := (hist_ok valid k).
Notation refers := (refers k).
Notation readable := (readable valid k).

(** ** Pairs of moments

    Moments are counted from the newest, 0. *)
Section Moments.
Context (w : world) (H : hist_ok w).

Lemma hist_moment i m : hist w !! i = Some m -> moment valid k m (drop (S i) (hist w)).
Proof. intros Hi. apply (H i). by apply drop_S. Qed.
Lemma hist_order i j m m0 : hist w !! i = Some m -> hist w !! j = Some m0 -> (i <= j)%nat -> newer k m m0.
Proof.
  intros Hi Hj Hle. destruct (decide (i = j)) as [->|Hn]; [rewrite Hi in Hj; injection Hj as <-; apply newer_refl|].
  destruct (hist_moment i m Hi) as (_ & Hnew & _). apply Hnew. apply (list_elem_of_lookup_2 _ (j - S i)).
  rewrite lookup_drop. by replace (S i + (j - S i))%nat with j by lia.
Qed.
Lemma hist_keeps i j m m1 m0 b : hist w !! i = Some m -> hist w !! S i = Some m1 -> hist w !! j = Some m0 ->
  (S i <= j)%nat -> quiet m0 = quiet m -> refers m0 b -> keeps valid k m1 m b.
Proof.
  intros Hi H1 Hj Hle Hq Hr. destruct (hist_moment i m Hi) as (_ & _ & Hk).
  destruct (hist_order i (S i) m m1 Hi H1 ltac:(lia)) as [? _].
  destruct (hist_order (S i) j m1 m0 H1 Hj ltac:(lia)) as [? _].
  apply (Hk m1 (drop (S (S i)) (hist w))); [by apply drop_S|lia|]. exists m0. split; [|split; [lia|done]].
  apply (list_elem_of_lookup_2 _ (j - S i)). rewrite lookup_drop. by replace (S i + (j - S i))%nat with j by lia.
Qed.

(** A bucket of the cache of the class, at a moment. *)
Definition in_cache (m : mem) (e : bucket_t) : Prop := exists c i,
  classes m !! k = Some c /\ bucket_at m (buckets c) i = Some e.
Definition in_cache_between (i j : nat) (b : Z) (n : nat) (e : bucket_t) : Prop := exists l m c,
  (i <= l <= j)%nat /\ hist w !! l = Some m /\ classes m !! k = Some c /\ buckets c = b /\
  heap m !! b ≫= (fun blk => blk !! n) = Some e.

(** A block that the class referred to at moment [j], until moment [i]. *)
Lemma hist_block j m0 c0 : hist w !! j = Some m0 -> classes m0 !! k = Some c0 ->
  exists blk0, heap m0 !! buckets c0 = Some blk0 /\ word_ok c0 /\ mask c0 + 1 <= Z.of_nat (length blk0) /\
  forall d i m, (i + d)%nat = j -> hist w !! i = Some m -> quiet m = quiet m0 ->
  exists blk, heap m !! buckets c0 = Some blk /\ grows blk0 blk /\ readable (buckets c0) blk /\
    forall n e, blk !! n = Some e -> live e -> in_cache_between i j (buckets c0) n e.
Proof.
  intros Hj Hc. destruct (hist_moment j m0 Hj) as (Hr & _ & _). destruct (Hr c0 Hc) as (Hw & blk0 & Hb0 & Hl0 & Hrd0).
  exists blk0. split; [done|]. split; [done|]. split; [done|].
  assert (Href : refers m0 (buckets c0)) by by exists c0.
  induction d as [|d IH]; intros i m Hd Hi Hq.
  - assert (i = j) by lia. subst i. rewrite Hi in Hj. injection Hj as ->. exists blk0.
    split; [done|]. split; [apply grows_refl|]. split; [done|]. intros n e Hn _. exists j, m0, c0.
    rewrite Hb0. split; [lia|]. done.
  - destruct (lookup_lt_is_Some_2 (hist w) (S i)) as [m1 H1]; [apply lookup_lt_Some in Hj; lia|].
    destruct (hist_order i (S i) m m1 Hi H1 ltac:(lia)) as [? _].
    destruct (hist_order (S i) j m1 m0 H1 Hj ltac:(lia)) as [? _].
    destruct (IH (S i) m1 ltac:(lia) H1 ltac:(lia)) as (blk1 & Hb1 & Hg1 & _ & Ho1).
    destruct (hist_keeps i j m m1 m0 (buckets c0) Hi H1 Hj ltac:(lia) ltac:(done) Href) as (x & blk & Hx & Hb & Hrd & Hg & Hnew).
    rewrite Hb1 in Hx. injection Hx as <-. exists blk. split; [done|]. split; [by eapply grows_trans|]. split; [done|].
    intros n e Hn Hl. destruct (Hnew n e Hn Hl) as [Hold|(c & Ec & Eb)].
    + destruct (Ho1 n e Hold Hl) as (l & m2 & c2 & Hle & Hrest). exists l, m2, c2. split; [lia|done].
    + exists i, m, c. rewrite Hb. split; [lia|]. done.
Qed.
End Moments.

(** ** A reader's view *)
Record sees (w : world) (view : nat -> mem) (s : nat -> nat) : Prop := {
  sees_moment n : hist w !! s n = Some (view n);
  sees_order n : (s (S n) <= s n)%nat;
  sees_quiet n : quiet (view n) = quiet (view 0%nat);
}.
Lemma sees_le w view s n n' : sees w view s -> (n <= n')%nat -> (s n' <= s n)%nat.
Proof. intros S. induction 1 as [|n' _ IH]; [done|]. pose proof (sees_order _ _ _ S n'). lia. Qed.

(** A block as the loads from [t] on find it. *)
Record steady (w : world) (s : nat -> nat) (view : nat -> mem) (t : nat) (b : Z) (L : nat) (blk : nat -> list bucket_t) : Prop := {
  steady_heap n : (t <= n)%nat -> heap (view n) !! b = Some (blk n);
  steady_length n : (t <= n)%nat -> length (blk n) = L;
  steady_readable n : (t <= n)%nat -> readable b (blk n);
  steady_frozen n n' i e : (t <= n <= n')%nat -> blk n !! i = Some e -> _sel e <> 0 -> blk n' !! i = Some e;
  steady_cached n i e : (t <= n)%nat -> blk n !! i = Some e -> live e -> in_cache_between w (s n) (s t) b i e;
}.
Lemma hist_grows w j m0 b blk' : hist_ok w -> hist w !! j = Some m0 -> refers m0 b ->
  forall d i i' m m', (i + d)%nat = i' -> (i' <= j)%nat -> hist w !! i = Some m -> hist w !! i' = Some m' ->
  quiet m = quiet m0 -> heap m' !! b = Some blk' -> exists blk, heap m !! b = Some blk /\ grows blk' blk.
Proof.
  intros H Hj Hr. induction d as [|d IH]; intros i i' m m' Hd Hle Hi Hi' Hq Hb.
  - assert (i = i') as -> by lia. assert (m' = m) as -> by congruence. exists blk'. split; [done|apply grows_refl].
  - destruct (lookup_lt_is_Some_2 (hist w) (S i)) as [m1 H1]; [apply lookup_lt_Some in Hj; lia|].
    destruct (hist_order w H i (S i) m m1 Hi H1 ltac:(lia)) as [? _].
    destruct (hist_order w H (S i) j m1 m0 H1 Hj ltac:(lia)) as [? _].
    destruct (IH (S i) i' m1 m') as (blk1 & Hb1 & Hg1); [lia|lia|done|done|lia|done|].
    destruct (hist_keeps w H i j m m1 m0 b Hi H1 Hj ltac:(lia) ltac:(done) Hr) as (x & blk & Hx & Hbm & _ & Hg & _).
    rewrite Hb1 in Hx. injection Hx as <-. exists blk. split; [done|]. by eapply grows_trans.
Qed.

Lemma view_steady w view s t c : hist_ok w -> sees w view s -> classes (view t) !! k = Some c ->
  word_ok c /\ exists L, mask c + 1 <= Z.of_nat L /\
    steady w s view t (buckets c) L (fun n => default [] (heap (view n) !! buckets c)).
Proof.
  intros H S Hc. destruct (hist_block w H (s t) (view t) c (sees_moment _ _ _ S t) Hc) as (blk0 & Hb0 & Hw & Hl0 & Hall).
  split; [done|]. exists (length blk0). split; [done|].
  assert (Hat : forall n, (t <= n)%nat -> exists blk, heap (view n) !! buckets c = Some blk /\ grows blk0 blk /\
    readable (buckets c) blk /\ forall i e, blk !! i = Some e -> live e -> in_cache_between w (s n) (s t) (buckets c) i e).
  { intros n Hn. pose proof (sees_le _ _ _ _ _ S Hn). apply (Hall (s t - s n)%nat); [lia|apply S|].
    by rewrite (sees_quiet _ _ _ S n), (sees_quiet _ _ _ S t). }
  split.
  - intros n Hn. by destruct (Hat n Hn) as (blk & -> & _).
  - intros n Hn. destruct (Hat n Hn) as (blk & -> & [Hg _] & _). done.
  - intros n Hn. by destruct (Hat n Hn) as (blk & -> & _ & ? & _).
  - intros n n' i e [Hn Hn'] Hi He. destruct (Hat n Hn) as (blk & Eb & _). rewrite Eb in Hi. cbn in Hi.
    pose proof (sees_le _ _ _ _ _ S Hn). pose proof (sees_le _ _ _ _ _ S Hn').
    destruct (hist_grows w (s t) (view t) (buckets c) blk H (sees_moment _ _ _ S t) (ex_intro _ c (conj Hc eq_refl))
      (s n - s n')%nat (s n') (s n) (view n') (view n)) as (blk' & -> & [_ Hg]); try done.
    + lia.
    + apply S.
    + apply S.
    + by rewrite (sees_quiet _ _ _ S n'), (sees_quiet _ _ _ S t).
    + cbn. by apply Hg.
  - intros n i e Hn. destruct (Hat n Hn) as (blk & -> & _ & _ & Ho). apply Ho.
Qed.

(** What a reader may answer: a miss, or an implementation found in the cache at a
    moment between its loads [t] and [n]. *)
Definition justified (w : world) (s : nat -> nat) (t n : nat) (md : mode) (b sel : Z) (a : answer) : Prop :=
  a = Miss \/ exists e i, _sel e = sel /\ a = CacheHit md b (_imp e) sel k /\ in_cache_between w (s n) (s t) b i e.

Lemma in_cache_between_le w i i' j b n e : in_cache_between w i j b n e -> (i' <= i)%nat -> in_cache_between w i' j b n e.
Proof. intros (l & m & c & Hl & Hrest) Hle. exists l, m, c. split; [lia|done]. Qed.
Lemma justified_le w view s t n n' md b sel a : sees w view s -> (n <= n')%nat -> justified w s t n md b sel a -> justified w s t n' md b sel a.
Proof.
  intros S Hn [?|(e & i & ? & ? & ?)]; [by left|]. right. exists e, i. split; [done|]. split; [done|].
  eapply in_cache_between_le; [done|]. by eapply sees_le.
Qed.

Section Scan.
Context (w : world) (s : nat -> nat) (view : nat -> mem) (t : nat) (b : Z) (L : nat) (blk : nat -> list bucket_t).
Context (Hsees : sees w view s) (St : steady w s view t b L blk) (HL : (0 < L)%nat).

Definition offset (i : nat) : Z := sizeof_bucket * Z.of_nat i.
Lemma bucket_off_at n i : (t <= n)%nat -> bucket_off (view n) b (offset i) = blk n !! i.
Proof.
  intros Hn. unfold bucket_off, offset. pose proof sizeof_bucket_pos. rewrite Z.mul_comm, Z.mod_mul, Z.div_mul by lia. cbn.
  unfold bucket_at. destruct (Z.ltb_spec (Z.of_nat i) 0); [lia|]. rewrite (steady_heap _ _ _ _ _ _ _ St n Hn), Nat2Z.id. done.
Qed.
Lemma load_steady {A} (f : bucket_t -> A) n i : (t <= n)%nat -> (i < L)%nat ->
  exists e, blk n !! i = Some e /\ rload (fun m => f <$> bucket_off m b (offset i)) view n = Ok (f e, S n).
Proof.
  intros Hn Hi. destruct (lookup_lt_is_Some_2 (blk n) i) as [e He]; [by rewrite (steady_length _ _ _ _ _ _ _ St n Hn)|].
  exists e. split; [done|]. unfold rload. by rewrite (bucket_off_at n i Hn), He.
Qed.
Lemma hit_justified md sel n n' i e : 1 < sel -> (t <= n <= n')%nat -> blk n !! i = Some e -> _sel e = sel ->
  justified w s t n' md b sel (CacheHit md b (_imp e) sel k).
Proof.
  intros Hsel [Hn Hn'] Hi He. eapply justified_le; [done|exact Hn'|]. right. exists e, i. split; [done|]. split; [done|].
  eapply (steady_cached _ _ _ _ _ _ _ St); [done|done|]. unfold live. lia.
Qed.

(** *** x86-64 *)
Lemma scan_x86_64_ok (Hm : machine = X86_64) md sel (Hsel : 1 < sel) fuel : forall again n i, (t <= n)%nat -> (i < L)%nat ->
  ((if again : bool then L - i else 2 * L - i) < fuel)%nat ->
  exists a n', scan_x86_64 fuel md again k sel b (offset i) view n = Ok (a, n') /\ (n <= n')%nat /\ justified w s t n' md b sel a.
Proof.
  assert (Hend : CACHE_END_MARKER = 1) by (unfold CACHE_END_MARKER, arm64; by rewrite Hm).
  assert (H16 : sizeof_bucket = 16) by (unfold sizeof_bucket, LP64; by rewrite Hm).
  induction fuel as [|fuel IH]; intros again n i Hn Hi Hf; [lia|]. cbn [scan_x86_64]. unfold rthen at 1, load_sel at 1.
  destruct (load_steady _sel n i Hn Hi) as (e0 & He0 & ->). cbn [rbind].
  destruct (Z.eqb_spec (_sel e0) sel) as [Eq|Hne].
  { unfold rthen, load_imp. destruct (load_steady _imp (S n) i ltac:(lia) Hi) as (e1 & He1 & ->). cbn [rbind rret].
    eexists _, _. split; [done|]. split; [lia|].
    rewrite (steady_frozen _ _ _ _ _ _ _ St n (S n) i e0 ltac:(lia) He0 ltac:(lia)) in He1. injection He1 as <-.
    apply (hit_justified md sel n _ i); [done|lia|done|done]. }
  unfold rthen at 1, load_sel at 1. destruct (load_steady _sel (S n) i ltac:(lia) Hi) as (e1 & He1 & ->). cbn [rbind].
  pose proof (steady_readable _ _ _ _ _ _ _ St (S n) ltac:(lia)) as Rd.
  pose proof (readable_sel _ _ _ _ Rd i e1 He1) as Hrange.
  destruct (Z.leb_spec (_sel e1) 1) as [Hle|Hgt].
  - destruct (Z.ltb_spec (_sel e1) 1) as [Hlt|Hge]; [|destruct again]; cbn [orb].
    + rewrite orb_true_r. eexists _, _. split; [done|]. split; [lia|by left].
    + eexists _, _. split; [done|]. split; [lia|by left].
    + unfold rthen, load_imp. destruct (load_steady _imp (S (S n)) i ltac:(lia) Hi) as (e2 & He2 & ->). cbn [rbind].
      rewrite (steady_frozen _ _ _ _ _ _ _ St (S n) (S (S n)) i e1 ltac:(lia) He1 ltac:(lia)) in He2. injection He2 as <-.
      rewrite (readable_marker _ _ _ _ Rd i e1 Hend He1 ltac:(lia)). unfold marker. rewrite Hm. cbn [_imp].
      destruct (IH true (S (S (S n))) 0%nat ltac:(lia) HL ltac:(cbv iota in *; lia)) as (a & n' & E & Hn' & J).
      exists a, n'. unfold offset in E. rewrite Z.mul_0_r in E. split; [done|]. split; [lia|done].
  - assert (Hi' : (S i < L)%nat).
    { destruct (decide (S i < L)%nat); [done|]. exfalso. assert (Ei : i = (L - 1)%nat) by lia.
      destruct (readable_end _ _ _ _ Rd Hend) as [Hz|Hlast].
      - specialize (Hz i e1 He1). lia.
      - rewrite (steady_length _ _ _ _ _ _ _ St (S n)) in Hlast by lia. rewrite <- Ei, He1 in Hlast. injection Hlast as ->. cbn in Hgt. lia. }
    replace (offset i + 16) with (offset (S i)) by (unfold offset; lia).
    destruct (IH again (S (S n)) (S i) ltac:(lia) Hi') as (a & n' & E & Hn' & J); [destruct again; lia|].
    exists a, n'. split; [done|]. split; [lia|done].
Qed.

(** *** arm64 *)
Lemma rescan_arm64_ok md sel (Hsel : 1 < sel) first fuel : forall n i, (t <= n)%nat -> (i < L)%nat -> 0 <= first -> (i < fuel)%nat ->
  exists a n', rescan_arm64 fuel md k sel b (offset i) first view n = Ok (a, n') /\ (n <= n')%nat /\ justified w s t n' md b sel a.
Proof.
  pose proof sizeof_bucket_pos as Hsz.
  induction fuel as [|fuel IH]; intros n i Hn Hi Hfirst Hf; [lia|]. cbn [rescan_arm64]. unfold rthen, load_pair.
  destruct (load_steady id n i Hn Hi) as (e & He & E). unfold rload in E |- *.
  destruct (bucket_off (view n) b (offset i)) as [e'|]; cbn in E; [|done]. injection E as ->. cbn [rbind].
  destruct (Z.eqb_spec (_sel e) sel) as [Eq|Hne].
  { eexists _, _. split; [done|]. split; [lia|]. apply (hit_justified md sel n _ i); [done|lia|done|done]. }
  destruct (negb (_sel e =? 0) && (first <? offset i - sizeof_bucket)) eqn:Ec.
  - apply andb_true_iff in Ec as [_ Ec%Z.ltb_lt]. destruct i as [|i]; [unfold offset in Ec; lia|].
    replace (offset (S i) - sizeof_bucket) with (offset i) by (unfold offset; lia).
    destruct (IH (S n) i ltac:(lia) ltac:(lia) Hfirst ltac:(lia)) as (a & n' & E & Hn' & J).
    exists a, n'. split; [done|]. split; [lia|done].
  - eexists _, _. split; [done|]. split; [lia|by left].
Qed.
Lemma scan_arm64_ok md sel (Hsel : 1 < sel) wrapped fuel :
  (forall n, (t <= n)%nat -> exists a n', wrapped view n = Ok (a, n') /\ (n <= n')%nat /\ justified w s t n' md b sel a) ->
  forall n i, (t <= n)%nat -> (i < L)%nat -> (i < fuel)%nat ->
  exists a n', scan_arm64 fuel md k sel b (offset i) wrapped view n = Ok (a, n') /\ (n <= n')%nat /\ justified w s t n' md b sel a.
Proof.
  pose proof sizeof_bucket_pos as Hsz. intros Hw.
  induction fuel as [|fuel IH]; intros n i Hn Hi Hf; [lia|]. cbn [scan_arm64]. unfold rthen, load_pair.
  destruct (load_steady id n i Hn Hi) as (e & He & E). unfold rload in E |- *.
  destruct (bucket_off (view n) b (offset i)) as [e'|]; cbn in E; [|done]. injection E as ->. cbn [rbind].
  destruct (Z.eqb_spec (_sel e) sel) as [Eq|Hne].
  { eexists _, _. split; [done|]. split; [lia|]. apply (hit_justified md sel n _ i); [done|lia|done|done]. }
  destruct (_sel e =? 0); [eexists _, _; split; [done|]; split; [lia|by left]|].
  destruct (Z.leb_spec 0 (offset i - sizeof_bucket)) as [Hle|Hgt].
  - destruct i as [|i]; [unfold offset in Hle; lia|].
    replace (offset (S i) - sizeof_bucket) with (offset i) by (unfold offset; lia).
    destruct (IH (S n) i ltac:(lia) ltac:(lia) ltac:(lia)) as (a & n' & E & Hn' & J).
    exists a, n'. split; [done|]. split; [lia|done].
  - destruct (Hw (S n) ltac:(lia)) as (a & n' & E & Hn' & J). exists a, n'. split; [done|]. split; [lia|done].
Qed.
End Scan.

(** ** The whole search *)
Definition enough_fuel : nat := Z.to_nat 131073.

(** What [CacheLookup] of arm64 takes from the word: the buckets, where to begin
    and where to wrap to, in bytes. *)
Lemma arm64_word_ok c j sel : arm64 = true -> storable (buckets c) -> is_mask j (mask c) ->
  _bucketsAndMaybeMask c = packed (buckets c) (2 ^ j - 1) ->
  arm64_word (_bucketsAndMaybeMask c) sel = (buckets c, sel mod 2 ^ j, sizeof_bucket * mask c).
Proof.
  intros Ha Hb [Hj Hm] Hw. unfold arm64_word. pose proof (pow_log j Hj) as Hp. pose proof (log_range j Hj) as Hj0.
  rewrite Hw, Hm. set (b := buckets c) in *. unfold packed.
  assert (Hland : forall x, Z.land x (2 ^ j - 1) = x mod 2 ^ j) by (intros; apply land_mask; lia).
  destruct CACHE_MASK_STORAGE eqn:Es.
  - exfalso. unfold CACHE_MASK_STORAGE, arm64 in *. by destruct machine.
  - assert (Em : machine = ARM64) by (unfold CACHE_MASK_STORAGE in Es; by destruct machine).
    assert (E : bucketsMask = 2 ^ 44 - 1) by (unfold bucketsMask; by rewrite Es).
    pose proof (storable_below b 44 ltac:(lia) E Hb) as Hb44. unfold in_word in Hb44.
    assert (Hwd : pointer_bits = 64) by (unfold pointer_bits, LP64; by rewrite Em). rewrite Hwd.
    unfold maskShift. rewrite (wrap_small 64) by (rewrite Z.shiftl_mul_pow2 by lia; lia).
    change 0xffffffffffff with (2 ^ 48 - 1).
    rewrite buckets_lor; [|lia|unfold in_word; lia|by apply shiftl_low].
    rewrite (shiftr_lor_high _ _ 48 44) by (unfold in_word; lia). rewrite Hland. f_equal.
    unfold PTRSHIFT, sizeof_bucket, LP64. rewrite Em. change (48 - (1 + 3)) with 44.
    rewrite Z.shiftr_lor, (Z.shiftr_div_pow2 b), (Z.div_small b), Z.lor_0_r by lia.
    rewrite Z.shiftr_shiftl_l by lia. rewrite Z.shiftl_mul_pow2 by lia. lia.
  - assert (Em : machine = ARM64_BIG_ADDRS) by (unfold CACHE_MASK_STORAGE in Es; by destruct machine).
    assert (E : bucketsMask = 2 ^ 48 - 1) by (unfold bucketsMask; by rewrite Es).
    pose proof (storable_below b 48 ltac:(lia) E Hb) as Hb48. unfold in_word in Hb48.
    assert (Hwd : pointer_bits = 64) by (unfold pointer_bits, LP64; by rewrite Em). rewrite Hwd.
    unfold maskShift. rewrite (wrap_small 64) by (rewrite Z.shiftl_mul_pow2 by lia; lia). cbv zeta.
    change 0xffffffffffff with (2 ^ 48 - 1).
    rewrite buckets_lor; [|lia|unfold in_word; lia|by apply shiftl_low].
    rewrite (shiftr_lor_high _ _ 48 48) by (unfold in_word; lia). rewrite (wrap_small 32 (2 ^ j - 1)) by lia.
    rewrite Hland. f_equal; [f_equal|].
    + unfold wrap. apply Z.mod_mod_divide. exists (2 ^ (32 - j)). rewrite <- Z.pow_add_r by lia. f_equal. lia.
    + unfold PTRSHIFT, sizeof_bucket, LP64. rewrite Em. rewrite Z.shiftl_mul_pow2 by lia. lia.
  - assert (Em : machine = ARM64_32) by (unfold CACHE_MASK_STORAGE in Es; by destruct machine).
    assert (Hj1 : 1 <= j <= 15) by (unfold min_log, max_log, LP64 in Hj; rewrite Es, Em in Hj; lia). cbv zeta.
    pose proof (mask_packed b (2 ^ j - 1) 0 0 j Hb (conj Hj eq_refl)) as Emask.
    pose proof (buckets_packed b (2 ^ j - 1) 0 0 j Hb (conj Hj eq_refl)) as Ebuck.
    unfold mask, buckets, packed in Emask, Ebuck. rewrite Es in Emask, Ebuck. cbn [_bucketsAndMaybeMask] in *.
    assert (Eb : bucketsMask = unot 32 0xf) by (unfold bucketsMask, pointer_bits, LP64; by rewrite Es, Em).
    rewrite Eb in Ebuck. rewrite Ebuck. change maskMask with 0xf in Emask.
    rewrite wrap_small in Emask.
    + rewrite Emask, Hland. f_equal. unfold PTRSHIFT, sizeof_bucket, LP64. rewrite Em. rewrite Z.shiftl_mul_pow2 by lia. lia.
    + rewrite Z.shiftr_div_pow2 by (apply Z.land_nonneg; right; lia).
      assert (0 <= Z.land (Z.lor b (16 - Z.log2 (2 ^ j - 1 + 1))) 15) by (apply Z.land_nonneg; right; lia).
      pose proof (pow2_pos _ H). split; [apply Z.div_pos; lia|]. apply Z.div_lt_upper_bound; [lia|].
      assert (2 ^ mask_bits = 65536) by (unfold mask_bits, LP64; by rewrite Em). nia.
Qed.

Lemma shift_offset i : Z.shiftl i (1 + PTRSHIFT) = sizeof_bucket * i.
Proof. unfold PTRSHIFT, sizeof_bucket. destruct LP64; rewrite Z.shiftl_mul_pow2 by lia; lia. Qed.

(** The readers are modelled for x86-64 and arm64. *)
Definition reader_machine : Prop := arm64 = true \/ machine = X86_64.

(** Every search ends inside the blocks it may read, with a justified answer. *)
Lemma lookup_safe w view s md sel fuel : reader_machine -> hist_ok w -> sees w view s ->
  is_Some (classes (view 0%nat) !! k) -> 1 < sel -> (enough_fuel <= fuel)%nat ->
  exists a n t b, CacheLookup fuel md k sel view 0%nat = Ok (a, n) /\ (t <= n)%nat /\ justified w s t n md b sel a.
Proof.
  intros Hmach H S [c0 Hc0] Hsel Hfuel. unfold enough_fuel in Hfuel. unfold CacheLookup. destruct arm64 eqn:Earm.
  - destruct (view_steady w view s 0%nat c0 H S Hc0) as ((Hst & j & Hj & Hw) & L & HL & St).
    pose proof (readable_length _ _ _ _ (steady_readable _ _ _ _ _ _ _ St 1%nat ltac:(lia))) as HL2.
    rewrite (steady_length _ _ _ _ _ _ _ St) in HL2 by lia.
    unfold CacheLookup_arm64, rthen, load_word, rload. rewrite Hc0. cbn [option_fmap option_map fmap rbind].
    rewrite (arm64_word_ok c0 j sel Earm Hst Hj Hw). rewrite shift_offset.
    pose proof Hj as [Hjr Hm]. pose proof (pow_log j Hjr). pose proof (Z.mod_pos_bound sel (2 ^ j) ltac:(lia)) as Hmod.
    assert (Eo1 : sizeof_bucket * (sel mod 2 ^ j) = offset (Z.to_nat (sel mod 2 ^ j))) by (unfold offset; rewrite Z2Nat.id; lia).
    assert (Eo2 : sizeof_bucket * mask c0 = offset (Z.to_nat (mask c0))) by (unfold offset; rewrite Z2Nat.id; lia).
    cbv zeta. rewrite Eo1, Eo2.
    pose proof sizeof_bucket_pos.
    destruct (scan_arm64_ok w s view 0%nat (buckets c0) L _ S St ltac:(lia) md sel Hsel
      (rescan_arm64 fuel md k sel (buckets c0) (offset (Z.to_nat (mask c0))) (offset (Z.to_nat (sel mod 2 ^ j)))) fuel) with (n := 1%nat) (i := Z.to_nat (sel mod 2 ^ j))
      as (a & n & E & Hn & J); [|lia|lia|lia|].
    + intros n Hn. eapply (rescan_arm64_ok w s view 0%nat (buckets c0) L); try done; try lia; unfold offset; lia.
    + exists a, n, 0%nat, (buckets c0). split; [exact E|]. split; [lia|done].
  - destruct Hmach as [Hx|Hmach]; [congruence|].
    assert (Hout : CACHE_MASK_STORAGE = OUTLINED) by (unfold CACHE_MASK_STORAGE; by rewrite Hmach).
    pose proof (hist_order w H (s 1%nat) (s 0%nat) _ _ (sees_moment _ _ _ S _) (sees_moment _ _ _ S _) (sees_order _ _ _ S _)) as (_ & Hmask & Hsome).
    destruct (Hsome ltac:(by exists c0)) as [c1 Hc1]. unfold kmask in Hmask. rewrite Hc0, Hc1 in Hmask.
    destruct (view_steady w view s 1%nat c1 H S Hc1) as ((Hst & j1 & Hj1 & Hw) & L & HL & St).
    destruct (view_steady w view s 0%nat c0 H S Hc0) as ((_ & j & Hj & _) & _).
    pose proof (readable_length _ _ _ _ (steady_readable _ _ _ _ _ _ _ St 1%nat ltac:(lia))) as HL2.
    rewrite (steady_length _ _ _ _ _ _ _ St) in HL2 by lia.
    pose proof Hj as [Hjr Hm]. pose proof (pow_log j Hjr) as Hp.
    unfold CacheLookup_x86_64, rthen, load_word, load_mask, rload. rewrite Hc0. cbn [option_fmap option_map fmap rbind]. rewrite Hc1.
    cbn [option_fmap option_map fmap rbind].
    assert (Eb : _bucketsAndMaybeMask c1 = buckets c1) by (rewrite Hw; unfold packed; by rewrite Hout). rewrite Eb.
    assert (Em : _maybeMask c0 = 2 ^ j - 1) by (rewrite <- Hm; unfold mask; by rewrite Hout). rewrite Em, land_mask by (pose proof (log_range j Hjr); lia).
    pose proof (Z.mod_pos_bound (u32 sel) (2 ^ j) ltac:(lia)) as Hmod.
    assert (Eo : Z.shiftl (u32 sel mod 2 ^ j) 4 = offset (Z.to_nat (u32 sel mod 2 ^ j))).
    { unfold offset, sizeof_bucket, LP64. rewrite Hmach, Z.shiftl_mul_pow2, Z2Nat.id by lia. lia. }
    rewrite Eo.
    destruct (scan_x86_64_ok w s view 1%nat (buckets c1) L _ S St ltac:(lia) Hmach md sel Hsel fuel false 2%nat (Z.to_nat (u32 sel mod 2 ^ j)))
      as (a & n & E & Hn & J); [lia|lia|cbv iota; lia|].
    exists a, n, 1%nat, (buckets c1). split; [exact E|]. split; [lia|done].
Qed.

(** ** A memory that does not change *)
Section Constant.
Context (m : mem) (b : Z) (blk : list bucket_t) (Hb : heap m !! b = Some blk).
Context (md : mode) (sel : Z) (p : nat) (e : bucket_t) (Hp : blk !! p = Some e) (He : _sel e = sel).
Notation view := (fun _ : nat => m).

(** A bucket that the search passes. *)
Definition passed (x : nat) : Prop := exists e', blk !! x = Some e' /\ _sel e' <> 0 /\ _sel e' <> sel.

Lemma rload_const {A} (f : bucket_t -> A) n i e' : blk !! i = Some e' ->
  rload (fun m => f <$> bucket_off m b (offset i)) view n = Ok (f e', S n).
Proof.
  intros Hi. unfold rload, bucket_off, offset. pose proof sizeof_bucket_pos. rewrite Z.mul_comm, Z.mod_mul, Z.div_mul by lia. cbn.
  unfold bucket_at. destruct (Z.ltb_spec (Z.of_nat i) 0); [lia|]. by rewrite Hb, Nat2Z.id; cbn; rewrite Hi.
Qed.
Lemma load_pair_const n i e' : blk !! i = Some e' -> load_pair b (offset i) view n = Ok (e', S n).
Proof.
  intros Hi. pose proof (rload_const id n i e' Hi) as E. unfold load_pair, rload in *.
  destruct (bucket_off m b (offset i)); cbn in *; congruence.
Qed.

Section X86_64.
Context (Hm : machine = X86_64).
Lemma offset_S i : offset i + 16 = offset (S i).
Proof. unfold offset, sizeof_bucket, LP64. rewrite Hm. lia. Qed.
Lemma x86_pass fuel again n i e' : blk !! i = Some e' -> live e' -> _sel e' <> sel ->
  scan_x86_64 (S fuel) md again k sel b (offset i) view n = scan_x86_64 fuel md again k sel b (offset (S i)) view (S (S n)).
Proof.
  intros Hi Hl Hn. cbn [scan_x86_64]. unfold rthen at 1, load_sel at 1. rewrite (rload_const _ n i e' Hi). cbn [rbind].
  apply Z.eqb_neq in Hn. rewrite Hn. unfold rthen at 1, load_sel at 1. rewrite (rload_const _ _ i e' Hi). cbn [rbind].
  destruct (Z.leb_spec (_sel e') 1); [unfold live in Hl; lia|]. by rewrite offset_S.
Qed.
Lemma x86_find d : forall fuel again n i, (i + d)%nat = p ->
  (forall x, (i <= x < p)%nat -> exists e', blk !! x = Some e' /\ live e' /\ _sel e' <> sel) -> (d < fuel)%nat ->
  exists n', scan_x86_64 fuel md again k sel b (offset i) view n = Ok (CacheHit md b (_imp e) sel k, n').
Proof.
  induction d as [|d IH]; intros [|fuel] again n i Hd Hpath Hf; try lia.
  - assert (i = p) as -> by lia. cbn [scan_x86_64]. unfold rthen at 1, load_sel at 1. rewrite (rload_const _ n p e Hp). cbn [rbind].
    rewrite He, Z.eqb_refl. unfold rthen, load_imp. rewrite (rload_const _ _ p e Hp). by eexists.
  - destruct (Hpath i ltac:(lia)) as (e' & Hi & Hl & Hn). rewrite (x86_pass _ _ _ _ e') by done.
    apply IH; [lia| |lia]. intros x Hx. apply Hpath. lia.
Qed.
Lemma x86_wrap d : forall fuel n i last, (i + d)%nat = last -> blk !! last = Some (marker b) ->
  (forall x, (i <= x < last)%nat -> exists e', blk !! x = Some e' /\ live e' /\ _sel e' <> sel) -> 1 < sel ->
  exists n', scan_x86_64 (S d + fuel) md false k sel b (offset i) view n = scan_x86_64 fuel md true k sel b (offset 0) view n'.
Proof.
  induction d as [|d IH]; intros fuel n i last Hd Hlast Hpath Hsel.
  - assert (i = last) as -> by lia. cbn [Nat.add scan_x86_64]. unfold rthen at 1, load_sel at 1. rewrite (rload_const _ n _ _ Hlast). cbn [rbind].
    unfold marker at 1. cbn [_sel]. destruct (Z.eqb_spec 1 sel); [lia|].
    unfold rthen at 1, load_sel at 1. rewrite (rload_const _ _ _ _ Hlast). cbn [rbind]. unfold marker at 1 2. cbn [_sel Z.leb Z.compare Pos.compare Pos.compare_cont Z.ltb orb].
    unfold rthen, load_imp. rewrite (rload_const _ _ _ _ Hlast). cbn [rbind]. unfold marker. rewrite Hm. cbn [_imp].
    unfold offset at 1. rewrite Z.mul_0_r. by eexists.
  - destruct (Hpath i ltac:(lia)) as (e' & Hi & Hl & Hn). cbn [Nat.add]. rewrite (x86_pass _ _ _ _ e') by done.
    apply (IH fuel _ (S i) last); [lia|done| |done]. intros x Hx. apply Hpath. lia.
Qed.
End X86_64.

Lemma offset_pred i : offset (S i) - sizeof_bucket = offset i.
Proof. unfold offset. lia. Qed.
Lemma offset_le0 i : (0 <=? offset i) = true.
Proof. apply Z.leb_le. unfold offset. pose proof sizeof_bucket_pos. lia. Qed.
Lemma arm64_find d : forall fuel n i wrapped, (p + d)%nat = i -> (forall x, (p < x <= i)%nat -> passed x) -> (d < fuel)%nat ->
  exists n', scan_arm64 fuel md k sel b (offset i) wrapped view n = Ok (CacheHit md b (_imp e) sel k, n').
Proof.
  induction d as [|d IH]; intros [|fuel] n i wrapped Hd Hpath Hf; try lia; cbn [scan_arm64]; unfold rthen.
  - assert (i = p) as -> by lia. rewrite (load_pair_const n p e Hp). cbn [rbind]. rewrite He, Z.eqb_refl. by eexists.
  - destruct (Hpath i ltac:(lia)) as (e' & Hi & H0%Z.eqb_neq & Hn%Z.eqb_neq). rewrite (load_pair_const n i e' Hi). cbn [rbind].
    rewrite H0, Hn. destruct i as [|i]; [lia|]. rewrite offset_pred, offset_le0. apply IH; [lia| |lia]. intros x Hx. apply Hpath. lia.
Qed.
Lemma arm64_wrap i : forall fuel n wrapped, (forall x, (x <= i)%nat -> passed x) -> (i < fuel)%nat ->
  exists n', scan_arm64 fuel md k sel b (offset i) wrapped view n = wrapped view n'.
Proof.
  induction i as [|i IH]; intros [|fuel] n wrapped Hpath Hf; try lia; cbn [scan_arm64]; unfold rthen.
  - destruct (Hpath 0%nat ltac:(lia)) as (e' & Hi & H0%Z.eqb_neq & Hn%Z.eqb_neq). rewrite (load_pair_const n _ e' Hi). cbn [rbind].
    rewrite H0, Hn. destruct (Z.leb_spec 0 (offset 0 - sizeof_bucket)) as [Hle|_]; [|by eexists].
    unfold offset in Hle. pose proof sizeof_bucket_pos. lia.
  - destruct (Hpath (S i) ltac:(lia)) as (e' & Hi & H0%Z.eqb_neq & Hn%Z.eqb_neq). rewrite (load_pair_const n _ e' Hi). cbn [rbind].
    rewrite H0, Hn, offset_pred, offset_le0. apply IH; [|lia]. intros x Hx. apply Hpath. lia.
Qed.
Lemma arm64_refind d : forall fuel n i h, (p + d)%nat = i -> (h < p)%nat -> (forall x, (p < x <= i)%nat -> passed x) -> (d < fuel)%nat ->
  exists n', rescan_arm64 fuel md k sel b (offset i) (offset h) view n = Ok (CacheHit md b (_imp e) sel k, n').
Proof.
  induction d as [|d IH]; intros [|fuel] n i h Hd Hh Hpath Hf; try lia; cbn [rescan_arm64]; unfold rthen.
  - assert (i = p) as -> by lia. rewrite (load_pair_const n p e Hp). cbn [rbind]. rewrite He, Z.eqb_refl. by eexists.
  - destruct (Hpath i ltac:(lia)) as (e' & Hi & H0%Z.eqb_neq & Hn%Z.eqb_neq). rewrite (load_pair_const n i e' Hi). cbn [rbind].
    rewrite H0, Hn. destruct i as [|i]; [lia|]. rewrite offset_pred.
    assert (Hlt : (offset h <? offset i) = true) by (apply Z.ltb_lt; unfold offset; pose proof sizeof_bucket_pos; nia).
    rewrite Hlt. cbn [negb andb]. apply IH; [lia|lia| |lia]. intros x Hx. apply Hpath. lia.
Qed.
End Constant.

(** A selector of a table is found. *)
Lemma lookup_finds m c j occ blk p e md fuel : reader_machine -> classes m !! k = Some c -> heap m !! buckets c = Some blk ->
  word_ok c -> is_mask j (mask c) -> table valid k (buckets c) j occ blk -> blk !! p = Some e -> live e -> 0 <= _sel e < 2 ^ pointer_bits ->
  (enough_fuel <= fuel)%nat ->
  exists n, CacheLookup fuel md k (_sel e) (fun _ => m) 0%nat = Ok (CacheHit md (buckets c) (_imp e) (_sel e) k, n).
Proof.
  intros Hmach Hc Hb (Hst & j' & Hj' & Hw) Hj T Hp He Hrange Hfuel. unfold enough_fuel in Hfuel.
  assert (j' = j) as ->. { destruct Hj as [Hjr E], Hj' as [Hjr' E']. pose proof (log_range j Hjr). pose proof (log_range j' Hjr').
    apply (Z.pow_inj_r 2); lia. }
  pose proof Hj as [Hjr Hm]. pose proof (pow_log j Hjr) as Hpow. pose proof (log_range j Hjr) as Hj0.
  pose proof (table_length _ _ _ _ _ _ T) as HL. set (h := _sel e mod 2 ^ j).
  pose proof (Z.mod_pos_bound (_sel e) (2 ^ j) ltac:(lia)) as Hh. fold h in Hh.
  destruct (table_reach _ _ _ _ _ _ T p e Hp He) as (t & Ht & Hpt & Hpath). fold h in Hpt, Hpath.
  assert (Hpath' : forall u, 0 <= u < t -> passed blk (_sel e) (Z.to_nat (probe j h u))).
  { intros u Hu. destruct (Hpath u Hu) as (e' & He' & Hn). exists e'. split; [done|]. split; [done|]. intros E.
    assert (p = Z.to_nat (probe j h u)) by (eapply (table_unique _ _ _ _ _ _ T); done).
    pose proof (cache_probe_range j h u ltac:(lia)). assert (t = u); [|lia]. apply (cache_probe_inj j h); lia. }
  pose proof (lookup_lt_Some _ _ _ Hp) as Hplt. unfold CacheLookup. destruct arm64 eqn:Earm.
  - unfold CacheLookup_arm64, rthen, load_word, rload. rewrite Hc. cbn [option_fmap option_map fmap rbind].
    rewrite (arm64_word_ok c j (_sel e) Earm Hst Hj Hw). cbv zeta. rewrite shift_offset. fold h.
    assert (Eo1 : sizeof_bucket * h = offset (Z.to_nat h)) by (unfold offset; rewrite Z2Nat.id; lia).
    assert (Eo2 : sizeof_bucket * mask c = offset (Z.to_nat (mask c))) by (unfold offset; rewrite Z2Nat.id; lia). rewrite Eo1, Eo2.
    unfold probe in *. rewrite Earm in *. destruct (decide (t <= h)) as [Hle|Hgt].
    + rewrite Z.mod_small in Hpt by lia. apply (arm64_find m (buckets c) blk Hb md (_sel e) p e Hp eq_refl (Z.to_nat t)); [lia| |lia].
      intros x Hx. specialize (Hpath' (h - Z.of_nat x) ltac:(lia)). rewrite Z.mod_small in Hpath' by lia.
      by replace (Z.to_nat (h - (h - Z.of_nat x))) with x in Hpath' by lia.
    + assert (Hpt' : Z.of_nat p = h - t + 2 ^ j).
      { rewrite Hpt. symmetry. apply Z.mod_unique with (-1); lia. }
      destruct (arm64_wrap m (buckets c) blk Hb md (_sel e) (Z.to_nat h) fuel 1
        (rescan_arm64 fuel md k (_sel e) (buckets c) (offset (Z.to_nat (mask c))) (offset (Z.to_nat h)))) as [n' ->]; [|lia|].
      * intros x Hx. specialize (Hpath' (h - Z.of_nat x) ltac:(lia)). rewrite Z.mod_small in Hpath' by lia.
        by replace (Z.to_nat (h - (h - Z.of_nat x))) with x in Hpath' by lia.
      * apply (arm64_refind m (buckets c) blk Hb md (_sel e) p e Hp eq_refl (Z.to_nat (mask c) - p)); [lia|lia| |lia].
        intros x Hx. specialize (Hpath' (h - Z.of_nat x + 2 ^ j) ltac:(lia)).
        replace ((h - (h - Z.of_nat x + 2 ^ j)) mod 2 ^ j) with (Z.of_nat x) in Hpath' by (apply Z.mod_unique with (-1); lia).
        by rewrite Nat2Z.id in Hpath'.
  - destruct Hmach as [Hx|Hmach]; [congruence|].
    assert (Hend : CACHE_END_MARKER = 1) by (unfold CACHE_END_MARKER; by rewrite Earm).
    assert (Hout : CACHE_MASK_STORAGE = OUTLINED) by (unfold CACHE_MASK_STORAGE; by rewrite Hmach).
    unfold CacheLookup_x86_64, rthen, load_word, load_mask, rload. rewrite Hc. cbn [option_fmap option_map fmap rbind].
    assert (Eb : _bucketsAndMaybeMask c = buckets c) by (rewrite Hw; unfold packed; by rewrite Hout). rewrite Eb.
    assert (Em : _maybeMask c = 2 ^ j - 1) by (rewrite <- Hm; unfold mask; by rewrite Hout). rewrite Em, land_mask by lia.
    assert (Eh : u32 (_sel e) mod 2 ^ j = h).
    { unfold h, wrap. apply Z.mod_mod_divide. exists (2 ^ (32 - j)). rewrite <- Z.pow_add_r by lia. f_equal. lia. }
    rewrite Eh. assert (Eo : Z.shiftl h 4 = offset (Z.to_nat h)).
    { unfold offset, sizeof_bucket, LP64. rewrite Hmach, Z.shiftl_mul_pow2, Z2Nat.id by lia. lia. }
    rewrite Eo. pose proof (table_end _ _ _ _ _ _ T Hend) as Hlast.
    assert (Hplast : Z.of_nat p <> 2 ^ j - 1).
    { intros E. replace (Z.to_nat (2 ^ j - 1)) with p in Hlast by lia. rewrite Hp in Hlast. injection Hlast as ->. by unfold live in He. }
    assert (Hlive : forall x, (Z.of_nat x < 2 ^ j - 1) -> passed blk (_sel e) x -> exists e', blk !! x = Some e' /\ live e' /\ _sel e' <> _sel e).
    { intros x Hx (e' & He' & H0 & Hn). exists e'. split; [done|]. split; [|done].
      destruct (table_sel _ _ _ _ _ _ T x e' He') as [?|[?|(_ & ? & _)]]; [done|done|lia]. }
    unfold probe in *. rewrite Earm in *. destruct (decide (h + t < 2 ^ j)) as [Hlt|Hge].
    + rewrite Z.mod_small in Hpt by lia.
      apply (x86_find m (buckets c) blk Hb md (_sel e) p e Hp eq_refl Hmach (Z.to_nat t)); [lia| |lia].
      intros x Hx. apply Hlive; [lia|]. specialize (Hpath' (Z.of_nat x - h) ltac:(lia)). rewrite Z.mod_small in Hpath' by lia.
      by replace (Z.to_nat (h + (Z.of_nat x - h))) with x in Hpath' by lia.
    + assert (Hpt' : Z.of_nat p = h + t - 2 ^ j).
      { rewrite Hpt. symmetry. apply Z.mod_unique with 1; lia. }
      set (d := (Z.to_nat (2 ^ j - 1) - Z.to_nat h)%nat).
      replace fuel with (S d + (fuel - S d))%nat by lia.
      destruct (x86_wrap m (buckets c) blk Hb md (_sel e) Hmach d (fuel - S d) 2 (Z.to_nat h) (Z.to_nat (2 ^ j - 1))) as [n' ->]; [lia|done| |done|].
      * intros x Hx. apply Hlive; [lia|]. specialize (Hpath' (Z.of_nat x - h) ltac:(lia)). rewrite Z.mod_small in Hpath' by lia.
        by replace (Z.to_nat (h + (Z.of_nat x - h))) with x in Hpath' by lia.
      * apply (x86_find m (buckets c) blk Hb md (_sel e) p e Hp eq_refl Hmach p); [lia| |lia].
        intros x Hx. apply Hlive; [lia|]. specialize (Hpath' (Z.of_nat x - h + 2 ^ j) ltac:(lia)).
        replace ((h + (Z.of_nat x - h + 2 ^ j)) mod 2 ^ j) with (Z.of_nat x) in Hpath' by (apply Z.mod_unique with 1; lia).
        by rewrite Nat2Z.id in Hpath'.
Qed.
End Readers.
