(* ===== verification/MethodCacheProperties.v ===== *)
(** * What the method caches promise

    The updates that the runtime makes under its lock, the runs of them, and the
    main theorems: updates keep memory well formed and fail only for want of
    memory; what each does to the entries; a search finds the entries; a search
    that no lock protects, at any moments of a run, stays in memory that is there and
    answers a miss or an entry that was in the cache while it searched. *)

From stdpp Require Import prelude numbers list gmap fin_maps relations.
From Stdlib Require Import ZArith Lia Bool.
From S2P Require Import Prelude ObjcOS MethodCache MethodCacheTheory MethodCacheHistory MethodCacheWriters MethodCacheOps.
From S2P Require Import MethodCacheUpdates MethodCacheReaders.

(** ** Updates *)
(** [Collect] is [collectNolock], [NewClass] is [initializeToEmpty], [EndClass] is
    what [free_class] does to the cache. *)
Inductive update :=
  | Insert (cls sel imp : Z)
  | Erase (cls : Z)
  | Collect (collectALot : bool)
  | NewClass (cls : Z)
  | EndClass (cls : Z).

Section Properties.
Context `{Env : CacheEnv}.

Definition run_update (fuel : nat) (u : update) : M unit :=
  match u with
  | Insert cls sel imp => insert cls sel imp
  | Erase cls => eraseNolock cls
  | Collect collectALot => collectNolock fuel collectALot
  | NewClass cls => initializeToEmpty cls
  | EndClass cls => free_class cls
  end.

Context {EnvOk : CacheEnvOk} (valid : Z -> Z -> Z -> Prop) {Hv : ImpsOk valid}.

(** The updates that make sense in a memory. *)
Definition legal (m : mem) (u : update) : Prop :=
  match u with
  | Insert cls sel i => isInitialized cls = false \/ (valid cls sel i /\ exists c, classes m !! cls = Some c /\ stuck m c = false)
  | Erase cls | EndClass cls => is_Some (classes m !! cls)
  | Collect _ => True
  | NewClass cls => classes m !! cls = None
  end.

(** How an update may fail: [calloc] finds no memory; or the wait for readers is
    longer than the fuel. *)
Definition may_fail (fuel : nat) (m : mem) (u : update) (f : fault) : Prop :=
  f = AllocationFailed \/
  (f = OutOfFuel /\ u = Collect true /\ forall d, (d < fuel)%nat -> in_critical (asked m + d)%nat = true).

(** What an update does to the entries. *)
Definition effect (m m' : mem) (u : update) : Prop :=
  match u with
  | Insert cls sel i =>
    if isInitialized cls then exists c, classes m !! cls = Some c /\ insertion cls sel i c m m' else m' = m
  | Erase cls => exists c, classes m !! cls = Some c /\ erasure cls c m m'
  | Collect _ => classes m' = classes m /\ forall cls, contents m' cls = contents m cls
  | NewClass cls => classes m' = <[cls := empty_cache_t]> (classes m) /\ contents m' cls = ∅ /\
      forall cls2, cls2 <> cls -> contents m' cls2 = contents m cls2
  | EndClass cls => ended cls m m'
  end.

Lemma wp_update k fuel u w : inv valid k w -> legal (now w) u -> u <> EndClass k ->
  wp (may_fail fuel (now w) u) (run_update fuel u) (fun _ w' => inv valid k w' /\ effect (now w) (now w') u) w.
Proof.
  intros I L Hk. assert (Ha : may_fail fuel (now w) u AllocationFailed) by by left.
  destruct u as [cls sel i|cls|all|cls|cls]; cbn [run_update effect legal] in *.
  - destruct (isInitialized cls) eqn:Ei.
    + destruct L as [L|(Hval & c & Hc & Hg)]; [done|].
      eapply (wp_insert valid k); [done..|]. intros w' I' F. split; [done|by exists c].
    + by apply wp_insert_uninitialized.
  - destruct L as [c Hc]. eapply (wp_eraseNolock valid k); [done..|]. intros w' I' F. split; [done|by exists c].
  - eapply (wp_collect_all valid k); [done|done| |].
    + intros -> Hd. by right.
    + intros w' I' H1 H2. done.
  - eapply (wp_initializeToEmpty valid k); [done..|]. intros w' I' H1 H2 H3. done.
  - destruct L as [c Hc]. eapply (wp_free_class valid k); [done..| |].
    + intros ->. by apply Hk.
    + intros w' I' F. done.
Qed.
(** From a memory without a past. *)
Lemma wp_update_alone fuel u m : wf valid m -> legal m u ->
  wp (may_fail fuel m u) (run_update fuel u) (fun _ w' => wf valid (now w') /\ effect m (now w') u) (World m []).
Proof.
  intros Hwf L. set (k := match u with EndClass cls => cls + 1 | _ => 0 end).
  eapply wp_mono; [apply (wp_update k); [by apply inv_start|done|]|].
  - unfold k. destruct u; try done. intros [= E]. lia.
  - intros [] w' [I F]. split; [apply I|done].
Qed.

(** ** Runs *)
(** An update that spares the class [k]. *)
Definition update_step (fuel : nat) (k : Z) (w w' : world) : Prop :=
  exists u, legal (now w) u /\ u <> EndClass k /\ run_update fuel u w = Ok (tt, w').

Lemma step_inv fuel k w w' : update_step fuel k w w' -> inv valid k w -> inv valid k w'.
Proof.
  intros (u & L & Hk & E) I. pose proof (wp_update k fuel u w I L Hk) as H. unfold wp in H. rewrite E in H. apply H.
Qed.
Lemma run_inv fuel k w w' : rtc (update_step fuel k) w w' -> inv valid k w -> inv valid k w'.
Proof. induction 1 as [|w w1 w2 Hs _ IH]; [done|]. intros I. by eapply IH, step_inv. Qed.

(** ** What a search finds *)
Lemma coded_hit md cls b e : coded valid cls b e -> live e ->
  CacheHit md b (_imp e) (_sel e) cls = Hit (imp b cls e) /\ valid cls (_sel e) (imp b cls e).
Proof.
  intros Hc Hl. destruct (Hc Hl) as (i & Hval & E). destruct (valid_imp _ _ _ _ Hval) as [Hi Hn].
  assert (Ee : imp b cls e = i) by (destruct e as [s x]; cbn in E; subst x; by apply imp_encode). rewrite Ee. split; [|done].
  unfold imp in Ee. pose proof (encodeImp_nonzero b i (_sel e) cls Hi Hn) as Hz. rewrite <- E in Hz. apply Z.eqb_neq in Hz. rewrite Hz in Ee.
  unfold CacheHit. rewrite Hz, Ee. by destruct md.
Qed.

(** An entry of a cache at a moment. *)
Definition cached (m : mem) (cls sel i : Z) : Prop := exists c blk n e,
  classes m !! cls = Some c /\ heap m !! buckets c = Some blk /\ blk !! n = Some e /\ _sel e = sel /\ imp (buckets c) cls e = i.

Lemma between_cached w k md sel i j b n e : hist_ok valid k w -> 1 < sel -> _sel e = sel -> in_cache_between k w i j b n e ->
  exists v, CacheHit md b (_imp e) sel k = Hit v /\ valid k sel v /\
    exists l m, (i <= l <= j)%nat /\ hist w !! l = Some m /\ cached m k sel v.
Proof.
  intros H Hsel Hs (l & m & c & Hl & Hm & Hc & Hb & He). destruct (heap m !! b) as [blk|] eqn:Eb; [|done]. cbn in He.
  destruct (hist_moment valid k w H l m Hm) as (Href & _). destruct (Href c Hc) as (_ & blk' & Eb' & _ & Hr). rewrite Hb, Eb in Eb'. injection Eb' as <-.
  subst b sel. destruct (coded_hit md k (buckets c) e) as [H1 H2]; [by apply (readable_coded _ _ _ _ Hr n)|done|].
  exists (imp (buckets c) k e). split; [done|]. split; [done|]. exists l, m. split; [done|]. split; [done|]. by exists c, blk, n, e.
Qed.

(** A search, at moments of its own, in a sound history. *)
Lemma search_ok k md sel fuel w view s : reader_machine -> hist_ok valid k w -> sees w view s ->
  is_Some (classes (view 0%nat) !! k) -> 1 < sel -> (enough_fuel <= fuel)%nat ->
  exists a n, CacheLookup fuel md k sel view 0%nat = Ok (a, n) /\
    (a = Miss \/ exists i, a = Hit i /\ valid k sel i /\
      exists l m, (s n <= l <= s 0)%nat /\ hist w !! l = Some m /\ cached m k sel i).
Proof.
  intros Hm H S Hc Hsel Hf. destruct (lookup_safe valid k w view s md sel fuel Hm H S Hc Hsel Hf) as (a & n & t & b & E & Ht & J).
  exists a, n. split; [done|]. destruct J as [->|(e & i & Hs & -> & Hb)]; [by left|right].
  destruct (between_cached w k md sel _ _ b i e H Hsel Hs Hb) as (v & Ev & Hv' & l & m & Hl & Hrest). exists v. split; [done|]. split; [done|].
  exists l, m. split; [|done]. pose proof (sees_le w view s 0 t S ltac:(lia)). lia.
Qed.

(** An entry is in a table. *)
Lemma live_table m cls c blk n e : wf valid m -> classes m !! cls = Some c -> heap m !! buckets c = Some blk -> blk !! n = Some e ->
  live e -> exists j occ, is_mask j (mask c) /\ table valid cls (buckets c) j occ blk.
Proof.
  intros [C _ _] Hc Hb He Hl. destruct (core_class _ _ C _ _ Hc) as [j Hm Ho Hbe Hz|j occ blk' Hm Hj Ho Hb' Hsh Hz T].
  - assert (Hsh : shared m (buckets c)) by (apply (found_shared _ _ (core_blocks _ _ C)); [by exists j|done|done]).
    destruct (shared_zeros _ _ (core_blocks _ _ C) Hsh) as [x Ex]. rewrite Hb in Ex. injection Ex as ->.
    rewrite (zeros_lookup _ _ _ He) in Hl. by compute in Hl.
  - rewrite Hb in Hb'. injection Hb' as <-. by exists j, occ.
Qed.
(** Entries are what [contents] says. *)
Lemma cached_contents m cls sel i : wf valid m -> 1 < sel -> cached m cls sel i <-> contents m cls !! sel = Some i.
Proof.
  intros W Hsel. unfold contents. split.
  - intros (c & blk & n & e & Hc & Hb & He & Hs & Hi). rewrite Hc, Hb. subst sel.
    destruct (live_table m cls c blk n e) as (j & occ & _ & T); try done. apply (cache_entries_lookup _ T). by exists n, e.
  - destruct (classes m !! cls) as [c|] eqn:Hc; [|by rewrite lookup_empty]. destruct (heap m !! buckets c) as [blk|] eqn:Hb; [|by rewrite lookup_empty].
    intros Hl. apply elem_of_list_to_map_2 in Hl. unfold entries in Hl. apply list_elem_of_fmap in Hl as (e & [= -> ->] & [Hl Hin]%list_elem_of_filter).
    apply list_elem_of_lookup_1 in Hin as [n Hn]. by exists c, blk, n, e.
Qed.

Lemma search_contents k md sel fuel m : reader_machine -> wf valid m -> is_Some (classes m !! k) ->
  1 < sel < 2 ^ pointer_bits -> (enough_fuel <= fuel)%nat ->
  exists n, CacheLookup fuel md k sel (fun _ => m) 0%nat =
    Ok (match contents m k !! sel with Some i => Hit i | None => Miss end, n).
Proof.
  intros Hmach Hwf Hcls Hsel Hf. destruct (contents m k !! sel) as [v|] eqn:Ev.
  - apply cached_contents in Ev as (c & blk & p & e & Hc & Hb & He & Hs & Hi); [|done|lia].
    subst sel. assert (Hl : live e) by apply Hsel. destruct (live_table m k c blk p e) as (j & occ & Hm & T); try done.
    destruct (lookup_finds valid k m c j occ blk p e md fuel) as [n En]; try done; [by apply (core_word _ _ (wf_core _ _ Hwf) k)|lia|].
    exists n. rewrite En. destruct (coded_hit md k (buckets c) e) as [-> _]; [by apply (table_coded _ _ _ _ _ _ T p)|done|]. by rewrite Hi.
  - destruct (search_ok k md sel fuel (World m []) (fun _ => m) (fun _ => 0%nat) Hmach) as (a & n & E & J); try done; [by apply inv_start|lia|].
    exists n. rewrite E. destruct J as [->|(i & -> & _ & l & m' & Hl & Hm' & Hca)]; [done|]. assert (l = 0%nat) as -> by lia. injection Hm' as <-.
    apply cached_contents in Hca; [congruence|done|lia].
Qed.

(** ** What a copy has *)
Lemma copy_loop_entries cls b blk w : heap (now w) !! b = Some blk ->
  forall count index, (index + count = length blk)%nat ->
  (forall x e, (index <= x)%nat -> blk !! x = Some e -> _sel e = 0 \/ live e \/ x = (length blk - 1)%nat) ->
  copy_loop count (length (filter live (drop index blk))) b cls (Z.of_nat index) w = Ok (entries cls b (drop index blk), w).
Proof.
  intros Hb. induction count as [|count IH]; intros index Hlen Hsel.
  - rewrite drop_ge by lia. done.
  - destruct (lookup_lt_is_Some_2 blk index ltac:(lia)) as [e He]. rewrite (drop_S _ _ _ He). unfold entries in *.
    assert (Hload : load_bucket b (Z.of_nat index) w = Ok (e, w)) by (unfold load_bucket, bind, get; cbn; by rewrite (bucket_at_nat _ _ _ _ Hb), He).
    specialize (IH (S index) ltac:(lia) (fun x e Hx => Hsel x e ltac:(lia))). rewrite Nat2Z.inj_succ, <- Z.add_1_r in IH.
    destruct (decide (live e)) as [Hl|Hl].
    + rewrite !(filter_cons_True _ _ _ Hl). cbn -[filter]. unfold bind at 1. rewrite Hload. cbn -[filter].
      assert (Hn : nz (_sel e) = true) by (apply nz_true; unfold live in Hl; lia). rewrite Hn. unfold bind. by rewrite IH.
    + rewrite !(filter_cons_False _ _ _ Hl). destruct (Hsel index e ltac:(lia) He) as [Hz|[?|Hx]]; [|done|].
      * cbn -[filter]. destruct (length (filter live (drop (S index) blk))) as [|n] eqn:En.
        { by rewrite (nil_length_inv _ En). }
        unfold bind. rewrite Hload. cbn -[filter]. assert (Hn : nz (_sel e) = false) by by apply nz_false. by rewrite Hn.
      * rewrite drop_ge by lia. done.
Qed.
(** The end marker is not copied: the buffer is full before. *)
Lemma copyImpCache_contents cls m l : wf valid m -> is_Some (classes m !! cls) ->
  exists es, class_copyImpCache cls (World m l) = Ok (es, World m l) /\ NoDup es.*1 /\ list_to_map es = contents m cls.
Proof.
  intros [C _ _] [c Hc]. unfold class_copyImpCache, copyCacheNolock, bind, load_cache, bind, get. cbn. rewrite Hc. cbn.
  destruct (core_class _ _ C _ _ Hc) as [j Hm Ho Hbe Hz|j occ blk Hm Hj Ho Hb Hsh Hz T].
  - unfold occupied in Ho |- *. rewrite Ho. cbn. exists []. split; [done|]. split; [constructor|]. symmetry. by apply (contents_none _ _ _ c C Hc).
  - exists (entries cls (buckets c) blk). split; [|split].
    + destruct (decide (occ = 0%nat)) as [->|Hn].
      * rewrite Ho. cbn. unfold entries. by rewrite (nil_length_inv _ (table_count _ _ _ _ _ _ T)).
      * assert (Hnz : nz (occupied c) = true) by (apply nz_true; lia). rewrite Hnz, Ho, Nat2Z.id, <- (table_count _ _ _ _ _ _ T).
        cbn -[filter capacity]. rewrite Hc. cbn -[filter capacity]. rewrite (capacity_mask j c Hm). destruct (decide (j = 0)) as [|_]; [lia|]. rewrite <- (table_length _ _ _ _ _ _ T), Nat2Z.id.
        apply (copy_loop_entries cls (buckets c) blk (World m l) Hb (length blk) 0%nat); [done|].
        intros x e _ He. destruct (table_sel _ _ _ _ _ _ T x e He) as [?|[?|(_ & Hx & _)]]; [by left|by right; left|right; right].
        pose proof (table_length _ _ _ _ _ _ T). lia.
    + apply (entries_NoDup _ T).
    + unfold contents. by rewrite Hc, Hb.
Qed.

(** ** A limit of the sizes *)
(** On arm64_32 an empty cache has two buckets already, so that the first table
    has two and not [INIT_CACHE_SIZE]. *)
Lemma arm64_32_first_capacity : machine = ARM64_32 -> capacity empty_cache_t = 2 /\ INIT_CACHE_SIZE = 4.
Proof.
  intros Hm. split; [|unfold INIT_CACHE_SIZE, INIT_CACHE_SIZE_LOG2, CACHE_END_MARKER, arm64, LP64; by rewrite Hm].
  destruct (empty_cache_facts (Mem ∅ ∅ [] [] true 0 0 0 0)) as (_ & Hmask & _). rewrite (capacity_mask _ _ Hmask).
  unfold min_log, CACHE_MASK_STORAGE. by rewrite Hm.
Qed.

(** ** The main theorems *)

(** C10: Every update of the method caches that makes sense keeps the memory well formed, on every
    machine. What makes sense ([legal]): to erase or end a class that there is; to begin one that there is
    not; and to insert, for a class that has a cache, a selector and an
    implementation that can be encoded ([valid]), unless the cache is [stuck].
    Tables stay within the size that [mask_t] can count, with one entry at
    most for a selector, reached from its hash over full buckets; caches share
    only the blocks of empty buckets; the garbage is not referred to. No such update reads
    or writes outside a block, frees twice, writes to the read-only buckets, meets
    a full table ([bad_cache]) or fails one of the source's assertions: it can only
    lack memory, or wait for readers that stay for as long as the fuel lasts.
    And each has its effect on what the caches hold. An insertion adds its
    entry, or leaves the one that the selector has; it begins with an empty cache
    exactly when the old buckets are shared or have no room, and the capacity never
    shrinks; before [+initialize] is done, it does nothing. Erasing empties one cache
    at the same capacity; collecting changes none; a new class begins with an empty
    cache; a class that ends takes only its own cache with it. A cache is [stuck]
    on the machines where [mask_t] has 16 bits, when its 32768 buckets have no room: there
    an insertion always fails, for want of memory, or by writing the end marker
    outside the block, or on arm64_32, which has no marker, in the assertion. *)
Theorem cache_updates_correct fuel u m : wf valid m ->
  (legal m u ->
   match run_update fuel u (World m []) with
   | Ok (_, w') => wf valid (now w') /\ effect m (now w') u
   | Fault f => may_fail fuel m u f
   end) /\
  (forall cls sel i c, u = Insert cls sel i -> isInitialized cls = true -> valid cls sel i -> classes m !! cls = Some c ->
   stuck m c = true -> exists f, run_update fuel u (World m []) = Fault f /\ (f = AllocationFailed \/ f = stuck_fault)).
Proof.
  intros W. split.
  - intros L. pose proof (wp_update_alone fuel u m W L) as H. unfold wp in H.
    by destruct (run_update fuel u (World m [])) as [[[] w']|f].
  - intros cls sel i c -> Hi Hval Hc Hs.
    pose proof (wp_insert_stuck valid (fun f => f = AllocationFailed \/ f = stuck_fault) (or_introl eq_refl) cls c sel i (fun _ _ => False)
      (World m []) (or_intror eq_refl) Hc Hs Hi Hval) as H. unfold wp in H. cbn [run_update].
    destruct (insert cls sel i (World m [])) as [[[] w']|f]; [done|]. by exists f.
Qed.

(** C11: While no writer is at work, the search that [objc_msgSend] makes on x86-64
    and arm64 finds exactly the entries of the cache, and ends; [class_copyImpCache]
    returns each of them once, without the end marker. *)
Theorem cache_search_refines md sel cls m fuel : reader_machine -> wf valid m -> is_Some (classes m !! cls) ->
  1 < sel < 2 ^ pointer_bits -> (enough_fuel <= fuel)%nat ->
  (exists n, CacheLookup fuel md cls sel (fun _ => m) 0%nat =
     Ok (match contents m cls !! sel with Some i => Hit i | None => Miss end, n)) /\
  exists es, class_copyImpCache cls (World m []) = Ok (es, World m []) /\ NoDup es.*1 /\ list_to_map es = contents m cls.
Proof. intros H1 H2 H3 H4 H5. split; [by apply search_contents|by apply copyImpCache_contents]. Qed.

(** C9: Readers need no lock. During any run of updates, whose stores it may meet
    one by one, a search whose loads find the memories of moments in order, of which
    none was collected under it, ends within the fuel, reads only buckets of blocks that
    have not been freed, and answers a miss or an implementation that is valid for the class and the
    selector and that was in the cache of the class at a moment of the search. *)
Theorem cache_readers_safe k m w view s md sel n0 fuel : reader_machine -> wf valid m ->
  rtc (update_step n0 k) (World m []) w -> sees w view s -> is_Some (classes (view 0%nat) !! k) -> 1 < sel ->
  (enough_fuel <= fuel)%nat ->
  exists a n, CacheLookup fuel md k sel view 0%nat = Ok (a, n) /\
    (a = Miss \/ exists i, a = Hit i /\ valid k sel i /\
      exists l m', (s n <= l <= s 0)%nat /\ hist w !! l = Some m' /\ cached m' k sel i).
Proof.
  intros Hm W Hr Hs Hc Hsel Hf. apply search_ok; try done.
  apply (inv_hist valid k w). by eapply run_inv, inv_start.
Qed.
End Properties.

Module MethodCacheWitness.
(** [calloc] goes upwards by the size of the largest block of buckets, as far as
    addresses that a cache of arm64 can store. *)
Definition bump (s : gset Z) (n : Z) : option Z :=
  let a := fold_right Z.max 4096 (elements s) / 16 * 16 + 0x200000 in if a <? 2 ^ 43 then Some a else None.
(** The signature of a pointer is in its upper half. No thread is in a reader from
    the third time on that the kernel is asked. *)
Definition demo (a : arch) (p : bool) : CacheEnv := {|
  machine := a; ptrauth_calls := p; debug := true; L__objc_empty_cache := 4096; calloc := bump;
  ptrauth_resign := fun d i => i * 65536 + d mod 65536; ptrauth_auth := fun _ x => x / 65536;
  isInitialized := fun cls => negb (cls =? 0x9990); in_critical := fun n => (n <? 2)%nat |}.

Lemma top_above (l : list Z) : 4096 <= fold_right Z.max 4096 l /\ forall x, x ∈ l -> x <= fold_right Z.max 4096 l.
Proof.
  induction l as [|y l [IH1 IH2]]; cbn [fold_right].
  - split; [lia|]. by intros x Hx%elem_of_nil.
  - split; [lia|]. intros x [->|Hx%IH2]%elem_of_cons; lia.
Qed.
Lemma bump_above s n a : bump s n = Some a -> (forall x, x ∈ s -> x < a) /\ 4096 < a < 2 ^ 43.
Proof.
  unfold bump. cbv zeta. destruct (Z.ltb_spec (fold_right Z.max 4096 (elements s) / 16 * 16 + 0x200000) (2 ^ 43)) as [Hlt|]; [|done].
  intros [= <-]. destruct (top_above (elements s)) as [H1 H2]. split; [|dlia]. intros x Hx%elem_of_elements%H2. dlia.
Qed.
Lemma demo_storable a p x : a = X86_64 \/ a = ARM64 -> 0 < x < 2 ^ 43 -> storable (Env := demo a p) x.
Proof.
  intros Ha Hx. split; [lia|]. split.
  - unfold in_word, pointer_bits, LP64. destruct Ha as [-> | ->]; cbn; lia.
  - destruct Ha as [-> | ->]; [change (bucketsMask (H := demo X86_64 p)) with (2 ^ 64 - 1)|change (bucketsMask (H := demo ARM64 p)) with (2 ^ 44 - 1)];
      rewrite land_mask by lia; apply Z.mod_small; lia.
Qed.
Lemma demo_ok a p : a = X86_64 \/ a = ARM64 -> CacheEnvOk (Env := demo a p).
Proof.
  intros Ha. split.
  - by apply demo_storable.
  - intros s n x Hx%bump_above. destruct Hx as (H1 & H2). split; [|apply demo_storable; [done|lia]]. intros Hin%H1. lia.
  - intros d i. cbn. dlia.
  - intros d i Hi. cbn. dlia.
Qed.

(** Any implementation that is not nil and not at the address of the class. *)
Definition some_imp (cls sel i : Z) : Prop := 1 < sel /\ i <> 0 /\ i <> cls.
#[export] Instance some_imp_ok : ImpsOk some_imp.
Proof. by split; intros cls sel i (? & ? & ?). Qed.

(** Memory before any class. *)
Definition start : mem := Mem {[4096 := replicate 9 (Bucket 0 0)]} ∅ [] [] true 0 0 0 0.
Lemma start_wf a p : a = X86_64 \/ a = ARM64 -> wf (Env := demo a p) some_imp start.
Proof.
  intros Ha. split; [split| |done].
  - split; [by destruct Ha as [-> | ->]|done].
  - done.
  - done.
  - done.
  - split; [constructor|..]; intros g; set_solver.
Qed.

Definition A : Z := 0x7000.
Definition B : Z := 0x8000.
(** Two classes, messages, an erased cache, a larger one. *)
Definition session : list update :=
  [NewClass A; NewClass B; Insert 0x9990 0x500 0x100; Insert A 0x500 0x1110; Insert A 0x501 0x2220; Insert B 0x500 0x3330; Insert A 0x502 0x4440; Insert A 0x503 0x5550;
   Collect true; Erase A; Insert A 0x504 0x6660; EndClass B; Insert A 0x504 0x7770].
Definition legal_b (a : arch) (m : mem) (u : update) : bool :=
  match u with
  | Insert cls sel i => (cls =? 0x9990) || ((1 <? sel) && negb (i =? 0) && negb (i =? cls) && bool_decide (is_Some (classes m !! cls)))
  | Erase cls | EndClass cls => bool_decide (is_Some (classes m !! cls))
  | Collect _ => true
  | NewClass cls => bool_decide (classes m !! cls = None)
  end.
Lemma legal_b_ok a p m u : a = X86_64 \/ a = ARM64 -> legal_b a m u = true -> legal (Env := demo a p) some_imp m u.
Proof.
  intros Ha. destruct u as [cls sel i|cls|all|cls|cls]; cbn [legal_b legal]; try apply bool_decide_eq_true_1; [|done].
  intros [Hc|[[[Hs Hi]%andb_true_iff Hn]%andb_true_iff Hc]%andb_true_iff]%orb_true_iff.
  - left. cbn. by rewrite Hc.
  - right. apply Z.ltb_lt in Hs. apply negb_true_iff, Z.eqb_neq in Hi, Hn. apply bool_decide_eq_true_1 in Hc as [c Hc].
    split; [done|]. exists c. split; [done|]. by destruct Ha as [-> | ->].
Qed.
Definition spares_b (k : Z) (u : update) : bool := match u with EndClass cls => negb (cls =? k) | _ => true end.
Fixpoint demo_run (a : arch) (p : bool) (us : list update) (w : world) : option world :=
  match us with
  | [] => Some w
  | u :: us =>
    if legal_b a (now w) u && spares_b A u then
      match run_update (Env := demo a p) 3 u w with Ok (_, w') => demo_run a p us w' | Fault _ => None end
    else None
  end.
Lemma demo_run_steps a p us : a = X86_64 \/ a = ARM64 -> forall w w', demo_run a p us w = Some w' ->
  rtc (update_step (Env := demo a p) some_imp 3 A) w w'.
Proof.
  intros Ha. induction us as [|u us IH]; intros w w' E; cbn in E; [by injection E as ->|].
  destruct (legal_b a (now w) u && spares_b A u) eqn:El; [|done]. apply andb_true_iff in El as [El Es].
  destruct (run_update 3 u w) as [[[] w1]|f] eqn:Eu; [|done]. apply rtc_l with w1; [|by apply IH].
  exists u. split; [by apply legal_b_ok|]. split; [|done]. intros ->. discriminate Es.
Qed.
(** The session up to its [n]-th update. *)
Definition played (a : arch) (p : bool) (n : nat) : world :=
  default (World start []) (demo_run a p (take n session) (World start [])).
Lemma played_steps a p n : a = X86_64 \/ a = ARM64 -> rtc (update_step (Env := demo a p) some_imp 3 A) (World start []) (played a p n).
Proof.
  intros Ha. unfold played. destruct (demo_run a p (take n session) (World start [])) as [w|] eqn:E; [by eapply demo_run_steps|apply rtc_refl].
Qed.
Lemma played_wf a p n : a = X86_64 \/ a = ARM64 -> wf (Env := demo a p) some_imp (now (played a p n)).
Proof.
  intros Ha. apply (inv_wf (Env := demo a p) some_imp A).
  apply (run_inv (Env := demo a p) (EnvOk := demo_ok a p Ha) some_imp 3 A _ _ (played_steps a p n Ha)).
  by apply (inv_start (Env := demo a p) (EnvOk := demo_ok a p Ha)), start_wf.
Qed.
Lemma x86 : X86_64 = X86_64 \/ X86_64 = ARM64.
Proof. by left. Qed.
Lemma arm : ARM64 = X86_64 \/ ARM64 = ARM64.
Proof. by right. Qed.

(** The table of the class is full: it grows. *)
Lemma cache_updates_correct_witness :
  exists w, run_update (Env := demo ARM64 true) 3 (Insert A 0x502 0x4440) (World (now (played ARM64 true 6)) []) = Ok (tt, w) /\
    wf (Env := demo ARM64 true) some_imp (now w) /\
    effect (Env := demo ARM64 true) (now (played ARM64 true 6)) (now w) (Insert A 0x502 0x4440).
Proof.
  destruct (cache_updates_correct (Env := demo ARM64 true) (EnvOk := demo_ok ARM64 true arm) some_imp 3 (Insert A 0x502 0x4440)
    (now (played ARM64 true 6)) (played_wf ARM64 true 6 arm)) as [H _].
  specialize (H (legal_b_ok ARM64 true (now (played ARM64 true 6)) (Insert A 0x502 0x4440) arm ltac:(vm_compute; reflexivity))).
  destruct (run_update 3 (Insert A 0x502 0x4440) (World (now (played ARM64 true 6)) [])) as [[[] w]|f] eqn:E.
  - exists w. split; [reflexivity|exact H].
  - exfalso. vm_compute in E. discriminate E.
Defined.
(** After three messages; the first of them is found. *)
Lemma cache_search_refines_witness : let m := now (played ARM64 true 5) in
  (contents (Env := demo ARM64 true) m A !! 0x500 = Some 0x1110) /\
  (exists n, CacheLookup (H := demo ARM64 true) enough_fuel CALL A 0x500 (fun _ => m) 0%nat =
     Ok (match contents (Env := demo ARM64 true) m A !! 0x500 with Some i => Hit i | None => Miss end, n)) /\
  exists es, class_copyImpCache (H := demo ARM64 true) A (World m []) = Ok (es, World m []) /\ NoDup es.*1 /\
    list_to_map es = contents (Env := demo ARM64 true) m A.
Proof.
  intros m. split; [vm_compute; reflexivity|].
  apply (cache_search_refines (Env := demo ARM64 true) (EnvOk := demo_ok ARM64 true arm) some_imp CALL 0x500 A m enough_fuel);
    [by left|apply played_wf, arm|vm_compute; by eexists|by vm_compute|done].
Defined.

(** A reader that began thirty stores before the end and is as fast as the writer. *)
Definition reader (n : nat) : mem := default start (hist (played X86_64 false 8) !! (30 - n)%nat).
Lemma reader_sees : sees (played X86_64 false 8) reader (fun n => (30 - n)%nat).
Proof.
  assert (Hq : forall m, m ∈ hist (played X86_64 false 8) -> quiet m = 0%nat).
  { apply Forall_forall. assert (E : forallb (fun m => (quiet m =? 0)%nat) (hist (played X86_64 false 8)) = true) by (vm_compute; reflexivity).
    rewrite forallb_forall in E. apply Forall_forall. intros m Hm. apply Nat.eqb_eq, E. by apply list_elem_of_In. }
  assert (Hm : forall n, hist (played X86_64 false 8) !! (30 - n)%nat = Some (reader n)).
  { intros n. unfold reader. destruct (lookup_lt_is_Some_2 (hist (played X86_64 false 8)) (30 - n)) as [m ->]; [|done].
    assert (El : length (hist (played X86_64 false 8)) = 40%nat) by (vm_compute; reflexivity). rewrite El. lia. }
  split; [done|lia|]. intros n. transitivity 0%nat; [|symmetry]; eapply Hq, list_elem_of_lookup_2, Hm.
Qed.
Lemma cache_readers_safe_witness :
  exists a n, CacheLookup (H := demo X86_64 false) enough_fuel CALL A 0x501 reader 0%nat = Ok (a, n) /\
    (a = Miss \/ exists i, a = Hit i /\ some_imp A 0x501 i /\
      exists l m', (30 - n <= l <= 30)%nat /\ hist (played X86_64 false 8) !! l = Some m' /\ cached (Env := demo X86_64 false) m' A 0x501 i).
Proof.
  apply (cache_readers_safe (Env := demo X86_64 false) (EnvOk := demo_ok X86_64 false x86) some_imp A start (played X86_64 false 8) reader
    (fun n => (30 - n)%nat) CALL 0x501 3 enough_fuel);
    [by right|apply start_wf, x86|apply played_steps, x86|apply reader_sees|vm_compute; by eexists|done|done].
Defined.
End MethodCacheWitness.
