(* ===== verification/AssociatedObjects.v ===== *)
(** * objc-references.mm: associated objects

    An object has associations, from keys to values with a policy, which are kept
    outside of it: a [DenseMap] from disguised objects to [DenseMap]s from keys
    to associations, under one lock. Retaining, copying, releasing and autoreleasing
    are messages, which may run any code: [Messages] says what the rest of the
    process makes of them, [MessagesOk] in AssociatedObjectsProperties.v what is asked
    of it. The associations to be released last are collected in the [SmallVector]
    of objc-private.h. Definitions only. *)

From stdpp Require Import prelude numbers list.
From Stdlib Require Import ZArith Lia Bool.
From S2P Require Import Prelude ObjcOS DenseMapInfo DenseMap.
Import DenseMapInfos DenseMap.DenseMap.

(** ** [SmallVector] *)
(** The elements are inline as long as they fit, then in an allocated block. *)
Record small_vector (T : Type) := SmallVector {
  sv_count : Z;
  inlineElements : list T;
  elements : list T;
}.
Arguments SmallVector {T} _ _ _.
Arguments sv_count {T} _.
Arguments inlineElements {T} _.
Arguments elements {T} _.

Section SmallVectors.
Context {T : Type} (InlineCount : nat).

(** A new vector, whose inline storage holds [garbage]. *)
Definition new_vector (garbage : list T) : small_vector T := SmallVector 0 garbage [].
(** [garbage] is what the block from [malloc] or [realloc] holds beyond the old elements. *)
Definition append (garbage val : T) (v : small_vector T) : small_vector T :=
  let count := Z.to_nat (sv_count v) in
  let v :=
    if sv_count v <? Z.of_nat InlineCount then
      SmallVector (sv_count v) (<[count := val]> (inlineElements v)) (elements v)
    else if sv_count v =? Z.of_nat InlineCount then
      let newElements := take count (inlineElements v) ++ [garbage] in
      SmallVector (sv_count v) (inlineElements v) (<[count := val]> newElements)
    else
      let elements := take count (elements v) ++ [garbage] in
      SmallVector (sv_count v) (inlineElements v) (<[count := val]> elements) in
  SmallVector (u32 (sv_count v + 1)) (inlineElements v) (elements v).
(** What is between [begin()] and [end()]. *)
Definition range (v : small_vector T) : list T :=
  take (Z.to_nat (sv_count v)) (if sv_count v <=? Z.of_nat InlineCount then inlineElements v else elements v).
End SmallVectors.

(** ** Associations *)
Definition OBJC_ASSOCIATION_SETTER_ASSIGN : Z := 0.
Definition OBJC_ASSOCIATION_SETTER_RETAIN : Z := 1.
Definition OBJC_ASSOCIATION_SETTER_COPY : Z := 3.
Definition OBJC_ASSOCIATION_GETTER_READ : Z := Z.shiftl 0 8.
Definition OBJC_ASSOCIATION_GETTER_RETAIN : Z := Z.shiftl 1 8.
Definition OBJC_ASSOCIATION_GETTER_AUTORELEASE : Z := Z.shiftl 2 8.
Definition OBJC_ASSOCIATION_SYSTEM_OBJECT : Z := Z.shiftl 1 16.

Record ObjcAssociation := Association { policy : Z; value : Z }.
(** [ObjcAssociation()], which a moved association is left as. *)
Definition no_association : ObjcAssociation := Association 0 0.

Definition ObjectAssociationMap : Type := table Z ObjcAssociation.
Definition AssociationsHashMap : Type := table Z ObjectAssociationMap.
(** [ObjectAssociationMap{}], also what [_objc_associations_init] makes. *)
Definition new_map {V} : table Z V := Table Null 0 0 0.

(** What fresh memory holds. *)
Class FreshMemory := {
  fresh_refs : nat -> Z * ObjcAssociation;
  fresh_associations : nat -> Z * ObjectAssociationMap;
}.
Definition RefsT `{FreshMemory} : Template Z ObjcAssociation := {|
  KeyInfo := PointerInfo;
  isPurgeable := isPurgeable_default;
  trivially_copyable := false;
  uninit := fresh_refs;
  default_value := no_association;
|}.
Definition MapT `{FreshMemory} : Template Z ObjectAssociationMap := {|
  KeyInfo := DisguisedPtrInfo;
  isPurgeable := isPurgeable_default;
  trivially_copyable := false;
  uninit := fresh_associations;
  default_value := new_map;
|}.

Inductive message :=
  | Retain (value : Z)
  | Copy (value : Z)
  | Release (value : Z)
  | Autorelease (value : Z)
  | SetHasAssociatedObjects (object : Z).

(** [process] is the rest of the process. *)
Record world (P : Type) := World {
  associations : AssociationsHashMap;
  locked : bool;
  process : P;
}.
Arguments World {P} _ _ _.
Arguments associations {P} w.
Arguments locked {P} w.
Arguments process {P} w.

Class Messages (P : Type) := {
  send : message -> world P -> res (Z * world P);
  forbidsAssociatedObjects : world P -> Z -> bool;
}.

Section AssociatedObjects.
Context {P : Type} `{Mem : FreshMemory} {Msg : Messages P}.

(** [AssociationsManager] *)
Definition lock (w : world P) : res (world P) :=
  if locked w then Fault LockMisuse else Ok (World (associations w) true (process w)).
Definition unlock (w : world P) : res (world P) :=
  if locked w then Ok (World (associations w) false (process w)) else Fault LockMisuse.
Definition set_associations (m : AssociationsHashMap) (w : world P) : world P := World m (locked w) (process w).

Definition acquireValue (a : ObjcAssociation) (w : world P) : res (ObjcAssociation * world P) :=
  if nz (value a) then
    let setter := Z.land (policy a) 0xFF in
    if setter =? OBJC_ASSOCIATION_SETTER_RETAIN then
      let? (v, w) := send (Retain (value a)) w in Ok (Association (policy a) v, w)
    else if setter =? OBJC_ASSOCIATION_SETTER_COPY then
      let? (v, w) := send (Copy (value a)) w in Ok (Association (policy a) v, w)
    else Ok (a, w)
  else Ok (a, w).
(** Whether the association owns its value. *)
Definition holds (a : ObjcAssociation) : bool := nz (value a) && nz (Z.land (policy a) OBJC_ASSOCIATION_SETTER_RETAIN).
Definition releaseHeldValue (a : ObjcAssociation) (w : world P) : res (world P) :=
  if holds a then let? (_, w) := send (Release (value a)) w in Ok w else Ok w.
Definition retainReturnedValue (a : ObjcAssociation) (w : world P) : res (world P) :=
  if nz (value a) && nz (Z.land (policy a) OBJC_ASSOCIATION_GETTER_RETAIN) then
    let? (_, w) := send (Retain (value a)) w in Ok w
  else Ok w.
Definition autoreleaseReturnedValue (a : ObjcAssociation) (w : world P) : res (Z * world P) :=
  if nz (value a) && nz (Z.land (policy a) OBJC_ASSOCIATION_GETTER_AUTORELEASE) then send (Autorelease (value a)) w
  else Ok (value a, w).

(** [i->second = v], through an iterator or a reference. *)
Definition set_second {V} (i : Z) (v : V) (m : table Z V) : table Z V :=
  store_buckets m (alter (fun b => (fst b, v)) (Z.to_nat i) (getBuckets m)).
(** [*i] *)
Definition deref {V} (m : table Z V) (i : Z) : res (Z * V) :=
  match bucket_at m i with Some b => Ok b | None => Fault OutOfBounds end.

Definition _object_get_associative_reference (object key : Z) (w : world P) : res (Z * world P) :=
  let? w := lock w in
  let? i := find MapT (associations w) (disguise object) in
  let? (association, w) :=
    if negb (i =? end_ (associations w)) then
      let? ib := deref (associations w) i in
      let refs := snd ib in
      let? j := find RefsT refs key in
      if negb (j =? end_ refs) then
        let? jb := deref refs j in
        let? w := retainReturnedValue (snd jb) w in Ok (snd jb, w)
      else Ok (no_association, w)
    else Ok (no_association, w)
  in
  let? w := unlock w in
  autoreleaseReturnedValue association w.

(** The two parts of setting that run under the lock: each returns the map, the
    association that is left over, and whether the object is new to the map. *)
Definition establish (m : AssociationsHashMap) (disguised key : Z) (association : ObjcAssociation) :
    res (AssociationsHashMap * ObjcAssociation * bool) :=
  let? (m, i, first) := try_emplace MapT m disguised new_map in
  let? ib := deref m i in
  let? (refs, j, inserted) := try_emplace RefsT (snd ib) key association in
  if inserted then Ok (set_second i refs m, no_association, first)
  else
    let? jb := deref refs j in
    Ok (set_second i (set_second j association refs) m, snd jb, first).
Definition withdraw (m : AssociationsHashMap) (disguised key : Z) (association : ObjcAssociation) :
    res (AssociationsHashMap * ObjcAssociation * bool) :=
  let? i := find MapT m disguised in
  if negb (i =? end_ m) then
    let? ib := deref m i in
    let refs := snd ib in
    let? j := find RefsT refs key in
    if negb (j =? end_ refs) then
      let? jb := deref refs j in
      let? refs := erase_iterator RefsT (set_second j association refs) j in
      let m := set_second i refs m in
      let? m := if size refs =? 0 then erase_iterator MapT m i else Ok m in
      Ok (m, snd jb, false)
    else Ok (m, association, false)
  else Ok (m, association, false).

Definition _object_set_associative_reference (object key value policy : Z) (w : world P) : res (world P) :=
  if (object =? 0) && (value =? 0) then Ok w
  else if object =? 0 then Fault OutOfBounds
  else if forbidsAssociatedObjects w object then Fault FatalError
  else
    let disguised := disguise object in
    let? (association, w) := acquireValue (Association policy value) w in
    let? w := lock w in
    let? (m, association, isFirstAssociation) :=
      if nz value then establish (associations w) disguised key association
      else withdraw (associations w) disguised key association
    in
    let? w := unlock (set_associations m w) in
    let? w :=
      if isFirstAssociation : bool then let? (_, w) := send (SetHasAssociatedObjects object) w in Ok w else Ok w in
    releaseHeldValue association w.

Definition is_system (a : ObjcAssociation) : bool := nz (Z.land (policy a) OBJC_ASSOCIATION_SYSTEM_OBJECT).

(** The loop that puts the associations of the system back. *)
Fixpoint reinsert (l : list (Z * ObjcAssociation)) (refs : ObjectAssociationMap) (didReInsert : bool) :
    res (ObjectAssociationMap * bool) :=
  match l with
  | [] => Ok (refs, didReInsert)
  | ref :: l =>
    if is_system (snd ref) then
      let? (refs, _, _) := insert RefsT refs ref in reinsert l refs true
    else reinsert l refs didReInsert
  end.
(** What is done under the lock: the map, and the associations taken out. *)
Definition take_out (m : AssociationsHashMap) (disguised : Z) (deallocating : bool) :
    res (AssociationsHashMap * ObjectAssociationMap) :=
  let? i := find MapT m disguised in
  if negb (i =? end_ m) then
    let? ib := deref m i in
    let refs := snd ib in
    let? (second, didReInsert) :=
      if negb deallocating then reinsert (iterate RefsT refs) new_map false else Ok (new_map, false) in
    let m := set_second i second m in
    let? m := if negb didReInsert then erase_iterator MapT m i else Ok m in
    Ok (m, refs)
  else Ok (m, new_map).
Definition laterCount : nat := 4.
Fixpoint release_first (deallocating : bool) (l : list (Z * ObjcAssociation)) (laterRefs : small_vector ObjcAssociation)
    (w : world P) : res (small_vector ObjcAssociation * world P) :=
  match l with
  | [] => Ok (laterRefs, w)
  | i :: l =>
    if is_system (snd i) then
      release_first deallocating l (if deallocating then append laterCount no_association (snd i) laterRefs else laterRefs) w
    else let? w := releaseHeldValue (snd i) w in release_first deallocating l laterRefs w
  end.
Fixpoint release_all (l : list ObjcAssociation) (w : world P) : res (world P) :=
  match l with
  | [] => Ok w
  | a :: l => let? w := releaseHeldValue a w in release_all l w
  end.
Definition _object_remove_assocations (object : Z) (deallocating : bool) (w : world P) : res (world P) :=
  let? w := lock w in
  let? (m, refs) := take_out (associations w) (disguise object) deallocating in
  let? w := unlock (set_associations m w) in
  let? (laterRefs, w) :=
    release_first deallocating (iterate RefsT refs) (new_vector (replicate laterCount no_association)) w in
  release_all (range laterCount laterRefs) w.
End AssociatedObjects.
