(* ===== verification/AssociatedObjectsTheory.v ===== *)
(** * The theory of associated objects

    The map of maps as one partial map from objects and keys to associations; what
    each part that runs under the lock does to it; the [SmallVector] as a list. *)

From stdpp Require Import prelude numbers list gmap.
From Stdlib Require Import ZArith Lia Bool.
From S2P Require Import Prelude MathExtras ObjcOS DenseMapInfo DenseMap DenseMapTheory DenseMapMove DenseMapOps DenseMapImpl.
From S2P Require Import AssociatedObjects.
Import MathExtras.MathExtras DenseMapInfos DenseMap.DenseMap.

(** ** [SmallVector] *)
Section Vectors.
Context {T : Type} (n : nat) (garbage : T).

(** The vector holds the elements appended. *)
Definition vector_holds (v : small_vector T) (l : list T) : Prop :=
  sv_count v = Z.of_nat (length l) /\ (length (inlineElements v) = n) /\ range n v = l.
Lemma new_vector_holds (g : list T) : length g = n -> vector_holds (new_vector g) [].
Proof. intros H. done. Qed.
Lemma take_insert_end (l : list T) i x : (i < length l)%nat -> take (S i) (<[i := x]> l) = take i l ++ [x].
Proof.
  intros Hi. rewrite (take_S_r _ _ x) by (by apply list_lookup_insert_eq). f_equal. apply take_insert_ge. lia.
Qed.
Lemma append_holds v l x : vector_holds v l -> Z.of_nat (length l) < 2 ^ 32 - 1 -> vector_holds (append n garbage x v) (l ++ [x]).
Proof.
  intros (Hc & Hi & Hr) Hl. unfold vector_holds, append, range in *. rewrite Hc, Nat2Z.id in *.
  assert (Hcount : u32 (Z.of_nat (length l) + 1) = Z.of_nat (length (l ++ [x]))) by (rewrite wrap_small, length_app; cbn; lia).
  assert (Hsize : length (l ++ [x]) = S (length l)) by (rewrite length_app; cbn; lia).
  destruct (Z.ltb_spec (Z.of_nat (length l)) (Z.of_nat n)); [|destruct (Z.eqb_spec (Z.of_nat (length l)) (Z.of_nat n))];
    cbn [sv_count inlineElements elements]; rewrite ?Hc, Hcount, Nat2Z.id, Hsize, ?length_insert; (split; [done|]; split; [done|]).
  - destruct (Z.leb_spec (Z.of_nat (length l)) (Z.of_nat n)); [|lia]. destruct (Z.leb_spec (Z.of_nat (S (length l))) (Z.of_nat n)); [|lia].
    by rewrite take_insert_end, Hr by lia.
  - destruct (Z.leb_spec (Z.of_nat (length l)) (Z.of_nat n)); [|lia]. destruct (Z.leb_spec (Z.of_nat (S (length l))) (Z.of_nat n)); [lia|].
    rewrite Hr, take_insert_end by (rewrite length_app; cbn; lia). by rewrite take_app_length.
  - destruct (Z.leb_spec (Z.of_nat (length l)) (Z.of_nat n)); [lia|]. destruct (Z.leb_spec (Z.of_nat (S (length l))) (Z.of_nat n)); [lia|].
    rewrite Hr, take_insert_end by (rewrite length_app; cbn; lia). by rewrite take_app_length.
Qed.
End Vectors.

(** ** The size of a table that only grows *)
Section Sizes.
Context {K V : Type} (T : Template K V) {Hinfo : DenseMapInfoOk (KeyInfo T)}.

Lemma initEmpty_buckets m m' : initEmpty T m = Ok m' -> NumBuckets m' = NumBuckets m.
Proof. unfold initEmpty. cbn. destruct (_ =? 0); [|done]. by intros [= <-]. Qed.
Lemma moveBucket_buckets m b m' : moveBucket T m b = Ok m' -> NumBuckets m' = NumBuckets m.
Proof.
  unfold moveBucket. destruct (isPurgeable T (snd b)); [by intros [= <-]|]. destruct (is_live T b); [|by intros [= <-]].
  destruct (LookupBucketFor T m (fst b)) as [[found [i|]]|f]; cbn; [|by destruct found|done]. destruct found; cbn; [done|]. by intros [= <-].
Qed.
Lemma moveBuckets_buckets old : forall m m', moveBuckets T m old = Ok m' -> NumBuckets m' = NumBuckets m.
Proof.
  induction old as [|b old IH]; intros m m' E; cbn in E; [by injection E as <-|].
  destruct (moveBucket T m b) as [m1|f] eqn:E1; [|done]. rewrite <- (moveBucket_buckets _ _ _ E1). by apply IH.
Qed.
Lemma moveFromOldBuckets_buckets m old m' : moveFromOldBuckets T m old = Ok m' -> NumBuckets m' = NumBuckets m.
Proof.
  unfold moveFromOldBuckets. destruct (initEmpty T m) as [m1|f] eqn:E1; [|done]. intros E.
  rewrite <- (initEmpty_buckets _ _ E1). by apply moveBuckets_buckets in E.
Qed.
(** What is allocated for a power of two. *)
Lemma rounded_buckets n : n = 0 \/ (exists p, 0 <= p <= 29 /\ n = 2 ^ p) -> Z.max MIN_BUCKETS (NextPowerOf2_32 (u32 (n - 1))) <= Z.max 4 n.
Proof.
  intros Hn. unfold MIN_BUCKETS. destruct Hn as [->|(p & Hp & ->)]; [by vm_compute|]. destruct (decide (p = 0)) as [->|]; [by vm_compute|].
    pose proof (pow2_pos p ltac:(lia)). pose proof (Z.pow_le_mono_r 2 p 29 ltac:(lia) ltac:(lia)).
    pose proof (Z.pow_le_mono_r 2 1 p ltac:(lia) ltac:(lia)).
    rewrite (wrap_small 32), NextPowerOf2_32_pos by lia.
    assert (El : Z.log2 (2 ^ p - 1) + 1 = p) by (rewrite Z.sub_1_r, Z.log2_pred_pow2; lia).
    rewrite El, (wrap_small 32) by lia. lia.
Qed.
Lemma allocateBuckets_buckets m N : NumBuckets (DenseMap.allocateBuckets T m N).1 = N.
Proof. unfold DenseMap.allocateBuckets. destruct (Z.eqb_spec N 0) as [->|]; done. Qed.
(** The order in which conversion unfolds these keeps the checking of proofs short. *)
#[local] Strategy 100 [DenseMap.allocateBuckets LookupBucketFor NextPowerOf2_32 wrap].
Lemma grow_buckets m n m' : n = 0 \/ (exists p, 0 <= p <= 29 /\ n = 2 ^ p) -> DenseMap.grow T m n = Ok m' -> NumBuckets m' <= Z.max 4 n.
Proof.
  intros Hn%rounded_buckets E.
  unfold DenseMap.grow in E. revert E Hn. generalize (Z.max MIN_BUCKETS (NextPowerOf2_32 (u32 (n - 1)))). intros N E Hn.
  pose proof (allocateBuckets_buckets m N) as H1. destruct (DenseMap.allocateBuckets T m N) as [m1 ok]. cbn [fst] in H1.
  assert (NumBuckets m' = NumBuckets m1); [|lia].
  destruct (Buckets m); [by apply initEmpty_buckets| |]; by apply moveFromOldBuckets_buckets in E.
Qed.

Lemma wf_pow m : usable T m -> NumBuckets m = 0 \/ exists p, 0 <= p <= 28 /\ NumBuckets m = 2 ^ p.
Proof.
  intros [Hok HN]. destruct (table_counts T m Hok) as (_ & _ & _ & [(? & _)|(_ & _ & _ & Hwf)]); [by left|right].
  destruct (ao_pow _ _ _ (wf_array _ _ Hwf)) as (p & Hp & E). exists p. split; [|done]. split; [lia|].
  destruct (Z.le_gt_cases p 28); [done|]. unfold max_buckets in HN. rewrite E in HN.
  pose proof (Z.pow_lt_mono_r 2 28 p ltac:(lia) ltac:(lia) ltac:(lia)). lia.
Qed.
Lemma below_limit m : table_ok T m -> NumBuckets m < 2 * max_buckets -> NumBuckets m <= max_buckets.
Proof.
  intros Hok HN. destruct (table_counts T m Hok) as (_ & _ & _ & [(-> & _)|(_ & _ & _ & Hwf)]); [by vm_compute|].
  destruct (ao_pow _ _ _ (wf_array _ _ Hwf)) as (p & Hp & E). unfold max_buckets in *. rewrite E in *.
  destruct (Z.le_gt_cases p 28); [by apply Z.pow_le_mono_r|]. pose proof (Z.pow_le_mono_r 2 29 p ltac:(lia) ltac:(lia)). lia.
Qed.
(** An insertion doubles the buckets only when the entries ask for it. *)
Definition grows_little (m m' : table K V) : Prop := NumEntries m' <= NumEntries m + 1 /\
  (NumBuckets m' <= Z.max 4 (NumBuckets m) \/
   NumBuckets m' <= Z.max 4 (2 * NumBuckets m) /\ 3 * NumBuckets m <= 4 * (NumEntries m + 1)).
Lemma make_room_grows m k t m' t' : usable T m -> make_room T m k t = Ok (m', t') -> 0 <= NumEntries m' <= NumEntries m /\
  (NumBuckets m' <= Z.max 4 (NumBuckets m) \/
   NumBuckets m' <= Z.max 4 (2 * NumBuckets m) /\ 3 * NumBuckets m <= 4 * (NumEntries m + 1)).
Proof.
  intros U E. pose proof U as [Hok HN]. unfold max_buckets in HN. pose proof (table_counts T m Hok) as (He & Ht & Hb & Hc).
  assert (Hgrow : forall n, (n = NumBuckets m \/ n = 2 * NumBuckets m) -> 4 * NumEntries m < 3 * Z.max n 1 ->
    (let? m1 := grow T m n in let? (_, b) := LookupBucketFor T m1 k in Ok (m1, b)) = Ok (m', t') ->
    0 <= NumEntries m' <= NumEntries m /\ NumBuckets m' <= Z.max 4 n).
  { intros n Hn Hl Eg. destruct (DenseMap_grow_ok T m n Hok) as (m1 & E1 & Hwf1 & _ & H1 & _); [lia|done|]. pose proof (wf_bounds T m1 Hwf1). cbn in Eg. rewrite E1 in Eg. cbn in Eg.
    destruct (LookupBucketFor T m1 k) as [[found b]|f]; [|done]. injection Eg as <- _. split; [lia|].
    eapply grow_buckets; [|done]. destruct (wf_pow m U) as [E0|(p & Hp & E0)]; [left; lia|right].
    destruct Hn as [->| ->]; [exists p; split; [lia|done]|]. exists (p + 1). rewrite E0, Z.pow_add_r by lia. split; lia. }
  unfold make_room in E. rewrite !(wrap_small 32) in E by (rewrite ?(wrap_small 32) by lia; lia).
  destruct (Z.geb_spec ((NumEntries m + 1) * 4) (NumBuckets m * 3)) as [Hg|Hg].
  - apply Hgrow in E as [H1 H2]; [|by right; lia|lia]. split; [done|]. right. split; [|lia]. replace (NumBuckets m * 2) with (2 * NumBuckets m) in H2 by lia. done.
  - destruct (_ <=? _) in E.
    + apply Hgrow in E as [H1 H2]; [|by left|lia]. split; [done|by left].
    + injection E as <- <-. split; [lia|]. left. lia.
Qed.
Lemma try_emplace_grows m k v m' i fresh : usable T m -> try_emplace T m k v = Ok (m', i, fresh) -> grows_little m m'.
Proof.
  intros U E. pose proof U as [Hok HN]. pose proof (table_counts T m Hok) as (He & Ht & Hb & Hc). unfold try_emplace in E.
  destruct (LookupBucketFor T m k) as [[found t]|f]; [|done]. cbn in E.
  assert (Hsame : (found = true /\ is_Some t) \/ InsertIntoBucket T m t k v = Ok (m', i)).
  { destruct found, t as [t|]; [by left; split; [|exists t]| | |]; right;
      (destruct (InsertIntoBucket T m _ k v) as [[m1 i1]|f]; [|done]); by injection E as -> -> _. }
  destruct Hsame as [[-> [x ->]]|Ei].
  - injection E as <- _ _. split; [lia|left; lia].
  - clear E. unfold InsertIntoBucket, InsertIntoBucketImpl in Ei. cbv zeta in Ei. fold (make_room T m k t) in Ei.
    destruct (make_room T m k t) as [[m1 t1]|f] eqn:Er; [|done]. cbn [rbind] in Ei. destruct (make_room_grows m k t m1 t1 U Er) as [H1 H2].
    destruct t1 as [x|]; [|done]. destruct (bucket_at m1 x) as [b|]; [|done].
    assert (Hinc : u32 (NumEntries m1 + 1) = NumEntries m1 + 1) by (apply wrap_small; lia).
    destruct (is_empty T b); [|destruct (is_tombstone T b); [|destruct (isPurgeable T (snd b)); [|done]]]; cbn in Ei; injection Ei as <- _;
      unfold grows_little; cbn; (split; [lia|done]).
Qed.
End Sizes.

(** ** One map of associations *)
Section Maps.
Context `{Mem : FreshMemory}.
Abbreviation MT := MapT.
Abbreviation RT := RefsT.

#[local] Instance RefsT_info : DenseMapInfoOk (KeyInfo RT) := PointerInfo_ok.
#[local] Instance MapT_info : DenseMapInfoOk (KeyInfo MT) := DisguisedPtrInfo_ok.

Lemma refs_same f g k : purged_at RT f g k -> g k = f k.
Proof. by intros [|(_ & v & _ & H)]. Qed.
Lemma map_same f g k : purged_at MT f g k -> g k = f k.
Proof. by intros [|(_ & v & _ & H)]. Qed.

(** Tables are well formed, and objects without associations are not in the map. *)
Record maps_ok (m : AssociationsHashMap) : Prop := {
  maps_table : table_ok MT m;
  maps_refs k refs : denote MT m k = Some refs -> table_ok RT refs /\ 0 < size refs;
}.
(** The tables are not larger than the operations of [DenseMap] allow. *)
Record fits (m : AssociationsHashMap) : Prop := {
  fits_table : NumBuckets m <= max_buckets;
  fits_refs k refs : denote MT m k = Some refs -> NumBuckets refs <= max_buckets;
}.
Definition valid_object (o : Z) : Prop := in_word 64 o /\ valid_key MT (disguise o).
Definition association_of (m : AssociationsHashMap) (o k : Z) : option ObjcAssociation :=
  denote MT m (disguise o) ≫= fun refs => denote RT refs k.
(** The association of one object and key becomes [x]. *)
Definition changed (m m' : AssociationsHashMap) (o k : Z) (x : option ObjcAssociation) : Prop :=
  forall o' k', in_word 64 o' -> association_of m' o' k' = if decide (o' = o /\ k' = k) then x else association_of m o' k'.

Lemma object_eq o o' : in_word 64 o -> in_word 64 o' -> isEqual (KeyInfo MT) (disguise o) (disguise o') = (o =? o').
Proof. intros H H'. cbn. by rewrite !undisguise_disguise. Qed.
Lemma refs_eq k k' : isEqual (KeyInfo RT) k k' = (k =? k').
Proof. done. Qed.
Lemma new_map_ok {V} (T : Template Z V) : table_ok T new_map.
Proof. left. done. Qed.
Lemma new_map_denote {V} (T : Template Z V) k : denote T new_map k = None.
Proof. done. Qed.
(** [_objc_associations_init] *)
Lemma maps_init : maps_ok new_map.
Proof. split; [apply new_map_ok|]. intros k refs. by rewrite new_map_denote. Qed.
Lemma deref_entry {V} (T : Template Z V) m k i (v : V) : entry_at T m k i v -> exists l, deref m i = Ok (l, v) /\ bucket_at m i = Some (l, v) /\ isEqual (KeyInfo T) k l = true /\ is_live T (l, v) = true.
Proof. intros (_ & l & Hb & He & HL). exists l. unfold deref. by rewrite Hb. Qed.

(** A table without entries denotes nothing, and conversely. *)
Lemma size_zero m : table_ok RT m -> size m = 0 <-> forall k, denote RT m k = None.
Proof.
  intros Hok. unfold size. rewrite (entries_length RT m Hok). split.
  - intros E k. destruct (denote RT m k) as [v|] eqn:Ed; [|done]. apply (denote_live RT m k v Hok) in Ed as (l & Hin & _).
    by destruct (List.filter _ _).
  - intros Hn. destruct (List.filter (is_live RT) (getBuckets m)) as [|[l v] rest] eqn:Ef; [done|]. specialize (Hn l).
    assert (Hd : denote RT m l = Some v); [|congruence]. apply (denote_live RT m l v Hok). exists l. rewrite Ef. split; [by left|apply Z.eqb_refl].
Qed.
Lemma size_pos m k v : table_ok RT m -> denote RT m k = Some v -> 0 < size m.
Proof.
  intros Hok Hd. destruct (decide (size m = 0)) as [E|]; [by rewrite (proj1 (size_zero m Hok) E) in Hd|].
  pose proof (table_counts RT m Hok). unfold size in *. lia.
Qed.

(** The value of an object's entry is replaced. *)
Lemma replaced_maps m m' o refs' : in_word 64 o -> maps_ok m -> wf MT m' ->
  (forall k, denote MT m' k = if isEqual (KeyInfo MT) (disguise o) k then Some refs' else denote MT m k) ->
  table_ok RT refs' -> 0 < size refs' -> maps_ok m' /\
  forall o' k', in_word 64 o' -> association_of m' o' k' = if o =? o' then denote RT refs' k' else association_of m o' k'.
Proof.
  intros Ho [Hok Hr] Hwf Hd Hok' Hpos. split; [split; [by right|]|].
  - intros k refs. rewrite Hd. destruct (isEqual _ _ _); [by intros [= <-]|apply Hr].
  - intros o' k' Ho'. unfold association_of. rewrite Hd, object_eq by done. by destruct (o =? o').
Qed.
(** The entry of an object is erased. *)
Lemma erased_maps m o i refs : in_word 64 o -> table_ok MT m -> (forall k refs, isEqual (KeyInfo MT) (disguise o) k = false -> denote MT m k = Some refs -> table_ok RT refs /\ 0 < size refs) ->
  NumBuckets m <= max_buckets -> wf MT m -> entry_at MT m (disguise o) i refs ->
  exists m', erase_iterator MT m i = Ok m' /\ maps_ok m' /\
    forall o' k', in_word 64 o' -> association_of m' o' k' = if o =? o' then None else association_of m o' k'.
Proof.
  intros Ho Hok Hr HN Hwf He. destruct (deref_entry MT m _ i refs He) as (l & _ & Hb & Hl & HL).
  destruct (erase_iterator_ok MT m i (l, refs) Hwf HN Hb HL) as (m' & E & Hok' & Hn & Hs). exists m'. split; [done|].
  assert (Hkey : forall k, isEqual (KeyInfo MT) k l = isEqual (KeyInfo MT) (disguise o) k).
  { intros k. rewrite (isEqual_sym k l). symmetry. apply (keyeq_rewrite MT). done. }
  split.
  - split; [done|]. intros k x Hx. destruct (isEqual (KeyInfo MT) (disguise o) k) eqn:Ek.
    + rewrite Hn in Hx; [done|]. by rewrite Hkey.
    + apply (Hr k); [done|]. rewrite <- Hx. symmetry. apply map_same, Hs. by rewrite Hkey.
  - intros o' k' Ho'. unfold association_of. rewrite <- (object_eq o o') by done. destruct (isEqual (KeyInfo MT) (disguise o) (disguise o')) eqn:Ek.
    + rewrite Hn; [done|]. by rewrite Hkey.
    + rewrite (map_same _ _ _ (Hs (disguise o') ltac:(by rewrite Hkey))). done.
Qed.

(** An association is stored in the map of an object. *)
Lemma refs_stored refs k a : table_ok RT refs -> NumBuckets refs <= max_buckets -> valid_key RT k ->
  exists refs' inserted, (let? (refs1, j, fresh) := try_emplace RT refs k a in
      if fresh then Ok (refs1, no_association, true)
      else let? jb := deref refs1 j in Ok (set_second j a refs1, snd jb, false))
    = Ok (refs', default no_association (denote RT refs k), inserted) /\
    table_ok RT refs' /\ 0 < size refs' /\ forall k', denote RT refs' k' = if k =? k' then Some a else denote RT refs k'.
Proof.
  intros Hok HN Hk. destruct (try_emplace_entry RT refs k a (conj Hok HN) Hk) as (refs1 & j & fresh & E & Hwf & H). rewrite E. cbn [rbind].
  destruct (denote RT refs k) as [w|] eqn:Ed.
  - destruct H as (-> & -> & He). destruct (deref_entry RT refs k j w He) as (l & -> & _). cbn [rbind snd].
    destruct (entry_store RT refs k j w a Hwf He) as (Hwf' & _ & Hd). eexists _, _. split; [done|].
    assert (Hd' : forall k', denote RT (set_second j a refs) k' = if k =? k' then Some a else denote RT refs k') by exact Hd.
    split; [by right|]. split; [|done]. eapply (size_pos _ k a); [by right|]. by rewrite Hd', Z.eqb_refl.
  - destruct H as (-> & He & Hs). eexists _, _. split; [done|].
    assert (Hd' : forall k', denote RT refs1 k' = if k =? k' then Some a else denote RT refs k').
    { intros k'. destruct (Z.eqb_spec k k') as [<-|Hn]; [by apply (entry_denote RT refs1 k j)|]. apply refs_same, Hs. by apply Z.eqb_neq. }
    split; [by right|]. split; [|done]. eapply (size_pos _ k a); [by right|]. by rewrite Hd', Z.eqb_refl.
Qed.

Lemma establish_ok m o k a : maps_ok m -> fits m -> valid_object o -> valid_key RT k ->
  exists m', establish m (disguise o) k a =
      Ok (m', default no_association (association_of m o k), negb (bool_decide (is_Some (denote MT m (disguise o))))) /\
    maps_ok m' /\ changed m m' o k (Some a).
Proof.
  intros M F [Ho Hko] Hk. pose proof M as [Hok Hr]. unfold establish.
  destruct (try_emplace_entry MT m (disguise o) new_map (conj Hok (fits_table _ F)) Hko) as (m1 & i & first & E & Hwf1 & H). rewrite E. cbn [rbind].
  assert (Hcase : exists refs, entry_at MT m1 (disguise o) i refs /\ table_ok RT refs /\ NumBuckets refs <= max_buckets /\
    first = negb (bool_decide (is_Some (denote MT m (disguise o)))) /\
    (forall k', denote RT refs k' = association_of m o k') /\
    (forall x refs', isEqual (KeyInfo MT) (disguise o) x = false -> denote MT m1 x = Some refs' <-> denote MT m x = Some refs')).
  { unfold association_of. destruct (denote MT m (disguise o)) as [refs|] eqn:Ed.
    - destruct H as (-> & -> & He). exists refs. destruct (Hr _ _ Ed). split_and!; try done. by eapply fits_refs.
    - destruct H as (-> & He & Hs). exists new_map. split_and!; try done; [by apply new_map_ok|].
      intros x refs' Hx. by rewrite (map_same _ _ _ (Hs x Hx)). }
  clear H. destruct Hcase as (refs & He & Hokr & HNr & -> & Hd & Hothers).
  destruct (deref_entry MT m1 (disguise o) i refs He) as (l & -> & _). cbn [rbind snd].
  destruct (refs_stored refs k a Hokr HNr Hk) as (refs' & ins & Es & Hok' & Hpos & Hd').
  assert (Eq : forall X (f : ObjectAssociationMap -> ObjcAssociation -> res X),
    (let? (refs1, j, fresh) := try_emplace RT refs k a in
      if fresh then f refs1 no_association else let? jb := deref refs1 j in f (set_second j a refs1) (snd jb))
    = f refs' (default no_association (association_of m o k))).
  { intros X f. rewrite <- Hd. revert Es. destruct (try_emplace RT refs k a) as [[[refs1 j] fresh]|]; [|done]. cbn [rbind].
    destruct fresh; [by intros [= -> <- _]|]. destruct (deref refs1 j) as [jb|]; [|done]. cbn [rbind]. by intros [= -> <- _]. }
  rewrite (Eq _ (fun refs old => Ok (set_second i refs m1, old, _))).
  destruct (entry_store MT m1 (disguise o) i refs refs' Hwf1 He) as (Hwf2 & _ & Hd2). eexists. split; [done|].
  assert (M1 : forall x, isEqual (KeyInfo MT) (disguise o) x = false -> denote MT m1 x = denote MT m x).
  { intros x Hx. destruct (denote MT m x) as [y|] eqn:Ey; [by apply Hothers|]. destruct (denote MT m1 x) as [y|] eqn:Ey1; [|done].
    apply (Hothers x y Hx) in Ey1. congruence. }
  destruct (replaced_maps m (set_second i refs' m1) o refs' Ho M Hwf2) as [M2 Ha]; [|done|done|].
  - intros x. etransitivity; [apply Hd2|]. destruct (isEqual _ _ _) eqn:Ex; [done|by apply M1].
  - split; [done|]. intros o' k' Ho'. rewrite Ha by done. destruct (Z.eqb_spec o o') as [<-|Hne].
    + rewrite Hd', Hd. destruct (Z.eqb_spec k k') as [<-|Hk']; [by rewrite decide_True|]. rewrite decide_False; [done|]. by intros [_ ?].
    + rewrite decide_False; [done|]. by intros [? _].
Qed.

(** An association is erased from the map of an object. *)
Lemma refs_erased refs k j a w : wf RT refs -> NumBuckets refs <= max_buckets -> entry_at RT refs k j w ->
  exists refs', erase_iterator RT (set_second j a refs) j = Ok refs' /\ table_ok RT refs' /\
    forall k', denote RT refs' k' = if k =? k' then None else denote RT refs k'.
Proof.
  intros Hwf HN He. destruct (entry_store RT refs k j w a Hwf He) as (Hwf1 & He1 & Hd1).
  destruct (deref_entry RT _ k j a He1) as (l & _ & Hb & Hl & HL).
  destruct (erase_iterator_ok RT (set_second j a refs) j (l, a) Hwf1 HN Hb HL) as (refs' & E & Hok' & Hn & Hs). apply Z.eqb_eq in Hl as <-.
  exists refs'. split; [done|]. split; [done|]. intros k'. destruct (Z.eqb_spec k k') as [<-|Hne].
  - apply Hn, Z.eqb_refl.
  - rewrite (refs_same _ _ _ (Hs k' ltac:(apply Z.eqb_neq; cbn; lia))). etransitivity; [apply Hd1|]. rewrite refs_eq.
    by apply Z.eqb_neq in Hne as ->.
Qed.
Lemma changed_same m o k x : association_of m o k = x -> changed m m o k x.
Proof. intros E o' k' _. case_decide as Hc; [|done]. by destruct Hc as [-> ->]. Qed.

Lemma withdraw_ok m o k a : maps_ok m -> fits m -> valid_object o -> valid_key RT k ->
  exists m', withdraw m (disguise o) k a = Ok (m', default a (association_of m o k), false) /\ maps_ok m' /\ changed m m' o k None.
Proof.
  intros M F [Ho Hko] Hk. pose proof M as [Hok Hr]. unfold withdraw, association_of.
  destruct (find_entry MT m (disguise o) Hok Hko) as [(i & refs & -> & Hwf & He & Ed & Ei)|(-> & Ed)]; rewrite Ed; cbn [rbind negb mbind option_bind]; [rewrite Ei; cbn [negb]|].
  2: { rewrite Z.eqb_refl. exists m. split; [done|]. split; [done|]. apply changed_same. unfold association_of. by rewrite Ed. }
  destruct (deref_entry MT m _ i refs He) as (l & -> & _). cbn [rbind snd]. destruct (Hr _ _ Ed) as [Hokr Hpos]. pose proof (fits_refs _ F _ _ Ed) as HNr.
  destruct (find_entry RT refs k Hokr Hk) as [(j & w & -> & Hwfr & Her & Edr & Ej)|(-> & Edr)]; rewrite Edr; cbn [rbind negb]; [rewrite Ej; cbn [negb]|].
  2: { rewrite Z.eqb_refl. exists m. split; [done|]. split; [done|]. apply changed_same. unfold association_of. by rewrite Ed. }
  destruct (deref_entry RT refs k j w Her) as (l' & -> & _). cbn [rbind snd].
  destruct (refs_erased refs k j a w Hwfr HNr Her) as (refs' & -> & Hok' & Hd'). cbn [rbind].
  destruct (entry_store MT m (disguise o) i refs refs' Hwf He) as (Hwf1 & He1 & Hd1).
  destruct (Z.eqb_spec (size refs') 0) as [E0|E0].
  - destruct (erased_maps (set_second i refs' m) o i refs' Ho) as (m' & E & M' & Ha); [by right| |apply F|done|done|].
    + intros x y Hx Hy. apply (Hr x). etransitivity; [|exact Hy]. symmetry. etransitivity; [apply Hd1|]. by rewrite Hx.
    + rewrite E. cbn [rbind]. exists m'. split; [done|]. split; [done|]. intros o' k' Ho'. rewrite Ha by done.
      destruct (Z.eqb_spec o o') as [<-|Hne].
      * assert (Hall : forall x, denote RT refs' x = None) by by apply size_zero.
        case_decide as Hc; [done|]. unfold association_of. rewrite Ed. cbn. specialize (Hall k'). rewrite Hd' in Hall.
        destruct (Z.eqb_spec k k') as [<-|]; [by destruct Hc|done].
      * rewrite decide_False by (intros [? _]; done). unfold association_of.
        assert (E1 : denote MT (set_second i refs' m) (disguise o') = denote MT m (disguise o')); [|by rewrite E1].
        etransitivity; [apply Hd1|]. rewrite object_eq by done. by apply Z.eqb_neq in Hne as ->.
  - cbn [rbind]. assert (0 < size refs') by (pose proof (table_counts RT refs' Hok'); unfold size in *; lia).
    destruct (replaced_maps m (set_second i refs' m) o refs' Ho M Hwf1 Hd1 Hok') as [M' Ha]; [done|].
    eexists. split; [done|]. split; [done|]. intros o' k' Ho'. rewrite Ha by done. destruct (Z.eqb_spec o o') as [<-|Hne].
    + rewrite Hd'. unfold association_of. rewrite Ed. destruct (Z.eqb_spec k k') as [<-|Hk']; [by rewrite decide_True|].
      rewrite decide_False; [done|]. by intros [_ ?].
    + by rewrite decide_False by (intros [? _]; done).
Qed.

(** ** Taking the associations of an object out *)
Lemma apart_head k a l : ForallOrdPairs (apart RT) ((k, a) :: l) -> ForallOrdPairs (apart RT) l /\ forall x, (k, x) ∉ l.
Proof.
  intros H. inversion H as [|? ? Hf Hl]; subst. split; [done|]. intros x Hin%list_elem_of_In. rewrite List.Forall_forall in Hf.
  specialize (Hf _ Hin). unfold apart in Hf. cbn in Hf. by rewrite Z.eqb_refl in Hf.
Qed.
Lemma reinsert_spec l : forall refs c did, table_ok RT refs -> 0 <= NumEntries refs <= c -> 3 * NumBuckets refs <= Z.max 12 (8 * c) ->
  4 * (c + Z.of_nat (length l)) <= 3 * max_buckets -> ForallOrdPairs (apart RT) l ->
  (forall k a, (k, a) ∈ l -> valid_key RT k /\ denote RT refs k = None) ->
  exists refs', reinsert l refs did = Ok (refs', did || existsb (fun b => is_system (snd b)) l) /\ table_ok RT refs' /\
    forall k a, denote RT refs' k = Some a <-> denote RT refs k = Some a \/ ((k, a) ∈ l /\ is_system a = true).
Proof.
  induction l as [|[k a] l IH]; intros refs c did Hok Hc HB Hlen Hap Hin.
  { exists refs. cbn. rewrite orb_false_r. split; [done|]. split; [done|]. intros k a. split; [by left|]. by intros [?|[?%elem_of_nil _]]. }
  destruct (apart_head k a l Hap) as [Hap' Hfresh]. cbn [length] in Hlen. cbn [reinsert existsb snd].
  assert (Hin' : forall k' a', (k', a') ∈ l -> valid_key RT k' /\ denote RT refs k' = None) by (intros; apply (Hin _ a'); by right).
  destruct (is_system a) eqn:Es; cbn [orb].
  2: { destruct (IH refs c did Hok Hc HB ltac:(lia) Hap' Hin') as (refs' & E & Hok' & Hd). exists refs'. split; [done|]. split; [done|].
       intros k' a'. rewrite Hd. split; [intros [?|[? ?]]; [by left|right; split; [by right|done]]|].
       intros [?|[[[= -> ->]|?]%elem_of_cons ?]]; [by left|congruence|by right]. }
  destruct (Hin k a) as [Hk Hnone]; [by left|].
  assert (HN : NumBuckets refs <= max_buckets) by (apply (below_limit RT refs Hok); unfold max_buckets in *; lia).
  destruct (try_emplace_entry RT refs k a (conj Hok HN) Hk) as (refs1 & i & fresh & E & Hwf1 & H). rewrite Hnone in H. destruct H as (-> & He & Hs).
  pose proof (try_emplace_grows RT refs k a refs1 i true (conj Hok HN) E) as [Hn1 Hb1]. pose proof (wf_bounds RT refs1 Hwf1).
  unfold insert. cbn [fst snd]. rewrite E. cbn [rbind].
  assert (Hd1 : forall k', denote RT refs1 k' = if k =? k' then Some a else denote RT refs k').
  { intros k'. destruct (Z.eqb_spec k k') as [<-|Hne]; [by apply (entry_denote RT refs1 k i)|]. apply refs_same, Hs. by apply Z.eqb_neq. }
  destruct (IH refs1 (c + 1) true) as (refs' & E' & Hok' & Hd); [by right|lia|lia|lia|done| |].
  - intros k' a' Hk'. rewrite Hd1. destruct (Z.eqb_spec k k') as [<-|]; [by apply Hfresh in Hk'|by apply (Hin' k' a')].
  - exists refs'. rewrite E'. cbn [orb]. rewrite orb_true_r. split; [done|]. split; [done|]. intros k' a'. rewrite Hd, Hd1, elem_of_cons.
    destruct (Z.eqb_spec k k') as [<-|Hne].
    + rewrite Hnone. split; [intros [[= <-]|[Hx ?]]; [right; split; [by left|done]|by apply Hfresh in Hx]|].
      intros [?|[[[= <-]|Hx] ?]]; [done|by left|by apply Hfresh in Hx].
    + split; [intros [?|[? ?]]; [by left|right; split; [by right|done]]|].
      intros [?|[[[= <- _]|?] ?]]; [by left|done|by right].
Qed.

Lemma iterate_denote refs k a : table_ok RT refs -> (k, a) ∈ iterate RT refs <-> denote RT refs k = Some a.
Proof.
  intros Hok. rewrite (iterate_live RT refs Hok), (denote_live RT refs k a Hok), list_elem_of_In. split; [intros H; exists k; split; [done|apply Z.eqb_refl]|].
  intros (l & H & E). apply Z.eqb_eq in E. by subst.
Qed.
Lemma denote_valid refs k a : table_ok RT refs -> denote RT refs k = Some a -> valid_key RT k.
Proof.
  intros Hok Hd. apply (iterate_denote refs k a Hok) in Hd. rewrite (iterate_live RT refs Hok) in Hd. apply list_elem_of_In, filter_In in Hd as [_ HL].
  by apply (live_valid RT (k, a)) in HL.
Qed.
Lemma iterate_apart refs : table_ok RT refs -> ForallOrdPairs (apart RT) (iterate RT refs).
Proof. intros Hok. rewrite (iterate_live RT refs Hok). apply (live_apart RT), (table_unique RT refs Hok). Qed.

Definition keep_system (x : option ObjcAssociation) : option ObjcAssociation :=
  a ← x; if is_system a then Some a else None.
(** The associations put back are those of the system. *)
Lemma put_back refs : table_ok RT refs -> NumBuckets refs <= max_buckets ->
  exists refs', reinsert (iterate RT refs) new_map false = Ok (refs', existsb (fun b => is_system (snd b)) (iterate RT refs)) /\
    table_ok RT refs' /\ forall k, denote RT refs' k = keep_system (denote RT refs k).
Proof.
  intros Hok HN. pose proof (table_counts RT refs Hok) as (_ & _ & _ & Hc). pose proof (entries_length RT refs Hok) as Hlen.
  destruct (reinsert_spec (iterate RT refs) new_map 0 false) as (refs' & E & Hok' & Hd).
  - apply new_map_ok.
  - cbn. lia.
  - cbn. lia.
  - rewrite (iterate_live RT refs Hok). unfold max_buckets in *. destruct Hc as [(? & ? & _)|(? & ? & _)]; lia.
  - by apply iterate_apart.
  - intros k a Hin%iterate_denote; [|done]. split; [by eapply denote_valid|done].
  - exists refs'. split; [done|]. split; [done|]. intros k. unfold keep_system. destruct (denote RT refs' k) as [a|] eqn:Ek.
    + apply Hd in Ek as [?|[Hin%iterate_denote Es]]; [done| |done]. rewrite Hin. cbn. by rewrite Es.
    + destruct (denote RT refs k) as [a|] eqn:Ea; [|done]. cbn. destruct (is_system a) eqn:Es; [|done].
      assert (denote RT refs' k = Some a); [|congruence]. apply Hd. right. split; [by apply iterate_denote|done].
Qed.

Lemma object_erased m o i refs second : maps_ok m -> fits m -> in_word 64 o -> wf MT m -> entry_at MT m (disguise o) i refs ->
  exists m', erase_iterator MT (set_second i second m) i = Ok m' /\ maps_ok m' /\
    forall o' k', in_word 64 o' -> association_of m' o' k' = if o =? o' then None else association_of m o' k'.
Proof.
  intros [Hok Hr] F Ho Hwf He. destruct (entry_store MT m (disguise o) i refs second Hwf He) as (Hwf1 & He1 & Hd1).
  destruct (erased_maps (set_second i second m) o i second Ho) as (m' & E & M' & Ha); [by right| |apply F|done|done|].
  - intros x y Hx Hy. apply (Hr x). etransitivity; [|exact Hy]. symmetry. etransitivity; [apply Hd1|]. by rewrite Hx.
  - exists m'. split; [done|]. split; [done|]. intros o' k' Ho'. rewrite Ha by done. destruct (Z.eqb_spec o o') as [|Hne]; [done|].
    unfold association_of. assert (E1 : denote MT (set_second i second m) (disguise o') = denote MT m (disguise o')); [|by rewrite E1].
    etransitivity; [apply Hd1|]. rewrite object_eq by done. by apply Z.eqb_neq in Hne as ->.
Qed.
Lemma no_system refs : table_ok RT refs -> existsb (fun b => is_system (snd b)) (iterate RT refs) = false ->
  forall k, keep_system (denote RT refs k) = None.
Proof.
  intros Hok E k. destruct (denote RT refs k) as [a|] eqn:Ea; [|done]. cbn. destruct (is_system a) eqn:Es; [|done].
  assert (existsb (fun b => is_system (snd b)) (iterate RT refs) = true); [|congruence].
  apply existsb_exists. exists (k, a). split; [|done]. apply list_elem_of_In. by apply iterate_denote.
Qed.
Lemma some_system refs kept : table_ok RT refs -> table_ok RT kept -> (forall k, denote RT kept k = keep_system (denote RT refs k)) ->
  existsb (fun b => is_system (snd b)) (iterate RT refs) = true -> 0 < size kept.
Proof.
  intros Hok Hok' Hd ([k a] & Hin & Es)%existsb_exists. apply list_elem_of_In in Hin. apply (iterate_denote refs k a Hok) in Hin.
  apply (size_pos kept k a Hok'). rewrite Hd, Hin. cbn in *. by rewrite Es.
Qed.
Lemma take_out_ok m o deallocating : maps_ok m -> fits m -> valid_object o ->
  exists m' refs, take_out m (disguise o) deallocating = Ok (m', refs) /\ maps_ok m' /\ table_ok RT refs /\
    (forall k, denote RT refs k = association_of m o k) /\
    forall o' k', in_word 64 o' -> association_of m' o' k' =
      if o =? o' then (if deallocating then None else keep_system (association_of m o k')) else association_of m o' k'.
Proof.
  intros M F [Ho Hko]. pose proof M as [Hok Hr]. unfold take_out.
  destruct (find_entry MT m (disguise o) Hok Hko) as [(i & refs & -> & Hwf & He & Ed & Ei)|(-> & Ed)]; cbn [rbind negb]; [rewrite Ei; cbn [negb]|].
  2: { rewrite Z.eqb_refl. exists m, new_map. unfold association_of. split_and!; [done|done|apply new_map_ok|by rewrite Ed|].
       intros o' k' Ho'. destruct (Z.eqb_spec o o') as [<-|]; [|done]. rewrite Ed. by destruct deallocating. }
  destruct (deref_entry MT m _ i refs He) as (l & -> & _). cbn [rbind snd]. destruct (Hr _ _ Ed) as [Hokr Hpos].
  assert (Hdr : forall k, denote RT refs k = association_of m o k) by (intros k; unfold association_of; by rewrite Ed).
  destruct deallocating; cbn [negb rbind].
  { destruct (object_erased m o i refs new_map M F Ho Hwf He) as (m' & -> & M' & Ha). cbn [rbind]. by exists m', refs. }
  destruct (put_back refs Hokr (fits_refs _ F _ _ Ed)) as (kept & -> & Hokk & Hdk). cbn [rbind].
  destruct (existsb _ _) eqn:Es; cbn [negb].
  - destruct (entry_store MT m (disguise o) i refs kept Hwf He) as (Hwf1 & _ & Hd1). cbn [rbind].
    destruct (replaced_maps m (set_second i kept m) o kept Ho M Hwf1 Hd1 Hokk) as [M' Ha]; [exact (some_system refs kept Hokr Hokk Hdk Es)|].
    eexists _, refs. split_and!; try done. intros o' k' Ho'. rewrite Ha by done. by rewrite Hdk, Hdr.
  - destruct (object_erased m o i refs kept M F Ho Hwf He) as (m' & -> & M' & Ha). cbn [rbind]. exists m', refs. split_and!; try done.
    intros o' k' Ho'. rewrite Ha by done. by rewrite <- Hdr, (no_system refs Hokr Es).
Qed.
End Maps.
