(* ===== verification/AssociatedObjectsProperties.v ===== *)
(** * What associated objects promise

    The operations as one critical section between the messages they send; and,
    for a process that only counts, that associations own what they hold: each
    value has been retained or copied once for each association that holds it, and
    released for each that is gone. *)

From stdpp Require Import prelude numbers list gmap fin_maps.
From Stdlib Require Import ZArith Lia Bool.
From S2P Require Import Prelude MathExtras ObjcOS DenseMapInfo DenseMap DenseMapTheory DenseMapMove DenseMapOps DenseMapImpl.
From S2P Require Import AssociatedObjects AssociatedObjectsTheory.

Section Operations.
Context {P : Type} `{Mem : FreshMemory} {Msg : Messages P}.
Implicit Types w : world P.

(** Messages leave the maps well formed and the lock free; one that is sent under
    the lock cannot reach the maps, since the lock is not recursive. *)
Class MessagesOk := {
  send_free e w v w' : locked w = false -> maps_ok (associations w) -> send e w = Ok (v, w') ->
    locked w' = false /\ maps_ok (associations w');
  send_locked e w v w' : locked w = true -> send e w = Ok (v, w') -> associations w' = associations w /\ locked w' = true;
}.
Context {MsgOk : MessagesOk}.

Definition free w : Prop := locked w = false /\ maps_ok (associations w).
Definition has_associations (m : AssociationsHashMap) (o : Z) : bool := bool_decide (is_Some (denote MapT m (disguise o))).
Lemma has_associations_spec m o : maps_ok m -> has_associations m o = true <-> exists k, is_Some (association_of m o k).
Proof.
  intros [_ Hr]. unfold has_associations, association_of. rewrite bool_decide_eq_true. split.
  - intros [refs E]. destruct (Hr _ _ E) as [Hok Hpos]. destruct (iterate RefsT refs) as [|[k a] l] eqn:El.
    + pose proof (size_zero refs Hok) as Hz. assert (size refs = 0); [|lia]. apply Hz. intros k. destruct (denote RefsT refs k) as [a|] eqn:Ea; [|done].
      apply (iterate_denote refs k a Hok) in Ea. rewrite El in Ea. by apply elem_of_nil in Ea.
    + exists k. rewrite E. cbn. exists a. apply (iterate_denote refs k a Hok). rewrite El. by left.
  - intros [k [a E]]. destruct (denote MapT m (disguise o)) as [refs|]; [by exists refs|done].
Qed.

(** *** Reading *)
Lemma get_ok o k w : free w -> valid_object o -> valid_key RefsT k ->
  _object_get_associative_reference o k w =
    match association_of (associations w) o k with
    | None => Ok (0, w)
    | Some a =>
      let? w1 := retainReturnedValue a (World (associations w) true (process w)) in
      autoreleaseReturnedValue a (World (associations w) false (process w1))
    end.
Proof.
  intros [Hfree [Hok Hr]] [Ho Hko] Hk. destruct w as [m lk p]. cbn in Hfree. subst lk. cbn [associations process] in *.
  unfold _object_get_associative_reference, lock, association_of. cbn [locked associations process rbind].
  destruct (find_entry MapT m (disguise o) Hok Hko) as [(i & refs & -> & Hwf & He & -> & Ei)|(-> & ->)]; cbn [rbind negb mbind option_bind]; [rewrite Ei; cbn [negb]|by rewrite Z.eqb_refl].
  destruct (deref_entry MapT m _ i refs He) as (l & -> & Hb & _). cbn [rbind snd].
  assert (Hokr : table_ok RefsT refs) by (eapply Hr, (entry_denote MapT m); done).
  destruct (find_entry RefsT refs k Hokr Hk) as [(j & a & -> & Hwfr & Her & -> & Ej)|(-> & ->)]; cbn [rbind negb]; [rewrite Ej; cbn [negb]|by rewrite Z.eqb_refl].
  destruct (deref_entry RefsT refs k j a Her) as (l' & -> & _). cbn [rbind snd]. unfold retainReturnedValue.
  destruct (_ && _) eqn:Er; [|done]. destruct (send (Retain (value a)) (World m true p)) as [[v w1]|f] eqn:Es; [|done]. cbn [rbind].
  destruct (send_locked (Retain (value a)) (World m true p) v w1 eq_refl Es) as [E1 E2]. unfold unlock. rewrite E2. cbn [rbind]. by rewrite E1.
Qed.

(** *** Writing *)
Definition note_first (first : bool) (o : Z) w : res (world P) :=
  if first then let? (_, w) := send (SetHasAssociatedObjects o) w in Ok w else Ok w.
Lemma release_default a x w : value a = 0 -> releaseHeldValue (default a x) w = releaseHeldValue (default no_association x) w.
Proof. intros E. destruct x; [done|]. unfold releaseHeldValue, holds. cbn. by rewrite E. Qed.

Lemma set_ok o k v p w a w1 : o <> 0 -> valid_object o -> valid_key RefsT k -> forbidsAssociatedObjects w o = false ->
  acquireValue (Association p v) w = Ok (a, w1) -> free w1 -> fits (associations w1) ->
  exists m', maps_ok m' /\ changed (associations w1) m' o k (if nz v then Some a else None) /\
    _object_set_associative_reference o k v p w =
      let? w2 := note_first (nz v && negb (has_associations (associations w1) o)) o (World m' false (process w1)) in
      releaseHeldValue (default no_association (association_of (associations w1) o k)) w2.
Proof.
  intros Hne Hv Hk Hforbid Ha [Hfree Hmaps] Hfits. unfold _object_set_associative_reference. apply Z.eqb_neq in Hne. rewrite Hne, Hforbid. cbn [andb].
  rewrite Ha. cbn [rbind]. unfold lock. rewrite Hfree. cbn [rbind associations]. destruct (nz v) eqn:Ez.
  - destruct (establish_ok (associations w1) o k a Hmaps Hfits Hv Hk) as (m' & -> & M' & Hch). exists m'. split; [done|]. split; [done|].
    cbn [rbind unlock set_associations locked associations process andb]. unfold note_first, has_associations. by destruct (bool_decide _).
  - destruct (withdraw_ok (associations w1) o k a Hmaps Hfits Hv Hk) as (m' & -> & M' & Hch). exists m'. split; [done|]. split; [done|].
    cbn [rbind unlock set_associations locked associations process andb]. unfold note_first. cbn [rbind]. apply release_default.
    unfold acquireValue in Ha. cbn [value] in Ha. rewrite Ez in Ha. injection Ha as <- _. by apply nz_false.
Qed.

(** *** Removing *)
Lemma release_all_app l1 l2 : forall w, release_all (l1 ++ l2) w = let? w := release_all l1 w in release_all l2 w.
Proof. induction l1 as [|a l1 IH]; intros w; [done|]. cbn. destruct (releaseHeldValue a w); [cbn|done]. apply IH. Qed.
Definition normal_of (l : list (Z * ObjcAssociation)) : list ObjcAssociation := List.filter (fun a => negb (is_system a)) (snd <$> l).
Definition system_of (l : list (Z * ObjcAssociation)) : list ObjcAssociation := List.filter is_system (snd <$> l).
Lemma release_first_ok deallocating l : forall v held w, vector_holds laterCount v held -> Z.of_nat (length held + length l) < 2 ^ 32 - 1 ->
  exists v', vector_holds laterCount v' (held ++ if deallocating : bool then system_of l else []) /\
    release_first deallocating l v w = let? w := release_all (normal_of l) w in Ok (v', w).
Proof.
  induction l as [|[k a] l IH]; intros v held w Hv Hlen.
  { exists v. split; [|done]. by destruct deallocating; rewrite app_nil_r. }
  cbn [length release_first snd] in *. unfold normal_of, system_of in *. cbn [fmap list_fmap List.filter snd]. destruct (is_system a) eqn:Es; cbn [negb].
  - destruct deallocating.
    + destruct (IH (append laterCount no_association a v) (held ++ [a]) w) as (v' & Hv' & E).
      * apply append_holds; [done|lia].
      * rewrite length_app. cbn. lia.
      * exists v'. split; [|done]. by rewrite <- app_assoc in Hv'.
    + apply IH; [done|lia].
  - cbn [release_all]. destruct (releaseHeldValue a w) as [w1|f]; cbn [rbind].
    + apply IH; [done|lia].
    + destruct (IH v held w Hv ltac:(lia)) as (v' & Hv' & _). by exists v'.
Qed.
Lemma apart_NoDup (l : list (Z * ObjcAssociation)) : ForallOrdPairs (apart RefsT) l -> NoDup l.*1.
Proof.
  induction l as [|[k a] l IH]; [constructor|]. intros H. destruct (apart_head k a l H) as [H' Hk]. cbn. constructor; [|by apply IH].
  intros ([k' a'] & E & Hin)%list_elem_of_fmap. cbn in E. subst k'. by apply (Hk a').
Qed.
Lemma remove_ok o (deallocating : bool) w : free w -> fits (associations w) -> valid_object o ->
  exists m' (l : list (Z * ObjcAssociation)), maps_ok m' /\ NoDup l.*1 /\ (forall k a, (k, a) ∈ l <-> association_of (associations w) o k = Some a) /\
    (forall o' k', in_word 64 o' -> association_of m' o' k' =
      if o =? o' then (if deallocating then None else keep_system (association_of (associations w) o k')) else association_of (associations w) o' k') /\
    _object_remove_assocations o deallocating w =
      release_all (normal_of l ++ if deallocating then system_of l else []) (World m' false (process w)).
Proof.
  intros [Hfree Hmaps] Hfits Hv. destruct (take_out_ok (associations w) o deallocating Hmaps Hfits Hv) as (m' & refs & E & M' & Hok & Hd & Ha).
  exists m', (iterate RefsT refs). split; [done|]. split; [by apply apart_NoDup, iterate_apart|]. split; [intros k a; by rewrite <- Hd; apply iterate_denote|].
  split; [done|]. unfold _object_remove_assocations, lock. rewrite Hfree. cbn [rbind associations]. rewrite E.
  cbn [rbind unlock set_associations locked associations process].
  destruct (release_first_ok deallocating (iterate RefsT refs) (new_vector (replicate laterCount no_association)) [] (World m' false (process w)))
    as (v' & (_ & _ & Hr) & ->).
  - apply new_vector_holds. apply length_replicate.
  - rewrite (iterate_live RefsT refs Hok). pose proof (table_counts RefsT refs Hok). pose proof (entries_length RefsT refs Hok). cbn. lia.
  - rewrite release_all_app. destruct (release_all _ _) as [w1|f]; [|done]. cbn [rbind]. by rewrite Hr.
Qed.
Lemma acquire_free a w a' w' : free w -> acquireValue a w = Ok (a', w') -> free w'.
Proof.
  intros [Hf M]. unfold acquireValue. destruct (nz (value a)); [|by intros [= _ <-]].
  destruct (_ =? _); [|destruct (_ =? _); [|by intros [= _ <-]]];
    (destruct (send _ w) as [[v w1]|f] eqn:E; [|done]); intros [= _ <-]; by destruct (send_free _ _ _ _ Hf M E).
Qed.

(** C13: Associated objects are a map from objects and keys to associations, in a
    process that may do anything in the messages it is sent. Reading answers
    what the map holds, retained under the lock and autoreleased outside of it as the
    policy says, and nil for nothing. Setting acquires the value before it takes the
    lock; then exactly the association of that object and key is replaced, or
    removed when the value is nil; then the object is told of its first
    association, and the old value released, outside of the lock. Removing all
    associations of an object takes them out of the map, but for those of the system
    unless the object deallocates, and then releases what was taken, those of the
    system last. Setting fails for an object whose class forbids it, and does
    nothing for nil. The tables stay well formed, objects without associations are
    not in the map, and the lock is never taken twice. *)
Theorem associated_objects_correct o k v p deallocating w : free w -> fits (associations w) -> valid_object o -> valid_key RefsT k ->
  _object_get_associative_reference o k w =
    match association_of (associations w) o k with
    | None => Ok (0, w)
    | Some a =>
      let? w1 := retainReturnedValue a (World (associations w) true (process w)) in
      autoreleaseReturnedValue a (World (associations w) false (process w1))
    end /\
  (o <> 0 -> forbidsAssociatedObjects w o = true -> _object_set_associative_reference o k v p w = Fault FatalError) /\
  _object_set_associative_reference 0 k 0 p w = Ok w /\
  (forall a w1, o <> 0 -> forbidsAssociatedObjects w o = false ->
    acquireValue (Association p v) w = Ok (a, w1) -> fits (associations w1) ->
    exists m', maps_ok m' /\ changed (associations w1) m' o k (if nz v then Some a else None) /\
      _object_set_associative_reference o k v p w =
        let? w2 := note_first (nz v && negb (has_associations (associations w1) o)) o (World m' false (process w1)) in
        releaseHeldValue (default no_association (association_of (associations w1) o k)) w2) /\
  exists m' (l : list (Z * ObjcAssociation)), maps_ok m' /\ NoDup l.*1 /\
    (forall k a, (k, a) ∈ l <-> association_of (associations w) o k = Some a) /\
    (forall o' k', in_word 64 o' -> association_of m' o' k' =
      if o =? o' then (if deallocating : bool then None else keep_system (association_of (associations w) o k')) else association_of (associations w) o' k') /\
    _object_remove_assocations o deallocating w =
      release_all (normal_of l ++ if deallocating then system_of l else []) (World m' false (process w)).
Proof.
  intros Hfree Hfits Ho Hk. split; [by apply get_ok|]. split; [|split; [done|split]].
  - intros Hne Hforbid. unfold _object_set_associative_reference. apply Z.eqb_neq in Hne. by rewrite Hne, Hforbid.
  - intros a w1 Hne Hforbid Ha Hf1. apply set_ok; try done. by eapply acquire_free.
  - by apply remove_ok.
Qed.
End Operations.

(** ** All associations, as one finite map *)
Section Counting.
Context `{Mem : FreshMemory}.
#[local] Existing Instance MapT_info.
#[local] Existing Instance RefsT_info.

#[local] Instance in_word_dec w x : Decision (in_word w x).
Proof. unfold in_word. apply _. Defined.

Definition entries_of (m : AssociationsHashMap) : list (Z * Z * ObjcAssociation) :=
  b ← iterate MapT m; (fun e => (undisguise (fst b), fst e, snd e)) <$> iterate RefsT (snd b).
Definition all_associations (m : AssociationsHashMap) : gmap (Z * Z) ObjcAssociation := list_to_map (entries_of m).

Lemma undisguise_word x : in_word 64 (undisguise x).
Proof. apply wrap_in_word. lia. Qed.
Lemma entries_of_spec m o k a : maps_ok m -> (o, k, a) ∈ entries_of m <-> in_word 64 o /\ association_of m o k = Some a.
Proof.
  intros [Hok Hr]. unfold entries_of, association_of. rewrite list_elem_of_bind. rewrite (iterate_live MapT m Hok). split.
  - intros ([key refs] & Hin & Hb). apply list_elem_of_fmap in Hin as ([k' a'] & [= -> -> ->] & Hin). cbn [fst snd] in *.
    split; [apply undisguise_word|]. apply list_elem_of_In in Hb.
    assert (Hd : denote MapT m (disguise (undisguise key)) = Some refs).
    { apply (denote_live MapT m _ refs Hok). exists key. split; [done|]. apply Z.eqb_eq. apply undisguise_disguise, undisguise_word. }
    rewrite Hd. cbn. apply (iterate_denote refs k' a'); [by eapply Hr|done].
  - intros [Ho Ha]. destruct (denote MapT m (disguise o)) as [refs|] eqn:Ed; [|done]. cbn in Ha. destruct (Hr _ _ Ed) as [Hokr _].
    apply (denote_live MapT m _ refs Hok) in Ed as (key & Hin & Ek). exists (key, refs). split; [|by apply list_elem_of_In].
    apply list_elem_of_fmap. exists (k, a). split; [|by apply iterate_denote]. apply Z.eqb_eq in Ek. rewrite undisguise_disguise in Ek by done. cbn. by rewrite <- Ek.
Qed.
Lemma all_associations_lookup m o k : maps_ok m ->
  all_associations m !! (o, k) = if decide (in_word 64 o) then association_of m o k else None.
Proof.
  intros M. unfold all_associations. destruct (_ !! _) as [a|] eqn:E.
  - apply elem_of_list_to_map_2, entries_of_spec in E as [Ho Ha]; [|done]. by rewrite decide_True.
  - case_decide as Ho; [|done]. destruct (association_of m o k) as [a|] eqn:Ea; [|done].
    assert (Hin : (o, k, a) ∈ entries_of m) by by apply entries_of_spec.
    apply not_elem_of_list_to_map_2 in E. destruct E. apply list_elem_of_fmap. by exists (o, k, a).
Qed.

(** Whether an association, if any, owns [v]. *)
Definition weight (v : Z) (x : option ObjcAssociation) : Z :=
  match x with Some a => Zb (holds a && (value a =? v)) | None => 0 end.
Definition owners (v : Z) (S : gmap (Z * Z) ObjcAssociation) : Z :=
  Z.of_nat (base.size (filter (fun p => holds (snd p) && (value (snd p) =? v) = true) S)).
Lemma owners_delete v S i : owners v S = owners v (delete i S) + weight v (S !! i).
Proof.
  unfold owners. rewrite map_filter_delete. set (F := filter _ S).
  rewrite map_size_delete. unfold F at 2. rewrite map_lookup_filter. destruct (S !! i) as [a|] eqn:E; cbn; [|lia].
  destruct (holds a && (value a =? v)) eqn:Ew; cbn.
  - rewrite option_guard_True by done. cbn. assert (is_Some (F !! i)) by (exists a; by apply map_lookup_filter_Some).
    assert (base.size F <> 0%nat) by (intros E0; apply map_size_empty_inv in E0; rewrite E0, lookup_empty in *; by destruct H).
    lia.
  - rewrite option_guard_False by done. cbn. lia.
Qed.
Lemma owners_insert v S i a : owners v (<[i := a]> S) = owners v S - weight v (S !! i) + weight v (Some a).
Proof. rewrite (owners_delete v (<[i := a]> S) i), (owners_delete v S i), delete_insert_eq, lookup_insert_eq. lia. Qed.

Lemma changed_all m m' o k x : in_word 64 o -> maps_ok m -> maps_ok m' -> changed m m' o k x ->
  all_associations m' = match x with Some a => <[(o, k) := a]> | None => delete (o, k) end (all_associations m).
Proof.
  intros Ho M M' Hch. apply fin_maps.map_eq. intros [o' k']. rewrite all_associations_lookup by done.
  assert (Hcase : (o', k') = (o, k) \/ (o', k') <> (o, k)) by (destruct (decide ((o', k') = (o, k))); auto).
  destruct Hcase as [[= -> ->]|Hne].
  - rewrite decide_True, Hch, decide_True by done. destruct x; [by rewrite lookup_insert_eq|by rewrite lookup_delete_eq].
  - assert (E : match x with Some a => <[(o, k) := a]> | None => delete (o, k) end (all_associations m) !! (o', k') = all_associations m !! (o', k')).
    { destruct x; [by rewrite lookup_insert_ne|by rewrite lookup_delete_ne]. }
    rewrite E, all_associations_lookup by done. case_decide; [|done]. rewrite Hch by done. rewrite decide_False; [done|]. by intros [-> ->].
Qed.
Lemma changed_owners v m m' o k x : in_word 64 o -> maps_ok m -> maps_ok m' -> changed m m' o k x ->
  owners v (all_associations m') = owners v (all_associations m) - weight v (association_of m o k) + weight v x.
Proof.
  intros Ho M M' Hch. rewrite (changed_all _ _ _ _ _ Ho M M' Hch).
  assert (E : association_of m o k = all_associations m !! (o, k)) by (rewrite all_associations_lookup by done; by rewrite decide_True). rewrite E.
  destruct x as [a|]; [apply owners_insert|]. rewrite (owners_delete v (all_associations m) (o, k)). cbn. lia.
Qed.

(** The associations of an object, removed one after the other. *)
Fixpoint remove_keys (o : Z) (l : list (Z * ObjcAssociation)) (S : gmap (Z * Z) ObjcAssociation) : gmap (Z * Z) ObjcAssociation :=
  match l with [] => S | b :: l => delete (o, fst b) (remove_keys o l S) end.
Fixpoint weights (x : Z) (l : list ObjcAssociation) : Z :=
  match l with [] => 0 | a :: l => weight x (Some a) + weights x l end.
Lemma weights_app x l1 l2 : weights x (l1 ++ l2) = weights x l1 + weights x l2.
Proof. induction l1 as [|a l1 IH]; cbn [weights app]; lia. Qed.

Lemma remove_keys_lookup o l S o' k' : remove_keys o l S !! (o', k') = if decide (o' = o /\ k' ∈ l.*1) then None else S !! (o', k').
Proof.
  induction l as [|[k a] l IH]; cbn [remove_keys fmap list_fmap fst].
  - rewrite decide_False; [done|]. by intros [_ ?%elem_of_nil].
  - destruct (decide ((o, k) = (o', k'))) as [[= <- <-]|Hne].
    + rewrite lookup_delete_eq. rewrite decide_True; [done|]. split; [done|by left].
    + rewrite lookup_delete_ne, IH by done. destruct (decide (o' = o /\ k' ∈ l.*1)) as [[-> Hin]|Hno].
      * rewrite decide_True; [done|]. split; [done|by right].
      * rewrite decide_False; [done|]. intros [-> [->|Hin]%elem_of_cons]; [by apply Hne|by apply Hno].
Qed.
Lemma remove_keys_owners v o l S : NoDup l.*1 -> (forall k a, (k, a) ∈ l -> S !! (o, k) = Some a) ->
  owners v (remove_keys o l S) = owners v S - weights v l.*2.
Proof.
  induction l as [|[k a] l IH]; intros Hnd Hl; cbn [remove_keys fmap list_fmap fst snd weights]; [lia|].
  inversion Hnd as [|? ? Hk Hnd']; subst. specialize (IH Hnd' ltac:(intros; apply Hl; by right)).
  pose proof (owners_delete v (remove_keys o l S) (o, k)) as Hd. rewrite remove_keys_lookup, decide_False in Hd by (intros [_ ?]; done).
  rewrite (Hl k a) in Hd by by left. lia.
Qed.
Definition taken (deallocating : bool) (l : list (Z * ObjcAssociation)) : list (Z * ObjcAssociation) :=
  List.filter (fun b => deallocating || negb (is_system (snd b))) l.
Lemma taken_weights v (deallocating : bool) l : weights v (normal_of l ++ if deallocating then system_of l else []) = weights v (taken deallocating l).*2.
Proof.
  rewrite weights_app. unfold normal_of, system_of, taken. induction l as [|[k a] l IH]; [by destruct deallocating|].
  cbn [fmap list_fmap List.filter snd] in *. destruct (is_system a), deallocating; cbn [negb orb fmap list_fmap weights snd] in *; lia.
Qed.
Lemma taken_NoDup deallocating l : NoDup l.*1 -> NoDup (taken deallocating l).*1.
Proof.
  induction l as [|[k a] l IH]; cbn; [done|]. intros Hnd. inversion Hnd as [|? ? Hk Hnd']; subst.
  destruct (deallocating || negb (is_system a)); [|by apply IH]. cbn. constructor; [|by apply IH]. intros Hin. apply Hk.
  apply list_elem_of_fmap in Hin as (b & -> & Hb). apply list_elem_of_fmap. exists b. split; [done|].
  apply list_elem_of_In, filter_In in Hb as [Hb _]. by apply list_elem_of_In.
Qed.
Lemma removed_owners v m m' o (deallocating : bool) (l : list (Z * ObjcAssociation)) : in_word 64 o -> maps_ok m -> maps_ok m' ->
  NoDup l.*1 -> (forall k a, (k, a) ∈ l <-> association_of m o k = Some a) ->
  (forall o' k', in_word 64 o' -> association_of m' o' k' =
     if o =? o' then (if deallocating then None else keep_system (association_of m o k')) else association_of m o' k') ->
  owners v (all_associations m') = owners v (all_associations m) - weights v (normal_of l ++ if deallocating then system_of l else []).
Proof.
  intros Ho M M' Hnd Hl Hm'. rewrite taken_weights.
  assert (Hin : forall k a, (k, a) ∈ taken deallocating l <-> association_of m o k = Some a /\ (deallocating || negb (is_system a)) = true).
  { intros k a. rewrite <- Hl. unfold taken. rewrite !list_elem_of_In, filter_In. done. }
  rewrite <- (remove_keys_owners v o); [|by apply taken_NoDup|intros k a [Hk _]%Hin; rewrite all_associations_lookup by done; by rewrite decide_True].
  f_equal. apply fin_maps.map_eq. intros [o' k']. rewrite remove_keys_lookup, !all_associations_lookup by done.
  destruct (decide (in_word 64 o')) as [Ho'|]; [|by case_decide]. rewrite Hm' by done. destruct (Z.eqb_spec o o') as [<-|Hne].
  - case_decide as Hc.
    + destruct Hc as (_ & ([k a] & -> & [Ha Hd]%Hin)%list_elem_of_fmap). cbn [fst]. rewrite Ha. destruct deallocating; [done|]. cbn in *.
      by apply negb_true_iff in Hd as ->.
    + destruct (association_of m o k') as [a|] eqn:Ea; [|by destruct deallocating]. destruct (deallocating || negb (is_system a)) eqn:Ed.
      * destruct Hc. split; [done|]. apply list_elem_of_fmap. exists (k', a). split; [done|]. by apply Hin.
      * destruct deallocating; [done|]. cbn in *. by apply negb_false_iff in Ed as ->.
  - rewrite decide_False; [done|]. by intros [? _].
Qed.
End Counting.

(** ** A process that counts

    Retaining gives the value itself, copying what [copyOf] says; nothing else
    happens but that the message is recorded. *)
Section Balance.
Context `{Mem : FreshMemory} (copyOf : Z -> Z).
#[local] Existing Instance in_word_dec.

Definition counting : Messages (list message) := {|
  send e w := Ok (match e with Retain v | Autorelease v => v | Copy v => copyOf v | _ => 0 end,
                  World (associations w) (locked w) (e :: process w));
  forbidsAssociatedObjects _ _ := false |}.
#[local] Existing Instance counting.
#[local] Instance counting_ok : MessagesOk.
Proof. split; [intros e w v w' Hf M [= <- <-]; done|intros e w v w' Hl [= <- <-]; done]. Qed.

(** What a message does to the number of references that are owed. *)
Definition gain (v : Z) (e : message) : Z :=
  match e with
  | Retain x => Zb (x =? v)
  | Copy x => Zb (copyOf x =? v)
  | Release x | Autorelease x => - Zb (x =? v)
  | SetHasAssociatedObjects _ => 0
  end.
Fixpoint balance (v : Z) (log : list message) : Z :=
  match log with [] => 0 | e :: log => gain v e + balance v log end.

(** Policies that acquire what they release, and autorelease what they retain on
    the way out; those of the public header do. *)
Definition standard (p : Z) : Prop :=
  (nz (Z.land p OBJC_ASSOCIATION_SETTER_RETAIN) = true <->
     Z.land p 0xFF = OBJC_ASSOCIATION_SETTER_RETAIN \/ Z.land p 0xFF = OBJC_ASSOCIATION_SETTER_COPY) /\
  nz (Z.land p OBJC_ASSOCIATION_GETTER_RETAIN) = nz (Z.land p OBJC_ASSOCIATION_GETTER_AUTORELEASE).
Definition standard_policies (m : AssociationsHashMap) : Prop :=
  forall o k a, in_word 64 o -> association_of m o k = Some a -> standard (policy a).

Lemma acquire_balance p v w : standard p -> exists a w1, acquireValue (Association p v) w = Ok (a, w1) /\ policy a = p /\
  associations w1 = associations w /\ locked w1 = locked w /\ (v = 0 -> value a = 0) /\
  forall x, x <> 0 -> balance x (process w1) = balance x (process w) + weight x (Some a).
Proof.
  intros [Hp _]. unfold acquireValue. cbn [value policy].
  assert (Hown : forall u x, x <> 0 -> (holds (Association p u) && (u =? x)) = nz (Z.land p OBJC_ASSOCIATION_SETTER_RETAIN) && (u =? x)).
  { intros u x Hx. unfold holds. cbn [value policy]. destruct (Z.eqb_spec u x) as [->|]; [|by rewrite !andb_false_r].
    assert (Hn : nz x = true) by by apply nz_true. by rewrite Hn. }
  destruct (nz v) eqn:Ez.
  - assert (Hv : v <> 0) by by apply nz_true.
    destruct (Z.eqb_spec (Z.land p 0xFF) OBJC_ASSOCIATION_SETTER_RETAIN) as [E1|E1]; [|destruct (Z.eqb_spec (Z.land p 0xFF) OBJC_ASSOCIATION_SETTER_COPY) as [E2|E2]];
      cbn [send counting rbind]; (eexists _, _; split; [done|]; split_and!; try done); intros x Hx; cbn [weight value process balance gain].
    + rewrite Hown by done. rewrite (proj2 Hp (or_introl E1)). cbn [andb]. lia.
    + rewrite Hown by done. rewrite (proj2 Hp (or_intror E2)). cbn [andb]. lia.
    + rewrite Hown by done. destruct (nz (Z.land p OBJC_ASSOCIATION_SETTER_RETAIN)); [|cbn; lia]. by destruct (proj1 Hp eq_refl).
  - apply nz_false in Ez. subst v. eexists _, _. split; [done|]. split_and!; try done. intros x Hx. cbn [weight value]. rewrite Hown by done.
    destruct (Z.eqb_spec 0 x) as [<-|]; [done|]. rewrite andb_false_r. cbn. lia.
Qed.
Lemma release_balance a w : exists w1, releaseHeldValue a w = Ok w1 /\ associations w1 = associations w /\ locked w1 = locked w /\
  forall x, balance x (process w1) = balance x (process w) - weight x (Some a).
Proof.
  unfold releaseHeldValue. cbn [weight]. destruct (holds a); cbn [send counting rbind andb]; (eexists; split; [done|]; split_and!; try done); intros x; cbn [process balance gain]; [lia|cbn; lia].
Qed.
Lemma release_all_balance l : forall w, exists w1, release_all l w = Ok w1 /\ associations w1 = associations w /\ locked w1 = locked w /\
  forall x, balance x (process w1) = balance x (process w) - weights x l.
Proof.
  induction l as [|a l IH]; intros w; cbn [release_all weights].
  - exists w. split_and!; try done. intros x. lia.
  - destruct (release_balance a w) as (w1 & -> & E1 & E2 & E3). cbn [rbind]. destruct (IH w1) as (w2 & -> & F1 & F2 & F3).
    exists w2. split_and!; [done|congruence|congruence|]. intros x. rewrite F3, E3. lia.
Qed.

Inductive request :=
  | GetAssociated (object key : Z)
  | SetAssociated (object key value policy : Z)
  | RemoveAssociated (object : Z) (deallocating : bool).
Definition perform (r : request) (w : world (list message)) : res (world (list message)) :=
  match r with
  | GetAssociated o k => let? (_, w) := _object_get_associative_reference o k w in Ok w
  | SetAssociated o k v p => _object_set_associative_reference o k v p w
  | RemoveAssociated o d => _object_remove_assocations o d w
  end.
Definition legal_request (r : request) : Prop :=
  match r with
  | GetAssociated o k => valid_object o /\ valid_key RefsT k
  | SetAssociated o k v p => o <> 0 /\ valid_object o /\ valid_key RefsT k /\ standard p
  | RemoveAssociated o _ => valid_object o
  end.
Record balanced (w : world (list message)) : Prop := {
  balanced_free : free w;
  balanced_policies : standard_policies (associations w);
  balanced_count v : v <> 0 -> balance v (process w) = owners v (all_associations (associations w));
}.
Definition request_step (w w' : world (list message)) : Prop :=
  exists r, fits (associations w) /\ legal_request r /\ perform r w = Ok w'.

Lemma get_balanced o k w : balanced w -> valid_object o -> valid_key RefsT k ->
  exists w', perform (GetAssociated o k) w = Ok w' /\ balanced w'.
Proof.
  intros [[Hf M] Hp Hb] Ho Hk. cbn [perform]. rewrite get_ok by done. destruct (association_of (associations w) o k) as [a|] eqn:Ea.
  2: { exists w. done. }
  destruct (Hp o k a (proj1 Ho) Ea) as [_ Hg]. unfold retainReturnedValue, autoreleaseReturnedValue. rewrite <- Hg.
  destruct (nz (value a) && nz (Z.land (policy a) OBJC_ASSOCIATION_GETTER_RETAIN)); cbn [send counting rbind associations process locked]; eexists; (split; [done|]).
  - split; [done|done|]. intros v Hv. cbn [process associations balance gain]. rewrite <- (Hb v Hv). lia.
  - split; [done|done|]. intros v Hv. apply (Hb v Hv).
Qed.
Lemma changed_policies m m' o k x : changed m m' o k x -> standard_policies m -> (forall a, x = Some a -> standard (policy a)) -> standard_policies m'.
Proof. intros Hch Hp Hx o' k' a Ho'. rewrite Hch by done. case_decide; [apply Hx|by apply Hp]. Qed.

Lemma set_balanced o k v p w : balanced w -> fits (associations w) -> o <> 0 -> valid_object o -> valid_key RefsT k -> standard p ->
  exists w', perform (SetAssociated o k v p) w = Ok w' /\ balanced w'.
Proof.
  intros [[Hf M] Hp Hb] F Hne Ho Hk Hs. cbn [perform].
  destruct (acquire_balance p v w Hs) as (a & w1 & Ea & Hpa & E1 & E2 & Hz & E3).
  assert (Hforbid : forbidsAssociatedObjects w o = false) by done.
  destruct (set_ok o k v p w a w1 Hne Ho Hk Hforbid Ea) as (m' & M' & Hch & ->); [split; [congruence|by rewrite E1]|by rewrite E1|]. rewrite E1 in *.
  assert (Hnote : exists w2, note_first (nz v && negb (has_associations (associations w) o)) o (World m' false (process w1)) = Ok w2 /\
    associations w2 = m' /\ locked w2 = false /\ forall x, balance x (process w2) = balance x (process w1)).
  { unfold note_first. destruct (_ && _); eexists; (split; [done|]); done. }
  destruct Hnote as (w2 & -> & F1 & F2 & F3). cbn [rbind].
  destruct (release_balance (default no_association (association_of (associations w) o k)) w2) as (w3 & -> & G1 & G2 & G3).
  exists w3. split; [done|]. split.
  - split; [congruence|]. by rewrite G1, F1.
  - rewrite G1, F1. eapply changed_policies; [done|done|]. intros b. destruct (nz v); [|done]. intros [= <-]. by rewrite Hpa.
  - intros x Hx. rewrite G1, F1, G3, F3, E3, Hb by done. rewrite (changed_owners x _ _ _ _ _ (proj1 Ho) M M' Hch).
    assert (Hw : weight x (Some (default no_association (association_of (associations w) o k))) = weight x (association_of (associations w) o k)) by by destruct (association_of _ o k).
    assert (Hw2 : weight x (Some a) = weight x (if nz v then Some a else None)).
    { destruct (nz v) eqn:Ez; [done|]. apply nz_false in Ez. cbn. unfold holds. by rewrite Hz. }
    rewrite Hw, Hw2. lia.
Qed.
Lemma remove_balanced o d w : balanced w -> fits (associations w) -> valid_object o ->
  exists w', perform (RemoveAssociated o d) w = Ok w' /\ balanced w'.
Proof.
  intros [[Hf M] Hp Hb] F Ho. cbn [perform]. destruct (remove_ok o d w (conj Hf M) F Ho) as (m' & l & M' & Hnd & Hl & Ha & ->).
  destruct (release_all_balance (normal_of l ++ if d then system_of l else []) (World m' false (process w))) as (w' & -> & E1 & E2 & E3).
  exists w'. split; [done|]. split.
  - split; [by rewrite E2|by rewrite E1].
  - rewrite E1. cbn [associations]. intros o' k' a Ho'. rewrite Ha by done. destruct (o =? o'); [|by apply Hp].
    destruct d; [done|]. destruct (association_of (associations w) o k') as [b|] eqn:Eb; [|done]. cbn. destruct (is_system b); [|done]. intros [= <-].
    by apply (Hp o k' b (proj1 Ho)).
  - intros v Hv. rewrite E3, E1. cbn [process associations]. rewrite Hb by done. symmetry. by apply (removed_owners v _ _ o); [apply Ho|..].
Qed.
Lemma perform_balanced r w : balanced w -> fits (associations w) -> legal_request r -> exists w', perform r w = Ok w' /\ balanced w'.
Proof.
  intros B F L. destruct r as [o k|o k v p|o d]; cbn [legal_request] in L.
  - destruct L. by apply get_balanced.
  - destruct L as (? & ? & ? & ?). by apply set_balanced.
  - by apply remove_balanced.
Qed.
Lemma start_balanced : balanced (World new_map false []).
Proof.
  split; [split; [done|apply maps_init]| |].
  - intros o k a _ H. done.
  - intros v _. done.
Qed.
Lemma run_balanced w w' : rtc request_step w w' -> balanced w -> balanced w'.
Proof.
  induction 1 as [|w w1 w2 (r & F & L & E) _ IH]; [done|]. intros B. apply IH.
  destruct (perform_balanced r w B F L) as (w1' & E' & B'). rewrite E in E'. by injection E' as ->.
Qed.

(** C12: Associations own what they hold. In any run of requests with policies that
    release what they acquire, each further request ends without a fault, and then
    every value has been retained or copied, and not released or handed out
    autoreleased, exactly once for each association in the map that holds it: nothing
    is leaked by replacing or removing an association or by the end of an object, and
    nothing is released that is still associated. *)
Theorem associated_objects_balanced w r : rtc request_step (World new_map false []) w -> fits (associations w) -> legal_request r ->
  exists w', perform r w = Ok w' /\ free w' /\
    forall v, v <> 0 -> balance v (process w') = owners v (all_associations (associations w')).
Proof.
  intros Hrun F L. destruct (perform_balanced r w) as (w' & E & [B1 _ B2]); [by eapply run_balanced, start_balanced|done|done|].
  by exists w'.
Qed.
End Balance.

Module AssociatedObjectsWitness.
(** Fresh memory holds garbage; a copy is the next object. *)
#[export] Instance memory : FreshMemory := {|
  fresh_refs n := (0x77, Association 1 0x500); fresh_associations n := (0x88, Table Null 5 6 7) |}.
Definition copy_of (v : Z) : Z := v + 0x10.
#[export] Instance demo : Messages (list message) := counting copy_of.
#[export] Instance demo_ok : MessagesOk := counting_ok copy_of.

Definition fits_b (m : AssociationsHashMap) : bool :=
  (NumBuckets m <=? max_buckets) && forallb (fun b => NumBuckets (snd b) <=? max_buckets) (getBuckets m).
Lemma fits_b_ok m : fits_b m = true -> fits m.
Proof.
  unfold fits_b. intros [H1 H2]%andb_true_iff. split; [by apply Z.leb_le|]. intros k refs Hd. unfold denote, denote_array in Hd.
  destruct (List.find _ _) as [b|] eqn:E; [|done]. apply List.find_some in E as [E _]. injection Hd as <-.
  rewrite forallb_forall in H2. by apply Z.leb_le, H2.
Qed.
Definition standard_b (p : Z) : bool :=
  eqb (nz (Z.land p 1)) ((Z.land p 0xFF =? 1) || (Z.land p 0xFF =? 3)) && eqb (nz (Z.land p 0x100)) (nz (Z.land p 0x200)).
Lemma standard_b_ok p : standard_b p = true -> standard p.
Proof.
  unfold standard_b, standard. intros [H1%Bool.eqb_prop H2%Bool.eqb_prop]%andb_true_iff. split; [|exact H2].
  change OBJC_ASSOCIATION_SETTER_RETAIN with 1. change OBJC_ASSOCIATION_SETTER_COPY with 3. by rewrite H1, orb_true_iff, !Z.eqb_eq.
Qed.
(** Objects and keys that are not the sentinels of the tables. *)
Definition ordinary (x : Z) : bool := (0 <? x) && (x <? 2 ^ 48).
Lemma ordinary_object o : ordinary o = true -> valid_object o.
Proof.
  intros [H1%Z.ltb_lt H2%Z.ltb_lt]%andb_true_iff. assert (Ho : in_word 64 o) by (unfold in_word; lia). split; [done|].
  assert (E : undisguise (disguise o) = o) by by apply undisguise_disguise.
  split; apply Z.eqb_neq; rewrite E; intros ->; by vm_compute in H2.
Qed.
Lemma ordinary_key k : ordinary k = true -> valid_key RefsT k.
Proof. intros [H1%Z.ltb_lt H2%Z.ltb_lt]%andb_true_iff. split; apply Z.eqb_neq; intros ->; by vm_compute in H2. Qed.
Definition legal_b (r : request) : bool :=
  match r with
  | GetAssociated o k => ordinary o && ordinary k
  | SetAssociated o k v p => ordinary o && ordinary k && standard_b p
  | RemoveAssociated o _ => ordinary o
  end.
Lemma legal_b_request r : legal_b r = true -> legal_request r.
Proof.
  destruct r as [o k|o k v p|o d]; cbn [legal_b legal_request].
  - intros [? ?]%andb_true_iff. split; [by apply ordinary_object|by apply ordinary_key].
  - intros [[Ho ?]%andb_true_iff ?]%andb_true_iff. split; [|split; [by apply ordinary_object|split; [by apply ordinary_key|by apply standard_b_ok]]].
    apply andb_true_iff in Ho as [Ho%Z.ltb_lt _]. lia.
  - apply ordinary_object.
Qed.
Fixpoint run (rs : list request) (w : world (list message)) : option (world (list message)) :=
  match rs with
  | [] => Some w
  | r :: rs =>
    if fits_b (associations w) && legal_b r then match perform copy_of r w with Ok w => run rs w | Fault _ => None end else None
  end.
Lemma run_steps rs : forall w w', run rs w = Some w' -> rtc (request_step copy_of) w w'.
Proof.
  induction rs as [|r rs IH]; intros w w' E; cbn in E; [by injection E as <-|].
  destruct (fits_b (associations w) && legal_b r) eqn:El; [|done]. apply andb_true_iff in El as [Ef El].
  destruct (perform copy_of r w) as [w1|f] eqn:Ep; [|done]. apply rtc_l with w1; [|by apply IH].
  exists r. split; [by apply fits_b_ok|]. split; [by apply legal_b_request|done].
Qed.

(** Values retained, copied and assigned, one of them by the system, one replaced. *)
Definition session : list request :=
  [SetAssociated 0x1000 0x10 0x5000 0x301; SetAssociated 0x1000 0x20 0x6000 0x303; SetAssociated 0x1000 0x30 0x7000 0;
   SetAssociated 0x1000 0x40 0x5000 0x10001; SetAssociated 0x2000 0x10 0x5000 1; SetAssociated 0x1000 0x10 0x8000 1; GetAssociated 0x1000 0x20].
Definition played : world (list message) := default (World new_map false []) (run session (World new_map false [])).
Lemma requests_steps : rtc (request_step copy_of) (World new_map false []) played.
Proof. apply (run_steps session). vm_compute. reflexivity. Qed.
Lemma played_balanced : balanced copy_of played.
Proof. apply (run_balanced copy_of _ _ requests_steps), start_balanced. Qed.

Lemma associated_objects_correct_witness :
  (exists w1, _object_get_associative_reference 0x1000 0x20 played = Ok (0x6010, w1)) /\
  exists m' l, maps_ok m' /\ _object_remove_assocations 0x1000 true played = release_all (normal_of l ++ system_of l) (World m' false (process played)) /\
    forall k, association_of m' 0x1000 k = None.
Proof.
  destruct (associated_objects_correct (P := list message) 0x1000 0x20 0x9000 0x303 true played) as (Hg & _ & _ & _ & m' & l & H1 & _ & _ & H2 & H3).
  - apply (balanced_free copy_of), played_balanced.
  - apply fits_b_ok. vm_compute. reflexivity.
  - apply ordinary_object. vm_compute. reflexivity.
  - apply ordinary_key. vm_compute. reflexivity.
  - split.
    + rewrite Hg. vm_compute. eexists. reflexivity.
    + exists m', l. split; [exact H1|]. split; [exact H3|]. intros k. rewrite H2; [reflexivity|]. unfold in_word. lia.
Defined.
Lemma associated_objects_balanced_witness :
  balance copy_of 0x5000 (process played) = 2 /\
  exists w', perform copy_of (RemoveAssociated 0x1000 true) played = Ok w' /\ free w' /\
    forall v, v <> 0 -> balance copy_of v (process w') = owners v (all_associations (associations w')).
Proof.
  split; [vm_compute; reflexivity|]. apply (associated_objects_balanced copy_of played (RemoveAssociated 0x1000 true)).
  - apply requests_steps.
  - apply fits_b_ok. vm_compute. reflexivity.
  - apply legal_b_request. vm_compute. reflexivity.
Defined.
End AssociatedObjectsWitness.
