(* ===== verification/ObjcWeak.v ===== *)
(** * objc-weak.mm: the weak table

    The table of a [SideTable] that knows, for every object, the addresses of the
    weak variables that refer to it. It is a hash table of entries, one for an
    object, and an entry with more than four referrers has a hash table of its
    own. Both probe linearly and erase by storing nil; a search does not stop at
    nil but after the largest displacement that any insertion has needed.

    A [weak_entry_t] is a union: four inline referrers, or a pointer to an array
    and the array's counters. Its four words are kept as they are stored; the
    array is [owned] by the entry. All referrers and referents are stored
    disguised. *)

From stdpp Require Import prelude numbers list gmap.
From Stdlib Require Import ZArith Lia Bool.
From S2P Require Import Prelude ObjcOS SideTable.

Definition WEAK_INLINE_COUNT : Z := 4.
Definition PTR_MINUS_2 : Z := 62.
Definition REFERRERS_OUT_OF_LINE : Z := 2.

Record weak_entry_t := WeakEntry {
  referent : Z;
  inline_referrers : list Z;
  owned : list Z;
}.
Implicit Types (e : weak_entry_t) (slots : list Z).

(** ** The members of the union *)
Definition union_word e (i : nat) : Z := nth i (inline_referrers e) 0.
Definition set_union_word e (i : nat) (v : Z) : weak_entry_t :=
  WeakEntry (referent e) (<[i := v]> (inline_referrers e)) (owned e).
Definition referrers e : Z := union_word e 0.
Definition out_of_line_ness e : Z := Z.land (union_word e 1) 3.
Definition num_refs e : Z := Z.shiftr (union_word e 1) 2.
Definition mask e : Z := union_word e 2.
Definition max_hash_displacement e : Z := union_word e 3.
Definition set_out_of_line_ness e (v : Z) : weak_entry_t :=
  set_union_word e 1 (Z.lor (Z.shiftl (num_refs e) 2) (Z.land v 3)).
Definition set_num_refs e (v : Z) : weak_entry_t :=
  set_union_word e 1 (Z.lor (Z.shiftl (wrap PTR_MINUS_2 v) 2) (out_of_line_ness e)).
Definition set_mask e (v : Z) : weak_entry_t := set_union_word e 2 v.
Definition set_max_hash_displacement e (v : Z) : weak_entry_t := set_union_word e 3 v.
(** A new array and its address. *)
Definition set_referrers e (address : Z) (array : list Z) : weak_entry_t :=
  WeakEntry (referent e) (<[0%nat := address]> (inline_referrers e)) array.
Definition with_owned e (array : list Z) : weak_entry_t := WeakEntry (referent e) (inline_referrers e) array.

Definition out_of_line e : bool := out_of_line_ness e =? REFERRERS_OUT_OF_LINE.
Definition new_entry (newReferent newReferrer : Z) : weak_entry_t :=
  WeakEntry (disguise newReferent) [disguise newReferrer; 0; 0; 0] [].
(** [bzero]. *)
Definition zero_entry : weak_entry_t := WeakEntry 0 [0; 0; 0; 0] [].

Definition TABLE_SIZE (mask : Z) : Z := if nz mask then u64 (mask + 1) else 0.
Definition hash_pointer (key : Z) : Z := ptr_hash key.
Definition w_hash_pointer (key : Z) : Z := ptr_hash key.

(** ** Probing *)
Definition slot slots (index : Z) : res Z :=
  match slots !! Z.to_nat index with Some w => Ok (undisguise w) | None => Fault OutOfBounds end.
(** The loops that look for a free slot: its index and the displacement. *)
Fixpoint probe_free (fuel : nat) slots (mask begin index hash_displacement : Z) : res (Z * Z) :=
  match fuel with
  | O => Fault OutOfFuel
  | S fuel =>
    let? r := slot slots index in
    if nz r then
      let hash_displacement := hash_displacement + 1 in
      let index := Z.land (index + 1) mask in
      if index =? begin then Fault BadWeakTable else probe_free fuel slots mask begin index hash_displacement
    else Ok (index, hash_displacement)
  end.
(** The loops that look for [key]; [None] is a search given up. *)
Fixpoint probe_key (fuel : nat) slots (key mask max begin index hash_displacement : Z) : res (option Z) :=
  match fuel with
  | O => Fault OutOfFuel
  | S fuel =>
    let? r := slot slots index in
    if r =? key then Ok (Some index)
    else
      let index := Z.land (index + 1) mask in
      if index =? begin then Fault BadWeakTable
      else
        let hash_displacement := hash_displacement + 1 in
        if max <? hash_displacement then Ok None
        else probe_key fuel slots key mask max begin index hash_displacement
  end.

(** ** Referrers *)
(** What [_objc_inform] reports, each time with a call of [objc_weak_error]. *)
Inductive inform :=
  | UnknownReferrer (old_referrer : Z)
  | HoldsOther (referrer value referent : Z).

Fixpoint first_index (p : Z -> bool) (l : list Z) : option nat :=
  match l with
  | [] => None
  | w :: l => if p (undisguise w) then Some O else option_map S (first_index p l)
  end.

(** The weak variables, by address. *)
Abbreviation variables := (gmap Z Z).

Section Weak.
(** The address of the array that [calloc] makes of so many words. *)
Context (calloc : Z -> Z).

(** The end of [append_referrer]: the insertion into the array. *)
Definition insert_referrer e (new_referrer : Z) : res weak_entry_t :=
  let begin := Z.land (w_hash_pointer new_referrer) (mask e) in
  let? (index, hash_displacement) := probe_free (length (owned e)) (owned e) (mask e) begin begin 0 in
  let e := if hash_displacement >? max_hash_displacement e then set_max_hash_displacement e hash_displacement else e in
  let e := with_owned e (<[Z.to_nat index := disguise new_referrer]> (owned e)) in
  Ok (set_num_refs e (num_refs e + 1)).
(** The loop over the old array. *)
Fixpoint rehash (append : weak_entry_t -> Z -> res weak_entry_t) (old_refs : list Z) (num_refs : Z) e : res weak_entry_t :=
  match old_refs with
  | [] => Ok e
  | r :: old_refs =>
    if 0 <? num_refs then
      if nz (undisguise r) then
        let? e := append e (undisguise r) in rehash append old_refs (num_refs - 1) e
      else rehash append old_refs num_refs e
    else Ok e
  end.
(** [append] is [append_referrer], which the function calls and is called by. *)
Definition grow_refs_and_insert (append : weak_entry_t -> Z -> res weak_entry_t) e (new_referrer : Z) : res weak_entry_t :=
  assert? (out_of_line e) in
  let old_size := TABLE_SIZE (mask e) in
  let new_size := if nz old_size then u64 (old_size * 2) else 8 in
  let num_refs := num_refs e in
  let old_refs := take (Z.to_nat old_size) (owned e) in
  let e := set_mask e (u64 (new_size - 1)) in
  let n := TABLE_SIZE (mask e) in
  let e := set_referrers e (calloc n) (replicate (Z.to_nat n) 0) in
  let e := set_num_refs e 0 in
  let e := set_max_hash_displacement e 0 in
  let? e := rehash append old_refs num_refs e in
  append e new_referrer.
(** The four inline referrers, moved to an array. *)
Definition move_out_of_line e : weak_entry_t :=
  let new_referrers := inline_referrers e in
  let e := set_referrers e (calloc WEAK_INLINE_COUNT) new_referrers in
  let e := set_num_refs e WEAK_INLINE_COUNT in
  let e := set_out_of_line_ness e REFERRERS_OUT_OF_LINE in
  let e := set_mask e (WEAK_INLINE_COUNT - 1) in
  set_max_hash_displacement e 0.
(** [fuel] bounds the nesting of calls: growing inserts without growing again. *)
Fixpoint append_referrer_ (fuel : nat) e (new_referrer : Z) : res weak_entry_t :=
  match fuel with
  | O => Fault OutOfFuel
  | S fuel =>
    match (if out_of_line e then None else first_index (fun r => negb (nz r)) (inline_referrers e)) with
    | Some i => Ok (set_union_word e i (disguise new_referrer))
    | None =>
      let e := if out_of_line e then e else move_out_of_line e in
      assert? (out_of_line e) in
      if u64 (TABLE_SIZE (mask e) * 3) / 4 <=? num_refs e then
        grow_refs_and_insert (append_referrer_ fuel) e new_referrer
      else insert_referrer e new_referrer
    end
  end.
Definition append_referrer e (new_referrer : Z) : res weak_entry_t := append_referrer_ 2 e new_referrer.

Definition remove_referrer e (old_referrer : Z) : res (weak_entry_t * list inform) :=
  if negb (out_of_line e) then
    match first_index (fun r => r =? old_referrer) (inline_referrers e) with
    | Some i => Ok (set_union_word e i 0, [])
    | None => Ok (e, [UnknownReferrer old_referrer])
    end
  else
    let begin := Z.land (w_hash_pointer old_referrer) (mask e) in
    let? found := probe_key (length (owned e)) (owned e) old_referrer (mask e) (max_hash_displacement e) begin begin 0 in
    match found with
    | Some index =>
      let e := with_owned e (<[Z.to_nat index := 0]> (owned e)) in
      Ok (set_num_refs e (num_refs e - 1), [])
    | None => Ok (e, [UnknownReferrer old_referrer])
    end.

(** ** The table *)
Record weak_table_t := WeakTable {
  weak_entries : option (list weak_entry_t);
  num_entries : Z;
  table_mask : Z;
  table_max_hash_displacement : Z;
}.
Implicit Types t : weak_table_t.
(** [memset], in the constructor of [SideTable]. *)
Definition empty_weak_table : weak_table_t := WeakTable None 0 0 0.
Definition table_size t : Z := TABLE_SIZE (table_mask t).
Definition entries_of t : list weak_entry_t := default [] (weak_entries t).
Definition store_entry t (index : Z) e : weak_table_t :=
  WeakTable (option_map <[Z.to_nat index := e]> (weak_entries t)) (num_entries t) (table_mask t) (table_max_hash_displacement t).

Definition weak_entry_insert t (new_entry : weak_entry_t) : res weak_table_t :=
  assert? (bool_decide (weak_entries t <> None)) in
  let slots := map referent (entries_of t) in
  let begin := Z.land (hash_pointer (undisguise (referent new_entry))) (table_mask t) in
  let? (index, hash_displacement) := probe_free (length slots) slots (table_mask t) begin begin 0 in
  let t := store_entry t index new_entry in
  Ok (WeakTable (weak_entries t) (num_entries t + 1) (table_mask t)
        (if hash_displacement >? table_max_hash_displacement t then hash_displacement else table_max_hash_displacement t)).
Fixpoint reinsert (old_entries : list weak_entry_t) t : res weak_table_t :=
  match old_entries with
  | [] => Ok t
  | e :: old_entries =>
    if nz (undisguise (referent e)) then let? t := weak_entry_insert t e in reinsert old_entries t
    else reinsert old_entries t
  end.
Definition weak_resize t (new_size : Z) : res weak_table_t :=
  let old_entries := entries_of t in
  reinsert old_entries (WeakTable (Some (replicate (Z.to_nat new_size) zero_entry)) 0 (u64 (new_size - 1)) 0).
Definition weak_grow_maybe t : res weak_table_t :=
  let old_size := table_size t in
  if u64 (old_size * 3) / 4 <=? num_entries t then weak_resize t (if nz old_size then u64 (old_size * 2) else 64) else Ok t.
Definition weak_compact_maybe t : res weak_table_t :=
  let old_size := table_size t in
  if (1024 <=? old_size) && (num_entries t <=? old_size / 16) then weak_resize t (old_size / 8) else Ok t.
(** The entry is given by its index. *)
Definition weak_entry_remove t (index : Z) : res weak_table_t :=
  let t := store_entry t index zero_entry in
  let t := WeakTable (weak_entries t) (u64 (num_entries t - 1)) (table_mask t) (table_max_hash_displacement t) in
  weak_compact_maybe t.
Definition weak_entry_for_referent t (obj : Z) : res (option Z) :=
  assert? (nz obj) in
  match weak_entries t with
  | None => Ok None
  | Some entries =>
    let begin := Z.land (hash_pointer obj) (table_mask t) in
    probe_key (length entries) (map referent entries) obj (table_mask t) (table_max_hash_displacement t) begin begin 0
  end.
Definition entry_at t (index : Z) : res weak_entry_t :=
  match entries_of t !! Z.to_nat index with Some e => Ok e | None => Fault OutOfBounds end.

(** [for (i = 0; i < WEAK_INLINE_COUNT; i++) if (entry->inline_referrers[i])]. *)
Definition some_inline e : bool := existsb (fun w => nz (undisguise w)) (inline_referrers e).
Definition entry_empty e : bool := if out_of_line e && nz (num_refs e) then false else negb (some_inline e).
Definition weak_unregister_no_lock t (referent_id referrer : Z) : res (weak_table_t * list inform) :=
  if negb (nz referent_id) then Ok (t, [])
  else
    let? found := weak_entry_for_referent t referent_id in
    match found with
    | None => Ok (t, [])
    | Some index =>
      let? e := entry_at t index in
      let? (e, log) := remove_referrer e referrer in
      let t := store_entry t index e in
      let? t := if entry_empty e then weak_entry_remove t index else Ok t in
      Ok (t, log)
    end.

Inductive WeakRegisterDeallocatingOptions := ReturnNilIfDeallocating | CrashIfDeallocating | DontCheckDeallocating.
(** What the function asks of the object: whether it is tagged or nil and has
    custom reference counting, [rootIsDeallocating], and its answer to
    [allowsWeakReference], nothing if it does not implement it. *)
Record viability := Viability {
  v_isTaggedPointerOrNil : bool;
  v_hasCustomRR : bool;
  v_rootIsDeallocating : res bool;
  v_allowsWeakReference : option bool;
}.
(** "ensure that the referenced object is viable". *)
Definition viable (v : viability) (options : WeakRegisterDeallocatingOptions) : res bool :=
  match options with
  | DontCheckDeallocating => Ok true
  | _ =>
    let? deallocating :=
      if negb (v_hasCustomRR v) then let? b := v_rootIsDeallocating v in Ok (Some b)
      else Ok (option_map negb (v_allowsWeakReference v)) in
    match deallocating, options with
    | None, _ => Ok false
    | Some true, CrashIfDeallocating => Fault CannotFormWeakReference
    | Some true, _ => Ok false
    | Some false, _ => Ok true
    end
  end.
Definition weak_register_no_lock t (referent_id referrer : Z) (v : viability) (options : WeakRegisterDeallocatingOptions)
    : res (weak_table_t * Z) :=
  if v_isTaggedPointerOrNil v then Ok (t, referent_id)
  else
    let? viable := viable v options in
    if negb viable then Ok (t, 0)
    else
      let? found := weak_entry_for_referent t referent_id in
      match found with
      | Some index =>
        let? e := entry_at t index in
        let? e := append_referrer e referrer in
        Ok (store_entry t index e, referent_id)
      | None =>
        let? t := weak_grow_maybe t in
        let? t := weak_entry_insert t (new_entry referent_id referrer) in
        Ok (t, referent_id)
      end.
(** [DEBUG] only. *)
Definition is_registered t (referent_id : Z) : res bool :=
  let? found := weak_entry_for_referent t referent_id in
  Ok (match found with Some _ => true | None => false end).

Implicit Types m : variables.
Definition clear_referrer m (referent_id referrer : Z) : res (variables * list inform) :=
  if nz referrer then
    match m !! referrer with
    | None => Fault OutOfBounds
    | Some value =>
      if value =? referent_id then Ok (<[referrer := 0]> m, [])
      else if nz value then Ok (m, [HoldsOther referrer value referent_id])
      else Ok (m, [])
    end
  else Ok (m, []).
Fixpoint clear_referrers m (referent_id : Z) (l : list Z) : res (variables * list inform) :=
  match l with
  | [] => Ok (m, [])
  | w :: l =>
    let? (m, log) := clear_referrer m referent_id (undisguise w) in
    let? (m, log') := clear_referrers m referent_id l in
    Ok (m, log ++ log')
  end.
Definition weak_clear t m (referent_id : Z) : res (weak_table_t * variables * list inform) :=
  let? found := weak_entry_for_referent t referent_id in
  match found with
  | None => Ok (t, m, [])
  | Some index =>
    let? e := entry_at t index in
    let l := if out_of_line e then take (Z.to_nat (TABLE_SIZE (mask e))) (owned e) else inline_referrers e in
    let? (m, log) := clear_referrers m referent_id l in
    let? t := weak_entry_remove t index in
    Ok (t, m, log)
  end.
End Weak.

(** ** What a side table calls

    The weak table with the variables it clears and the reports made. *)
Record weak_state := WeakState { wtable : weak_table_t; wvars : variables; wlog : list inform }.
#[export] Instance weak_table_ops : WeakTableOps weak_state := {|
  weak_clear_no_lock w obj :=
    let? (t, m, log) := weak_clear (wtable w) (wvars w) obj in Ok (WeakState t m (wlog w ++ log));
  weak_is_registered_no_lock w obj := is_registered (wtable w) obj;
|}.
