(* ===== verification/ObjcWeakTheory.v ===== *)
(** * objc-weak.mm: the weak table refines a map

    [probing] is the invariant of a linearly probed array, of referrers or of
    entries: every key sits within the recorded displacement of its hash, and
    the displacement leaves a slot over, so that a search ends. [denote] is the
    map of the table, from objects to their referrers. *)

From stdpp Require Import prelude numbers list gmap.
From Stdlib Require Import ZArith Lia Bool.
From S2P Require Import Prelude ObjcOS SideTable ObjcWeak.

(** ** Lists with one element exchanged *)
Section Exchange.
Context {A B : Type} (f : A -> option B).
Implicit Types (l : list A).
Lemma omap_split l i y : l !! i = Some y ->
  exists R, (omap f l ≡ₚ from_option (fun b => [b]) [] (f y) ++ R) /\ forall x, omap f (<[i := x]> l) ≡ₚ from_option (fun b => [b]) [] (f x) ++ R.
Proof.
  intros E. exists (omap f (take i l) ++ omap f (drop (S i) l)). split; [|intros x; rewrite insert_take_drop by (by eapply lookup_lt_Some)].
  - rewrite <- (take_drop_middle l i y E) at 1. rewrite omap_app. cbn [omap list_omap].
    destruct (f y); cbn [from_option app]; [|done]. by rewrite <- Permutation_middle.
  - rewrite omap_app. cbn [omap list_omap]. destruct (f x); cbn [from_option app]; [|done]. by rewrite <- Permutation_middle.
Qed.
Lemma omap_fill l i x y b : l !! i = Some y -> f y = None -> f x = Some b -> omap f (<[i := x]> l) ≡ₚ b :: omap f l.
Proof. intros E Hy Hx. destruct (omap_split l i y E) as (R & H1 & H2). rewrite Hy in H1. by rewrite H2, H1, Hx. Qed.
Lemma omap_vacate l i x y b : l !! i = Some y -> f y = Some b -> f x = None -> omap f l ≡ₚ b :: omap f (<[i := x]> l).
Proof. intros E Hy Hx. destruct (omap_split l i y E) as (R & H1 & H2). specialize (H2 x). rewrite Hx in H2. by rewrite H2, H1, Hy. Qed.
End Exchange.

(** ** Keys of an array *)
Definition key_of (w : Z) : option Z := if decide (w = 0) then None else Some (undisguise w).
Definition keys (slots : list Z) : list Z := omap key_of slots.

Lemma undisguise_zero w : in_word 64 w -> undisguise w = 0 <-> w = 0.
Proof. apply disguise_zero. Qed.
Lemma disguise_undisguise w : in_word 64 w -> disguise (undisguise w) = w.
Proof. apply undisguise_disguise. Qed.
Lemma key_of_disguise key : in_word 64 key -> key <> 0 -> key_of (disguise key) = Some key.
Proof.
  intros Hk Hn. unfold key_of. rewrite decide_False by by rewrite disguise_zero. by rewrite undisguise_disguise.
Qed.
Lemma keys_zero slots : keys (0 :: slots) = keys slots.
Proof. done. Qed.
Lemma keys_key w slots : w <> 0 -> keys (w :: slots) = undisguise w :: keys slots.
Proof. intros Hw. unfold keys, key_of. cbn [omap list_omap]. by rewrite decide_False. Qed.
Lemma keys_length slots : (length (keys slots) <= length slots)%nat.
Proof.
  induction slots as [|w slots IH]; [done|]. destruct (decide (w = 0)) as [->|]; [rewrite keys_zero; cbn; lia|].
  rewrite keys_key by done. cbn. lia.
Qed.
(** Distinct occupied slots are at most as many as there are keys. *)
Lemma occupied_count (L : list nat) slots : NoDup L -> (forall i, i ∈ L -> exists w, slots !! i = Some w /\ w <> 0) ->
  (length L <= length (keys slots))%nat.
Proof.
  revert slots. induction L as [|i L IH]; intros slots Hd Ho; [cbn; lia|]. apply NoDup_cons in Hd as [Hni Hd].
  destruct (Ho i) as (w & E & Hw); [set_solver|].
  assert (Hp : keys slots ≡ₚ undisguise w :: keys (<[i := 0]> slots)).
  { apply (omap_vacate key_of slots i 0 w); [done| |done]. unfold key_of. by rewrite decide_False. }
  rewrite Hp. cbn [length]. apply le_n_S. apply IH; [done|]. intros j Hj. destruct (Ho j) as (w' & E' & Hw'); [set_solver|].
  exists w'. rewrite list_lookup_insert_ne by set_solver. done.
Qed.

(** ** Linear probing *)
Section Probing.
Implicit Types (slots : list Z) (k : Z).
(** The [d]-th slot from [begin]. *)
Definition ahead k (begin d : Z) : Z := (begin + d) mod 2 ^ k.
Definition home k (key : Z) : Z := Z.land (ptr_hash key) (2 ^ k - 1).

Lemma home_range k key : 0 <= k -> 0 <= home k key < 2 ^ k.
Proof. intros Hk. unfold home. rewrite land_mask by done. apply Z.mod_pos_bound. by apply pow2_pos. Qed.
Lemma ahead_range k begin d : 0 <= k -> 0 <= ahead k begin d < 2 ^ k.
Proof. intros Hk. apply Z.mod_pos_bound. by apply pow2_pos. Qed.
Lemma ahead_zero k begin : 0 <= begin < 2 ^ k -> ahead k begin 0 = begin.
Proof. intros Hb. unfold ahead. rewrite Z.add_0_r. by apply Z.mod_small. Qed.
Lemma ahead_next k begin d : 0 <= k -> Z.land (ahead k begin d + 1) (2 ^ k - 1) = ahead k begin (d + 1).
Proof. intros Hk. rewrite land_mask by done. unfold ahead. rewrite Zplus_mod_idemp_l. f_equal. lia. Qed.
Lemma ahead_inj k begin d d' : 0 <= k -> 0 <= d < 2 ^ k -> 0 <= d' < 2 ^ k -> ahead k begin d = ahead k begin d' -> d = d'.
Proof.
  intros Hk Hd Hd' E. assert (F : forall x, 0 <= x < 2 ^ k -> x = (ahead k begin x - begin) mod 2 ^ k).
  { intros x Hx. unfold ahead. rewrite Zminus_mod_idemp_l. replace (begin + x - begin) with x by lia. by rewrite Z.mod_small. }
  rewrite (F d Hd), (F d' Hd'). by rewrite E.
Qed.
Lemma ahead_surjective k begin i : 0 <= k -> 0 <= i < 2 ^ k -> exists d, 0 <= d < 2 ^ k /\ ahead k begin d = i.
Proof.
  intros Hk Hi. exists ((i - begin) mod 2 ^ k). split; [apply Z.mod_pos_bound, pow2_pos; done|].
  unfold ahead. rewrite Zplus_mod_idemp_r. replace (begin + (i - begin)) with i by lia. by apply Z.mod_small.
Qed.
Lemma ahead_begin k begin d : 0 <= k -> 0 <= begin < 2 ^ k -> 0 < d < 2 ^ k -> (ahead k begin d =? begin) = false.
Proof.
  intros Hk Hb Hd. apply Z.eqb_neq. intros E. rewrite <- (ahead_zero k begin) in E at 2 by done.
  apply ahead_inj in E; lia.
Qed.

Record probing slots k (max count : Z) : Prop := {
  pr_length : Z.of_nat (length slots) = 2 ^ k;
  pr_words : Forall (in_word 64) slots;
  pr_count : count = Z.of_nat (length (keys slots));
  pr_near : forall i w, slots !! i = Some w -> w <> 0 ->
    exists d, 0 <= d <= max /\ Z.of_nat i = ahead k (home k (undisguise w)) d;
  pr_max : 0 <= max < 2 ^ k - 1;
  pr_size : 1 <= k <= 40;
}.
Lemma slot_ok slots k i : Z.of_nat (length slots) = 2 ^ k -> 0 <= i < 2 ^ k ->
  exists w, slots !! Z.to_nat i = Some w /\ slot slots i = Ok (undisguise w).
Proof.
  intros Hl Hi. destruct (lookup_lt_is_Some_2 slots (Z.to_nat i)) as [w E]; [lia|]. exists w. unfold slot. by rewrite E.
Qed.

Lemma probe_free_loop slots k begin d0 : Z.of_nat (length slots) = 2 ^ k -> Forall (in_word 64) slots -> 0 <= k -> 0 <= begin < 2 ^ k ->
  0 <= d0 < 2 ^ k -> slots !! Z.to_nat (ahead k begin d0) = Some 0 ->
  forall fuel j, 0 <= j <= d0 -> d0 - j < Z.of_nat fuel ->
  (forall j', 0 <= j' < j -> exists w, slots !! Z.to_nat (ahead k begin j') = Some w /\ w <> 0) ->
  exists d, probe_free fuel slots (2 ^ k - 1) begin (ahead k begin j) j = Ok (ahead k begin d, d) /\ 0 <= d <= d0 /\
    slots !! Z.to_nat (ahead k begin d) = Some 0 /\
    (forall j', 0 <= j' < d -> exists w, slots !! Z.to_nat (ahead k begin j') = Some w /\ w <> 0).
Proof.
  intros Hl Hw Hk Hb Hd0 Hfree. induction fuel as [|fuel IH]; intros j Hj Hf Hocc; [lia|]. cbn [probe_free].
  destruct (slot_ok slots k (ahead k begin j) Hl (ahead_range _ _ _ Hk)) as (w & E & ->). cbn [rbind].
  pose proof (Forall_lookup_1 _ _ _ _ Hw E) as Hword. destruct (nz (undisguise w)) eqn:En.
  - apply nz_true in En. assert (w <> 0) by by rewrite <- undisguise_zero.
    assert (j <> d0) by (intros ->; congruence). rewrite ahead_next by done. rewrite ahead_begin by lia.
    apply IH; [lia|lia|]. intros j' Hj'. destruct (decide (j' = j)) as [->|]; [by exists w|apply Hocc; lia].
  - apply nz_false in En. rewrite undisguise_zero in En by done. subst w. exists j. split; [done|]. split; [lia|]. done.
Qed.
(** A free slot is found within as many steps as there are keys. *)
Lemma probe_free_ok slots k max count key : probing slots k max count -> count < 2 ^ k ->
  exists i d, probe_free (length slots) slots (2 ^ k - 1) (home k key) (home k key) 0 = Ok (i, d) /\
    0 <= i < 2 ^ k /\ slots !! Z.to_nat i = Some 0 /\ i = ahead k (home k key) d /\ 0 <= d <= count.
Proof.
  intros [Hl Hw Hc _ _ Hs] Hroom. assert (Hk : 0 <= k) by lia. pose proof (home_range k key Hk) as Hb.
  assert (Hfree : exists i, 0 <= i < 2 ^ k /\ slots !! Z.to_nat i = Some 0).
  { destruct (decide (Forall (fun w => w <> 0) slots)) as [Hall|Hn].
    - exfalso. assert (length (keys slots) = length slots); [|lia]. clear -Hall.
      induction Hall as [|w slots Hw _ IH]; [done|]. unfold keys in *. cbn [omap list_omap]. unfold key_of at 1.
      rewrite decide_False by done. cbn [length]. by f_equal.
    - apply not_Forall_Exists in Hn; [|apply _]. apply Exists_exists in Hn as (w & Hin & Hz).
      destruct (decide (w = 0)) as [->|]; [|done]. apply list_elem_of_lookup in Hin as (i & E).
      exists (Z.of_nat i). rewrite Nat2Z.id. split; [|done]. apply lookup_lt_Some in E. lia. }
  destruct Hfree as (i0 & Hi0 & E0). destruct (ahead_surjective k (home k key) i0 Hk Hi0) as (d0 & Hd0 & <-).
  destruct (probe_free_loop slots k (home k key) d0 Hl Hw Hk Hb Hd0 E0 (length slots) 0) as (d & E & Hd & Ef & Hocc); [lia|lia|intros; lia|].
  rewrite ahead_zero in E by done. exists (ahead k (home k key) d), d. split; [done|]. split; [by apply ahead_range|].
  split; [done|]. split; [done|]. split; [lia|]. subst count.
  pose proof (occupied_count (map (fun j => Z.to_nat (ahead k (home k key) (Z.of_nat j))) (seq 0 (Z.to_nat d))) slots) as H.
  rewrite length_map, length_seq in H. enough (Z.to_nat d <= length (keys slots))%nat by lia. apply H.
  - apply NoDup_fmap_2_strong; [|apply NoDup_seq]. intros x y Hx%elem_of_seq Hy%elem_of_seq Exy.
    pose proof (ahead_range k (home k key) (Z.of_nat x) Hk). pose proof (ahead_range k (home k key) (Z.of_nat y) Hk).
    apply Nat2Z.inj. apply (ahead_inj k (home k key)); lia.
  - intros i (j & -> & Hj%elem_of_seq)%list_elem_of_fmap. apply Hocc. lia.
Qed.

(** The search for a key from displacement [j] on. *)
Definition found_at slots key (r : option Z) : Prop :=
  match r with Some i => 0 <= i /\ slots !! Z.to_nat i = Some (disguise key) | None => True end.
Lemma probe_key_loop slots k max count key : probing slots k max count -> in_word 64 key -> 
  forall fuel j, 0 <= j <= max -> max - j < Z.of_nat fuel ->
  exists r, probe_key fuel slots key (2 ^ k - 1) max (home k key) (ahead k (home k key) j) j = Ok r /\ found_at slots key r /\
    ((exists d, j <= d <= max /\ slots !! Z.to_nat (ahead k (home k key) d) = Some (disguise key)) -> r <> None).
Proof.
  intros [Hl Hw _ _ Hm Hs] Hkey. assert (Hk : 0 <= k) by lia. pose proof (home_range k key Hk) as Hb.
  induction fuel as [|fuel IH]; intros j Hj Hf; [lia|]. cbn [probe_key].
  pose proof (ahead_range k (home k key) j Hk) as Hr.
  destruct (slot_ok slots k _ Hl Hr) as (w & E & ->). cbn [rbind].
  pose proof (Forall_lookup_1 _ _ _ _ Hw E) as Hword. destruct (Z.eqb_spec (undisguise w) key) as [<-|Hne].
  - exists (Some (ahead k (home k (undisguise w)) j)). split; [done|]. split; [|done]. split; [lia|]. by rewrite disguise_undisguise.
  - rewrite ahead_next, ahead_begin by lia. assert (Hw' : w <> disguise key) by (intros ->; by rewrite undisguise_disguise in Hne).
    destruct (Z.ltb_spec max (j + 1)) as [Hlast|Hgo].
    + exists None. split; [done|]. split; [done|]. intros (d & Hd & Ed). assert (d = j) as -> by lia. congruence.
    + destruct (IH (j + 1)) as (r & Er & Hfound & Hsome); [lia|lia|]. exists r. split; [done|]. split; [done|].
      intros (d & Hd & Ed). apply Hsome. exists d. split; [|done]. destruct (decide (d = j)) as [->|]; [congruence|lia].
Qed.
Lemma probe_key_ok slots k max count key : probing slots k max count -> in_word 64 key -> key <> 0 ->
  exists r, probe_key (length slots) slots key (2 ^ k - 1) max (home k key) (home k key) 0 = Ok r /\
    match r with
    | Some i => 0 <= i < 2 ^ k /\ slots !! Z.to_nat i = Some (disguise key)
    | None => key ∉ keys slots
    end.
Proof.
  intros Hp Hkey Hn. destruct Hp as [Hl Hw Hc Hnear Hm Hs] eqn:EH. clear EH. assert (Hk : 0 <= k) by lia. pose proof (home_range k key Hk) as Hb.
  destruct (probe_key_loop slots k max count key Hp Hkey (length slots) 0) as (r & E & Hfound & Hsome); [lia|lia|].
  rewrite ahead_zero in E by done. exists r. split; [done|]. destruct r as [i|].
  - destruct Hfound as [Hi Ei]. split; [|done]. apply lookup_lt_Some in Ei. lia.
  - intros (w & Hin & Ew)%list_elem_of_omap. unfold key_of in Ew. destruct (decide (w = 0)); [done|]. injection Ew as <-.
    apply list_elem_of_lookup in Hin as (i & Ei). destruct (Hnear i w Ei) as (d & Hd & Hid); [done|].
    apply Hsome; [|done]. exists d. split; [done|]. rewrite <- Hid, Nat2Z.id, disguise_undisguise; [done|]. by apply (Forall_lookup_1 _ _ _ _ Hw Ei).
Qed.
(** Filling the slot found, and emptying one. *)
Lemma probing_fill slots k max count key i d : probing slots k max count -> in_word 64 key -> key <> 0 -> count < 2 ^ k - 1 ->
  slots !! Z.to_nat i = Some 0 -> 0 <= i < 2 ^ k -> i = ahead k (home k key) d -> 0 <= d <= count ->
  probing (<[Z.to_nat i := disguise key]> slots) k (if d >? max then d else max) (count + 1) /\
  keys (<[Z.to_nat i := disguise key]> slots) ≡ₚ key :: keys slots.
Proof.
  intros [Hl Hw Hc Hnear Hm Hs] Hkey Hn Hroom Ei Hi -> Hd. set (i := ahead k (home k key) d) in *.
  assert (Hkeys : keys (<[Z.to_nat i := disguise key]> slots) ≡ₚ key :: keys slots).
  { apply (omap_fill key_of _ _ _ 0 key Ei); [done|by apply key_of_disguise]. }
  split; [|done]. rewrite Z.gtb_ltb. split.
  - by rewrite length_insert.
  - apply Forall_insert; [done|apply disguise_range].
  - rewrite Hkeys. cbn [length]. lia.
  - intros j w Ej Hw0. destruct (decide (j = Z.to_nat i)) as [->|Hne].
    + rewrite list_lookup_insert_eq in Ej by (eapply lookup_lt_Some; done). injection Ej as <-. rewrite undisguise_disguise by done.
      exists d. rewrite Z2Nat.id by lia. destruct (Z.ltb_spec max d); (split; [lia|done]).
    + rewrite list_lookup_insert_ne in Ej by done. destruct (Hnear j w Ej Hw0) as (d' & Hd' & E). exists d'. split; [|done].
      destruct (Z.ltb_spec max d); lia.
  - destruct (Z.ltb_spec max d); lia.
  - done.
Qed.
Lemma probing_vacate slots k max count key i : probing slots k max count -> in_word 64 key -> key <> 0 ->
  slots !! Z.to_nat i = Some (disguise key) ->
  probing (<[Z.to_nat i := 0]> slots) k max (count - 1) /\ keys slots ≡ₚ key :: keys (<[Z.to_nat i := 0]> slots).
Proof.
  intros [Hl Hw Hc Hnear Hm Hs] Hkey Hn Ei.
  assert (Hkeys : keys slots ≡ₚ key :: keys (<[Z.to_nat i := 0]> slots)).
  { apply (omap_vacate key_of _ _ 0 _ key Ei); [by apply key_of_disguise|done]. }
  split; [|done]. split; try done.
  - by rewrite length_insert.
  - apply Forall_insert; [done|]. by unfold in_word.
  - rewrite Hkeys in Hc. cbn [length] in Hc. lia.
  - intros j w Ej Hw0. destruct (decide (j = Z.to_nat i)) as [->|Hne].
    + rewrite list_lookup_insert_eq in Ej by (eapply lookup_lt_Some; done). congruence.
    + rewrite list_lookup_insert_ne in Ej by done. by apply (Hnear j w).
Qed.
Lemma keys_zeros n : keys (replicate n 0) = [].
Proof. induction n as [|n IH]; [done|]. exact IH. Qed.
Lemma probing_empty k : 2 <= k <= 40 -> probing (replicate (Z.to_nat (2 ^ k)) 0) k 0 0.
Proof.
  intros Hk. pose proof (pow2_pos k). assert (2 ^ 2 <= 2 ^ k) by (apply Z.pow_le_mono_r; lia). split.
  - rewrite length_replicate. lia.
  - apply Forall_replicate. by unfold in_word.
  - by rewrite keys_zeros.
  - intros i w [-> _]%lookup_replicate. done.
  - lia.
  - lia.
Qed.
Lemma probing_count slots k max count : probing slots k max count -> 0 <= count.
Proof. intros [_ _ -> _ _ _]. lia. Qed.
End Probing.

(** ** Entries with an array *)
Definition address (r : Z) : Prop := in_word 64 r /\ r <> 0.
(** The entry whose union holds an array of [2 ^ k] referrers. *)
Definition outline (rf a n k max : Z) (array : list Z) : weak_entry_t :=
  WeakEntry rf [a; Z.lor (Z.shiftl n 2) 2; 2 ^ k - 1; max] array.
Section Outline.
Lemma join_high n x : Z.shiftr (Z.lor (Z.shiftl n 2) (Z.land x 3)) 2 = n.
Proof. change 3 with (2 ^ 2 - 1). zbits; f_equal; lia. Qed.
Lemma join_low n x : Z.land (Z.lor (Z.shiftl n 2) (Z.land x 3)) 3 = Z.land x 3.
Proof. change 3 with (2 ^ 2 - 1). zbits. Qed.
Lemma split_word w : w = Z.lor (Z.shiftl (Z.shiftr w 2) 2) (Z.land w 3).
Proof. change 3 with (2 ^ 2 - 1). zbits; rewrite Z.shiftr_spec by lia; f_equal; lia. Qed.
Lemma outline_num_refs rf a n k max array : num_refs (outline rf a n k max array) = n.
Proof. apply (join_high n 2). Qed.
Lemma outline_out_of_line rf a n k max array : out_of_line (outline rf a n k max array) = true.
Proof. unfold out_of_line, out_of_line_ness. apply Z.eqb_eq. apply (join_low n 2). Qed.
Lemma outline_set_num_refs rf a n k max array n' : 0 <= n' < 2 ^ 62 ->
  set_num_refs (outline rf a n k max array) n' = outline rf a n' k max array.
Proof.
  intros Hn. unfold set_num_refs, out_of_line_ness, PTR_MINUS_2. rewrite wrap_small by done. unfold outline, set_union_word, union_word.
  cbn [inline_referrers nth referent owned]. pose proof (join_low n 2) as E. change (Z.land 2 3) with 2 in E. by rewrite E.
Qed.
Lemma table_size_pow k : 1 <= k <= 40 -> TABLE_SIZE (2 ^ k - 1) = 2 ^ k.
Proof.
  intros Hk. assert (2 ^ 1 <= 2 ^ k <= 2 ^ 40) by (split; apply Z.pow_le_mono_r; lia). unfold TABLE_SIZE.
  replace (nz (2 ^ k - 1)) with true by (symmetry; apply nz_true; lia). rewrite wrap_small by lia. lia.
Qed.
Lemma three_quarters k n : 1 <= k <= 40 -> (u64 (TABLE_SIZE (2 ^ k - 1) * 3) / 4 <=? n) = (3 * 2 ^ k / 4 <=? n).
Proof.
  intros Hk. assert (2 ^ 1 <= 2 ^ k <= 2 ^ 40) by (split; apply Z.pow_le_mono_r; lia). rewrite table_size_pow, wrap_small by lia.
  do 2 f_equal. lia.
Qed.

Lemma insert_outline rf a n k max array r : probing array k max n -> address r -> n < 2 ^ k - 1 ->
  exists max' array', insert_referrer (outline rf a n k max array) r = Ok (outline rf a (n + 1) k max' array') /\
    probing array' k max' (n + 1) /\ keys array' ≡ₚ r :: keys array.
Proof.
  intros Hp [Hr Hn] Hroom. pose proof (probing_count _ _ _ _ Hp) as Hc.
  destruct (probe_free_ok array k max n r Hp ltac:(lia)) as (i & d & E & Hi & Ei & Hid & Hd).
  destruct (probing_fill array k max n r i d Hp Hr Hn Hroom Ei Hi Hid Hd) as [Hp' Hk'].
  exists (if d >? max then d else max), (<[Z.to_nat i := disguise r]> array). split; [|done].
  assert (Hn62 : 0 <= n + 1 < 2 ^ 62).
  { destruct Hp as [_ _ _ _ _ Hs]. assert (2 ^ k <= 2 ^ 40) by (apply Z.pow_le_mono_r; lia). lia. }
  unfold insert_referrer. change (probe_free _ _ _ _ _ _) with (probe_free (length array) array (2 ^ k - 1) (home k r) (home k r) 0).
  rewrite E. cbn [rbind]. change (max_hash_displacement (outline rf a n k max array)) with max.
  destruct (d >? max).
  - change (with_owned _ _) with (outline rf a n k d (<[Z.to_nat i := disguise r]> array)).
    by rewrite outline_num_refs, outline_set_num_refs.
  - change (with_owned _ _) with (outline rf a n k max (<[Z.to_nat i := disguise r]> array)).
    by rewrite outline_num_refs, outline_set_num_refs.
Qed.
Context (calloc : Z -> Z) (Hcalloc : forall n, in_word 64 (calloc n) /\ calloc n <> 0).
Lemma append_outline_room fuel rf a n k max array r : probing array k max n -> address r -> n < 3 * 2 ^ k / 4 -> 
  exists max' array', append_referrer_ calloc (S fuel) (outline rf a n k max array) r = Ok (outline rf a (n + 1) k max' array') /\
    probing array' k max' (n + 1) /\ keys array' ≡ₚ r :: keys array.
Proof.
  intros Hp Hr Hroom. assert (Hs : 1 <= k <= 40) by by destruct Hp. pose proof (pow2_pos k ltac:(lia)).
  destruct (insert_outline rf a n k max array r Hp Hr) as (max' & array' & E & H'); [dlia|].
  exists max', array'. split; [|done]. cbn [append_referrer_]. rewrite !outline_out_of_line. cbv zeta. cbn [rassert rbind].
  change (mask (outline rf a n k max array)) with (2 ^ k - 1). rewrite three_quarters, outline_num_refs by done.
  destruct (Z.leb_spec (3 * 2 ^ k / 4) n); [lia|done].
Qed.
Lemma rehash_outline fuel rf a k old num : Forall (in_word 64) old -> num = Z.of_nat (length (keys old)) ->
  forall n max array, probing array k max n -> n + num <= 3 * 2 ^ k / 4 ->
  exists max' array', rehash (append_referrer_ calloc (S fuel)) old num (outline rf a n k max array) = Ok (outline rf a (n + num) k max' array') /\
    probing array' k max' (n + num) /\ keys array' ≡ₚ keys old ++ keys array.
Proof.
  intros Hw. revert num. induction old as [|w old IH]; intros num Hnum n max array Hp Hroom.
  { exists max, array. cbn in Hnum. subst num. by rewrite Z.add_0_r. }
  apply Forall_cons in Hw as [Hw Hold]. cbn [rehash]. destruct (Z.ltb_spec 0 num) as [Hpos|Hnone].
  - destruct (decide (w = 0)) as [->|Hw0].
    + change (nz (undisguise 0)) with false. apply IH; [done|done|done|done].
    + rewrite keys_key in * by done. cbn [length] in Hnum. assert (Hu : address (undisguise w)).
      { split; [apply wrap_in_word; lia|]. by rewrite undisguise_zero. }
      replace (nz (undisguise w)) with true by (symmetry; apply nz_true, Hu).
      destruct (append_outline_room fuel rf a n k max array (undisguise w) Hp Hu) as (max1 & array1 & -> & Hp1 & Hk1); [lia|].
      cbn [rbind]. destruct (IH Hold (num - 1) ltac:(lia) (n + 1) max1 array1 Hp1 ltac:(lia)) as (max' & array' & -> & Hp' & Hk').
      exists max', array'. replace (n + 1 + (num - 1)) with (n + num) in * by lia. split; [done|]. split; [done|].
      rewrite Hk', Hk1. by rewrite <- Permutation_middle.
  - assert (Hnil : keys (w :: old) = []) by (apply nil_length_inv; lia). rewrite Hnil. exists max, array.
    replace (n + num) with n by (rewrite Hnil in Hnum; cbn in Hnum; lia). done.
Qed.
Lemma grow_outline fuel rf a k n max old r : 2 <= k <= 39 -> Z.of_nat (length old) = 2 ^ k -> Forall (in_word 64) old ->
  n = Z.of_nat (length (keys old)) -> address r ->
  exists a' max' array', grow_refs_and_insert calloc (append_referrer_ calloc (S fuel)) (outline rf a n k max old) r =
      Ok (outline rf a' (n + 1) (k + 1) max' array') /\
    in_word 64 a' /\ a' <> 0 /\ probing array' (k + 1) max' (n + 1) /\ keys array' ≡ₚ r :: keys old.
Proof.
  intros Hk Hl Hw Hn Hr. assert (2 ^ 2 <= 2 ^ k <= 2 ^ 39) by (split; apply Z.pow_le_mono_r; lia).
  assert (Hkl : (length (keys old) <= length old)%nat) by apply keys_length.
  assert (Hk1 : 2 ^ (k + 1) = 2 ^ k * 2) by (rewrite Z.pow_add_r by lia; lia).
  unfold grow_refs_and_insert. rewrite outline_out_of_line. cbn [rassert rbind].
  change (mask (outline rf a n k max old)) with (2 ^ k - 1). rewrite table_size_pow by lia.
  replace (nz (2 ^ k)) with true by (symmetry; apply nz_true; lia).
  rewrite (wrap_small 64 (2 ^ k * 2)), <- Hk1, (wrap_small 64 (2 ^ (k + 1) - 1)) by lia.
  rewrite outline_num_refs. change (owned (outline rf a n k max old)) with old.
  rewrite (take_ge old) by lia.
  change (set_mask (outline rf a n k max old) (2 ^ (k + 1) - 1)) with (outline rf a n (k + 1) max old).
  change (mask (outline rf a n (k + 1) max old)) with (2 ^ (k + 1) - 1). rewrite table_size_pow by lia.
  set (a' := calloc (2 ^ (k + 1))).
  change (set_referrers (outline rf a n (k + 1) max old) a' ?array) with (outline rf a' n (k + 1) max array).
  rewrite outline_set_num_refs by lia.
  change (set_max_hash_displacement (outline rf a' 0 (k + 1) max ?array) 0) with (outline rf a' 0 (k + 1) 0 array).
  destruct (rehash_outline fuel rf a' (k + 1) old n Hw Hn 0 0 _ (probing_empty (k + 1) ltac:(lia))) as (max1 & array1 & -> & Hp1 & Hkeys1); [dlia|].
  cbn [rbind]. rewrite keys_zeros, app_nil_r in Hkeys1. rewrite Z.add_0_l in *.
  destruct (append_outline_room fuel rf a' n (k + 1) max1 array1 r Hp1 Hr) as (max2 & array2 & -> & Hp2 & Hkeys2); [dlia|].
  exists a', max2, array2. split; [done|]. split; [apply Hcalloc|]. split; [apply Hcalloc|]. split; [done|]. by rewrite Hkeys2, Hkeys1.
Qed.
End Outline.

(** ** Entries *)
Inductive entry_ok : weak_entry_t -> Prop :=
  | inline_ok rf words array : length words = 4%nat -> Forall (in_word 64) words -> Forall (fun w => w mod 8 = 0) words ->
      entry_ok (WeakEntry rf words array)
  | outline_ok rf a n k max array : in_word 64 a -> a <> 0 -> 3 <= k -> probing array k max n -> entry_ok (outline rf a n k max array).
(** The addresses of the variables that an entry holds. *)
Definition refs_of (e : weak_entry_t) : list Z := keys (if out_of_line e then owned e else inline_referrers e).
(** Weak variables are aligned, which tells them from the mark of an array. *)
Definition variable (r : Z) : Prop := address r /\ r mod 8 = 0.
(** Memory cannot hold this many weak variables. *)
Definition max_referrers : Z := 2 ^ 38.

Section Entries.
Lemma first_index_Some p l i : first_index p l = Some i -> exists w, l !! i = Some w /\ p (undisguise w) = true.
Proof.
  revert i. induction l as [|w l IH]; intros i E; [done|]. cbn [first_index] in E. destruct (p (undisguise w)) eqn:Ep.
  - injection E as <-. by exists w.
  - destruct (first_index p l) as [j|]; [|done]. injection E as <-. by apply IH.
Qed.
Lemma first_index_None p l : first_index p l = None -> Forall (fun w => p (undisguise w) = false) l.
Proof.
  induction l as [|w l IH]; intros E; constructor; cbn [first_index] in E; destruct (p (undisguise w)); try done.
  apply IH. by destruct (first_index p l).
Qed.
Lemma aligned_low w : w mod 8 = 0 -> Z.land w 3 = 0.
Proof. intros H. change 3 with (2 ^ 2 - 1). rewrite land_mask by lia. dlia. Qed.
Lemma disguise_aligned r : r mod 8 = 0 -> disguise r mod 8 = 0.
Proof. intros H. unfold disguise, wrap. dlia. Qed.
Lemma inline_not_out rf words array : length words = 4%nat -> Forall (fun w => w mod 8 = 0) words ->
  out_of_line (WeakEntry rf words array) = false.
Proof.
  intros Hl Ha. unfold out_of_line, out_of_line_ness, union_word. cbn [inline_referrers].
  destruct (lookup_lt_is_Some_2 words 1) as [w E]; [lia|]. rewrite (nth_lookup_Some _ _ _ _ E), aligned_low; [done|].
  exact (Forall_lookup_1 _ _ _ _ Ha E).
Qed.
Lemma refs_inline rf words array : length words = 4%nat -> Forall (fun w => w mod 8 = 0) words ->
  refs_of (WeakEntry rf words array) = keys words.
Proof. intros Hl Ha. unfold refs_of. by rewrite inline_not_out. Qed.
Lemma refs_outline rf a n k max array : refs_of (outline rf a n k max array) = keys array.
Proof. unfold refs_of. by rewrite outline_out_of_line. Qed.
Lemma keys_full words : Forall (fun w => w <> 0) words -> length (keys words) = length words.
Proof. induction 1 as [|w words Hw _ IH]; [done|]. rewrite keys_key by done. cbn. by f_equal. Qed.
Lemma key_of_zero : key_of 0 = None.
Proof. done. Qed.
Lemma set_inline_ok rf words array i w : length words = 4%nat -> Forall (in_word 64) words -> Forall (fun w => w mod 8 = 0) words ->
  in_word 64 w -> w mod 8 = 0 ->
  entry_ok (set_union_word (WeakEntry rf words array) i w) /\
  refs_of (set_union_word (WeakEntry rf words array) i w) = keys (<[i := w]> words).
Proof.
  intros Hl Hw Ha Hword Hal. unfold set_union_word. cbn [referent inline_referrers owned].
  assert (Hl' : length (<[i := w]> words) = 4%nat) by by rewrite length_insert.
  assert (Ha' : Forall (fun w => w mod 8 = 0) (<[i := w]> words)) by by apply Forall_insert.
  split; [|by apply refs_inline]. constructor; [done|by apply Forall_insert|done].
Qed.

Context (calloc : Z -> Z) (Hcalloc : forall n, in_word 64 (calloc n) /\ calloc n <> 0).
Lemma move_out_of_line_ok rf words array : length words = 4%nat ->
  move_out_of_line calloc (WeakEntry rf words array) = outline rf (calloc 4) 4 2 0 words.
Proof.
  destruct words as [|w0 [|w1 [|w2 [|w3 [|]]]]]; try done. intros _.
  unfold move_out_of_line, set_max_hash_displacement, set_mask, set_out_of_line_ness, set_num_refs, set_referrers, set_union_word,
    num_refs, out_of_line_ness, union_word, outline. cbn [referent inline_referrers owned nth insert list_insert].
  rewrite join_high. done.
Qed.
Lemma grow_step fuel rf a k n max old r : 3 * 2 ^ k / 4 <= n -> 2 <= k <= 39 -> Z.of_nat (length old) = 2 ^ k -> Forall (in_word 64) old ->
  n = Z.of_nat (length (keys old)) -> address r ->
  exists e', append_referrer_ calloc (S (S fuel)) (outline rf a n k max old) r = Ok e' /\ entry_ok e' /\ referent e' = rf /\
    refs_of e' ≡ₚ r :: keys old.
Proof.
  intros Hfull Hk Hl Hw Hn Hr. cbn [append_referrer_]. rewrite !outline_out_of_line. cbv zeta. cbn [rassert rbind].
  change (mask (outline rf a n k max old)) with (2 ^ k - 1). rewrite three_quarters, outline_num_refs by lia.
  destruct (Z.leb_spec (3 * 2 ^ k / 4) n); [|lia].
  destruct (grow_outline calloc Hcalloc fuel rf a k n max old r Hk Hl Hw Hn Hr) as (a' & max' & array' & E & Ha & Ha0 & Hp & Hkeys).
  exists (outline rf a' (n + 1) (k + 1) max' array'). split; [exact E|]. split; [constructor; (done || lia)|]. split; [done|]. by rewrite refs_outline.
Qed.
Lemma append_referrer_ok e r : entry_ok e -> variable r -> Z.of_nat (length (refs_of e)) < max_referrers ->
  exists e', append_referrer calloc e r = Ok e' /\ entry_ok e' /\ referent e' = referent e /\ refs_of e' ≡ₚ r :: refs_of e.
Proof.
  intros [rf words array Hl Hw Ha|rf a n k max array Ha Ha0 Hk Hp] [Hr Hal] Hfits.
  - rewrite refs_inline by done. unfold append_referrer.
    destruct (first_index (fun r => negb (nz r)) words) as [i|] eqn:Ei.
    + cbn [append_referrer_]. rewrite inline_not_out by done. cbn [inline_referrers]. rewrite Ei.
      apply first_index_Some in Ei as (w & Ew & Hz). apply negb_true_iff, nz_false in Hz.
      rewrite undisguise_zero in Hz by exact (Forall_lookup_1 _ _ _ _ Hw Ew). subst w.
      destruct (set_inline_ok rf words array i (disguise r) Hl Hw Ha (disguise_range r) (disguise_aligned r Hal)) as [Hok Hrefs].
      eexists. split; [done|]. split; [done|]. split; [done|]. rewrite Hrefs.
      apply (omap_fill key_of _ _ _ 0 r Ew); [done|]. by apply key_of_disguise; apply Hr.
    + assert (Hfull : Forall (fun w => w <> 0) words).
      { apply first_index_None in Ei. eapply Forall_impl; [exact Ei|]. intros w Hz ->. done. }
      assert (E : append_referrer_ calloc 2 (WeakEntry rf words array) r = append_referrer_ calloc 2 (outline rf (calloc 4) 4 2 0 words) r).
      { cbn [append_referrer_]. rewrite inline_not_out, outline_out_of_line by done. cbn [inline_referrers]. rewrite Ei.
        by rewrite move_out_of_line_ok. }
      rewrite E. destruct (grow_step 0 rf (calloc 4) 2 4 0 words r) as (e' & -> & H); [by apply Z.leb_le|lia|by rewrite Hl|done|by rewrite keys_full, Hl|done|].
      by exists e'.
  - rewrite refs_outline in *. destruct Hp as [Hlen Hw Hn Hnear Hm Hs] eqn:EH. clear EH. pose proof (pow2_pos k ltac:(lia)).
    destruct (decide (n < 3 * 2 ^ k / 4)) as [Hroom|Hfull].
    + destruct (append_outline_room calloc 1 rf a n k max array r Hp Hr Hroom) as (max' & array' & E & Hp' & Hk').
      eexists. split; [exact E|]. split; [by constructor|]. split; [done|]. by rewrite refs_outline.
    + assert (k <= 38). { apply Z.lt_succ_r. apply (Z.pow_lt_mono_r_iff 2); [lia|lia|]. unfold max_referrers in Hfits. 
        change (2 ^ 38) with (2 ^ 36 * 4) in Hfits. change (2 ^ Z.succ 38) with (2 ^ 36 * 8). dlia. }
      destruct (grow_step 0 rf a k n max array r) as (e' & E & H'); [lia|lia|done|done|done|done|]. by exists e'.
Qed.
Lemma remove_referrer_ok e r : entry_ok e -> address r ->
  exists e' log, remove_referrer e r = Ok (e', log) /\ entry_ok e' /\ referent e' = referent e /\
    (((refs_of e ≡ₚ r :: refs_of e') /\ log = []) \/ (r ∉ refs_of e /\ e' = e /\ log = [UnknownReferrer r])).
Proof.
  intros He Hr. unfold remove_referrer. destruct He as [rf words array Hl Hw Ha|rf a n k max array Ha Ha0 Hk Hp].
  - rewrite inline_not_out, refs_inline by done. cbn [negb inline_referrers].
    destruct (first_index (fun r' => r' =? r) words) as [i|] eqn:Ei.
    + apply first_index_Some in Ei as (w & Ew & Hz). apply Z.eqb_eq in Hz.
      destruct (set_inline_ok rf words array i 0 Hl Hw Ha) as [Hok Hrefs]; [by unfold in_word|done|].
      eexists _, []. split; [done|]. split; [done|]. split; [done|]. left. split; [|done]. rewrite Hrefs.
      apply (omap_vacate key_of _ _ 0 w r Ew); [|done]. subst r. unfold key_of. rewrite decide_False; [done|].
      intros ->. by destruct Hr.
    + exists (WeakEntry rf words array), [UnknownReferrer r]. split; [done|]. split; [by constructor|]. split; [done|]. right. split; [|done].
      apply first_index_None in Ei. intros (w & Hin & Ew)%list_elem_of_omap. unfold key_of in Ew.
      destruct (decide (w = 0)); [done|]. injection Ew as <-. apply (Forall_forall _ _) with (x := w) in Ei; [|done].
      by rewrite Z.eqb_refl in Ei.
  - rewrite outline_out_of_line, refs_outline. cbn [negb]. destruct Hr as [Hr Hr0].
    destruct (probe_key_ok array k max n r Hp Hr Hr0) as (found & E & Hfound).
    change (probe_key _ _ _ _ _ _ _ _) with (probe_key (length array) array r (2 ^ k - 1) max (home k r) (home k r) 0).
    rewrite E. cbn [rbind]. destruct found as [i|].
    + destruct Hfound as [Hi Ei]. destruct (probing_vacate array k max n r i Hp Hr Hr0 Ei) as [Hp' Hk'].
      exists (outline rf a (n - 1) k max (<[Z.to_nat i := 0]> array)), [].
      change (with_owned _ _) with (outline rf a n k max (<[Z.to_nat i := 0]> array)).
      pose proof (probing_count _ _ _ _ Hp'). rewrite outline_num_refs, outline_set_num_refs.
      * split; [done|]. split; [by constructor|]. split; [done|]. left. by rewrite refs_outline.
      * destruct Hp as [Hlen _ Hn _ _ Hs]. assert (2 ^ k <= 2 ^ 40) by (apply Z.pow_le_mono_r; lia).
        pose proof (keys_length array). lia.
    + eexists _, _. split; [done|]. split; [by constructor|]. split; [done|]. right. done.
Qed.
End Entries.

(** ** The table *)
Definition binding (e : weak_entry_t) : option (Z * list Z) :=
  if decide (referent e = 0) then None else Some (undisguise (referent e), refs_of e).
Definition bindings (entries : list weak_entry_t) : list (Z * list Z) := omap binding entries.
Definition denote (t : weak_table_t) : gmap Z (list Z) := list_to_map (bindings (entries_of t)).
(** The weak variables registered for an object. *)
Definition referrers_of (t : weak_table_t) (obj : Z) : list Z := default [] (denote t !! obj).

Definition tab (entries : list weak_entry_t) (k n max : Z) : weak_table_t := WeakTable (Some entries) n (2 ^ k - 1) max.
Record good (entries : list weak_entry_t) (k n max : Z) : Prop := {
  go_probing : probing (map referent entries) k max n;
  go_entries : Forall (fun e => referent e <> 0 -> entry_ok e) entries;
  go_distinct : NoDup (bindings entries).*1;
}.
Inductive table_ok : weak_table_t -> Prop :=
  | null_ok : table_ok empty_weak_table
  | tab_ok entries k n max : 6 <= k -> good entries k n max -> table_ok (tab entries k n max).

Section Table.
Lemma bindings_keys entries : (bindings entries).*1 = keys (map referent entries).
Proof.
  induction entries as [|e entries IH]; [done|]. unfold bindings, keys in *. cbn [omap list_omap map].
  unfold binding at 1, key_of at 1. destruct (decide (referent e = 0)); [done|]. cbn [fmap list_fmap fst]. f_equal. apply IH.
Qed.
Lemma go_count entries k n max : good entries k n max -> n = Z.of_nat (length (bindings entries)).
Proof. intros [[_ _ -> _ _ _] _ _]. by rewrite <- bindings_keys, length_fmap. Qed.
Lemma binding_some e obj : referent e = disguise obj -> address obj -> binding e = Some (obj, refs_of e).
Proof. intros E [Ho Hn]. unfold binding. rewrite E, decide_False by (by rewrite disguise_zero). by rewrite undisguise_disguise. Qed.
Lemma bindings_vacant e entries : referent e = 0 -> bindings (e :: entries) = bindings entries.
Proof. intros E. unfold bindings, binding. cbn [omap list_omap]. by rewrite decide_True. Qed.
Lemma bindings_cons e entries : referent e <> 0 -> bindings (e :: entries) = (undisguise (referent e), refs_of e) :: bindings entries.
Proof. intros E. unfold bindings, binding. cbn [omap list_omap]. by rewrite decide_False. Qed.
Lemma map_insert entries i e : map referent (<[i := e]> entries) = <[i := referent e]> (map referent entries).
Proof. apply list_fmap_insert. Qed.

Lemma weak_entry_insert_ok entries k n max e obj : good entries k n max -> n < 2 ^ k - 1 -> entry_ok e ->
  referent e = disguise obj -> address obj -> obj ∉ (bindings entries).*1 ->
  exists entries' max', weak_entry_insert (tab entries k n max) e = Ok (tab entries' k (n + 1) max') /\ good entries' k (n + 1) max' /\
    bindings entries' ≡ₚ (obj, refs_of e) :: bindings entries.
Proof.
  intros [Hp He Hd] Hroom Hok Eobj [Ho Ho0] Hnew. unfold weak_entry_insert. rewrite bool_decide_true by done. cbn [rassert rbind].
  change (entries_of (tab entries k n max)) with entries. rewrite Eobj, undisguise_disguise by done.
  destruct (probe_free_ok (map referent entries) k max n obj Hp ltac:(lia)) as (i & d & E & Hi & Ei & Hid & Hdn).
  change (probe_free _ _ _ _ _ _) with (probe_free (length (map referent entries)) (map referent entries) (2 ^ k - 1) (home k obj) (home k obj) 0).
  rewrite E. cbn [rbind]. destruct (probing_fill _ k max n obj i d Hp Ho Ho0 Hroom Ei Hi Hid Hdn) as [Hp' Hk'].
  exists (<[Z.to_nat i := e]> entries), (if d >? max then d else max). split; [done|].
  assert (Hb : bindings (<[Z.to_nat i := e]> entries) ≡ₚ (obj, refs_of e) :: bindings entries).
  { apply list_lookup_fmap_Some in Ei as (e0 & E0 & Ee0). apply (omap_fill binding _ _ _ e0); [done| |by apply binding_some].
    unfold binding. by rewrite <- E0, decide_True. }
  split; [|done]. split.
  - by rewrite map_insert, Eobj.
  - by apply Forall_insert.
  - rewrite Hb. cbn. by constructor.
Qed.
Lemma reinsert_ok old : forall entries k n max, good entries k n max ->
  Forall (fun e => referent e <> 0 -> entry_ok e) old -> Forall (fun e => in_word 64 (referent e)) old ->
  NoDup ((bindings old).*1 ++ (bindings entries).*1) -> n + Z.of_nat (length (bindings old)) < 2 ^ k ->
  exists entries' n' max', reinsert old (tab entries k n max) = Ok (tab entries' k n' max') /\ good entries' k n' max' /\
    bindings entries' ≡ₚ bindings old ++ bindings entries.
Proof.
  induction old as [|e old IH]; intros entries k n max Hg Hok Hw Hd Hroom; [by exists entries, n, max|].
  inv Hok. inv Hw. cbn [reinsert]. destruct (decide (referent e = 0)) as [E0|E0].
  - rewrite bindings_vacant in * by done. rewrite E0. change (nz (undisguise 0)) with false. by apply IH.
  - assert (Ha : address (undisguise (referent e))) by (split; [apply wrap_in_word; lia|by rewrite undisguise_zero]).
    replace (nz (undisguise (referent e))) with true by (symmetry; apply nz_true, Ha).
    rewrite bindings_cons in * by done. cbn [length fmap list_fmap fst app] in *. apply NoDup_cons in Hd as [Hni Hd].
    destruct (weak_entry_insert_ok entries k n max e (undisguise (referent e)) Hg) as (entries1 & max1 & -> & Hg1 & Hb1);
      [lia|auto|by rewrite disguise_undisguise|done|set_solver|].
    cbn [rbind]. destruct (IH entries1 k (n + 1) max1 Hg1) as (entries' & n' & max' & -> & Hg' & Hb'); [done|done| |lia|].
    + rewrite Hb1. cbn [fmap list_fmap fst]. rewrite <- Permutation_middle. by constructor.
    + exists entries', n', max'. split; [done|]. split; [done|]. rewrite Hb', Hb1. by rewrite <- Permutation_middle.
Qed.
Lemma good_empty k : 2 <= k <= 40 -> good (replicate (Z.to_nat (2 ^ k)) zero_entry) k 0 0.
Proof.
  intros Hk. split.
  - change (map referent ?l) with (referent <$> l). rewrite fmap_replicate. by apply probing_empty.
  - apply Forall_replicate. done.
  - rewrite bindings_keys. change (map referent ?l) with (referent <$> l). rewrite fmap_replicate, keys_zeros. constructor.
Qed.
Lemma bindings_zero k : bindings (replicate k zero_entry) = [].
Proof. induction k as [|k IH]; [done|]. exact IH. Qed.
Lemma good_words entries k n max : good entries k n max -> Forall (fun e => in_word 64 (referent e)) entries.
Proof. intros [[_ Hw _ _ _ _] _ _]. exact (proj1 (Forall_fmap referent (in_word 64) entries) Hw). Qed.
Lemma weak_resize_ok t k : table_ok t -> 6 <= k <= 40 -> num_entries t < 2 ^ k ->
  exists entries n max, weak_resize t (2 ^ k) = Ok (tab entries k n max) /\ good entries k n max /\
    bindings entries ≡ₚ bindings (entries_of t) /\ n = num_entries t.
Proof.
  intros Ht Hk Hroom. assert (2 ^ 6 <= 2 ^ k <= 2 ^ 40) by (split; apply Z.pow_le_mono_r; lia).
  unfold weak_resize. rewrite (wrap_small 64 (2 ^ k - 1)) by lia.
  change (WeakTable (Some ?l) 0 (2 ^ k - 1) 0) with (tab l k 0 0).
  pose proof (good_empty k ltac:(lia)) as Hg. destruct Ht as [|old k0 n0 max0 Hk0 Hold].
  - exists (replicate (Z.to_nat (2 ^ k)) zero_entry), 0, 0. split; [done|]. split; [done|]. by rewrite bindings_zero.
  - pose proof (go_count _ _ _ _ Hold) as Hc. change (entries_of (tab old k0 n0 max0)) with old.
    change (num_entries (tab old k0 n0 max0)) with n0 in *.
    destruct (reinsert_ok old _ k 0 0 Hg) as (entries & n & max & E & Hg' & Hb'); [apply Hold|by eapply good_words| |lia|].
    + rewrite bindings_zero, app_nil_r. apply Hold.
    + exists entries, n, max. rewrite bindings_zero, app_nil_r in Hb'. split; [done|]. split; [done|]. split; [done|].
      rewrite (go_count _ _ _ _ Hg'), Hb'. done.
Qed.
End Table.

(** ** Operations on the map *)
Section Operations.
Lemma denote_perm L L' : NoDup L.*1 -> L ≡ₚ L' -> (list_to_map L : gmap Z (list Z)) = list_to_map L'.
Proof. intros Hd Hp. by apply list_to_map_proper. Qed.
Lemma denote_get entries k n max i e obj : good entries k n max -> entries !! i = Some e -> referent e = disguise obj -> address obj ->
  denote (tab entries k n max) !! obj = Some (refs_of e).
Proof.
  intros Hg E Er Ho. unfold denote. apply elem_of_list_to_map_1; [apply Hg|]. apply list_elem_of_omap. exists e.
  split; [by eapply list_elem_of_lookup_2|by apply binding_some].
Qed.
Lemma denote_none t obj : obj ∉ (bindings (entries_of t)).*1 -> denote t !! obj = None.
Proof. intros H. by apply not_elem_of_list_to_map_1. Qed.
(** The entry of an object overwritten, or erased. *)
Lemma good_store entries k n max i e e' obj : good entries k n max -> entries !! i = Some e -> referent e = disguise obj -> address obj ->
  entry_ok e' -> referent e' = referent e ->
  good (<[i := e']> entries) k n max /\ denote (tab (<[i := e']> entries) k n max) = <[obj := refs_of e']> (denote (tab entries k n max)).
Proof.
  intros [Hp He Hd] E Er Ho Hok' Er'. destruct (omap_split binding entries i e E) as (R & HR & HR').
  specialize (HR' e'). rewrite (binding_some e obj Er Ho) in HR. rewrite (binding_some e' obj ltac:(congruence) Ho) in HR'. cbn [from_option app] in *.
  assert (Hd' : NoDup (bindings (<[i := e']> entries)).*1).
  { unfold bindings in *. rewrite HR'. rewrite HR in Hd. exact Hd. }
  split.
  - split; [|by apply Forall_insert|done]. rewrite map_insert, Er', list_insert_id; [done|]. by apply list_lookup_fmap_Some_2.
  - unfold denote. change (entries_of (tab ?l k n max)) with l. rewrite (denote_perm _ _ Hd' HR'), (denote_perm _ _ Hd HR). rewrite ?list_to_map_cons.
    by rewrite insert_insert_eq.
Qed.
Lemma weak_entry_remove_ok entries k n max i e obj : good entries k n max -> 6 <= k -> entries !! Z.to_nat i = Some e -> referent e = disguise obj -> address obj ->
  exists t', weak_entry_remove (tab entries k n max) i = Ok t' /\ table_ok t' /\ denote t' = delete obj (denote (tab entries k n max)) /\
    num_entries t' = n - 1.
Proof.
  intros [Hp He Hd] Hk E Er [Ho Ho0]. assert (Ha : address obj) by done. unfold weak_entry_remove.
  assert (Es : map referent entries !! Z.to_nat i = Some (disguise obj)) by (rewrite <- Er; by apply list_lookup_fmap_Some_2).
  destruct (probing_vacate _ k max n obj i Hp Ho Ho0 Es) as [Hp' _]. pose proof (probing_count _ _ _ _ Hp') as Hn1.
  assert (Hn2 : n < 2 ^ 41).
  { destruct Hp as [Hl _ -> _ _ Hs]. pose proof (keys_length (map referent entries)). assert (2 ^ k <= 2 ^ 40) by (apply Z.pow_le_mono_r; lia). lia. }
  cbn [weak_entries num_entries table_mask table_max_hash_displacement store_entry tab option_map]. rewrite (wrap_small 64 (n - 1)) by lia.
  set (entries' := <[Z.to_nat i := zero_entry]> entries). change (WeakTable (Some entries') _ _ _) with (tab entries' k (n - 1) max).
  assert (Hb : bindings entries ≡ₚ (obj, refs_of e) :: bindings entries').
  { apply (omap_vacate binding _ _ zero_entry e _ E); [by apply binding_some|done]. }
  assert (Hd' : NoDup ((obj, refs_of e) :: bindings entries').*1) by by rewrite <- Hb.
  assert (Hg' : good entries' k (n - 1) max).
  { split; [by unfold entries'; rewrite map_insert|by apply Forall_insert|]. by apply NoDup_cons in Hd' as [_ ?]. }
  assert (Hdel : denote (tab entries' k (n - 1) max) = delete obj (denote (tab entries k n max))).
  { unfold denote. change (entries_of (tab ?l k ?n max)) with l. rewrite (denote_perm _ _ Hd Hb). rewrite ?list_to_map_cons.
    rewrite delete_insert_id; [done|]. apply not_elem_of_list_to_map_1. by apply NoDup_cons in Hd' as [? _]. }
  assert (Ht' : table_ok (tab entries' k (n - 1) max)) by by constructor.
  unfold weak_compact_maybe, table_size. change (table_mask (tab entries' k (n - 1) max)) with (2 ^ k - 1).
  change (num_entries (tab entries' k (n - 1) max)) with (n - 1). rewrite table_size_pow by (destruct Hp; lia).
  destruct (Z.leb_spec 1024 (2 ^ k)) as [Hbig|_]; [|by exists (tab entries' k (n - 1) max)].
  destruct (Z.leb_spec (n - 1) (2 ^ k / 16)) as [Hfew|_]; [|by exists (tab entries' k (n - 1) max)]. cbn [andb].
  assert (Hk10 : 10 <= k) by (apply (Z.pow_le_mono_r_iff 2); lia).
  assert (E8 : 2 ^ k = 8 * 2 ^ (k - 3)) by (replace k with (3 + (k - 3)) at 1 by lia; rewrite Z.pow_add_r by lia; lia).
  replace (2 ^ k / 8) with (2 ^ (k - 3)) by dlia.
  destruct (weak_resize_ok (tab entries' k (n - 1) max) (k - 3) Ht') as (l & m & max' & -> & Hgl & Hbl & Hm); [destruct Hp; lia|cbn [num_entries tab]; dlia|].
  exists (tab l (k - 3) m max'). split; [done|]. split; [constructor; (done || lia)|]. split; [|exact Hm]. rewrite <- Hdel. apply denote_perm; [apply Hgl|done].
Qed.
Lemma weak_entry_for_referent_ok t obj : table_ok t -> address obj ->
  exists r, weak_entry_for_referent t obj = Ok r /\
    match r with
    | Some i => exists entries k n max e, t = tab entries k n max /\ 6 <= k /\ good entries k n max /\
        entries !! Z.to_nat i = Some e /\ referent e = disguise obj /\ entry_ok e
    | None => obj ∉ (bindings (entries_of t)).*1
    end.
Proof.
  intros Ht [Ho Ho0]. unfold weak_entry_for_referent. replace (nz obj) with true by (symmetry; by apply nz_true). cbn [rassert rbind].
  destruct Ht as [|entries k n max Hk Hg]; [exists None; split; [done|]; cbn; set_solver|]. cbn [weak_entries tab table_mask table_max_hash_displacement].
  destruct (Hg) as [Hp He Hd]. destruct (probe_key_ok _ k max n obj Hp Ho Ho0) as (r & E & Hr).
  rewrite length_map in E. exists r. split; [exact E|]. destruct r as [i|].
  - destruct Hr as [Hi Ei]. apply list_lookup_fmap_Some in Ei as (e & E1 & E2). exists entries, k, n, max, e. split_and!; try done.
    apply (Forall_lookup_1 _ _ _ _ He E2). rewrite <- E1. by rewrite disguise_zero.
  - change (entries_of _) with entries. by rewrite bindings_keys.
Qed.
Lemma weak_grow_maybe_ok t : table_ok t -> num_entries t < max_referrers ->
  exists entries k n max, weak_grow_maybe t = Ok (tab entries k n max) /\ 6 <= k /\ good entries k n max /\ n < 2 ^ k - 1 /\
    bindings entries ≡ₚ bindings (entries_of t).
Proof.
  intros Ht Hfits. unfold weak_grow_maybe, table_size.
  destruct Ht as [|entries k n max Hk Hg].
  - destruct (weak_resize_ok empty_weak_table 6 null_ok) as (l & n & max & E & Hg & Hb & Hn); [lia|done|].
    exists l, 6, n, max. cbn in Hn. subst n. split; [exact E|]. done.
  - change (table_mask (tab entries k n max)) with (2 ^ k - 1). change (num_entries (tab entries k n max)) with n in *.
    assert (Hs : 1 <= k <= 40) by by destruct Hg as [[]]. assert (2 ^ 6 <= 2 ^ k) by (apply Z.pow_le_mono_r; lia).
    rewrite three_quarters by done. rewrite table_size_pow by done. destruct (Z.leb_spec (3 * 2 ^ k / 4) n) as [Hfull|Hroom].
    + replace (nz (2 ^ k)) with true by (symmetry; apply nz_true; lia).
      assert (k <= 38). { apply Z.lt_succ_r. apply (Z.pow_lt_mono_r_iff 2); [lia|lia|]. unfold max_referrers in Hfits.
        change (2 ^ 38) with (2 ^ 36 * 4) in Hfits. change (2 ^ Z.succ 38) with (2 ^ 36 * 8). dlia. }
      assert (E2 : 2 ^ k * 2 = 2 ^ (k + 1)) by (rewrite Z.pow_add_r by lia; lia). assert (2 ^ k <= 2 ^ 40) by (apply Z.pow_le_mono_r; lia).
      rewrite wrap_small, E2 by lia.
      assert (Hn : n <= 2 ^ k).
      { destruct Hg as [[Hl _ -> _ _ _] _ _]. pose proof (keys_length (map referent entries)). lia. }
      destruct (weak_resize_ok (tab entries k n max) (k + 1)) as (l & m & max' & E & Hgl & Hbl & Hm); [by constructor|lia|cbn [num_entries tab]; lia|].
      cbn [num_entries tab] in Hm. subst m. exists l, (k + 1), n, max'. split; [done|]. split; [lia|]. split; [done|]. split; [lia|done].
    + exists entries, k, n, max. split; [done|]. split; [done|]. split; [done|]. split; [dlia|done].
Qed.
End Operations.

(** ** The operations refine the map *)
(** Only the object's binding changes. *)
Definition elsewhere (t t' : weak_table_t) (obj : Z) : Prop := forall o, o <> obj -> denote t' !! o = denote t !! o.

Section Refinement.
Implicit Types t : weak_table_t.
Lemma entry_empty_refs e : entry_ok e -> entry_empty e = true -> refs_of e = [].
Proof.
  intros [rf words array Hl Hw Ha|rf a n k max array Ha Ha0 Hk Hp] He; unfold entry_empty in He.
  - rewrite inline_not_out in He by done. rewrite refs_inline by done. cbn [andb] in He. apply negb_true_iff in He.
    unfold some_inline in He. cbn [inline_referrers] in He. clear Hl Ha. induction Hw as [|w words Hw _ IH]; [done|].
    cbn [existsb] in He. apply orb_false_iff in He as [Hz He]. apply nz_false in Hz. rewrite undisguise_zero in Hz by done.
    subst w. rewrite keys_zero. by apply IH.
  - exfalso. assert (Hs : some_inline (outline rf a n k max array) = true).
    { unfold some_inline. cbn [inline_referrers outline existsb]. apply orb_true_iff. left. apply nz_true. by rewrite undisguise_zero. }
    rewrite Hs in He. by destruct (_ && _).
Qed.
Lemma store_entry_tab entries k n max i e : store_entry (tab entries k n max) i e = tab (<[Z.to_nat i := e]> entries) k n max.
Proof. done. Qed.
Lemma entry_at_tab entries k n max i e : entries !! Z.to_nat i = Some e -> entry_at (tab entries k n max) i = Ok e.
Proof. intros E. unfold entry_at. change (entries_of _) with entries. by rewrite E. Qed.
Lemma referrers_insert t t' obj l : denote t' = <[obj := l]> (denote t) -> referrers_of t' obj = l /\ elsewhere t t' obj.
Proof.
  intros E. unfold referrers_of, elsewhere. rewrite E. split; [by rewrite lookup_insert_eq|]. intros o Ho. by rewrite lookup_insert_ne.
Qed.
Lemma referrers_delete t t' obj : denote t' = delete obj (denote t) -> referrers_of t' obj = [] /\ elsewhere t t' obj.
Proof.
  intros E. unfold referrers_of, elsewhere. rewrite E. split; [by rewrite lookup_delete_eq|]. intros o Ho. by rewrite lookup_delete_ne.
Qed.

Section Register.
Context (calloc : Z -> Z) (Hcalloc : forall n, in_word 64 (calloc n) /\ calloc n <> 0).
Lemma register_ok t obj r v options : table_ok t -> address obj -> variable r -> num_entries t < max_referrers ->
  Z.of_nat (length (referrers_of t obj)) < max_referrers -> v_isTaggedPointerOrNil v = false -> viable v options = Ok true ->
  exists t', weak_register_no_lock calloc t obj r v options = Ok (t', obj) /\ table_ok t' /\
    (referrers_of t' obj ≡ₚ r :: referrers_of t obj) /\ elsewhere t t' obj.
Proof.
  intros Ht Ho Hr Hfits Hrefs Htag Hv. unfold weak_register_no_lock. rewrite Htag, Hv. cbn [rbind negb].
  destruct (weak_entry_for_referent_ok t obj Ht Ho) as (found & -> & Hfound). cbn [rbind]. destruct found as [i|].
  - destruct Hfound as (entries & k & n & max & e & -> & Hk & Hg & E & Er & He). rewrite (entry_at_tab _ _ _ _ _ e) by done. cbn [rbind].
    assert (Hget : referrers_of (tab entries k n max) obj = refs_of e).
    { unfold referrers_of. by rewrite (denote_get entries k n max _ e obj Hg E Er Ho). }
    rewrite Hget in *. destruct (append_referrer_ok calloc Hcalloc e r He Hr Hrefs) as (e' & -> & He' & Er' & Hp). cbn [rbind].
    destruct (good_store entries k n max _ e e' obj Hg E Er Ho He' Er') as [Hg' Hd]. rewrite store_entry_tab.
    destruct (referrers_insert _ _ _ _ Hd) as [Hr2 Hels]. eexists. split; [done|]. split; [by constructor|]. by rewrite Hr2.
  - destruct (weak_grow_maybe_ok t Ht Hfits) as (entries & k & n & max & -> & Hk & Hg & Hroom & Hb). cbn [rbind].
    assert (He : entry_ok (new_entry obj r)).
    { destruct Hr as [_ Hal]. constructor; [done| |]; repeat constructor; try (by unfold in_word); try apply disguise_range. by apply disguise_aligned. }
    destruct (weak_entry_insert_ok entries k n max (new_entry obj r) obj Hg Hroom He eq_refl Ho) as (entries' & max' & -> & Hg' & Hb'); [by rewrite Hb|].
    cbn [rbind]. exists (tab entries' k (n + 1) max'). split; [done|]. split; [by constructor|].
    assert (Hrefs1 : refs_of (new_entry obj r) = [r]).
    { destruct Hr as [[Hr Hr0] Hal]. unfold new_entry. rewrite refs_inline; [|done|repeat constructor; by apply disguise_aligned].
      rewrite keys_key by by rewrite disguise_zero. by rewrite undisguise_disguise. }
    assert (Hd : denote (tab entries' k (n + 1) max') = <[obj := [r]]> (denote t)).
    { unfold denote. change (entries_of (tab entries' k (n + 1) max')) with entries'. rewrite <- Hrefs1.
      rewrite (denote_perm _ _ (go_distinct _ _ _ _ Hg') Hb'), list_to_map_cons. f_equal. apply denote_perm; [apply Hg|done]. }
    destruct (referrers_insert _ _ _ _ Hd) as [Hr2 Hels]. rewrite Hr2. split; [|done]. unfold referrers_of. by rewrite (denote_none t obj Hfound).
Qed.
End Register.
Lemma unregister_ok t obj r : table_ok t -> address obj -> address r ->
  exists t' log, weak_unregister_no_lock t obj r = Ok (t', log) /\ table_ok t' /\ elsewhere t t' obj /\ num_entries t' <= num_entries t /\
    (if decide (r ∈ referrers_of t obj) then (referrers_of t obj ≡ₚ r :: referrers_of t' obj) /\ log = []
     else referrers_of t' obj = referrers_of t obj).
Proof.
  intros Ht Ho Hr. unfold weak_unregister_no_lock. replace (nz obj) with true by (symmetry; apply nz_true, Ho). cbn [negb].
  destruct (weak_entry_for_referent_ok t obj Ht Ho) as (found & -> & Hfound). cbn [rbind]. destruct found as [i|].
  - destruct Hfound as (entries & k & n & max & e & -> & Hk & Hg & E & Er & He). rewrite (entry_at_tab _ _ _ _ _ e) by done. cbn [rbind].
    assert (Hget : referrers_of (tab entries k n max) obj = refs_of e).
    { unfold referrers_of. by rewrite (denote_get entries k n max _ e obj Hg E Er Ho). }
    rewrite Hget. destruct (remove_referrer_ok e r He Hr) as (e' & log & -> & He' & Er' & Hcase). cbn [rbind]. rewrite store_entry_tab.
    destruct (good_store entries k n max _ e e' obj Hg E Er Ho He' Er') as [Hg' Hd].
    assert (Hend : exists t', (if entry_empty e' then weak_entry_remove (tab (<[Z.to_nat i := e']> entries) k n max) i
        else Ok (tab (<[Z.to_nat i := e']> entries) k n max)) = Ok t' /\ table_ok t' /\ elsewhere (tab entries k n max) t' obj /\
        referrers_of t' obj = refs_of e' /\ num_entries t' <= n).
    { destruct (referrers_insert _ _ _ _ Hd) as [Hr1 Hels]. destruct (entry_empty e') eqn:Ee.
      - destruct (weak_entry_remove_ok (<[Z.to_nat i := e']> entries) k n max i e' obj Hg' Hk) as (t' & -> & Ht' & Hd' & Hn');
          [apply list_lookup_insert_eq; by eapply lookup_lt_Some|congruence|done|].
        destruct (referrers_delete _ _ _ Hd') as [Hr2 Hels2]. exists t'. split; [done|]. split; [done|]. split.
        + intros o Hoo. by rewrite Hels2, Hels.
        + rewrite Hr2, (entry_empty_refs e') by done. split; [done|lia].
      - eexists. split; [done|]. split; [by constructor|]. split; [done|]. split; [done|]. cbn. lia. }
    destruct Hend as (t' & -> & Ht' & Hels & Hr' & Hn'). cbn [rbind]. exists t', log. split; [done|]. split; [done|]. split; [done|]. split; [done|]. rewrite Hr'.
    destruct Hcase as [[Hp ->]|(Hni & -> & ->)].
    + rewrite decide_True by (rewrite Hp; set_solver). done.
    + by rewrite decide_False.
  - exists t, []. split; [done|]. split; [done|]. split; [done|]. split; [lia|].
    assert (Hnil : referrers_of t obj = []) by (unfold referrers_of; by rewrite (denote_none t obj Hfound)).
    rewrite Hnil. by rewrite decide_False by set_solver.
Qed.
Lemma registered_ok t obj : table_ok t -> address obj ->
  exists b, is_registered t obj = Ok b /\ (referrers_of t obj <> [] -> b = true).
Proof.
  intros Ht Ho. unfold is_registered. destruct (weak_entry_for_referent_ok t obj Ht Ho) as (found & -> & Hfound). cbn [rbind].
  eexists. split; [done|]. destruct found; [done|]. unfold referrers_of. by rewrite (denote_none t obj Hfound).
Qed.

(** Clearing. *)
Lemma clear_referrer_ok m obj r : r <> 0 -> is_Some (m !! r) -> obj <> 0 ->
  exists m' log, clear_referrer m obj r = Ok (m', log) /\
    forall a, m' !! a = if decide (a = r /\ m !! a = Some obj) then Some 0 else m !! a.
Proof.
  intros Hr [v Hv] Hobj. unfold clear_referrer. replace (nz r) with true by (symmetry; by apply nz_true). rewrite Hv.
  assert (Hsame : v <> obj -> forall a, m !! a = if decide (a = r /\ m !! a = Some obj) then Some 0 else m !! a).
  { intros Hne a. destruct (decide _) as [[-> Ha]|]; [congruence|done]. }
  destruct (Z.eqb_spec v obj) as [->|Hne]; [|destruct (nz v); eexists _, _; (split; [done|]); by apply Hsame].
  eexists _, _. split; [done|]. intros a. destruct (decide (a = r)) as [->|Hne].
  - rewrite lookup_insert_eq. by rewrite decide_True.
  - rewrite lookup_insert_ne by done. by rewrite decide_False by tauto.
Qed.
Lemma clear_referrers_ok l m obj : obj <> 0 -> Forall (in_word 64) l -> (forall r, r ∈ keys l -> is_Some (m !! r)) ->
  exists m' log, clear_referrers m obj l = Ok (m', log) /\
    forall a, m' !! a = if decide (a ∈ keys l /\ m !! a = Some obj) then Some 0 else m !! a.
Proof.
  intros Hobj Hw. revert m. induction Hw as [|w l Hw _ IH]; intros m Hm.
  { exists m, []. split; [done|]. intros a. rewrite decide_False; [done|]. cbn. set_solver. }
  cbn [clear_referrers]. destruct (decide (w = 0)) as [->|Hw0].
  - rewrite keys_zero in *. change (clear_referrer m obj (undisguise 0)) with (Ok (m, @nil inform)). cbn [rbind].
    destruct (IH m Hm) as (m' & log & -> & Hm'). cbn [rbind]. by eexists _, _.
  - rewrite keys_key in * by done. assert (Hu : undisguise w <> 0) by by rewrite undisguise_zero.
    destruct (clear_referrer_ok m obj (undisguise w) Hu) as (m1 & log1 & -> & Hm1); [apply Hm; set_solver|done|]. cbn [rbind].
    destruct (IH m1) as (m2 & log2 & -> & Hm2).
    { intros r Hr. rewrite Hm1. destruct (decide _); [done|]. apply Hm. set_solver. }
    cbn [rbind]. eexists _, _. split; [done|]. intros a. rewrite Hm2, Hm1.
    destruct (decide (a = undisguise w)) as [Ea|Ea], (decide (m !! a = Some obj)) as [E|E].
    all: repeat case_decide; destruct_and?; try done; try set_solver.
Qed.
Lemma weak_clear_ok t m obj : table_ok t -> address obj -> (forall r, r ∈ referrers_of t obj -> is_Some (m !! r)) ->
  exists t' m' log, weak_clear t m obj = Ok (t', m', log) /\ table_ok t' /\ referrers_of t' obj = [] /\ elsewhere t t' obj /\
    forall a, m' !! a = if decide (a ∈ referrers_of t obj /\ m !! a = Some obj) then Some 0 else m !! a.
Proof.
  intros Ht Ho Hm. unfold weak_clear. destruct (weak_entry_for_referent_ok t obj Ht Ho) as (found & -> & Hfound). cbn [rbind]. destruct found as [i|].
  - destruct Hfound as (entries & k & n & max & e & -> & Hk & Hg & E & Er & He). rewrite (entry_at_tab _ _ _ _ _ e) by done. cbn [rbind].
    assert (Hget : referrers_of (tab entries k n max) obj = refs_of e).
    { unfold referrers_of. by rewrite (denote_get entries k n max _ e obj Hg E Er Ho). }
    rewrite Hget in *.
    assert (Hl : exists l, (if out_of_line e then take (Z.to_nat (TABLE_SIZE (mask e))) (owned e) else inline_referrers e) = l /\
      refs_of e = keys l /\ Forall (in_word 64) l).
    { destruct He as [rf words array Hl Hw Ha|rf a k' n' max' array Ha Ha0 Hk' Hp].
      - rewrite inline_not_out, refs_inline by done. by exists words.
      - rewrite outline_out_of_line, refs_outline. destruct Hp as [Hl Hw _ _ _ Hs]. exists array.
        change (mask (outline rf a k' n' max' array)) with (2 ^ n' - 1). rewrite table_size_pow by done. split; [apply take_ge; lia|done]. }
    destruct Hl as (l & -> & Hkeys & Hw). rewrite Hkeys in *.
    destruct (clear_referrers_ok l m obj (proj2 Ho) Hw Hm) as (m' & log & -> & Hm'). cbn [rbind].
    destruct (weak_entry_remove_ok entries k n max i e obj Hg Hk E Er Ho) as (t' & -> & Ht' & Hd & Hn'). cbn [rbind].
    destruct (referrers_delete _ _ _ Hd) as [Hr2 Hels2]. by exists t', m', log.
  - assert (Hnil : referrers_of t obj = []) by (unfold referrers_of; by rewrite (denote_none t obj Hfound)).
    exists t, m, []. split; [done|]. split; [done|]. split; [done|]. split; [done|]. intros a. rewrite Hnil, decide_False; [done|set_solver].
Qed.
End Refinement.

(** ** The weak table *)
Section WeakTable.
Context (calloc : Z -> Z) (Hcalloc : forall n, in_word 64 (calloc n) /\ calloc n <> 0).
(** C8: the weak table is a map from objects to the set of weak variables that
    refer to them. Registration adds the variable to the object's set if the
    object is viable; stores nothing and returns nil or halts, as its options ask,
    if it is not; tagged pointers are not registered. Unregistration takes the
    variable out, and an unknown one changes nothing. Clearing sets to nil every
    registered variable that still holds the object, and no other, and forgets the
    object. A registered object is found. All of this terminates without fault,
    keeps the table well formed through growth, rehashing and compaction, and
    leaves the sets of other objects as they are. *)
Theorem weak_table_refines t obj r v options : table_ok t -> address obj -> variable r -> num_entries t < max_referrers ->
  Z.of_nat (length (referrers_of t obj)) < max_referrers ->
  (if v_isTaggedPointerOrNil v then weak_register_no_lock calloc t obj r v options = Ok (t, obj)
   else match viable v options with
   | Ok true => exists t', weak_register_no_lock calloc t obj r v options = Ok (t', obj) /\ table_ok t' /\
       (referrers_of t' obj ≡ₚ r :: referrers_of t obj) /\ elsewhere t t' obj
   | Ok false => weak_register_no_lock calloc t obj r v options = Ok (t, 0)
   | Fault f => weak_register_no_lock calloc t obj r v options = Fault f
   end) /\
  (exists t' log, weak_unregister_no_lock t obj r = Ok (t', log) /\ table_ok t' /\ elsewhere t t' obj /\
    (if decide (r ∈ referrers_of t obj) then (referrers_of t obj ≡ₚ r :: referrers_of t' obj) /\ log = []
     else referrers_of t' obj = referrers_of t obj)) /\
  (exists b, is_registered t obj = Ok b /\ (referrers_of t obj <> [] -> b = true)) /\
  (forall m, (forall r, r ∈ referrers_of t obj -> is_Some (m !! r)) ->
    exists t' m' log, weak_clear t m obj = Ok (t', m', log) /\ table_ok t' /\ referrers_of t' obj = [] /\ elsewhere t t' obj /\
      forall a, m' !! a = if decide (a ∈ referrers_of t obj /\ m !! a = Some obj) then Some 0 else m !! a).
Proof.
  intros Ht Ho Hr Hn Hl. split_and!.
  - destruct (v_isTaggedPointerOrNil v) eqn:Etag; [unfold weak_register_no_lock; by rewrite Etag|].
    destruct (viable v options) as [[]|f] eqn:Ev; [by apply register_ok| |]; unfold weak_register_no_lock; by rewrite Etag, Ev.
  - destruct (unregister_ok t obj r Ht Ho (proj1 Hr)) as (t' & log & E & Ht' & Hels & _ & H). by exists t', log.
  - by apply registered_ok.
  - intros m Hm. by apply weak_clear_ok.
Qed.
End WeakTable.

Module WeakWitness.
Definition block (n : Z) : Z := 0x600000.
Definition live : viability := Viability false false (Ok false) None.
Definition object : Z := 0x1000.
Fixpoint register_all (t : weak_table_t) (l : list Z) : res weak_table_t :=
  match l with
  | [] => Ok t
  | r :: l => let? (t, _) := weak_register_no_lock block t object r live CrashIfDeallocating in register_all t l
  end.
Fixpoint unregister_all (t : weak_table_t) (l : list Z) : res weak_table_t :=
  match l with
  | [] => Ok t
  | r :: l => let? (t, _) := weak_unregister_no_lock t object r in unregister_all t l
  end.
Definition five : list Z := [0x2000; 0x2008; 0x2010; 0x2018; 0x2020].
Lemma weak_table_refines_witness :
  exists t, weak_register_no_lock block empty_weak_table object 0x2000 live CrashIfDeallocating = Ok (t, object) /\ referrers_of t object = [0x2000].
Proof.
  destruct (weak_table_refines block) with (t := empty_weak_table) (obj := object) (r := 0x2000) (v := live) (options := CrashIfDeallocating)
    as [(t & E & _ & Hp & _) _]; [intros n; by unfold in_word|constructor|by unfold address, in_word|by unfold variable, address, in_word|done|done|].
  exists t. split; [exact E|]. by apply Permutation_singleton_r in Hp.
Defined.
(** An object whose referrers outgrew the entry keeps its entry when all of them
    are unregistered: the scan of the inline referrers finds the words of the
    array. With four referrers the entry is removed. *)
Example emptied_entry_stays :
  (let? t := register_all empty_weak_table five in let? t := unregister_all t five in let? b := is_registered t object in Ok (referrers_of t object, b)) =
    Ok ([], true) /\
  (let? t := register_all empty_weak_table (take 4 five) in let? t := unregister_all t (take 4 five) in is_registered t object) = Ok false.
Proof. split; vm_compute; reflexivity. Qed.
End WeakWitness.
