(* ===== verification/WeakReferences.v ===== *)
(** * NSObject.mm: weak variables

    [objc_storeWeak] and its kin on the side tables, the objects and the weak
    variables of a program, for objects without a nonpointer isa (RawIsa.v): the
    retain count and the weak flag of an object are in its side table.

    Other threads run whenever this one does not hold the locks it needs. The
    [others] of a definition is the list of what they do to the world before each
    acquisition of the locks; the loops that try again when a variable has changed
    meanwhile have one turn for each. *)

From stdpp Require Import prelude numbers list gmap.
From Stdlib Require Import ZArith Lia Bool.
From S2P Require Import Prelude ObjcOS DenseMap SideTable TaggedPointer ObjcObject RawIsa ObjcWeak.

(** The state of a class's [+initialize]; [mine]: this thread is running it. *)
Inductive init_state := Uninitialized | Initializing (mine : bool) | Initialized.

Record world := World {
  sides : list (SideTable weak_table_t);
  vars : variables;
  reports : list inform;
  class_of : Z -> Z;
  init_of : Z -> init_state;
  (** Objects sent [_setWeaklyReferenced]. *)
  told : list Z;
}.
Implicit Types (w : world) (t : SideTable weak_table_t).

Definition with_sides w (l : list (SideTable weak_table_t)) : world :=
  World l (vars w) (reports w) (class_of w) (init_of w) (told w).
Definition with_vars w (m : variables) : world :=
  World (sides w) m (reports w) (class_of w) (init_of w) (told w).
Definition with_reports w (l : list inform) : world :=
  World (sides w) (vars w) (reports w ++ l) (class_of w) (init_of w) (told w).
Definition with_told w (obj : Z) : world :=
  World (sides w) (vars w) (reports w) (class_of w) (init_of w) (told w ++ [obj]).

(** [*location], read and written. *)
Definition fetch w (location : Z) : res Z :=
  match vars w !! location with Some v => Ok v | None => Fault OutOfBounds end.
Definition assign w (location v : Z) : res world :=
  let? _ := fetch w location in Ok (with_vars w (<[location := v]> (vars w))).
Definition table_at w (i : nat) : res (SideTable weak_table_t) :=
  match sides w !! i with Some t => Ok t | None => Fault OutOfBounds end.
Definition put_table w (i : nat) t : world := with_sides w (<[i := t]> (sides w)).
Definition lock_at w (i : nat) : res world := let? t := table_at w i in let? t := lock t in Ok (put_table w i t).
Definition unlock_at w (i : nat) : res world := let? t := table_at w i in let? t := unlock t in Ok (put_table w i t).

(** The tables of the map lie in the order of their indices. *)
Definition lockTwo (haveOld haveNew : bool) w (i j : nat) : res world :=
  match haveOld, haveNew with
  | true, true =>
    if (i <? j)%nat then let? w := lock_at w i in lock_at w j
    else let? w := lock_at w j in if negb (j =? i)%nat then lock_at w i else Ok w
  | true, false => lock_at w i
  | false, true => lock_at w j
  | false, false => Ok w
  end.
Definition unlockTwo (haveOld haveNew : bool) w (i j : nat) : res world :=
  match haveOld, haveNew with
  | true, true => let? w := unlock_at w i in if negb (j =? i)%nat then unlock_at w j else Ok w
  | true, false => unlock_at w i
  | false, true => unlock_at w j
  | false, false => Ok w
  end.

(** What the threads do before a lock is had. *)
Definition interfere (others : list (world -> world)) w : world * list (world -> world) :=
  match others with [] => (w, []) | f :: others => (f w, others) end.

Section WeakReferences.
Context (ios_device : bool) (garbage : nat -> Z * Z) (calloc : Z -> Z) (T : tag_tables) (K : class_info).
(** Code of the program: [+initialize], and overrides of [allowsWeakReference]
    and [retainWeakReference], if there are any. [object_isClass]: the object is
    itself a class. *)
Context (class_initialize : world -> Z -> Z -> world)
  (allowsWeakReference : world -> Z -> option bool)
  (retainWeakReference : world -> Z -> option (world * bool))
  (object_isClass : Z -> bool).

Definition SideTables (obj : Z) : nat := Z.to_nat (indexForPointer ios_device obj).
Definition tagged_or_nil (obj : Z) : bool := isTaggedPointerOrNil (tags T) obj.
Definition tagged (obj : Z) : bool := isTaggedPointer (tags T) obj.
Definition getIsa w (obj : Z) : Z :=
  if tagged obj then tagged_getIsa (tags T) (unrecognized T) (tag_classes T) obj else class_of w obj.
Definition isInitialized w (cls : Z) : bool := match init_of w cls with Initialized => true | _ => false end.
Definition isInitializing w (cls : Z) : bool := match init_of w cls with Initializing _ => true | _ => false end.
Definition thisThreadIsInitializing w (cls : Z) : bool := match init_of w cls with Initializing mine => mine | _ => false end.

Definition callSetWeaklyReferenced w (obj : Z) : res world :=
  if negb (nz obj) then Ok w
  else
    let cls := getIsa w obj in
    if hasCustomRR K cls && negb (object_isClass obj) then
      assert? (isInitializing w cls || isInitialized w cls) in Ok (with_told w obj)
    else Ok w.

(** What [weak_register_no_lock] asks of the object. *)
Definition viability_of w t (obj : Z) : viability := {|
  v_isTaggedPointerOrNil := tagged_or_nil obj;
  v_hasCustomRR := hasCustomRR K (class_of w obj);
  v_rootIsDeallocating := if tagged obj then Ok false else sidetable_isDeallocating garbage t obj;
  v_allowsWeakReference := allowsWeakReference w obj;
|}.
Definition put_weak w (i : nat) (wt : weak_table_t) : res world :=
  let? t := table_at w i in Ok (put_table w i (with_weak t wt)).
(** "Clean up old value." *)
Definition unregister w (oldObj location : Z) : res world :=
  let? t := table_at w (SideTables oldObj) in
  let? (wt, log) := weak_unregister_no_lock (weak_table t) oldObj location in
  let? w := put_weak w (SideTables oldObj) wt in Ok (with_reports w log).
Definition register w (newObj location : Z) (options : WeakRegisterDeallocatingOptions) : res (world * Z) :=
  let? t := table_at w (SideTables newObj) in
  let? (wt, obj) := weak_register_no_lock calloc (weak_table t) newObj location (viability_of w t newObj) options in
  let? w := put_weak w (SideTables newObj) wt in Ok (w, obj).
Definition setWeaklyReferenced w (obj : Z) : res world :=
  let? t := table_at w (SideTables obj) in
  let? t := sidetable_setWeaklyReferenced_nolock garbage t obj false in Ok (put_table w (SideTables obj) t).
(** "Assign new value." *)
Definition set_new w (location newObj : Z) (crashIfDeallocating : bool) : res (world * Z) :=
  let? (w, obj) := register w newObj location (if crashIfDeallocating then CrashIfDeallocating else ReturnNilIfDeallocating) in
  let? w := if negb (tagged_or_nil obj) then setWeaklyReferenced w obj else Ok w in
  let? w := assign w location obj in Ok (w, obj).

(** The end of [storeWeak], from "Clean up old value" on, with the locks held. *)
Definition replace_value (haveOld haveNew crashIfDeallocating : bool) w (location oldObj newObj : Z) : res (world * Z) :=
  let? w := if haveOld then unregister w oldObj location else Ok w in
  let? (w, obj) := if haveNew then set_new w location newObj crashIfDeallocating else Ok (w, newObj) in
  let? w := unlockTwo haveOld haveNew w (SideTables oldObj) (SideTables newObj) in
  let? w := callSetWeaklyReferenced w obj in
  Ok (w, obj).
Fixpoint storeWeak (haveOld haveNew crashIfDeallocating : bool) (fuel : nat) (others : list (world -> world))
    (previouslyInitializedClass : Z) w (location newObj : Z) : res (world * Z) :=
  match fuel with
  | O => Fault OutOfFuel
  | S fuel =>
    assert? (haveOld || haveNew) in
    assert? (haveNew || (newObj =? 0)) in
    let? oldObj := if haveOld then fetch w location else Ok 0 in
    let (w, others) := interfere others w in
    let? w := lockTwo haveOld haveNew w (SideTables oldObj) (SideTables newObj) in
    let? current := if haveOld then fetch w location else Ok 0 in
    if haveOld && negb (current =? oldObj) then
      let? w := unlockTwo haveOld haveNew w (SideTables oldObj) (SideTables newObj) in
      storeWeak haveOld haveNew crashIfDeallocating fuel others previouslyInitializedClass w location newObj
    else
      let cls := getIsa w newObj in
      if haveNew && nz newObj && negb (cls =? previouslyInitializedClass) && negb (isInitialized w cls) then
        let? w := unlockTwo haveOld haveNew w (SideTables oldObj) (SideTables newObj) in
        let w := class_initialize w cls newObj in
        storeWeak haveOld haveNew crashIfDeallocating fuel others cls w location newObj
      else
        replace_value haveOld haveNew crashIfDeallocating w location oldObj newObj
  end.
(** A turn for every interference, one for [+initialize], and the last. *)
Definition store (haveOld haveNew crashIfDeallocating : bool) (others : list (world -> world)) w (location newObj : Z) : res (world * Z) :=
  storeWeak haveOld haveNew crashIfDeallocating (length others + 2) others 0 w location newObj.

Definition objc_storeWeak : list (world -> world) -> world -> Z -> Z -> res (world * Z) := store true true true.
Definition objc_storeWeakOrNil : list (world -> world) -> world -> Z -> Z -> res (world * Z) := store true true false.
Definition objc_initWeak (others : list (world -> world)) w (location newObj : Z) : res (world * Z) :=
  if negb (nz newObj) then let? w := assign w location 0 in Ok (w, 0) else store false true true others w location newObj.
Definition objc_initWeakOrNil (others : list (world -> world)) w (location newObj : Z) : res (world * Z) :=
  if negb (nz newObj) then let? w := assign w location 0 in Ok (w, 0) else store false true false others w location newObj.
Definition objc_destroyWeak (others : list (world -> world)) w (location : Z) : res world :=
  let? (w, _) := store true false false others w location 0 in Ok w.

Fixpoint loadWeakRetained (fuel : nat) (others : list (world -> world)) w (location : Z) : res (world * Z) :=
  match fuel with
  | O => Fault OutOfFuel
  | S fuel =>
    let? obj := fetch w location in
    if tagged_or_nil obj then Ok (w, obj)
    else
      let (w, others) := interfere others w in
      let? w := lock_at w (SideTables obj) in
      let? current := fetch w location in
      if negb (current =? obj) then
        let? w := unlock_at w (SideTables obj) in loadWeakRetained fuel others w location
      else
        let cls := class_of w obj in
        if negb (hasCustomRR K cls) then
          assert? (isInitialized w cls) in
          let? t := table_at w (SideTables obj) in
          let? (t, retained) := sidetable_tryRetain garbage t obj false in
          let? w := unlock_at (put_table w (SideTables obj) t) (SideTables obj) in
          Ok (w, if retained : bool then obj else 0)
        else if isInitialized w cls || thisThreadIsInitializing w cls then
          let (w, result) := match retainWeakReference w obj with
                             | None => (w, 0)
                             | Some (w, retained) => (w, if retained : bool then obj else 0)
                             end in
          let? w := unlock_at w (SideTables obj) in Ok (w, result)
        else
          let? w := unlock_at w (SideTables obj) in
          loadWeakRetained fuel others (class_initialize w cls obj) location
  end.
Definition objc_loadWeakRetained (others : list (world -> world)) w (location : Z) : res (world * Z) :=
  loadWeakRetained (length others + 2) others w location.

Fixpoint moveWeak (fuel : nat) (others : list (world -> world)) w (dst src : Z) : res world :=
  match fuel with
  | O => Fault OutOfFuel
  | S fuel =>
    let? obj := fetch w src in
    if obj =? 0 then assign w dst 0
    else
      let (w, others) := interfere others w in
      let? w := lock_at w (SideTables obj) in
      let? current := fetch w src in
      if negb (current =? obj) then
        let? w := unlock_at w (SideTables obj) in moveWeak fuel others w dst src
      else
        let? w := unregister w obj src in
        let? (w, _) := register w obj dst DontCheckDeallocating in
        let? w := assign w dst obj in
        let? w := assign w src 0 in
        unlock_at w (SideTables obj)
  end.
Definition objc_moveWeak (others : list (world -> world)) w (dst src : Z) : res world :=
  moveWeak (length others + 1) others w dst src.

(** The end of an object: [sidetable_clearDeallocating] on its table, with the
    variables that the weak table clears. *)
Definition clearDeallocating w (obj : Z) : res world :=
  let? t := table_at w (SideTables obj) in
  let focus := {| slock := slock t; refcnts := refcnts t; weak_table := WeakState (weak_table t) (vars w) (reports w) |} in
  let? u := sidetable_clearDeallocating garbage focus obj in
  let w := put_table w (SideTables obj) {| slock := slock u; refcnts := refcnts u; weak_table := wtable (weak_table u) |} in
  Ok (World (sides w) (wvars (weak_table u)) (wlog (weak_table u)) (class_of w) (init_of w) (told w)).
End WeakReferences.
