(* ===== verification/WeakReferencesTheory.v ===== *)
(** * NSObject.mm: a weak variable holds a live object or nil

    [inv] relates the three places that know of a weak variable: the variable
    itself, the weak table of the object's stripe, and the weak flag of the
    object. Registering and unregistering a variable move it into and out of the
    set of weak variables that [inv] speaks of. *)

From stdpp Require Import prelude numbers list gmap.
From Stdlib Require Import ZArith Lia Bool.
From S2P Require Import Prelude ObjcOS DenseMap SideTable TaggedPointer ObjcObject RawIsa ObjcWeak ObjcWeakTheory WeakReferences.

Section WeakReferences.
Context (ios_device : bool) (garbage : nat -> Z * Z) (calloc : Z -> Z) (T : tag_tables) (K : class_info).
Context (allowsWeakReference : world -> Z -> option bool).
Context (Hcalloc : forall n, in_word 64 (calloc n) /\ calloc n <> 0).
Implicit Types (w : world) (held : gset nat) (W : gset Z) (i : nat) (t : SideTable weak_table_t) (obj r v : Z).
#[local] Abbreviation stripe := (SideTables ios_device).
#[local] Abbreviation word t obj := (word_of garbage t obj).
#[local] Abbreviation set_tagged obj := (tagged_or_nil T obj).

Definition object obj : Prop := valid_obj garbage obj /\ tagged_or_nil T obj = false.
Definition stripes : nat := Z.to_nat (StripeCount ios_device).
(** The weak variables registered for an object. *)
Definition refs_to w obj : list Z :=
  match sides w !! stripe obj with Some t => referrers_of (weak_table t) obj | None => [] end.

Record side_ok held W (m : variables) i t : Prop := {
  so_lock : slock t = bool_decide (i ∈ held);
  so_refs : refs garbage (refcnts t);
  so_weak : table_ok (weak_table t);
  so_once : forall obj, NoDup (referrers_of (weak_table t) obj);
  so_registered : forall obj r, r ∈ referrers_of (weak_table t) obj ->
    object obj /\ stripe obj = i /\ r ∈ W /\ m !! r = Some obj /\ weak_flag (word t obj) = true;
}.
(** [W] is the set of weak variables, [held] the locks that are taken. *)
Record inv held W w : Prop := {
  in_length : length (sides w) = stripes;
  in_sides : forall i t, sides w !! i = Some t -> side_ok held W (vars w) i t;
  in_vars : forall r, r ∈ W -> variable r /\ exists v, vars w !! r = Some v /\ in_word 64 v /\
    (tagged_or_nil T v = false -> object v /\ r ∈ refs_to w v);
}.
(** Tables as large as memory can hold. *)
Definition fits w : Prop := forall i t, sides w !! i = Some t ->
  roomy (refcnts t) /\ num_entries (weak_table t) < max_referrers /\
  forall obj, Z.of_nat (length (referrers_of (weak_table t) obj)) < max_referrers.
(** What this thread does not touch. *)
Record same_classes w w' : Prop := {
  sc_class : class_of w' = class_of w;
  sc_init : init_of w' = init_of w;
}.
Lemma same_trans w w1 w2 : same_classes w w1 -> same_classes w1 w2 -> same_classes w w2.
Proof. intros [] []. split; congruence. Qed.
Lemma same_refl w : same_classes w w.
Proof. done. Qed.

Lemma tagged_or_nil_zero : tagged_or_nil T 0 = true.
Proof. done. Qed.
Lemma object_address obj : object obj -> address obj.
Proof.
  intros [[Hw _] Ht]. split; [done|]. intros ->. by rewrite tagged_or_nil_zero in Ht.
Qed.
Lemma object_not_tagged obj : object obj -> tagged T obj = false.
Proof.
  intros [_ Ht]. unfold tagged_or_nil, isTaggedPointerOrNil in Ht. apply orb_false_iff in Ht as [_ Ht]. exact Ht.
Qed.
Lemma stripe_range obj : in_word 64 obj -> (stripe obj < stripes)%nat.
Proof.
  intros Ho. unfold SideTables, stripes, indexForPointer.
  pose proof (Z.mod_pos_bound (Z.lxor (Z.shiftr obj 4) (Z.shiftr obj 9)) (StripeCount ios_device)) as H.
  assert (0 < StripeCount ios_device) by (by destruct ios_device). lia.
Qed.
Lemma table_at_ok held W w obj : inv held W w -> in_word 64 obj ->
  exists t, table_at w (stripe obj) = Ok t /\ sides w !! stripe obj = Some t /\ side_ok held W (vars w) (stripe obj) t.
Proof.
  intros [Hl Hs _] Ho. pose proof (stripe_range obj Ho) as Hr. rewrite <- Hl in Hr.
  apply lookup_lt_is_Some_2 in Hr as [t E]. exists t. unfold table_at. rewrite E. split; [done|]. split; [done|]. by apply Hs.
Qed.
Lemma refs_to_lookup w obj t : sides w !! stripe obj = Some t -> refs_to w obj = referrers_of (weak_table t) obj.
Proof. intros E. unfold refs_to. by rewrite E. Qed.

(** The side table's word for an object, and worlds with the same words. *)
Definition word_at w obj : Z := match sides w !! stripe obj with Some t => word t obj | None => 0 end.
Definition same_counts w w' : Prop := forall o, in_word 64 o -> word_at w' o = word_at w o.
(** Tables of the same reference counts. *)
Definition kept w w' : Prop := forall i t', sides w' !! i = Some t' -> exists t, sides w !! i = Some t /\ refcnts t' = refcnts t.
Lemma kept_counts held W w w' : kept w w' -> inv held W w' -> same_counts w w'.
Proof.
  intros Hk Hinv o Ho. destruct (table_at_ok _ _ _ o Hinv Ho) as (t' & _ & E' & _). destruct (Hk _ _ E') as (t & E & Er).
  unfold word_at. rewrite E', E. unfold word_of. by rewrite Er.
Qed.
Lemma same_counts_trans w w1 w2 : same_counts w w1 -> same_counts w1 w2 -> same_counts w w2.
Proof. intros H1 H2 o Ho. by rewrite H2, H1. Qed.
Lemma kept_trans w w1 w2 : kept w w1 -> kept w1 w2 -> kept w w2.
Proof.
  intros H1 H2 i t' E. destruct (H2 i t' E) as (t1 & E1 & Er1). destruct (H1 i t1 E1) as (t & Et & Er). exists t. split; [done|congruence].
Qed.
(** The word of [v] alone has changed, by its weak flag. *)
Definition flagged v w w' : Prop := forall o, in_word 64 o ->
  word_at w' o = if bool_decide (o = v) && negb (tagged_or_nil T v) then Z.lor (word_at w o) SIDE_TABLE_WEAKLY_REFERENCED else word_at w o.
Lemma flagged_nothing v w w' : tagged_or_nil T v = true -> same_counts w w' -> flagged v w w'.
Proof. intros Ht H o Ho. rewrite Ht, andb_false_r. by apply H. Qed.
Lemma flagged_trans v w w1 w2 w3 : same_counts w w1 -> flagged v w1 w2 -> same_counts w2 w3 -> flagged v w w3.
Proof. intros H1 H2 H3 o Ho. rewrite H3, H2, H1 by done. done. Qed.

(** ** Replacing one side table *)
Lemma inv_put held held' W W' w m i t t' : inv held W w -> sides w !! i = Some t -> side_ok held' W' m i t' ->
  (forall j u, j <> i -> sides w !! j = Some u -> side_ok held' W' m j u) ->
  (forall r, r ∈ W' -> variable r /\ exists v, m !! r = Some v /\ in_word 64 v /\
    (tagged_or_nil T v = false -> object v /\ r ∈ (if decide (stripe v = i) then referrers_of (weak_table t') v else refs_to w v))) ->
  inv held' W' (with_vars (put_table w i t') m).
Proof.
  intros [Hl Hs _] E Ht' Hothers Hv. split.
  - cbn. by rewrite length_insert.
  - intros j u. cbn [with_vars put_table with_sides sides vars]. destruct (decide (j = i)) as [->|Hne].
    + rewrite list_lookup_insert_eq by (by eapply lookup_lt_Some). by intros [= <-].
    + rewrite list_lookup_insert_ne by done. by apply Hothers.
  - intros r Hr. destruct (Hv r Hr) as (Hvar & v & Em & Hw & Hobj). split; [done|]. exists v. split; [done|]. split; [done|].
    intros Htag. destruct (Hobj Htag) as [Ho Hin]. split; [done|]. unfold refs_to. cbn [with_vars put_table with_sides sides].
    destruct (decide (stripe v = i)) as [<-|Hne].
    + rewrite list_lookup_insert_eq by (by eapply lookup_lt_Some). done.
    + rewrite list_lookup_insert_ne by done. exact Hin.
Qed.
Lemma with_vars_same w : with_vars w (vars w) = w.
Proof. by destruct w. Qed.
(** Locks. *)
Lemma relock held held' W w i t b : inv held W w -> sides w !! i = Some t -> (forall j, j <> i -> j ∈ held' <-> j ∈ held) ->
  b = bool_decide (i ∈ held') -> inv held' W (put_table w i (with_lock t b)).
Proof.
  intros Hinv E Hh ->. rewrite <- (with_vars_same (put_table _ _ _)). change (vars (put_table w i _)) with (vars w).
  destruct (in_sides _ _ _ Hinv i t E) as [_ Hr Hw Ho Hreg]. apply (inv_put held held' W W w (vars w) i t); try done.
  - intros j u Hne Eu. destruct (in_sides _ _ _ Hinv j u Eu) as [Hl' Hr' Hw' Ho' Hreg']. split; try done.
    rewrite Hl'. apply bool_decide_ext. symmetry. by apply Hh.
  - intros r Hr0. destruct (in_vars _ _ _ Hinv r Hr0) as (Hvar & v & Ev & Hword & Hobj). split; [done|]. exists v. split; [done|]. split; [done|].
    intros Htag. destruct (Hobj Htag) as [Hov Hin]. split; [done|]. destruct (decide _) as [Es|]; [|done].
    rewrite (refs_to_lookup w v t) in Hin by congruence. done.
Qed.
(** A world with other locks. *)
Record relocked w w' : Prop := {
  rk_vars : vars w' = vars w;
  rk_classes : same_classes w w';
  rk_reports : told w' = told w;
  rk_tables : forall i t', sides w' !! i = Some t' -> exists t b, sides w !! i = Some t /\ t' = with_lock t b;
}.
Lemma relocked_refl w : relocked w w.
Proof. split; try done. intros i t E. exists t, (slock t). split; [done|]. by destruct t. Qed.
Lemma relocked_trans w w1 w2 : relocked w w1 -> relocked w1 w2 -> relocked w w2.
Proof.
  intros [E1 C1 R1 T1] [E2 C2 R2 T2]. split; [congruence|by eapply same_trans|congruence|].
  intros i t' E. destruct (T2 i t' E) as (t1 & b1 & Et1 & ->). destruct (T1 i t1 Et1) as (t & b & Et & ->). by exists t, b1.
Qed.
Lemma relocked_kept w w' : relocked w w' -> kept w w'.
Proof. intros [_ _ _ Ht] i t' E. destruct (Ht i t' E) as (t & b & Et & ->). by exists t. Qed.
Lemma relocked_put w i t b : sides w !! i = Some t -> relocked w (put_table w i (with_lock t b)).
Proof.
  intros E. split; try done. intros j t'. cbn [put_table with_sides sides]. destruct (decide (j = i)) as [->|Hne].
  - rewrite list_lookup_insert_eq by (by eapply lookup_lt_Some). intros [= <-]. by exists t, b.
  - rewrite list_lookup_insert_ne by done. intros E'. exists t', (slock t'). split; [done|]. by destruct t'.
Qed.
Lemma relocked_fits w w' : relocked w w' -> fits w -> fits w'.
Proof. intros [_ _ _ Ht] Hf i t' E. destruct (Ht i t' E) as (t & b & Et & ->). exact (Hf i t Et). Qed.
Lemma lock_at_ok held W w i : inv held W w -> i ∉ held -> (i < stripes)%nat ->
  exists w', lock_at w i = Ok w' /\ inv ({[i]} ∪ held) W w' /\ relocked w w'.
Proof.
  intros Hinv Hi Hlt. rewrite <- (in_length _ _ _ Hinv) in Hlt. apply lookup_lt_is_Some_2 in Hlt as [t E].
  destruct (in_sides _ _ _ Hinv i t E) as [Hl _ _ _ _]. rewrite bool_decide_false in Hl by done.
  unfold lock_at, table_at, lock. rewrite E. cbn [rbind]. rewrite Hl. cbn [rbind].
  exists (put_table w i (with_lock t true)). split; [done|]. split; [|by apply relocked_put].
  apply (relock held); [done|done|set_solver|]. symmetry. apply bool_decide_eq_true. set_solver.
Qed.
Lemma unlock_at_ok held W w i : inv held W w -> i ∈ held -> (i < stripes)%nat ->
  exists w', unlock_at w i = Ok w' /\ inv (held ∖ {[i]}) W w' /\ relocked w w'.
Proof.
  intros Hinv Hi Hlt. rewrite <- (in_length _ _ _ Hinv) in Hlt. apply lookup_lt_is_Some_2 in Hlt as [t E].
  destruct (in_sides _ _ _ Hinv i t E) as [Hl _ _ _ _]. rewrite bool_decide_true in Hl by done.
  unfold unlock_at, table_at, unlock. rewrite E. cbn [rbind]. rewrite Hl. cbn [rbind].
  exists (put_table w i (with_lock t false)). split; [done|]. split; [|by apply relocked_put].
  apply (relock held); [done|done|set_solver|]. symmetry. apply bool_decide_eq_false. set_solver.
Qed.
Definition two_locks (haveOld haveNew : bool) i (j : nat) : gset nat :=
  (if haveOld then {[i]} else ∅) ∪ (if haveNew then {[j]} else ∅).
Lemma lockTwo_ok ho hn W w i j : inv ∅ W w -> (i < stripes)%nat -> (j < stripes)%nat ->
  exists w', lockTwo ho hn w i j = Ok w' /\ inv (two_locks ho hn i j) W w' /\ relocked w w'.
Proof.
  intros Hinv Hi Hj. unfold lockTwo, two_locks. destruct ho, hn.
  - destruct (Nat.ltb_spec i j) as [Hlt|Hge].
    + destruct (lock_at_ok ∅ W w i Hinv) as (w1 & -> & H1 & R1); [set_solver|done|]. cbn [rbind].
      destruct (lock_at_ok _ W w1 j H1) as (w2 & -> & H2 & R2); [set_solver by lia|done|].
      exists w2. split; [done|]. split; [|by eapply relocked_trans]. by replace ({[i]} ∪ {[j]} : gset nat) with ({[j]} ∪ ({[i]} ∪ ∅) : gset nat) by set_solver.
    + destruct (lock_at_ok ∅ W w j Hinv) as (w1 & -> & H1 & R1); [set_solver|done|]. cbn [rbind].
      destruct (Nat.eqb_spec j i) as [->|Hne]; cbn [negb].
      * exists w1. split; [done|]. split; [|done]. by replace ({[i]} ∪ {[i]} : gset nat) with ({[i]} ∪ ∅ : gset nat) by set_solver.
      * destruct (lock_at_ok _ W w1 i H1) as (w2 & -> & H2 & R2); [set_solver|done|].
        exists w2. split; [done|]. split; [|by eapply relocked_trans]. by replace ({[i]} ∪ {[j]} : gset nat) with ({[i]} ∪ ({[j]} ∪ ∅) : gset nat) by set_solver.
  - apply (lock_at_ok ∅); [done|set_solver|done].
  - destruct (lock_at_ok ∅ W w j Hinv) as (w1 & -> & H1 & R1); [set_solver|done|].
    exists w1. split; [done|]. split; [|done]. by replace (∅ ∪ {[j]} : gset nat) with ({[j]} ∪ ∅ : gset nat) by set_solver.
  - exists w. split; [done|]. split; [|apply relocked_refl]. by replace (∅ ∪ ∅ : gset nat) with (∅ : gset nat) by set_solver.
Qed.
Lemma unlockTwo_ok ho hn W w i j : inv (two_locks ho hn i j) W w -> (i < stripes)%nat -> (j < stripes)%nat ->
  exists w', unlockTwo ho hn w i j = Ok w' /\ inv ∅ W w' /\ relocked w w'.
Proof.
  intros Hinv Hi Hj. unfold unlockTwo. unfold two_locks in Hinv. destruct ho, hn.
  - destruct (unlock_at_ok _ W w i Hinv) as (w1 & -> & H1 & R1); [set_solver|done|]. cbn [rbind].
    destruct (Nat.eqb_spec j i) as [->|Hne]; cbn [negb].
    + exists w1. split; [done|]. split; [|done]. by replace (∅ : gset nat) with ((({[i]} ∪ {[i]}) ∖ {[i]}) : gset nat) by set_solver.
    + destruct (unlock_at_ok _ W w1 j H1) as (w2 & -> & H2 & R2); [set_solver|done|].
      exists w2. split; [done|]. split; [|by eapply relocked_trans].
      by replace (∅ : gset nat) with (((({[i]} ∪ {[j]}) ∖ {[i]}) ∖ {[j]}) : gset nat) by set_solver.
  - destruct (unlock_at_ok _ W w i Hinv) as (w1 & -> & H1 & R1); [set_solver|done|].
    exists w1. split; [done|]. split; [|done]. by replace (∅ : gset nat) with ((({[i]} ∪ ∅) ∖ {[i]}) : gset nat) by set_solver.
  - destruct (unlock_at_ok _ W w j Hinv) as (w1 & -> & H1 & R1); [set_solver|done|].
    exists w1. split; [done|]. split; [|done]. by replace (∅ : gset nat) with (((∅ ∪ {[j]}) ∖ {[j]}) : gset nat) by set_solver.
  - exists w. split; [done|]. split; [|apply relocked_refl]. by replace (∅ : gset nat) with (∅ ∪ ∅ : gset nat) by set_solver.
Qed.

(** ** Taking a variable out *)
Lemma elsewhere_refs (t t' : weak_table_t) obj o : elsewhere t t' obj -> o <> obj -> referrers_of t' o = referrers_of t o.
Proof. intros H Hne. unfold referrers_of. by rewrite H. Qed.
Lemma inv_reports held W w l : inv held W w -> inv held W (with_reports w l).
Proof. intros [Hl Hs Hv]. by split. Qed.
Lemma registered_once held W w i t obj r v : inv held W w -> sides w !! i = Some t -> r ∈ referrers_of (weak_table t) obj ->
  vars w !! r = Some v -> obj = v /\ stripe v = i.
Proof.
  intros Hinv E Hr Ev. destruct (so_registered _ _ _ _ _ (in_sides _ _ _ Hinv i t E) obj r Hr) as (_ & Hs & _ & Hm & _).
  assert (obj = v) as -> by congruence. done.
Qed.
(** The table after the variable is unregistered. *)
Lemma unregister_table held W w i t r old : inv held W w -> sides w !! i = Some t -> variable r -> in_word 64 old ->
  exists wt log, weak_unregister_no_lock (weak_table t) old r = Ok (wt, log) /\ ObjcWeakTheory.table_ok wt /\ elsewhere (weak_table t) wt old /\
    num_entries wt <= num_entries (weak_table t) /\ r ∉ referrers_of wt old /\ NoDup (referrers_of wt old) /\
    (forall x, x ∈ referrers_of wt old <-> x <> r /\ x ∈ referrers_of (weak_table t) old) /\
    (length (referrers_of wt old) <= length (referrers_of (weak_table t) old))%nat.
Proof.
  intros Hinv E [Hr _] Hold. destruct (in_sides _ _ _ Hinv i t E) as [_ _ Hok Honce Hreg].
  destruct (decide (old = 0)) as [->|Hold0].
  - assert (Hnone : forall x, x ∉ referrers_of (weak_table t) 0).
    { intros x Hx. destruct (Hreg 0 x Hx) as ((_ & Htag) & _). by rewrite tagged_or_nil_zero in Htag. }
    exists (weak_table t), []. split; [done|]. split_and!; try done. set_solver.
  - destruct (unregister_ok (weak_table t) old r Hok (conj Hold Hold0) Hr) as (wt & log & -> & Hwt & Hels & Hn & Hcase).
    exists wt, log. split; [done|]. split; [done|]. split; [done|]. split; [done|]. specialize (Honce old).
    destruct (decide (r ∈ referrers_of (weak_table t) old)) as [Hin|Hin].
    + destruct Hcase as [Hp _]. rewrite Hp in Honce. apply NoDup_cons in Honce as [Hni Hnd]. split; [done|]. split; [done|].
      split; [|rewrite Hp; cbn; lia]. intros x. rewrite Hp. set_solver.
    + rewrite Hcase. split; [done|]. split; [done|]. split; [|done]. set_solver.
Qed.
Lemma unregister_inv held W w r old : inv held W w -> fits w -> r ∈ W -> vars w !! r = Some old ->
  exists w', unregister ios_device w old r = Ok w' /\ inv held (W ∖ {[r]}) w' /\ fits w' /\ same_classes w w' /\
    vars w' = vars w /\ told w' = told w /\
    kept w w'.
Proof.
  intros Hinv Hfits Hr Hv. destruct (in_vars _ _ _ Hinv r Hr) as (Hvar & v & Ev & Hword & _). assert (v = old) as -> by congruence.
  destruct (table_at_ok _ _ _ old Hinv Hword) as (t & Et & E & Hside). unfold unregister. rewrite Et. cbn [rbind].
  destruct (unregister_table held W w _ t r old Hinv E Hvar Hword) as (wt & log & -> & Hwt & Hels & Hn & Hni & Hnd & Hin & Hlen). cbn [rbind].
  unfold put_weak. rewrite Et. cbn [rbind]. set (t' := with_weak t wt). set (w' := put_table w (stripe old) t').
  assert (Hw' : inv held (W ∖ {[r]}) w').
  { rewrite <- (with_vars_same w'). change (vars w') with (vars w). destruct Hside as [Hl Hrefs Hok Honce Hreg].
    apply (inv_put held held W (W ∖ {[r]}) w (vars w) (stripe old) t); [done|done| | |].
    - split; [done|done|done| |].
      + intros obj. destruct (decide (obj = old)) as [->|Hne]; [done|]. cbn [t' with_weak weak_table]. by rewrite (elsewhere_refs _ _ _ _ Hels Hne).
      + intros obj r' Hr'. cbn [t' with_weak weak_table] in Hr'. destruct (decide (obj = old)) as [->|Hne].
        * apply Hin in Hr' as [Hne Hr']. destruct (Hreg old r' Hr') as (? & ? & ? & ? & ?). split_and!; try done. set_solver.
        * rewrite (elsewhere_refs _ _ _ _ Hels Hne) in Hr'. destruct (Hreg obj r' Hr') as (? & ? & ? & Hm & ?). split_and!; try done.
          assert (r' <> r) by (intros ->; congruence). set_solver.
    - intros j u Hne Eu. destruct (in_sides _ _ _ Hinv j u Eu) as [Hl' Hrefs' Hok' Honce' Hreg']. split; try done.
      intros obj r' Hr'. destruct (Hreg' obj r' Hr') as (? & Hst & ? & Hm & ?). split_and!; try done.
      assert (r' <> r) by (intros ->; assert (obj = old) by congruence; congruence). set_solver.
    - intros r' Hr'. destruct (in_vars _ _ _ Hinv r') as (Hvar' & v' & Ev' & Hw' & Hobj'); [set_solver|]. split; [done|]. exists v'. split; [done|]. split; [done|].
      intros Htag. destruct (Hobj' Htag) as [Ho Hi]. split; [done|]. destruct (decide _) as [Es|]; [|done].
      rewrite (refs_to_lookup w v' t) in Hi by congruence. cbn [t' with_weak weak_table]. destruct (decide (v' = old)) as [->|Hne].
      + apply Hin. split; [set_solver|done].
      + by rewrite (elsewhere_refs _ _ _ _ Hels Hne). }
  exists (with_reports w' log). split; [done|]. split; [by apply inv_reports|]. split; [|split; [done|]; split; [done|]; split; [done|]].
  - intros j u Eu. cbn [with_reports sides w' put_table with_sides] in Eu. destruct (decide (j = stripe old)) as [->|Hne].
    + rewrite list_lookup_insert_eq in Eu by (by eapply lookup_lt_Some). injection Eu as <-. destruct (Hfits _ _ E) as (H1 & H2 & H3).
      split; [done|]. split; [cbn; lia|]. intros obj. specialize (H3 obj). cbn [t' with_weak weak_table].
      destruct (decide (obj = old)) as [->|Hne]; [lia|]. by rewrite (elsewhere_refs _ _ _ _ Hels Hne).
    + rewrite list_lookup_insert_ne in Eu by done. exact (Hfits _ _ Eu).
  - intros j u Eu. cbn [with_reports sides w' put_table with_sides] in Eu. destruct (decide (j = stripe old)) as [->|Hne].
    + rewrite list_lookup_insert_eq in Eu by (by eapply lookup_lt_Some). injection Eu as <-. by exists t.
    + rewrite list_lookup_insert_ne in Eu by done. by exists u.
Qed.

(** ** Bringing a variable in *)
Lemma inv_extend held W w r obj t t2 : inv held W w -> r ∉ W -> variable r -> object obj -> is_Some (vars w !! r) ->
  sides w !! stripe obj = Some t -> slock t2 = slock t -> refs garbage (refcnts t2) -> ObjcWeakTheory.table_ok (weak_table t2) ->
  (referrers_of (weak_table t2) obj ≡ₚ r :: referrers_of (weak_table t) obj) -> elsewhere (weak_table t) (weak_table t2) obj ->
  weak_flag (word t2 obj) = true -> (forall o, in_word 64 o -> o <> obj -> word t2 o = word t o) ->
  inv held ({[r]} ∪ W) (with_vars (put_table w (stripe obj) t2) (<[r := obj]> (vars w))).
Proof.
  intros Hinv Hr Hvar Ho [v0 Hv0] E Hl2 Hr2 Hok2 Hp Hels Hflag Hwords.
  destruct (in_sides _ _ _ Hinv _ t E) as [Hl Hrefs Hok Honce Hreg].
  apply (inv_put held held W ({[r]} ∪ W) w _ (stripe obj) t); [done|done| | |].
  - split; [congruence|done|done| |].
    + intros o. destruct (decide (o = obj)) as [->|Hne]; [|by rewrite (elsewhere_refs _ _ _ _ Hels Hne)].
      rewrite Hp. constructor; [|apply Honce]. intros Hin. destruct (Hreg obj r Hin) as (_ & _ & ? & _). done.
    + intros o r' Hin. destruct (decide (o = obj)) as [->|Hne].
      * rewrite Hp in Hin. apply elem_of_cons in Hin as [->|Hin]; [rewrite lookup_insert_eq; split_and!; try done; set_solver|].
        destruct (Hreg obj r' Hin) as (? & ? & ? & ? & ?). rewrite lookup_insert_ne by set_solver. split_and!; try done. set_solver.
      * rewrite (elsewhere_refs _ _ _ _ Hels Hne) in Hin. destruct (Hreg o r' Hin) as (Hobj & ? & ? & ? & ?).
        rewrite lookup_insert_ne by set_solver. rewrite Hwords by (done || apply Hobj). split_and!; try done. set_solver.
  - intros j u Hne Eu. destruct (in_sides _ _ _ Hinv j u Eu) as [Hl' Hrefs' Hok' Honce' Hreg']. split; try done.
    intros o r' Hin. destruct (Hreg' o r' Hin) as (? & ? & ? & ? & ?). rewrite lookup_insert_ne by set_solver. split_and!; try done. set_solver.
  - intros r' Hr'. destruct (decide (r' = r)) as [->|Hne].
    + split; [done|]. exists obj. rewrite lookup_insert_eq. split; [done|]. split; [apply object_address; done|]. intros _. split; [done|].
      rewrite decide_True by done. rewrite Hp. set_solver.
    + destruct (in_vars _ _ _ Hinv r') as (Hvar' & v' & Ev' & Hw' & Hobj'); [set_solver|]. split; [done|]. exists v'.
      rewrite lookup_insert_ne by done. split; [done|]. split; [done|]. intros Htag. destruct (Hobj' Htag) as [Hov Hi]. split; [done|].
      destruct (decide _) as [Es|]; [|done]. rewrite (refs_to_lookup w v' t) in Hi by congruence.
      destruct (decide (v' = obj)) as [->|Hne']; [rewrite Hp; set_solver|]. by rewrite (elsewhere_refs _ _ _ _ Hels Hne').
Qed.
Lemma inv_extend_nil held W w r v : inv held W w -> r ∉ W -> variable r -> is_Some (vars w !! r) -> in_word 64 v -> tagged_or_nil T v = true ->
  inv held ({[r]} ∪ W) (with_vars w (<[r := v]> (vars w))).
Proof.
  intros [Hl Hs Hv] Hr Hvar _ Hw Htag. split; [done| |].
  - intros i t E. destruct (Hs i t E) as [Hlk Hrefs Hok Honce Hreg]. split; try done.
    intros o r' Hin. destruct (Hreg o r' Hin) as (? & ? & ? & ? & ?). cbn [with_vars vars]. rewrite lookup_insert_ne by set_solver.
    split_and!; try done. set_solver.
  - intros r' Hr'. cbn [with_vars vars]. destruct (decide (r' = r)) as [->|Hne].
    + split; [done|]. exists v. rewrite lookup_insert_eq. split; [done|]. split; [done|]. congruence.
    + destruct (Hv r') as (Hvar' & v' & Ev' & H'); [set_solver|]. split; [done|]. exists v'. by rewrite lookup_insert_ne.
Qed.
Lemma put_same w i t : sides w !! i = Some t -> put_table w i (with_weak t (weak_table t)) = w.
Proof.
  intros E. unfold put_table, with_sides. rewrite list_insert_id; [by destruct w|]. by destruct t.
Qed.
Lemma weak_flag_set x : weak_flag (Z.lor x SIDE_TABLE_WEAKLY_REFERENCED) = true.
Proof.
  unfold weak_flag. change SIDE_TABLE_WEAKLY_REFERENCED with (2 ^ 0). rewrite nz_bit, Z.lor_spec, Z.pow2_bits_true by done. apply orb_true_r.
Qed.
Lemma assign_ok w r v : is_Some (vars w !! r) -> assign w r v = Ok (with_vars w (<[r := v]> (vars w))).
Proof. intros [v0 E]. unfold assign, fetch. by rewrite E. Qed.
Lemma side_ready held W w i t obj : inv held W w -> fits w -> sides w !! i = Some t -> object obj -> ready garbage t obj (slock t).
Proof.
  intros Hinv Hfits E [Ho _]. destruct (in_sides _ _ _ Hinv i t E) as [_ Hr _ _ _]. destruct (Hfits i t E) as [Hroom _]. by split.
Qed.

(** Whether the runtime forms weak references to the object. *)
Definition accepts w obj : bool :=
  if tagged_or_nil T obj then true
  else if hasCustomRR K (class_of w obj) then default false (allowsWeakReference w obj)
  else match sides w !! stripe obj with Some t => negb (dealloc_flag (word t obj)) | None => false end.
Lemma accepts_tagged w obj : tagged_or_nil T obj = true -> accepts w obj = true.
Proof. unfold accepts. by intros ->. Qed.
(** Whether forming one halts the program, if it is to. Of an object of a class with
    its own reference counting and no answer, it never does. *)
Definition halts (crash : bool) w obj : bool :=
  crash && negb (accepts w obj) && (negb (hasCustomRR K (class_of w obj)) || bool_decide (allowsWeakReference w obj <> None)).
Lemma viable_accepts held W w t obj crash : inv held W w -> fits w -> sides w !! stripe obj = Some t -> object obj ->
  let r := viable (viability_of garbage T K allowsWeakReference w t obj) (if crash : bool then CrashIfDeallocating else ReturnNilIfDeallocating) in
  r = if accepts w obj then Ok true else if halts crash w obj then Fault CannotFormWeakReference else Ok false.
Proof.
  intros Hinv Hfits E Ho. pose proof Ho as [_ Htag]. unfold halts, accepts, viability_of, viable. rewrite Htag, E, (object_not_tagged _ Ho).
  cbn [v_hasCustomRR v_rootIsDeallocating v_allowsWeakReference]. destruct (hasCustomRR K (class_of w obj)); cbn [negb].
  - by destruct (allowsWeakReference w obj) as [[]|], crash.
  - rewrite (sidetable_isDeallocating_ok garbage t obj _ (side_ready _ _ _ _ _ _ Hinv Hfits E Ho)). cbn [rbind].
    by destruct (dealloc_flag _), crash.
Qed.
(** The table after the variable is registered. *)
Lemma register_table held W w t obj r (q : viability) options : inv held W w -> fits w -> sides w !! stripe obj = Some t -> object obj -> variable r ->
  v_isTaggedPointerOrNil q = false -> viable q options = Ok true ->
  exists wt, weak_register_no_lock calloc (weak_table t) obj r q options = Ok (wt, obj) /\ ObjcWeakTheory.table_ok wt /\
    (referrers_of wt obj ≡ₚ r :: referrers_of (weak_table t) obj) /\ elsewhere (weak_table t) wt obj.
Proof.
  intros Hinv Hfits E Ho Hr Htag Hv. destruct (in_sides _ _ _ Hinv _ t E) as [_ _ Hok _ _]. destruct (Hfits _ t E) as (_ & Hn & Hlen).
  apply register_ok; try done. by apply object_address.
Qed.
Lemma set_new_ok held W w r newObj crash : inv held W w -> fits w -> r ∉ W -> variable r -> is_Some (vars w !! r) ->
  in_word 64 newObj -> (tagged_or_nil T newObj = false -> object newObj) ->
  let v := if accepts w newObj then newObj else 0 in
  let w_set := set_new ios_device garbage calloc T K allowsWeakReference w r newObj crash in
  if halts crash w newObj then w_set = Fault CannotFormWeakReference
  else exists w', w_set = Ok (w', v) /\ inv held ({[r]} ∪ W) w' /\ same_classes w w' /\ vars w' = <[r := v]> (vars w) /\
    flagged v w w' /\ told w' = told w.
Proof.
  intros Hinv Hfits Hr Hvar Hsome Hword Hobj v w_set. unfold w_set, set_new, register. clear w_set.
  destruct (table_at_ok _ _ _ newObj Hinv Hword) as (t & Et & E & Hside). rewrite Et. cbn [rbind].
  assert (Hsame : forall x, in_word 64 x -> tagged_or_nil T x = true -> x = v ->
    exists w', (let? p := (let? w0 := put_weak w (stripe newObj) (weak_table t) in Ok (w0, x)) in
      let '(w0, obj) := p in
      let? w1 := if negb (tagged_or_nil T obj) then setWeaklyReferenced ios_device garbage w0 obj else Ok w0 in
      let? w2 := assign w1 r obj in Ok (w2, obj)) = Ok (w', v) /\ inv held ({[r]} ∪ W) w' /\ same_classes w w' /\ vars w' = <[r := v]> (vars w) /\ flagged v w w' /\ told w' = told w).
  { intros x Hx Hxt <-. unfold put_weak. rewrite Et. cbn [rbind]. rewrite (put_same _ _ _ E), Hxt. cbn [negb rbind].
    rewrite assign_ok by done. cbn [rbind]. eexists. split; [done|]. split; [by apply inv_extend_nil|]. split; [done|]. split; [done|].
    split; [|done]. by apply flagged_nothing. }
  destruct (tagged_or_nil T newObj) eqn:Htag.
  { unfold halts. rewrite (accepts_tagged _ _ Htag), andb_false_r. unfold weak_register_no_lock, viability_of. cbn [v_isTaggedPointerOrNil]. rewrite Htag. cbn [rbind].
    apply Hsame; [done|done|]. unfold v. by rewrite (accepts_tagged _ _ Htag). }
  specialize (Hobj eq_refl). pose proof (viable_accepts _ _ _ _ _ crash Hinv Hfits E Hobj) as Hviable. cbv zeta in Hviable.
  assert (Hvt : v_isTaggedPointerOrNil (viability_of garbage T K allowsWeakReference w t newObj) = false) by exact Htag.
  destruct (accepts w newObj) eqn:Ha.
  - assert (halts crash w newObj = false) as -> by (unfold halts; by rewrite Ha, andb_false_r). destruct (register_table _ _ _ _ _ r _ _ Hinv Hfits E Hobj Hvar Hvt Hviable) as (wt & -> & Hok & Hp & Hels). cbn [rbind].
    unfold put_weak. rewrite Et. cbn [rbind]. rewrite Htag. cbn [negb]. unfold setWeaklyReferenced, table_at. cbn [put_table with_sides sides].
    rewrite list_lookup_insert_eq by (by eapply lookup_lt_Some). cbn [rbind].
    pose proof (side_ready _ _ _ _ _ _ Hinv Hfits E Hobj) as Hrd.
    assert (Hrd' : ready garbage (with_weak t wt) newObj (slock t)) by by destruct Hrd.
    destruct (sidetable_setWeaklyReferenced_ok garbage (with_weak t wt) newObj _ Hrd') as (t2 & -> & [Hr2 Hu2 Hl2 Hw2]). cbn [rbind].
    rewrite assign_ok by done. cbn [rbind]. eexists. split; [done|].
    assert (Ew : put_table (put_table w (stripe newObj) (with_weak t wt)) (stripe newObj) t2 = put_table w (stripe newObj) t2).
    { unfold put_table, with_sides. cbn [sides vars reports class_of init_of told]. by rewrite list_insert_insert_eq. }
    destruct Hu2 as [Hnew Hold]. rewrite Ew. split; [apply (inv_extend held W w r newObj t t2); try done|split; [done|split; [done|split; [|done]]]].
    + by rewrite Hw2.
    + rewrite Hw2. exact Hp.
    + by rewrite Hw2.
    + unfold word_of in *. rewrite Hnew. apply weak_flag_set.
    + intros o Hwo. change v with newObj. rewrite Htag, andb_true_r. unfold word_at. cbn [with_vars put_table with_sides sides].
      destruct (decide (stripe o = stripe newObj)) as [Es|Es].
      * rewrite Es, list_lookup_insert_eq by (by eapply lookup_lt_Some). rewrite E. case_bool_decide as Eo; [subst o; exact Hnew|exact (Hold o Hwo Eo)].
      * rewrite list_lookup_insert_ne by done. rewrite bool_decide_false by congruence. done.
  - unfold weak_register_no_lock. rewrite Hvt, Hviable. destruct (halts crash w newObj); cbn [rbind negb]; [done|].
    apply Hsame; [by unfold in_word|done|done].
Qed.

(** ** Storing *)
Section Stores.
Context (class_initialize : world -> Z -> Z -> world) (object_isClass : Z -> bool).
#[local] Abbreviation storeWeak := (storeWeak ios_device garbage calloc T K class_initialize allowsWeakReference object_isClass).
#[local] Abbreviation replace_value := (replace_value ios_device garbage calloc T K allowsWeakReference object_isClass).
#[local] Abbreviation getIsa := (getIsa T).
Definition initializing w cls : Prop := init_of w cls <> Uninitialized.

(** The messages sent about an object with its own reference counting. *)
Definition notified w obj : list Z :=
  if nz obj && (hasCustomRR K (getIsa w obj) && negb (object_isClass obj)) then [obj] else [].
Lemma callSetWeaklyReferenced_ok held W w obj : inv held W w -> (obj <> 0 -> initializing w (getIsa w obj)) ->
  exists w', callSetWeaklyReferenced T K object_isClass w obj = Ok w' /\ inv held W w' /\ vars w' = vars w /\ same_classes w w' /\
    sides w' = sides w /\ told w' = told w ++ notified w obj.
Proof.
  intros Hinv Hinit. unfold callSetWeaklyReferenced, notified. destruct (nz obj) eqn:E; cbn [negb andb]; [|exists w; by rewrite app_nil_r].
  apply nz_true in E. specialize (Hinit E). destruct (_ && _); [|exists w; by rewrite app_nil_r].
  replace (isInitializing w (getIsa w obj) || isInitialized w (getIsa w obj)) with true.
  - exists (with_told w obj). split; [done|]. split; [|done]. destruct Hinv as [Hl Hs Hv]. by split.
  - unfold isInitializing, isInitialized. unfold initializing in Hinit. by destruct (init_of w _).
Qed.
(** What a store leaves: [w] has the locks, and [wu] is [w] without the
    registration of the old value; [v] is stored. *)
Definition members hn r W : gset Z := if hn : bool then {[r]} ∪ W else W ∖ {[r]}.
Record dropped held W r w wu : Prop := {
  dr_inv : inv held (W ∖ {[r]}) wu;
  dr_vars : vars wu = vars w;
  dr_classes : same_classes w wu;
  dr_counts : same_counts w wu;
  dr_told : told wu = told w;
}.
Record stored (hn : bool) W r newObj w wu w' v : Prop := {
  sd_value : v = if hn then (if accepts wu newObj then newObj else 0) else 0;
  sd_inv : inv ∅ (members hn r W) w';
  sd_vars : vars w' = if hn then <[r := v]> (vars w) else vars w;
  sd_counts : flagged v w w';
  sd_told : told w' = told w ++ notified w v;
}.
Lemma drop_old (ho : bool) held W w r old : inv held W w -> fits w ->
  (if ho then r ∈ W /\ vars w !! r = Some old else r ∉ W) ->
  exists wu, (if ho then unregister ios_device w old r else Ok w) = Ok wu /\ dropped held W r w wu /\ fits wu.
Proof.
  intros Hinv Hfits Hold. destruct ho.
  - destruct Hold as [Hr Hv]. destruct (unregister_inv held W w r old Hinv Hfits Hr Hv) as (wu & E & Hi & Hf & Hc & Hm & Ht & Hk).
    exists wu. split; [done|]. split; [|done]. split; try done. by eapply kept_counts.
  - exists w. split; [done|]. split; [|done]. split; try done. by replace (W ∖ {[r]}) with W by set_solver.
Qed.
Lemma put_new (hn crash : bool) held W w wu r newObj : dropped held W r w wu -> fits wu -> variable r -> vars w !! r <> None ->
  in_word 64 newObj -> (hn = true -> tagged_or_nil T newObj = false -> object newObj) -> (hn = false -> newObj = 0) ->
  let put := if hn then set_new ios_device garbage calloc T K allowsWeakReference wu r newObj crash else Ok (wu, newObj) in
  if hn && halts crash wu newObj then put = Fault CannotFormWeakReference
  else exists w2 v, put = Ok (w2, v) /\ v = (if hn then (if accepts wu newObj then newObj else 0) else 0) /\ inv held (members hn r W) w2 /\
    vars w2 = (if hn then <[r := v]> (vars w) else vars w) /\ same_classes w w2 /\ flagged v w w2 /\ told w2 = told w.
Proof.
  intros [Hinv Hm Hc Hcnt Ht] Hfits Hvar Hmapped Hword Hobj Hnil put. unfold put. destruct hn; cbn [andb].
  - pose proof (set_new_ok held (W ∖ {[r]}) wu r newObj crash Hinv Hfits ltac:(set_solver) Hvar ltac:(rewrite Hm; by destruct (vars w !! r))
      Hword (Hobj eq_refl)) as H. cbv zeta in H. destruct (halts crash wu newObj); [done|].
    destruct H as (w2 & E & Hi & Hc2 & Hv2 & Hf & Ht2). eexists w2, _. split; [exact E|]. split; [done|]. split.
    { unfold members. by replace ({[r]} ∪ W) with ({[r]} ∪ W ∖ {[r]}) by (apply set_eq; intros x; destruct (decide (x = r)); set_solver). }
    split; [by rewrite Hv2, Hm|]. split; [by eapply same_trans|]. split; [by eapply flagged_trans|congruence].
  - exists wu, newObj. rewrite Hnil by done. split_and!; try done. by apply flagged_nothing.
Qed.
Lemma replace_value_ok (ho hn crash : bool) W w r old newObj :
  inv (two_locks ho hn (stripe old) (stripe newObj)) W w -> fits w -> variable r -> vars w !! r <> None ->
  (if ho then r ∈ W /\ vars w !! r = Some old else r ∉ W) -> in_word 64 old -> in_word 64 newObj ->
  (hn = true -> tagged_or_nil T newObj = false -> object newObj) -> (hn = false -> newObj = 0) ->
  (newObj <> 0 -> initializing w (getIsa w newObj)) ->
  exists wu, dropped (two_locks ho hn (stripe old) (stripe newObj)) W r w wu /\
    if hn && halts crash wu newObj then replace_value ho hn crash w r old newObj = Fault CannotFormWeakReference
    else exists w' v, replace_value ho hn crash w r old newObj = Ok (w', v) /\ stored hn W r newObj w wu w' v.
Proof.
  intros Hinv Hfits Hvar Hmapped Hold Hwold Hwnew Hobj Hnil Hinit.
  destruct (drop_old ho _ W w r old Hinv Hfits Hold) as (wu & E1 & Hd & Hfu). exists wu. split; [done|].
  pose proof (put_new hn crash _ W w wu r newObj Hd Hfu Hvar Hmapped Hwnew Hobj Hnil) as Hput. cbv zeta in Hput.
  unfold WeakReferences.replace_value. rewrite E1. cbn [rbind]. destruct (hn && halts crash wu newObj); [by rewrite Hput|].
  destruct Hput as (w2 & v & -> & Hv & Hi2 & Hm2 & Hc2 & Hf2 & Ht2). cbn [rbind].
  destruct (unlockTwo_ok ho hn (members hn r W) w2 (stripe old) (stripe newObj) Hi2) as (w3 & -> & Hi3 & Hrk);
    [by apply stripe_range|by apply stripe_range|]. cbn [rbind]. pose proof Hrk as [Hm3 Hc3 Ht3 _].
  pose proof (same_trans _ _ _ Hc2 Hc3) as [Es1 Es2].
  assert (Hisa : getIsa w3 v = getIsa w v) by (unfold WeakReferences.getIsa; by rewrite Es1).
  destruct (callSetWeaklyReferenced_ok ∅ (members hn r W) w3 v Hi3) as (w4 & -> & Hi4 & Hm4 & Hc4 & Hs4 & Ht4).
  { intros Hv0. rewrite Hisa. unfold initializing in *. rewrite Es2. assert (v = newObj) as -> by (destruct hn, (accepts wu newObj); congruence). by apply Hinit. }
  cbn [rbind]. exists w4, v. split; [done|]. split; [done|done|congruence| |].
  - eapply flagged_trans; [by intros o|exact Hf2|]. eapply same_counts_trans; [by eapply kept_counts; [apply relocked_kept|]|].
    intros o _. unfold word_at. by rewrite Hs4.
  - rewrite Ht4, Ht3, Ht2. unfold notified. by rewrite Hisa.
Qed.

(** What other threads may do meanwhile: anything that keeps the invariant, the
    progress of [+initialize] and mapped memory; [steady]: and the object's class. *)
Record benign W (f : world -> world) : Prop := {
  bn_inv : forall w, inv ∅ W w -> fits w -> inv ∅ W (f w) /\ fits (f w);
  bn_nil : forall w, class_of (f w) 0 = class_of w 0;
  bn_init : forall w c, initializing w c -> initializing (f w) c;
  bn_mapped : forall w r, vars w !! r <> None -> vars (f w) !! r <> None;
}.
Definition steady W obj (f : world -> world) : Prop := benign W f /\ forall w, class_of (f w) obj = class_of w obj.
(** [+initialize] is code like that of another thread, and leaves its class
    initialised or being initialised. *)
Definition initializes W obj : Prop :=
  forall cls, steady W obj (fun w => class_initialize w cls obj) /\ forall w, initializing (class_initialize w cls obj) cls.

(** The worlds that a call can find when it has its locks, from the world it is
    called in: other threads have run in between, as often as [others] says at
    most, locks were taken and given back, and, if [may], the class of [obj] was
    once sent [+initialize], not being initialised. *)
Inductive reaches obj : bool -> list (world -> world) -> world -> world -> Prop :=
| reaches_now may others w w' : relocked w w' -> reaches obj may others w w'
| reaches_other may f others w w1 w' : relocked w w1 -> reaches obj may others (f w1) w' -> reaches obj may (f :: others) w w'
| reaches_initialize others w w1 w' : relocked w w1 -> obj <> 0 -> isInitialized w1 (getIsa w1 obj) = false ->
    reaches obj false others (class_initialize w1 (getIsa w1 obj) obj) w' -> reaches obj true others w w'.
Lemma reaches_relocked obj may others w w1 w' : relocked w w1 -> reaches obj may others w1 w' -> reaches obj may others w w'.
Proof.
  intros Hr H. destruct H; [apply reaches_now; by eapply relocked_trans|eapply reaches_other; [by eapply relocked_trans|done]|].
  eapply reaches_initialize; [by eapply relocked_trans|done..].
Qed.
Lemma reaches_interfere obj may others w w1 others1 w2 w' : interfere others w = (w1, others1) -> relocked w1 w2 ->
  reaches obj may others1 w2 w' -> reaches obj may others w w'.
Proof.
  intros E Hr H. assert (H1 : reaches obj may others1 w1 w') by by eapply reaches_relocked.
  destruct others as [|f others]; injection E as <- <-; [done|]. eapply reaches_other; [apply relocked_refl|done].
Qed.
Lemma relocked_init w w' c : relocked w w' -> initializing w c -> initializing w' c.
Proof. intros [_ [_ E] _ _]. unfold initializing. by rewrite E. Qed.
Lemma relocked_isa w w' obj : relocked w w' -> getIsa w' obj = getIsa w obj.
Proof. intros [_ [E _] _ _]. unfold WeakReferences.getIsa. by rewrite E. Qed.
Lemma interfere_ok W obj others w : inv ∅ W w -> fits w -> Forall (steady W obj) others ->
  let '(w', others') := interfere others w in
  inv ∅ W w' /\ fits w' /\ getIsa w' obj = getIsa w obj /\ (forall c, initializing w c -> initializing w' c) /\
  (forall r, vars w !! r <> None -> vars w' !! r <> None) /\ Forall (steady W obj) others' /\
  (length others' <= length others)%nat /\ (w' = w \/ (length others' < length others)%nat).
Proof.
  intros Hinv Hfits Ho. destruct others as [|f others]; cbn [interfere]; [split_and!; (done || by left)|].
  apply Forall_cons in Ho as [[[H1 _ H3 H4] H2] Ho]. destruct (H1 w Hinv Hfits) as [H5 H6]. split_and!; try done; auto.
  - unfold WeakReferences.getIsa. by rewrite H2.
  - cbn. lia.
Qed.
(** How storing ends: in a world [wl] that the call finds, with the locks taken, the
    old value is dropped, and the new one is stored, or else the program halts. *)
Definition store_ends (ho hn crash may : bool) W r newObj others w (result : res (world * Z)) : Prop :=
  exists held wl wu, reaches newObj may others w wl /\ inv held W wl /\ dropped held W r wl wu /\
    if hn && halts crash wu newObj then result = Fault CannotFormWeakReference
    else exists w' v, result = Ok (w', v) /\ stored hn W r newObj wl wu w' v.
Lemma store_ends_later ho hn crash may W r newObj others w w1 others1 w2 result : interfere others w = (w1, others1) -> relocked w1 w2 ->
  store_ends ho hn crash may W r newObj others1 w2 result -> store_ends ho hn crash may W r newObj others w result.
Proof. intros E Hr (held & wl & wu & Hreach & H). exists held, wl, wu. split; [by eapply reaches_interfere|done]. Qed.
(** One turn: the locks are had, and may be given back. *)
Lemma attempt_ok ho hn W r newObj others w i (j : nat) : inv ∅ W w -> fits w -> vars w !! r <> None -> Forall (steady W newObj) others ->
  (i < stripes)%nat -> (j < stripes)%nat ->
  exists w1 others1 w2 w3, interfere others w = (w1, others1) /\ lockTwo ho hn w1 i j = Ok w2 /\ inv (two_locks ho hn i j) W w2 /\ fits w2 /\
    unlockTwo ho hn w2 i j = Ok w3 /\ inv ∅ W w3 /\ fits w3 /\ vars w3 = vars w2 /\ vars w2 !! r <> None /\
    getIsa w2 newObj = getIsa w newObj /\ getIsa w3 newObj = getIsa w newObj /\
    (forall c, initializing w c -> initializing w2 c /\ initializing w3 c) /\ relocked w1 w2 /\ relocked w2 w3 /\
    Forall (steady W newObj) others1 /\ (length others1 <= length others)%nat /\ (vars w2 = vars w \/ (length others1 < length others)%nat).
Proof.
  intros Hinv Hfits Hmapped Hothers Hi Hj. pose proof (interfere_ok W newObj others w Hinv Hfits Hothers) as Hint.
  destruct (interfere others w) as [w1 others1]. destruct Hint as (Hinv1 & Hfits1 & Hisa1 & Hinit1 & Hmap1 & Hothers1 & Hlen & Hprogress).
  destruct (lockTwo_ok ho hn W w1 i j Hinv1 Hi Hj) as (w2 & E2 & Hinv2 & Hrk).
  destruct (unlockTwo_ok ho hn W w2 i j Hinv2 Hi Hj) as (w3 & E3 & Hinv3 & Hrk3).
  pose proof (relocked_fits _ _ Hrk Hfits1) as Hfits2. pose proof (rk_vars _ _ Hrk) as Hv2. pose proof (relocked_isa _ _ newObj Hrk) as Hisa2.
  exists w1, others1, w2, w3. split_and!; try done.
  - by apply (relocked_fits w2).
  - by rewrite (rk_vars _ _ Hrk3).
  - rewrite Hv2. by apply Hmap1.
  - congruence.
  - rewrite (relocked_isa _ _ _ Hrk3). congruence.
  - intros c Hc. assert (initializing w2 c) by by apply (relocked_init w1), Hinit1. split; [done|]. by apply (relocked_init w2).
  - rewrite Hv2. destruct Hprogress as [->|]; [by left|by right].
Qed.
Lemma storeWeak_ok (ho hn crash : bool) W r newObj : ho || hn = true -> (hn = false -> newObj = 0) -> variable r ->
  (if ho then r ∈ W else r ∉ W) -> in_word 64 newObj -> (hn = true -> tagged_or_nil T newObj = false -> object newObj) ->
  (hn = true -> initializes W newObj) ->
  forall fuel others previous w, inv ∅ W w -> fits w -> vars w !! r <> None -> Forall (steady W newObj) others ->
  (newObj <> 0 -> getIsa w newObj <> 0) ->
  forall may, (may = true /\ previous = 0 /\ (length others + 2 <= fuel)%nat \/
    may = false /\ previous = getIsa w newObj /\ initializing w previous /\ (length others + 1 <= fuel)%nat) ->
  store_ends ho hn crash may W r newObj others w (storeWeak ho hn crash fuel others previous w r newObj).
Proof.
  intros Hmode Hnil Hvar Hr Hword Hobj Hci. induction fuel as [|fuel IH]; intros others previous w Hinv Hfits Hmapped Hothers Hcls may Hfuel; [lia|].
  cbn [WeakReferences.storeWeak]. rewrite Hmode. assert (Hassert : (hn || (newObj =? 0)) = true) by (destruct hn; [done|by rewrite Hnil]).
  rewrite Hassert. cbn [rassert rbind].
  assert (Hfetch : exists old, (if ho then fetch w r else Ok 0) = Ok old /\ in_word 64 old /\ (ho = true -> vars w !! r = Some old)).
  { destruct ho; [|by exists 0]. destruct (in_vars _ _ _ Hinv r Hr) as (_ & v & Ev & Hw & _). exists v. unfold fetch. by rewrite Ev. }
  destruct Hfetch as (old & -> & Hwold & Hold). cbn [rbind].
  destruct (attempt_ok ho hn W r newObj others w (stripe old) (stripe newObj) Hinv Hfits Hmapped Hothers (stripe_range _ Hwold) (stripe_range _ Hword))
    as (w1 & others1 & w2 & w3 & Eint & E2 & Hinv2 & Hfits2 & E3 & Hinv3 & Hfits3 & Hv3 & Hmap2 & Hisa2 & Hisa3 & Hinit & Hrk12 & Hrk23 & Hothers1 & Hlen & Hprogress).
  pose proof (relocked_trans _ _ _ Hrk12 Hrk23) as Hrk13. rewrite Eint, E2. cbn [rbind].
  assert (Hcurrent : exists current, (if ho then fetch w2 r else Ok 0) = Ok current /\ (ho = true -> vars w2 !! r = Some current)).
  { destruct ho; [|by exists 0]. destruct (in_vars _ _ _ Hinv2 r Hr) as (_ & v & Ev & _). exists v. unfold fetch. by rewrite Ev. }
  destruct Hcurrent as (current & -> & Hcur). cbn [rbind].
  destruct (ho && negb (current =? old)) eqn:Echanged.
  { rewrite E3. cbn [rbind]. apply andb_true_iff in Echanged as [Eho Ene]. apply negb_true_iff, Z.eqb_neq in Ene.
    assert (Hlt : (length others1 < length others)%nat).
    { destruct Hprogress as [E|]; [|done]. specialize (Hold Eho). specialize (Hcur Eho). congruence. }
    eapply store_ends_later; [exact Eint|exact Hrk13|].
    apply IH; try done; [by rewrite Hv3|by rewrite Hisa3|]. destruct Hfuel as [(-> & -> & ?)|(-> & -> & Hi & ?)]; [left; split_and!; (done || lia)|].
    right. split; [done|]. split; [congruence|]. split; [by apply Hinit|lia]. }
  destruct (hn && nz newObj && negb (getIsa w2 newObj =? previous) && negb (isInitialized w2 (getIsa w2 newObj))) eqn:Einit.
  { rewrite E3. cbn [rbind]. apply andb_prop in Einit as [Einit Euninit]. apply andb_prop in Einit as [Einit Eprev]. apply negb_true_iff in Euninit. apply negb_true_iff, Z.eqb_neq in Eprev.
    destruct Hfuel as [(-> & -> & ?)|(-> & -> & _ & _)]; [|congruence].
    apply andb_prop in Einit as [Ehn En]. apply nz_true in En. destruct (Hci Ehn (getIsa w2 newObj)) as [[[B1 _ B3 B4] B2] Hinitialized]. destruct (B1 w3 Hinv3 Hfits3) as [Hinv4 Hfits4].
    assert (Hisa4 : getIsa (class_initialize w3 (getIsa w2 newObj) newObj) newObj = getIsa w newObj).
    { rewrite <- Hisa3. unfold WeakReferences.getIsa at 1 3. by rewrite B2. }
    assert (Hagain : store_ends ho hn crash false W r newObj others1 (class_initialize w3 (getIsa w2 newObj) newObj)
      (storeWeak ho hn crash fuel others1 (getIsa w2 newObj) (class_initialize w3 (getIsa w2 newObj) newObj) r newObj)).
    { apply IH; try done; [apply B4; by rewrite Hv3|by rewrite Hisa4|]. right. split; [done|]. split; [congruence|]. split; [done|lia]. }
    destruct Hagain as (held & wl & wu & Hreach & Hrest). exists held, wl, wu. split; [|done]. eapply reaches_interfere; [exact Eint|exact Hrk13|].
    assert (Eisa : getIsa w3 newObj = getIsa w2 newObj) by congruence. eapply reaches_initialize; [apply relocked_refl|exact En| |by rewrite Eisa].
    rewrite Eisa, <- Euninit. unfold isInitialized. destruct Hrk23 as [_ [_ ->] _ _]. done. }
  assert (Hready : newObj <> 0 -> initializing w2 (getIsa w2 newObj)).
  { intros Hn0. assert (hn = true) as -> by (destruct hn; [done|by destruct Hn0; apply Hnil]).
    replace (nz newObj) with true in Einit by (symmetry; by apply nz_true). cbn [andb] in Einit.
    apply andb_false_iff in Einit as [Ep|Ei].
    - apply negb_false_iff, Z.eqb_eq in Ep. destruct Hfuel as [(-> & -> & _)|(-> & -> & Hi & _)]; [specialize (Hcls Hn0); congruence|].
      rewrite Hisa2. by apply Hinit.
    - apply negb_false_iff in Ei. unfold isInitialized in Ei. unfold initializing. by destruct (init_of w2 _). }
  assert (Hold2 : if ho then r ∈ W /\ vars w2 !! r = Some old else r ∉ W).
  { destruct ho; [|done]. split; [done|]. cbn [andb] in Echanged. apply negb_false_iff, Z.eqb_eq in Echanged. rewrite <- Echanged. by apply Hcur. }
  destruct (replace_value_ok ho hn crash W w2 r old newObj Hinv2 Hfits2 Hvar) as (wu & Hd & Hend); try done.
  exists (two_locks ho hn (stripe old) (stripe newObj)), w2, wu. split; [|done].
  eapply reaches_interfere; [exact Eint|exact Hrk12|apply reaches_now, relocked_refl].
Qed.

(** Initialising with nil takes no lock. *)
Lemma store_nil crash W r others w : inv ∅ W w -> variable r -> vars w !! r <> None -> r ∉ W ->
  store_ends false true crash true W r 0 others w (let? w := assign w r 0 in Ok (w, 0)).
Proof.
  intros Hinv Hvar Hmapped Hr. exists ∅, w, w. split; [apply reaches_now, relocked_refl|]. split; [done|].
  split; [split; try done; by replace (W ∖ {[r]}) with W by set_solver|].
  assert (Hsome : is_Some (vars w !! r)) by by destruct (vars w !! r). unfold halts. rewrite (accepts_tagged w 0), andb_false_r by done.
  rewrite assign_ok by done. eexists _, 0. split; [done|].
  split; [by destruct (accepts w 0)|by apply inv_extend_nil|done|by apply flagged_nothing|by rewrite app_nil_r].
Qed.

End Stores.

(** ** The end of an object *)
Lemma inv_world held W w w' : inv held W w -> sides w' = sides w -> vars w' = vars w -> inv held W w'.
Proof.
  intros [Hl Hs Hv] Es Ev. split; [congruence|rewrite Es, Ev; done|]. unfold refs_to in *. rewrite Es, Ev. done.
Qed.
Lemma held_registered held W w obj r : inv held W w -> object obj -> r ∈ W /\ vars w !! r = Some obj <-> r ∈ refs_to w obj.
Proof.
  intros Hinv Ho. split.
  - intros [Hr Hv]. destruct (in_vars _ _ _ Hinv r Hr) as (_ & v & Ev & _ & Hobj). assert (v = obj) as -> by congruence. apply Hobj, Ho.
  - intros Hin. unfold refs_to in Hin. destruct (sides w !! stripe obj) as [t|] eqn:E; [|set_solver].
    by destruct (so_registered _ _ _ _ _ (in_sides _ _ _ Hinv _ t E) obj r Hin) as (_ & _ & ? & ? & _).
Qed.
(** What the weak table does when its object is cleared, if it is called. *)
Lemma clear_table held W w t obj : inv held W w -> sides w !! stripe obj = Some t -> object obj ->
  exists wt m log, (if weak_flag (word t obj) then weak_clear_no_lock (WeakState (weak_table t) (vars w) (reports w)) obj = Ok (WeakState wt m log)
      else WeakState wt m log = WeakState (weak_table t) (vars w) (reports w)) /\
    ObjcWeakTheory.table_ok wt /\ referrers_of wt obj = [] /\ elsewhere (weak_table t) wt obj /\
    forall r, m !! r = if decide (r ∈ refs_to w obj /\ vars w !! r = Some obj) then Some 0 else vars w !! r.
Proof.
  intros Hinv E Ho. destruct (in_sides _ _ _ Hinv _ t E) as [_ _ Hok Honce Hreg]. rewrite (refs_to_lookup w obj t E).
  destruct (weak_flag (word t obj)) eqn:Ef.
  - destruct (weak_clear_ok (weak_table t) (vars w) obj Hok (object_address _ Ho)) as (wt & m & log & E' & Hwt & Hnil & Hels & Hm).
    { intros r Hr. destruct (Hreg obj r Hr) as (_ & _ & _ & Hv & _). by exists obj. }
    exists wt, m, (reports w ++ log). split; [|done]. cbn [weak_clear_no_lock weak_table_ops wtable wvars wlog]. by rewrite E'.
  - assert (Hnil : referrers_of (weak_table t) obj = []).
    { destruct (referrers_of (weak_table t) obj) as [|r l] eqn:Er; [done|]. destruct (Hreg obj r) as (_ & _ & _ & _ & Hf); [rewrite Er; set_solver|congruence]. }
    exists (weak_table t), (vars w), (reports w). split; [done|]. split; [done|]. split; [done|]. split; [done|].
    intros r. rewrite Hnil, decide_False; [done|set_solver].
Qed.
Lemma clearDeallocating_inv W w obj : inv ∅ W w -> fits w -> object obj ->
  exists w', clearDeallocating ios_device garbage w obj = Ok w' /\ inv ∅ W w' /\ refs_to w' obj = [] /\ same_classes w w' /\
    forall r, vars w' !! r = if decide (r ∈ refs_to w obj /\ vars w !! r = Some obj) then Some 0 else vars w !! r.
Proof.
  intros Hinv Hfits Ho. pose proof (object_address _ Ho) as [Hword _].
  destruct (table_at_ok _ _ _ obj Hinv Hword) as (t & Et & E & [Hl Hrefs Hok Honce Hreg]). unfold clearDeallocating. rewrite Et. cbn [rbind].
  destruct (clear_table ∅ W w t obj Hinv E Ho) as (wt & m & log & Hclear & Hwt & Hnil & Hels & Hm).
  set (focus := {| slock := slock t; refcnts := refcnts t; weak_table := WeakState (weak_table t) (vars w) (reports w) |}).
  assert (Hrd : ready garbage focus obj false).
  { destruct (side_ready _ _ _ _ _ _ Hinv Hfits E Ho) as [H1 H2 H3 _]. split; [done|done|done|]. cbn. by rewrite Hl, bool_decide_false by set_solver. }
  destruct (sidetable_clearDeallocating_ok garbage focus obj (WeakState wt m log) Hrd Hclear) as (u & -> & [Hru [Hnew Hkeep] Hlu Hwu]). cbn [rbind].
  rewrite Hwu. cbn [with_weak weak_table wtable wvars wlog focus].
  set (t' := {| slock := slock u; refcnts := refcnts u; weak_table := wt |}). eexists. split; [done|].
  assert (Hw' : inv ∅ W (with_vars (put_table w (stripe obj) t') m)).
  { apply (inv_put ∅ ∅ W W w m (stripe obj) t); [done|done| | |].
    - split; [by rewrite bool_decide_false by set_solver|done|done| |].
      + intros o. destruct (decide (o = obj)) as [->|Hne]; [cbn; rewrite Hnil; constructor|]. cbn. by rewrite (elsewhere_refs _ _ _ _ Hels Hne).
      + intros o r Hin. cbn [t' weak_table] in Hin. destruct (decide (o = obj)) as [->|Hne]; [rewrite Hnil in Hin; set_solver|].
        rewrite (elsewhere_refs _ _ _ _ Hels Hne) in Hin. destruct (Hreg o r Hin) as (Hoo & ? & ? & Hv & Hf). split_and!; try done.
        * rewrite Hm, decide_False; [done|]. intros [_ ?]. congruence.
        * rewrite <- Hf. f_equal. apply Hkeep; [apply Hoo|done].
    - intros j u' Hne Eu. destruct (in_sides _ _ _ Hinv j u' Eu) as [Hl' Hr' Hok' Honce' Hreg']. split; try done.
      intros o r Hin. destruct (Hreg' o r Hin) as (? & Hst & ? & Hv & ?). split_and!; try done. rewrite Hm, decide_False; [done|].
      intros [_ ?]. congruence.
    - intros r Hr. destruct (in_vars _ _ _ Hinv r Hr) as (Hvar & v & Ev & Hwv & Hov). split; [done|]. rewrite Hm.
      destruct (decide (v = obj)) as [->|Hne].
      + exists 0. rewrite decide_True; [|split; [apply Hov, Ho|done]]. split; [done|]. split; [by unfold in_word|]. by rewrite tagged_or_nil_zero.
      + exists v. rewrite decide_False by (intros [_ ?]; congruence). split; [done|]. split; [done|]. intros Htag. destruct (Hov Htag) as [Hobj Hin].
        split; [done|]. destruct (decide _) as [Es|]; [|done]. rewrite (refs_to_lookup w v t) in Hin by congruence. cbn. by rewrite (elsewhere_refs _ _ _ _ Hels Hne). }
  split; [by eapply inv_world|]. split; [|done].
  unfold refs_to. cbn [sides put_table with_sides]. by rewrite list_lookup_insert_eq by (by eapply lookup_lt_Some).
Qed.

(** ** Loading *)
Lemma weak_flag_bit x : weak_flag x = Z.testbit x 0.
Proof. unfold weak_flag. change SIDE_TABLE_WEAKLY_REFERENCED with (2 ^ 0). by apply nz_bit. Qed.
Lemma weak_flag_retain x : weak_flag (retain_word x) = weak_flag x.
Proof.
  unfold retain_word. destruct (pinned x); [done|]. rewrite !weak_flag_bit. unfold wrap.
  rewrite Z.mod_pow2_bits_low by lia. change SIDE_TABLE_RC_ONE with (2 * 2). rewrite !Z.bit0_odd, Z.odd_add, Z.odd_mul. by rewrite xorb_false_r.
Qed.
(** Only the counts of a table change. *)
Lemma inv_counts held W w i t t' : inv held W w -> sides w !! i = Some t -> slock t' = slock t -> weak_table t' = weak_table t ->
  refs garbage (refcnts t') -> (forall o, object o -> weak_flag (word t o) = true -> weak_flag (word t' o) = true) ->
  inv held W (put_table w i t').
Proof.
  intros Hinv E Hl Hw Hr Hf. rewrite <- (with_vars_same (put_table _ _ _)). change (vars (put_table w i _)) with (vars w).
  destruct (in_sides _ _ _ Hinv i t E) as [Hl' Hr' Hok Honce Hreg]. apply (inv_put held held W W w (vars w) i t); [done|done| |by intros j u _; apply Hinv|].
  - split; [congruence|done|by rewrite Hw|by rewrite Hw|]. rewrite Hw. intros o r Hin. destruct (Hreg o r Hin) as (? & ? & ? & ? & ?). split_and!; auto.
  - intros r Hr0. destruct (in_vars _ _ _ Hinv r Hr0) as (Hvar & v & Ev & Hword & Hobj). split; [done|]. exists v. split; [done|]. split; [done|].
    intros Htag. destruct (Hobj Htag) as [Ho Hin]. split; [done|]. rewrite Hw. destruct (decide _); [|done]. by rewrite (refs_to_lookup w v t) in Hin by congruence.
Qed.

Context (class_initialize : world -> Z -> Z -> world) (retainWeakReference : world -> Z -> option (world * bool)).
Lemma relocked_word held W w w' obj : relocked w w' -> inv held W w' -> in_word 64 obj -> word_at w' obj = word_at w obj.
Proof.
  intros Hrk Hinv Ho. destruct (table_at_ok _ _ _ obj Hinv Ho) as (t' & _ & E & _). destruct (rk_tables _ _ Hrk _ _ E) as (t & b & Et & ->).
  unfold word_at. by rewrite E, Et.
Qed.
(** The variable holds an object that uses the runtime's own reference counting. *)
Definition plain_at w r : Prop := forall v, vars w !! r = Some v -> tagged_or_nil T v = false ->
  hasCustomRR K (class_of w v) = false /\ isInitialized w (class_of w v) = true.
Lemma relocked_plain w w' r : relocked w w' -> plain_at w r -> plain_at w' r.
Proof. intros [Ev [Ec Ei] _ _] H. unfold plain_at, isInitialized. by rewrite Ev, Ec, Ei. Qed.
Definition plain_steps W r (f : world -> world) : Prop := benign W f /\ forall w, plain_at w r -> plain_at (f w) r.
Lemma interfere_benign W others w : inv ∅ W w -> fits w -> Forall (benign W) others ->
  let '(w', others') := interfere others w in
  inv ∅ W w' /\ fits w' /\ (forall r, vars w !! r <> None -> vars w' !! r <> None) /\ Forall (benign W) others' /\
  (length others' <= length others)%nat /\ (w' = w \/ (length others' < length others)%nat).
Proof.
  intros Hinv Hfits Ho. destruct others as [|f others]; cbn [interfere]; [split_and!; (done || by left)|].
  apply Forall_cons in Ho as [[H1 _ _ H4] Ho]. destruct (H1 w Hinv Hfits). split_and!; try done; [by apply H4|cbn; lia|right; cbn; lia].
Qed.
Lemma interfere_plain W r others w : Forall (plain_steps W r) others -> plain_at w r ->
  plain_at (interfere others w).1 r /\ Forall (plain_steps W r) (interfere others w).2.
Proof. intros Ho Hp. destruct Ho as [|f others [_ Hf] Ho]; cbn; auto. Qed.
(** The locked part of a load. *)
Lemma retain_locked W w v r : inv ({[stripe v]} ∪ ∅) W w -> fits w -> object v -> vars w !! r = Some v ->
  exists t t' w', table_at w (stripe v) = Ok t /\
    sidetable_tryRetain garbage t v false = Ok (t', negb (dealloc_flag (word_at w v))) /\
    unlock_at (put_table w (stripe v) t') (stripe v) = Ok w' /\ inv ∅ W w' /\ vars w' = vars w /\
    word_at w' v = (tryRetain_word (word_at w v)).1 /\ (forall o, in_word 64 o -> o <> v -> word_at w' o = word_at w o).
Proof.
  intros Hinv Hfits Ho Hv. pose proof (object_address _ Ho) as [Hword _].
  destruct (table_at_ok _ _ _ v Hinv Hword) as (t & Et & E & _). pose proof (side_ready _ _ _ _ _ _ Hinv Hfits E Ho) as Hrd.
  assert (Ew : word_at w v = word t v) by (unfold word_at; by rewrite E). rewrite Ew.
  destruct (sidetable_tryRetain_ok garbage t v _ Hrd) as (t' & Er & [Hr' [Hnew Hkeep] Hl' Hw']).
  exists t, t'. assert (Hinv1 : inv ({[stripe v]} ∪ ∅) W (put_table w (stripe v) t')).
  { apply (inv_counts _ _ _ _ t); [done|done|done|done|done|]. intros o [[Hwo _] _] Hf. destruct (decide (o = v)) as [->|Hne].
    - unfold word_of in *. rewrite Hnew. unfold tryRetain_word. destruct (dealloc_flag _); cbn [fst]; [done|]. by rewrite weak_flag_retain.
    - rewrite <- Hf. f_equal. by apply Hkeep. }
  destruct (unlock_at_ok _ W _ (stripe v) Hinv1) as (w' & Eu & Hinv' & Hrk); [set_solver|by apply stripe_range|].
  exists w'. split; [done|]. split; [|split; [done|]].
  { rewrite Er. unfold tryRetain_word. by destruct (dealloc_flag (word t v)). }
  replace (({[stripe v]} ∪ ∅) ∖ {[stripe v]} : gset nat) with (∅ : gset nat) in Hinv' by set_solver. split; [done|]. split; [by rewrite (rk_vars _ _ Hrk)|].
  split.
  - rewrite (relocked_word _ _ _ _ _ Hrk Hinv' Hword). unfold word_at. cbn [put_table with_sides sides].
    rewrite list_lookup_insert_eq by (by eapply lookup_lt_Some). exact Hnew.
  - intros o Hwo Hne. rewrite (relocked_word _ _ _ _ _ Hrk Hinv' Hwo). unfold word_at. cbn [put_table with_sides sides].
    destruct (decide (stripe o = stripe v)) as [Es|Es]; [|by rewrite list_lookup_insert_ne by done].
    rewrite Es, list_lookup_insert_eq by (by eapply lookup_lt_Some). rewrite E. exact (Hkeep o Hwo Hne).
Qed.
#[local] Abbreviation reached := (reaches class_initialize 0 false).
(** How a load ends: it finds [v] in the variable of the world [w1], under the lock
    of the object's table unless [v] is nil or a tagged pointer. *)
Record loaded W r others w w1 v w' (result : Z) : Prop := {
  ld_reaches : reached others w w1;
  ld_held : exists held, inv held W w1 /\ (tagged_or_nil T v = false -> stripe v ∈ held);
  ld_found : vars w1 !! r = Some v;
  ld_inv : inv ∅ W w';
  ld_vars : vars w' = vars w1;
  ld_result : result = if tagged_or_nil T v then v else if dealloc_flag (word_at w1 v) then 0 else v;
  ld_counts : forall o, in_word 64 o ->
    word_at w' o = if bool_decide (o = v) && negb (tagged_or_nil T v) then (tryRetain_word (word_at w1 v)).1 else word_at w1 o;
}.
Lemma loadWeakRetained_ok W r : r ∈ W -> forall fuel others w, inv ∅ W w -> fits w -> plain_at w r ->
  Forall (plain_steps W r) others -> (length others + 1 <= fuel)%nat ->
  exists w1 v w' result, loadWeakRetained ios_device garbage T K class_initialize retainWeakReference fuel others w r = Ok (w', result) /\
    loaded W r others w w1 v w' result.
Proof.
  intros Hr. induction fuel as [|fuel IH]; intros others w Hinv Hfits Hplain Hothers Hfuel; [lia|].
  cbn [WeakReferences.loadWeakRetained]. destruct (in_vars _ _ _ Hinv r Hr) as (_ & v & Ev & Hword & Hobj). unfold fetch at 1. rewrite Ev. cbn [rbind].
  destruct (tagged_or_nil T v) eqn:Htag.
  { exists w, v, w, v. split; [done|]. split; try done; [apply reaches_now, relocked_refl|by exists ∅; rewrite Htag|by rewrite Htag|].
    intros o _. by rewrite Htag, andb_false_r. }
  assert (Hbenign : Forall (benign W) others) by (eapply Forall_impl; [exact Hothers|]; by intros f [? _]).
  pose proof (interfere_benign W others w Hinv Hfits Hbenign) as Hint. destruct (interfere_plain W r others w Hothers Hplain) as [Hplain1 Hothers1].
  destruct (interfere others w) as [w1 others1] eqn:Eint. cbn [fst snd] in *. destruct Hint as (Hinv1 & Hfits1 & _ & _ & Hlen & Hprogress).
  destruct (lock_at_ok ∅ W w1 (stripe v) Hinv1) as (w2 & -> & Hinv2 & Hrk); [set_solver|by apply stripe_range|]. cbn [rbind].
  destruct (in_vars _ _ _ Hinv1 r Hr) as (_ & v1 & Ev1 & _ & Hobj1). pose proof (rk_vars _ _ Hrk) as Hv2. unfold fetch at 1. rewrite Hv2, Ev1. cbn [rbind].
  pose proof (relocked_fits _ _ Hrk Hfits1) as Hfits2. pose proof (relocked_plain _ _ _ Hrk Hplain1) as Hplain2.
  destruct (Z.eqb_spec v1 v) as [->|Hne]; cbn [negb].
  - destruct (Hplain2 v) as [Hcustom Hinitialized]; [by rewrite Hv2|done|]. rewrite Hcustom, Hinitialized. cbn [negb rassert rbind].
    assert (Hv : vars w2 !! r = Some v) by by rewrite Hv2. destruct (Hobj1 Htag) as [Ho _].
    destruct (retain_locked W w2 v r Hinv2 Hfits2 Ho Hv) as (t & t' & w' & -> & Et & Eu & Hinv' & Hm' & Hw' & Hk'). cbn [rbind]. rewrite Et. cbn [rbind]. rewrite Eu. cbn [rbind].
    exists w2, v, w', (if dealloc_flag (word_at w2 v) then 0 else v). split; [by destruct (dealloc_flag (word_at w2 v))|].
    split; try done; [eapply reaches_interfere; [exact Eint|exact Hrk|apply reaches_now, relocked_refl]| |by rewrite Htag|].
    + exists ({[stripe v]} ∪ ∅). split; [done|set_solver].
    + intros o Hwo. rewrite Htag, andb_true_r. case_bool_decide as Eo; [by subst o|by apply Hk'].
  - destruct (unlock_at_ok _ W w2 (stripe v) Hinv2) as (w3 & -> & Hinv3 & Hrk3); [set_solver|by apply stripe_range|]. cbn [rbind].
    replace (({[stripe v]} ∪ ∅) ∖ {[stripe v]} : gset nat) with (∅ : gset nat) in Hinv3 by set_solver.
    destruct (IH others1 w3) as (wl & v' & w' & result & E & Hld);
      [done|by apply (relocked_fits w2)|by apply (relocked_plain w2)|done|destruct Hprogress as [->|]; [congruence|lia]|].
    exists wl, v', w', result. split; [done|]. destruct Hld as [Hreach ? ? ? ? ? ?]. split; try done.
    eapply reaches_interfere; [exact Eint|by eapply relocked_trans|done].
Qed.

(** ** Moving *)
Lemma register_moved held W w r obj : inv held W w -> fits w -> r ∉ W -> variable r -> vars w !! r <> None -> in_word 64 obj ->
  (tagged_or_nil T obj = false -> object obj /\ weak_flag (word_at w obj) = true) ->
  exists w', (let? (w, _) := register ios_device garbage calloc T K allowsWeakReference w obj r DontCheckDeallocating in assign w r obj) = Ok w' /\
    inv held ({[r]} ∪ W) w' /\ vars w' = <[r := obj]> (vars w) /\ kept w w'.
Proof.
  intros Hinv Hfits Hr Hvar Hmapped Hword Hobj. assert (Hsome : is_Some (vars w !! r)) by by destruct (vars w !! r).
  destruct (table_at_ok _ _ _ obj Hinv Hword) as (t & Et & E & Hside). unfold register. rewrite Et. cbn [rbind].
  destruct (tagged_or_nil T obj) eqn:Htag.
  - unfold weak_register_no_lock, viability_of. cbn [v_isTaggedPointerOrNil]. rewrite Htag. cbn [rbind]. unfold put_weak. rewrite Et. cbn [rbind].
    rewrite (put_same _ _ _ E), assign_ok by done. eexists. split; [done|]. split; [by apply inv_extend_nil|]. split; [done|].
    intros i t' E'. by exists t'.
  - destruct (Hobj eq_refl) as [Ho Hf]. unfold word_at in Hf. rewrite E in Hf.
    destruct (register_table _ _ _ _ _ r (viability_of garbage T K allowsWeakReference w t obj) DontCheckDeallocating Hinv Hfits E Ho Hvar Htag eq_refl)
      as (wt & -> & Hok & Hp & Hels). cbn [rbind]. unfold put_weak. rewrite Et. cbn [rbind]. rewrite assign_ok by done.
    eexists. split; [done|]. split; [|split; [done|]].
    + destruct Hside as [_ Hrefs _ _ _]. by apply (inv_extend held W w r obj t (with_weak t wt)).
    + intros i t' E'. cbn [with_vars put_table with_sides sides] in E'. destruct (decide (i = stripe obj)) as [->|Hne].
      * rewrite list_lookup_insert_eq in E' by (by eapply lookup_lt_Some). injection E' as <-. by exists t.
      * rewrite list_lookup_insert_ne in E' by done. by exists t'.
Qed.
(** How a move ends: it finds [v] in the source in the world [w1], under the lock
    of its table unless it is nil. *)
Record moved W dst src others w w1 v w' : Prop := {
  mv_reaches : reached others w w1;
  mv_held : exists held, inv held W w1 /\ (v <> 0 -> stripe v ∈ held);
  mv_found : vars w1 !! src = Some v;
  mv_inv : inv ∅ ({[dst]} ∪ W) w';
  mv_vars : vars w' = <[src := 0]> (<[dst := v]> (vars w1));
  mv_counts : same_counts w1 w';
}.
Lemma moveWeak_ok W dst src : src ∈ W -> dst ∉ W -> variable dst -> forall fuel others w, inv ∅ W w -> fits w -> vars w !! dst <> None ->
  Forall (benign W) others -> (length others + 1 <= fuel)%nat ->
  exists w1 v w', moveWeak ios_device garbage calloc T K allowsWeakReference fuel others w dst src = Ok w' /\ moved W dst src others w w1 v w'.
Proof.
  intros Hsrc Hdst Hvar. induction fuel as [|fuel IH]; intros others w Hinv Hfits Hmapped Hothers Hfuel; [lia|].
  cbn [WeakReferences.moveWeak]. destruct (in_vars _ _ _ Hinv src Hsrc) as (Hvs & v & Ev & Hword & _). unfold fetch at 1. rewrite Ev. cbn [rbind].
  destruct (Z.eqb_spec v 0) as [->|Hv0].
  { rewrite assign_ok by by destruct (vars w !! dst). exists w, 0. eexists. split; [done|].
    split; [apply reaches_now, relocked_refl|by exists ∅|done|apply inv_extend_nil; try done; by destruct (vars w !! dst)| |done].
    cbn [with_vars vars]. symmetry. apply insert_id. rewrite lookup_insert_ne by set_solver. done. }
  pose proof (interfere_benign W others w Hinv Hfits Hothers) as Hint.
  destruct (interfere others w) as [w1 others1] eqn:Eint. destruct Hint as (Hinv1 & Hfits1 & Hmap1 & Hothers1 & Hlen & Hprogress).
  destruct (lock_at_ok ∅ W w1 (stripe v) Hinv1) as (w2 & -> & Hinv2 & Hrk); [set_solver|by apply stripe_range|]. cbn [rbind].
  destruct (in_vars _ _ _ Hinv1 src Hsrc) as (_ & v1 & Ev1 & _ & Hobj1). pose proof (rk_vars _ _ Hrk) as Hm2. unfold fetch at 1. rewrite Hm2, Ev1. cbn [rbind].
  pose proof (relocked_fits _ _ Hrk Hfits1) as Hfits2. specialize (Hmap1 dst Hmapped). rewrite <- Hm2 in Hmap1.
  destruct (Z.eqb_spec v1 v) as [->|Hne]; cbn [negb].
  - assert (Ev2 : vars w2 !! src = Some v) by by rewrite Hm2.
    destruct (unregister_inv _ W w2 src v Hinv2 Hfits2 Hsrc Ev2) as (w3 & -> & Hinv3 & Hfits3 & _ & Hm3 & _ & Hrefs3). cbn [rbind].
    destruct (register_moved _ _ w3 dst v Hinv3 Hfits3) as (w4 & E4 & Hinv4 & Hm4 & Hk4); [set_solver|done|by rewrite Hm3|done| |].
    { intros Htag. destruct (in_vars _ _ _ Hinv2 src Hsrc) as (_ & v2 & Ev3 & _ & Hobj2). assert (v2 = v) as -> by congruence.
      destruct (Hobj2 Htag) as [Ho Hin]. split; [done|]. destruct (table_at_ok _ _ _ v Hinv3 Hword) as (t3 & _ & E3 & _).
      destruct (Hrefs3 _ _ E3) as (t2 & E2 & Er). unfold word_at. rewrite E3. unfold word_of. rewrite Er. rewrite (refs_to_lookup w2 v t2 E2) in Hin.
      apply (so_registered _ _ _ _ _ (in_sides _ _ _ Hinv2 _ t2 E2) v src Hin). }
    destruct (register _ _ _ _ _ _ w3 v dst _) as [[w3' x]|]; [|done]. cbn [rbind] in E4 |- *. rewrite E4. cbn [rbind].
    assert (Hsome : is_Some (vars w4 !! src)) by (rewrite Hm4, Hm3, lookup_insert_ne by set_solver; by eexists). rewrite assign_ok by done. cbn [rbind].
    assert (Hinv5 : inv ({[stripe v]} ∪ ∅) ({[src]} ∪ ({[dst]} ∪ W ∖ {[src]})) (with_vars w4 (<[src := 0]> (vars w4)))).
    { apply inv_extend_nil; try done. set_solver. }
    destruct (unlock_at_ok _ _ _ (stripe v) Hinv5) as (w6 & -> & Hinv6 & Hrk6); [set_solver|by apply stripe_range|].
    exists w2, v, w6. split; [done|]. assert (Hinv7 : inv ∅ ({[dst]} ∪ W) w6).
    { replace (({[stripe v]} ∪ ∅) ∖ {[stripe v]} : gset nat) with (∅ : gset nat) in Hinv6 by set_solver.
      replace ({[dst]} ∪ W) with ({[src]} ∪ ({[dst]} ∪ W ∖ {[src]})); [done|]. apply set_eq. intros x'. destruct (decide (x' = src)); set_solver. }
    split; [|exists ({[stripe v]} ∪ ∅); split; [done|set_solver]|done|done| |].
    + eapply reaches_interfere; [exact Eint|exact Hrk|apply reaches_now, relocked_refl].
    + rewrite (rk_vars _ _ Hrk6). cbn [with_vars vars]. by rewrite Hm4, Hm3.
    + eapply kept_counts; [|exact Hinv7]. eapply kept_trans; [exact Hrefs3|]. eapply kept_trans; [exact Hk4|]. by apply relocked_kept in Hrk6.
  - destruct (unlock_at_ok _ W w2 (stripe v) Hinv2) as (w3 & -> & Hinv3 & Hrk3); [set_solver|by apply stripe_range|]. cbn [rbind].
    replace (({[stripe v]} ∪ ∅) ∖ {[stripe v]} : gset nat) with (∅ : gset nat) in Hinv3 by set_solver.
    destruct (IH others1 w3) as (wl & v' & w' & E & [Hreach ? ? ? ? ?]);
      [done|by apply (relocked_fits w2)|by rewrite (rk_vars _ _ Hrk3)|done|destruct Hprogress as [->|]; [congruence|lia]|].
    exists wl, v', w'. split; [done|]. split; try done. eapply reaches_interfere; [exact Eint|by eapply relocked_trans|done].
Qed.

(** ** Using weak variables *)
(** C7: using weak variables of objects without a nonpointer isa, in tables with room.
    Before each acquisition of the lock other threads may do anything, changes of the variable
    included, that keeps the invariant, the room and the mapping ([benign]); for a load,
    the variable must hold, and go on to hold, tagged pointers, nil, or objects of
    initialised classes that use the runtime's own reference counting ([plain_at]).
    The effect of each call is on a world that it [reaches], changed by nobody but
    these others. Loading a variable that there holds an object which is not being deallocated
    returns the object, its count raised by one unless it is pinned; of an object
    being deallocated it returns nil and leaves the count; nil and tagged pointers are
    returned as they are. Moving carries the value the source holds there, with its
    registration, to the destination and leaves nil, and no count changes. Clearing an
    object, the end of its deallocation, sets every weak variable that holds it
    to nil and no other variable, so that no weak variable outlives its object. The invariant is
    kept, and all of it ends without fault. *)
Theorem weak_variables_used W r w : inv ∅ W w -> fits w -> r ∈ W ->
  (forall others, plain_at w r -> Forall (plain_steps W r) others ->
    exists w1 v w' result, objc_loadWeakRetained ios_device garbage T K class_initialize retainWeakReference others w r = Ok (w', result) /\
      loaded W r others w w1 v w' result) /\
  (forall others dst, dst ∉ W -> variable dst -> vars w !! dst <> None -> Forall (benign W) others ->
    exists w1 v w', objc_moveWeak ios_device garbage calloc T K allowsWeakReference others w dst r = Ok w' /\
      moved W dst r others w w1 v w') /\
  (forall obj, object obj ->
    exists w', clearDeallocating ios_device garbage w obj = Ok w' /\ inv ∅ W w' /\ vars w' !! r <> Some obj /\
      forall a, vars w' !! a = if decide (a ∈ W /\ vars w !! a = Some obj) then Some 0 else vars w !! a).
Proof.
  intros Hinv Hfits Hr. split_and!.
  - intros others Hplain Hothers. apply loadWeakRetained_ok; (done || lia).
  - intros others dst Hdst Hvar Hmapped Hothers. by apply moveWeak_ok.
  - intros obj Ho. destruct (clearDeallocating_inv W w obj Hinv Hfits Ho) as (w' & E & Hinv' & _ & _ & Hm). exists w'. split; [done|]. split; [done|].
    pose proof (object_address _ Ho) as [_ Ho0].
    assert (Hm' : forall a, vars w' !! a = if decide (a ∈ W /\ vars w !! a = Some obj) then Some 0 else vars w !! a).
    { intros a. rewrite Hm. pose proof (held_registered ∅ W w obj a Hinv Ho) as Hiff.
      destruct (decide (a ∈ W /\ vars w !! a = Some obj)) as [Ha|Ha]; [rewrite decide_True; [done|]|rewrite decide_False; [done|]]; tauto. }
    split; [|done]. rewrite Hm'. destruct (decide _) as [_|Hn]; [congruence|]. intros Hv. by apply Hn.
Qed.
End WeakReferences.

(** ** A concrete program *)
Module WeakVariablesWitness.
Definition memory : nat -> Z * Z := SideTableWitness.memory.
Definition tables : tag_tables := TagTables split_tags 0x9000 (fun _ => 0x9000).
Definition block (n : Z) : Z := 0x600000.
Definition default_rr : class_info := {| isFuture := fun _ => false; canAllocNonpointer := fun _ => false; instancesRequireRawIsa := fun _ => true;
  cls_hasCxxDtor := fun _ => false; classArrayIndex := fun _ => 0; hasCustomRR := fun _ => false; canCallSwiftRR := fun _ => false; isMetaClass := fun _ => false |}.
Definition empty_table : SideTable weak_table_t := {| slock := false; refcnts := Table Null 0 0 0; weak_table := empty_weak_table |}.
Definition an_object : Z := 0x1000.
Definition a_variable : Z := 0x20000.
(** Nothing is referenced; one weak variable is nil, one word is uninitialised. *)
Definition start : world := World (replicate 64 empty_table) {[a_variable := 0; 0x20008 := 77]} [] (fun _ => 0x500) (fun _ => Uninitialized) [].
Definition run_initialize (w : world) (cls obj : Z) : world :=
  World (sides w) (vars w) (reports w) (class_of w) (fun c => if c =? cls then Initialized else init_of w c) (told w).
#[local] Abbreviation store_weak := (objc_storeWeak false memory block tables default_rr run_initialize (fun _ _ => None) (fun _ => false)).
Lemma block_ok n : in_word 64 (block n) /\ block n <> 0.
Proof. by unfold in_word. Qed.
Lemma start_inv : inv false memory tables ∅ {[a_variable]} start.
Proof.
  split; [done| |].
  - intros i t [-> _]%lookup_replicate. split.
    + by rewrite bool_decide_false by set_solver.
    + exact (rd_refs _ _ _ _ (SideTableWitness.object_ready false)).
    + constructor.
    + intros obj. cbn. constructor.
    + intros obj r Hr. cbn in Hr. set_solver.
  - intros r ->%elem_of_singleton. split; [by unfold variable, address, in_word|]. exists 0. split; [done|]. split; [by unfold in_word|done].
Qed.
Lemma start_fits : fits start.
Proof. intros i t [-> _]%lookup_replicate. split; [done|]. split; [done|]. intros obj. done. Qed.
Lemma object_ok : object memory tables an_object.
Proof. split; [|done]. exact (rd_obj _ _ _ _ (SideTableWitness.object_ready false)). Qed.
Lemma initialize_steady W obj : initializes false memory tables run_initialize W obj.
Proof.
  intros cls. split.
  - split; [|done]. split; [|done| |done].
    + intros w Hinv Hfits. split; [by eapply inv_world|done].
    + intros w c Hc. unfold initializing in *. cbn. by destruct (c =? cls).
  - intros w. unfold initializing. cbn. by rewrite Z.eqb_refl.
Qed.
Lemma idle_benign W : benign false memory tables W (fun w => w).
Proof. by split. Qed.
Lemma weak_variables_used_witness :
  exists w', clearDeallocating false memory start an_object = Ok w' /\ vars w' !! a_variable <> Some an_object.
Proof.
  destruct (weak_variables_used false memory block tables default_rr (fun _ _ => None) block_ok run_initialize (fun _ _ => None)
    {[a_variable]} a_variable start start_inv start_fits ltac:(by apply elem_of_singleton)) as (_ & _ & H).
  destruct (H an_object object_ok) as (w' & E & _ & Hne & _). by exists w'.
Defined.
(** A weak variable stored, loaded, and cleared with its object. *)
Example weak_variable_lives_and_dies :
  (let? (w, _) := store_weak [] start a_variable an_object in
   let? (w, v) := objc_loadWeakRetained false memory tables default_rr run_initialize (fun _ _ => None) [] w a_variable in
   let? w := clearDeallocating false memory w an_object in
   Ok (v, vars w !! a_variable)) = Ok (an_object, Some 0).
Proof. vm_compute. reflexivity. Qed.
End WeakVariablesWitness.
