(* ===== verification/CFBigNumber.v ===== *)
(** * CFBigNumber.c: numbers of five digits in base one billion
    (src/sdk/RunLoopDemo/RunLoopDemo/CF-1153.18)

    Conversions from and to machine integers, comparison, addition, and decimal
    text. Definitions only; CFBigNumberTheory.v has the theorems.

    The configuration is LP64, little-endian. Signed arithmetic that leaves its
    type, which C does not define, wraps around here, as it does in the code
    compilers generate for it; the C string functions called ([snprintf], [atol],
    [strlcpy], ...) are modelled as the C library documents them. *)

From stdpp Require Import prelude numbers list.
From Stdlib Require Import ZArith Lia Bool.
From S2P Require Import Prelude MathExtras CFMemory.

Definition BIG_DIGITS_LIMIT : Z := 1000000000.
Definition BIG_DIGITS_LIMIT_2 : Z := BIG_DIGITS_LIMIT * BIG_DIGITS_LIMIT.
Definition BIG_DIGITS_LIMIT_3 : Z := BIG_DIGITS_LIMIT_2 * BIG_DIGITS_LIMIT.
Definition BIG_DIGITS_LIMIT_4 : Z := BIG_DIGITS_LIMIT_3 * BIG_DIGITS_LIMIT.

(** [digits] has five elements, the least significant first; [sign] is 0 or -1. *)
Record BigNum := Big { digits : list Z; sign : Z }.
Implicit Types (a b n : BigNum).
Definition dig n (i : nat) : Z := nth i (digits n) 0.
Definition zero : BigNum := Big [0; 0; 0; 0; 0] 0.

(** ** From integers *)
Definition sign_of (inNum : Z) : Z := if inNum <? 0 then -1 else 0.
(** [unsignInNum] *)
Definition magnitude (w inNum : Z) : Z := if inNum <? 0 then wrap w (-1 * inNum) else wrap w inNum.
Definition split_32 (x : Z) : list Z :=
  let dig0 := u32 (x / BIG_DIGITS_LIMIT) in
  [u32 (x - dig0 * BIG_DIGITS_LIMIT); dig0; 0; 0; 0].
Definition split_64 (x : Z) : list Z :=
  let dig2 := u32 (x / BIG_DIGITS_LIMIT_2) in
  let x := u64 (x - dig2 * BIG_DIGITS_LIMIT_2) in
  let dig1 := u32 (x / BIG_DIGITS_LIMIT) in
  [u32 (x - dig1 * BIG_DIGITS_LIMIT); dig1; dig2; 0; 0].
Definition split_128 (x : Z) : list Z :=
  let dig4 := u32 (x / BIG_DIGITS_LIMIT_4) in
  let x := wrap 128 (x - dig4 * BIG_DIGITS_LIMIT_4) in
  let dig3 := u32 (x / BIG_DIGITS_LIMIT_3) in
  let x := wrap 128 (x - dig3 * BIG_DIGITS_LIMIT_3) in
  let dig2 := u32 (x / BIG_DIGITS_LIMIT_2) in
  let x := wrap 128 (x - dig2 * BIG_DIGITS_LIMIT_2) in
  let dig1 := u32 (x / BIG_DIGITS_LIMIT) in
  [u32 (x - dig1 * BIG_DIGITS_LIMIT); dig1; dig2; dig3; dig4].

Definition InitWithInt8 (inNum : Z) : BigNum := Big [magnitude 8 inNum; 0; 0; 0; 0] (sign_of inNum).
Definition InitWithInt16 (inNum : Z) : BigNum := Big [magnitude 16 inNum; 0; 0; 0; 0] (sign_of inNum).
Definition InitWithInt32 (inNum : Z) : BigNum := Big (split_32 (magnitude 32 inNum)) (sign_of inNum).
Definition InitWithInt64 (inNum : Z) : BigNum := Big (split_64 (magnitude 64 inNum)) (sign_of inNum).
Definition InitWithInt128 (inNum : Z) : BigNum := Big (split_128 (magnitude 128 inNum)) (sign_of inNum).
Definition InitWithUInt8 (inNum : Z) : BigNum := Big [u8 inNum; 0; 0; 0; 0] 0.
Definition InitWithUInt16 (inNum : Z) : BigNum := Big [u16 inNum; 0; 0; 0; 0] 0.
Definition InitWithUInt32 (inNum : Z) : BigNum := Big (split_32 (u32 inNum)) 0.
Definition InitWithUInt64 (inNum : Z) : BigNum := Big (split_64 (u64 inNum)) 0.
Definition InitWithUInt128 (inNum : Z) : BigNum := Big (split_128 (wrap 128 inNum)) 0.

(** ** To integers *)
Definition negated (w : Z) n (result : Z) : Z := if sign n <? 0 then sint w (-1 * result) else result.
Definition GetInt8 n : Z := negated 8 n (sint 8 (dig n 0)).
Definition GetInt16 n : Z := negated 16 n (sint 16 (dig n 0)).
Definition GetInt32 n : Z :=
  let result := sint 32 (dig n 0) in
  let result := sint 32 (result + dig n 1 * BIG_DIGITS_LIMIT) in
  negated 32 n result.
Definition GetInt64 n : Z :=
  let result := dig n 0 in
  let result := sint 64 (result + dig n 1 * BIG_DIGITS_LIMIT) in
  let result := sint 64 (result + dig n 2 * BIG_DIGITS_LIMIT_2) in
  negated 64 n result.
Definition GetInt128 n : Z :=
  let result := dig n 0 in
  let result := sint 128 (result + dig n 1 * BIG_DIGITS_LIMIT) in
  let result := sint 128 (result + dig n 2 * BIG_DIGITS_LIMIT_2) in
  let result := sint 128 (result + dig n 3 * BIG_DIGITS_LIMIT_3) in
  let result := sint 128 (result + dig n 4 * BIG_DIGITS_LIMIT_4) in
  negated 128 n result.
Definition GetUInt8 n : Z := u8 (dig n 0).
Definition GetUInt16 n : Z := u16 (dig n 0).
Definition GetUInt32 n : Z := u32 (dig n 0 + dig n 1 * BIG_DIGITS_LIMIT).
Definition GetUInt64 n : Z :=
  let result := u64 (dig n 0 + dig n 1 * BIG_DIGITS_LIMIT) in
  u64 (result + dig n 2 * BIG_DIGITS_LIMIT_2).
Definition GetUInt128 n : Z :=
  let result := wrap 128 (dig n 0 + dig n 1 * BIG_DIGITS_LIMIT) in
  let result := wrap 128 (result + dig n 2 * BIG_DIGITS_LIMIT_2) in
  let result := wrap 128 (result + dig n 3 * BIG_DIGITS_LIMIT_3) in
  wrap 128 (result + dig n 4 * BIG_DIGITS_LIMIT_4).

(** ** Typed bytes

    [CFNumberType]; the floating-point types are those the conversion ignores. *)
Inductive CFNumberType :=
  | kCFNumberSInt8Type | kCFNumberSInt16Type | kCFNumberSInt32Type | kCFNumberSInt64Type
  | kCFNumberFloat32Type | kCFNumberFloat64Type
  | kCFNumberCharType | kCFNumberShortType | kCFNumberIntType | kCFNumberLongType | kCFNumberLongLongType
  | kCFNumberFloatType | kCFNumberDoubleType
  | kCFNumberCFIndexType | kCFNumberNSIntegerType | kCFNumberCGFloatType | kCFNumberSInt128Type.
(** The integer of [w] bits at byte [i]. *)
Definition unsigned_at (w : Z) (bytes : list Z) (i : nat) : Z := of_bytes (take (Z.to_nat (w / 8)) (drop i bytes)).
Definition signed_at (w : Z) (bytes : list Z) (i : nat) : Z := sint w (unsigned_at w bytes i).
(** [r] is what the number held before. *)
Definition InitWithBytes (r : BigNum) (bytes : list Z) (type : CFNumberType) : BigNum :=
  match type with
  | kCFNumberSInt8Type => InitWithInt8 (signed_at 8 bytes 0)
  | kCFNumberSInt16Type => InitWithInt16 (signed_at 16 bytes 0)
  | kCFNumberSInt32Type => InitWithInt32 (signed_at 32 bytes 0)
  | kCFNumberSInt64Type => InitWithInt64 (signed_at 64 bytes 0)
  | kCFNumberCharType => InitWithInt8 (signed_at 8 bytes 0)
  | kCFNumberShortType => InitWithInt16 (signed_at 16 bytes 0)
  | kCFNumberIntType => InitWithInt32 (signed_at 32 bytes 0)
  | kCFNumberLongType => InitWithInt64 (signed_at 64 bytes 0)
  | kCFNumberLongLongType => InitWithInt64 (signed_at 64 bytes 0)
  | kCFNumberCFIndexType => InitWithInt64 (signed_at 64 bytes 0)
  | kCFNumberNSIntegerType => InitWithInt64 (signed_at 64 bytes 0)
  | kCFNumberSInt128Type =>
    let high := signed_at 64 bytes 0 in
    let low := unsigned_at 64 bytes 8 in
    InitWithInt128 (sint 128 (low + Z.shiftl high 64))
  | _ => r
  end.

(** ** Comparison, negation, addition *)
Fixpoint Compare_loop (i : nat) a b (negative : bool) : Z :=
  match i with
  | O => kCFCompareEqualTo
  | S i =>
    if dig a i <? dig b i then if negb negative then kCFCompareLessThan else kCFCompareGreaterThan
    else if dig a i >? dig b i then if negative then kCFCompareLessThan else kCFCompareGreaterThan
    else Compare_loop i a b negative
  end.
Definition Compare a b : Z :=
  let sameSign := sign a =? sign b in
  if sameSign then
    let negative := sign a <? 0 in
    Compare_loop 5 a b negative
  else if sign a <? sign b then kCFCompareLessThan else kCFCompareGreaterThan.

Fixpoint AbsoluteLessThan_loop (i : nat) a b : bool :=
  match i with
  | O => false
  | S i =>
    if dig a i <? dig b i then true
    else if dig a i >? dig b i then false
    else AbsoluteLessThan_loop i a b
  end.
Definition AbsoluteLessThan a b : bool := AbsoluteLessThan_loop 5 a b.

Fixpoint all_zero (ds : list Z) : bool :=
  match ds with
  | [] => true
  | d :: ds => if nz d then false else all_zero ds
  end.
Definition Neg a : BigNum :=
  let aIsZero := all_zero (digits a) in
  if negb aIsZero then Big (digits a) (sint 8 (sign a * sign a - 1)) else a.

(** The two loops of the addition, over the digits of both numbers; each digit is
    read before the same digit of the result is stored, so the result may be one
    of the operands. *)
Fixpoint Add_loop (ds es : list Z) (carry : Z) : list Z * Z :=
  match ds, es with
  | d :: ds, e :: es =>
    let result := u32 (d + e + carry) in
    let '(result, carry) := if result >? BIG_DIGITS_LIMIT then (u32 (result - BIG_DIGITS_LIMIT), 1) else (result, 0) in
    let (rs, carry) := Add_loop ds es carry in (result :: rs, carry)
  | _, _ => ([], carry)
  end.
Fixpoint Difference_loop (ds es : list Z) (carry : Z) : list Z * Z :=
  match ds, es with
  | d :: ds, e :: es =>
    let result := d - e - carry in
    let '(result, carry) := if result <? 0 then (result + BIG_DIGITS_LIMIT, 1) else (result, 0) in
    let (rs, carry) := Difference_loop ds es carry in (u32 result :: rs, carry)
  | _, _ => ([], carry)
  end.
Definition Add a b : BigNum * Z :=
  let sameSign := sign a =? sign b in
  if sameSign then
    let (rs, carry) := Add_loop (digits a) (digits b) 0 in (Big rs (sign a), carry)
  else
    let '(bigNum, smallNum) := if AbsoluteLessThan a b then (b, a) else (a, b) in
    let (rs, carry) := Difference_loop (digits bigNum) (digits smallNum) 0 in
    (Big rs (if sign bigNum <? 0 then -1 else 0), carry).
Definition Sub a b : BigNum * Z := Add a (Neg b).

(** [_CFNumberCreateWithBigNum]: the type and value of the number created, [None]
    for [NULL]. *)
Definition INT_MAX (w : Z) : Z := 2 ^ (w - 1) - 1.
Definition INT_MIN (w : Z) : Z := - 2 ^ (w - 1).
Definition fits n (maxlimit minlimit : BigNum) : bool :=
  let cr := Compare n maxlimit in
  let crn := Compare n minlimit in
  ((kCFCompareLessThan =? cr) || (kCFCompareEqualTo =? cr)) && negb (kCFCompareLessThan =? crn).
Definition CreateWithBigNum n : option (CFNumberType * Z) :=
  let small := (0 =? dig n 4) && (0 =? dig n 3) && (0 =? dig n 2) && (0 =? dig n 1) in
  if small && (dig n 0 <=? INT_MAX 8) then Some (kCFNumberSInt8Type, GetInt8 n)
  else if small && (dig n 0 <=? INT_MAX 16) then Some (kCFNumberSInt16Type, GetInt16 n)
  else if (0 =? dig n 4) && (0 =? dig n 3) && (0 =? dig n 2) &&
          fits n (InitWithInt32 (INT_MAX 32)) (InitWithInt32 (INT_MIN 32))
  then Some (kCFNumberSInt32Type, GetInt32 n)
  else if (0 =? dig n 4) && (0 =? dig n 3) && fits n (InitWithInt64 (INT_MAX 64)) (InitWithInt64 (INT_MIN 64))
  then Some (kCFNumberSInt64Type, GetInt64 n)
  else if fits n (InitWithInt128 (INT_MAX 128)) (InitWithInt128 (INT_MIN 128))
  then Some (kCFNumberSInt128Type, GetInt128 n)
  else None.

(** ** Decimal text

    Characters are bytes. *)
Definition chr_0 : Z := 48.
Definition chr_plus : Z := 43.
Definition chr_minus : Z := 45.
(** The last [k] decimal digits of [v]. *)
Fixpoint decimal (k : nat) (v : Z) : list Z :=
  match k with
  | O => []
  | S k => decimal k (v / 10) ++ [chr_0 + v mod 10]
  end.
(** What [%09u] prints of a 32-bit [v]. *)
Definition format_09u (v : Z) : list Z := if v <? BIG_DIGITS_LIMIT then decimal 9 v else decimal 10 v.
(** The characters before the terminator. *)
Fixpoint c_string (s : list Z) : list Z :=
  match s with
  | [] => []
  | c :: s => if c =? 0 then [] else c :: c_string s
  end.
Definition strlcpy (buffer s : list Z) : list Z :=
  match buffer with
  | [] => []
  | _ => let k := Nat.min (length (c_string s)) (length buffer - 1) in
         take k (c_string s) ++ [0] ++ drop (k + 1) buffer
  end.
Fixpoint skip_zeros (s : list Z) : list Z :=
  match s with
  | [] => []
  | c :: s' => if c =? chr_0 then skip_zeros s' else s
  end.
(** [tmp], filled by [snprintf]: at most 45 characters and the terminator. *)
Definition digit_text n : list Z :=
  take 45 (format_09u (dig n 4) ++ format_09u (dig n 3) ++ format_09u (dig n 2) ++ format_09u (dig n 1) ++ format_09u (dig n 0)) ++ [0].
(** [buffer] has [buflen] bytes. *)
Definition ToCString_digits n (leading_zeros : bool) (buffer : list Z) : list Z :=
  let tmp := digit_text n in
  if leading_zeros then
    let tocopy := Nat.min (length tmp) (length buffer) in
    replicate (length buffer - tocopy) chr_0 ++ drop (length tmp - tocopy) tmp
  else
    let s := skip_zeros tmp in
    let s := if nth 0 s 0 =? 0 then drop (length tmp - length s - 1) tmp else s in
    strlcpy buffer s.
Definition ToCString n (leading_zeros leading_plus : bool) (buffer : list Z) : res (list Z) :=
  if sign n <? 0 then
    match buffer with [] => Fault OutOfBounds | _ :: rest => Ok (chr_minus :: ToCString_digits n leading_zeros rest) end
  else if leading_plus then
    match buffer with [] => Fault OutOfBounds | _ :: rest => Ok (chr_plus :: ToCString_digits n leading_zeros rest) end
  else Ok (ToCString_digits n leading_zeros buffer).

(** [atol], saturating as [strtol] does. *)
Definition is_digit (c : Z) : bool := (48 <=? c) && (c <=? 57).
Definition is_space (c : Z) : bool := (c =? 32) || ((9 <=? c) && (c <=? 13)).
Fixpoint atol_digits (s : list Z) (acc : Z) : Z :=
  match s with
  | [] => acc
  | c :: s => if is_digit c then atol_digits s (10 * acc + (c - chr_0)) else acc
  end.
Fixpoint skip_space (s : list Z) : list Z :=
  match s with
  | [] => []
  | c :: s' => if is_space c then skip_space s' else s
  end.
Definition atol (s : list Z) : Z :=
  match skip_space s with
  | [] => 0
  | c :: s' =>
    if c =? chr_minus then Z.max (INT_MIN 64) (- atol_digits s' 0)
    else if c =? chr_plus then Z.min (INT_MAX 64) (atol_digits s' 0)
    else Z.min (INT_MAX 64) (atol_digits (c :: s') 0)
  end.

(** The loop that cuts nine characters at a time off the end of [working]. *)
Fixpoint FromCString_loop (fuel : nat) (working : list Z) (curDigit : nat) (ds : list Z) : list Z * nat * list Z :=
  match fuel with
  | O => (working, curDigit, ds)
  | S fuel =>
    if (curDigit + 1 <? 5)%nat && (9 <? length working)%nat then
      let cut := (length working - 9)%nat in
      let digit := u32 (atol (drop cut working)) in
      FromCString_loop fuel (take cut working) (curDigit + 1) (<[curDigit := digit]> ds)
    else (working, curDigit, ds)
  end.
Definition FromCString_digits (sgn : Z) (working : list Z) : BigNum :=
  let working := skip_zeros working in
  if (length working =? 0)%nat then Big (digits zero) sgn
  else
    let '(working, curDigit, ds) := FromCString_loop 5 working 0 (digits zero) in
    Big (<[curDigit := u32 (atol working)]> ds) sgn.
Definition FromCString (string : list Z) : BigNum :=
  match c_string string with
  | [] => FromCString_digits 0 []
  | c :: working =>
    if c =? chr_minus then FromCString_digits (-1) working
    else if c =? chr_plus then FromCString_digits 0 working
    else FromCString_digits 0 (c :: working)
  end.
