(* ===== verification/CFBigNumberTheory.v ===== *)
(** * CFBigNumber.c: what the numbers mean

    A well-formed number has five digits below one billion and a sign; [value] is
    the integer it stands for. Zero has two representations, of which only
    [plain] numbers use one. *)

From stdpp Require Import prelude numbers list.
From Stdlib Require Import ZArith Lia Bool.
From S2P Require Import Prelude MathExtras CFMemory CFBigNumber.
Implicit Types (a b n : BigNum) (ds es : list Z).
Abbreviation B := BIG_DIGITS_LIMIT.

(** ** Digits in base one billion *)
Fixpoint eval ds : Z := match ds with [] => 0 | d :: ds => d + B * eval ds end.
Definition digit_ok (d : Z) : Prop := 0 <= d < B.
Record wf n : Prop := {
  wf_length : length (digits n) = 5%nat;
  wf_digits : Forall digit_ok (digits n);
  wf_sign : sign n = 0 \/ sign n = -1;
}.
Definition value n : Z := if sign n <? 0 then - eval (digits n) else eval (digits n).
Definition plain n : Prop := eval (digits n) = 0 -> sign n = 0.

Lemma eval_bounds ds : Forall digit_ok ds -> 0 <= eval ds < B ^ Z.of_nat (length ds).
Proof.
  induction 1 as [|d ds Hd Hds IH]; [simpl; lia|]. cbn [eval length]. unfold digit_ok in Hd.
  rewrite Nat2Z.inj_succ, Z.pow_succ_r by lia. unfold B in *. lia.
Qed.
Lemma eval_inj ds es : length ds = length es -> Forall digit_ok ds -> Forall digit_ok es -> eval ds = eval es -> ds = es.
Proof.
  revert es. induction ds as [|d ds IH]; intros [|e es] Hl Hd He E; try done.
  apply Forall_cons in Hd as [Hd Hds], He as [He Hes]. cbn [eval] in E. unfold digit_ok, B in *.
  assert (d = e) by lia. subst e. f_equal. apply IH; try done; [by injection Hl|lia].
Qed.
Lemma eval_zeros k : eval (replicate k 0) = 0.
Proof. induction k; [done|]. cbn [replicate eval]. lia. Qed.

Ltac digits_ok := repeat (apply Forall_cons_2; [done|]); apply Forall_nil_2.
(** The digits one by one, and with them everything said of a number. *)
Record explicit n (d0 d1 d2 d3 d4 : Z) : Prop := {
  ex_digits : digits n = [d0; d1; d2; d3; d4];
  ex_0 : 0 <= d0 < 1000000000;
  ex_1 : 0 <= d1 < 1000000000;
  ex_2 : 0 <= d2 < 1000000000;
  ex_3 : 0 <= d3 < 1000000000;
  ex_4 : 0 <= d4 < 1000000000;
}.
Lemma wf_explicit n : wf n -> exists d0 d1 d2 d3 d4, explicit n d0 d1 d2 d3 d4.
Proof.
  intros [Hl Hd _]. destruct (digits n) as [|d0 [|d1 [|d2 [|d3 [|d4 [|]]]]]] eqn:E; try discriminate Hl.
  rewrite !Forall_cons in Hd. destruct Hd as (H0 & H1 & H2 & H3 & H4 & _). exists d0, d1, d2, d3, d4. by split.
Qed.
Lemma explicit_wf n d0 d1 d2 d3 d4 : explicit n d0 d1 d2 d3 d4 -> sign n = 0 \/ sign n = -1 -> wf n.
Proof. intros [E ?????] Hs. split; [by rewrite E|rewrite E; by digits_ok|done]. Qed.
Lemma explicit_eval n d0 d1 d2 d3 d4 : explicit n d0 d1 d2 d3 d4 ->
  eval (digits n) = d0 + 1000000000 * (d1 + 1000000000 * (d2 + 1000000000 * (d3 + 1000000000 * d4))).
Proof. intros [-> _ _ _ _ _]. cbn [eval]. unfold B. lia. Qed.
Lemma limits : BIG_DIGITS_LIMIT_2 = 10 ^ 18 /\ BIG_DIGITS_LIMIT_3 = 10 ^ 27 /\ BIG_DIGITS_LIMIT_4 = 10 ^ 36.
Proof. done. Qed.
Lemma eval_5 ds : length ds = 5%nat -> Forall digit_ok ds -> 0 <= eval ds < 10 ^ 45.
Proof. intros Hl Hd. pose proof (eval_bounds ds Hd) as H. by rewrite Hl in H. Qed.

(** ** Splitting an integer into digits *)
Lemma rem_mod x k : 0 < k -> x - x / k * k = x mod k.
Proof. intros. rewrite Z.mod_eq by lia. lia. Qed.
(** One step of a split: the digit [q] and the remainder [r] fit their types. *)
Lemma split_step w x k : 0 <= x < 2 ^ w -> 0 < k -> x / k < 2 ^ 32 -> k <= 2 ^ w ->
  u32 (x / k) = x / k /\ wrap w (x - x / k * k) = x mod k.
Proof.
  intros Hx Hk Hq Hw. pose proof (Z.mod_pos_bound x k Hk). split.
  - apply wrap_small. split; [apply Z.div_pos; lia|done].
  - rewrite rem_mod by done. apply wrap_small. lia.
Qed.
Lemma last_step x : 0 <= x < 2 ^ 32 * B -> u32 (x / B) = x / B /\ u32 (x - x / B * B) = x mod B.
Proof.
  intros Hx. unfold B in *. split; [apply wrap_small; dlia|]. rewrite rem_mod by lia. apply wrap_small. dlia.
Qed.
Definition represents ds (x : Z) : Prop := length ds = 5%nat /\ Forall digit_ok ds /\ eval ds = x.
Lemma represents_digits d0 d1 d2 d3 d4 x : digit_ok d0 -> digit_ok d1 -> digit_ok d2 -> digit_ok d3 -> digit_ok d4 ->
  x = d0 + B * (d1 + B * (d2 + B * (d3 + B * d4))) -> represents [d0; d1; d2; d3; d4] x.
Proof. intros. split; [done|]. split; [by digits_ok|]. cbn [eval]. unfold B in *. lia. Qed.
Lemma one_digit x : 0 <= x < 2 ^ 16 -> represents [x; 0; 0; 0; 0] x.
Proof. intros. apply represents_digits; unfold digit_ok, B; lia. Qed.
Lemma split_32_ok x : 0 <= x < 2 ^ 32 -> represents (split_32 x) x.
Proof.
  intros Hx. unfold split_32. destruct (last_step x) as [-> ->]; [unfold B; lia|].
  apply represents_digits; unfold digit_ok, B; dlia.
Qed.
Lemma split_64_ok x : 0 <= x < 2 ^ 64 -> represents (split_64 x) x.
Proof.
  intros Hx. unfold split_64. destruct limits as (-> & _ & _).
  destruct (split_step 64 x (10 ^ 18)) as [-> ->]; [lia|lia|dlia|lia|].
  destruct (last_step (x mod 10 ^ 18)) as [-> ->]; [unfold B; dlia|].
  apply represents_digits; unfold digit_ok, B; dlia.
Qed.
Lemma split_128_ok x : 0 <= x < 2 ^ 128 -> represents (split_128 x) x.
Proof.
  intros Hx. unfold split_128. destruct limits as (-> & -> & ->).
  destruct (split_step 128 x (10 ^ 36)) as [-> ->]; [lia|lia|dlia|lia|].
  destruct (split_step 128 (x mod 10 ^ 36) (10 ^ 27)) as [-> ->]; [dlia|lia|dlia|lia|].
  destruct (split_step 128 ((x mod 10 ^ 36) mod 10 ^ 27) (10 ^ 18)) as [-> ->]; [dlia|lia|dlia|lia|].
  destruct (last_step (((x mod 10 ^ 36) mod 10 ^ 27) mod 10 ^ 18)) as [-> ->]; [unfold B; dlia|].
  apply represents_digits; unfold digit_ok, B; dlia.
Qed.

(** ** Conversions *)
Lemma magnitude_abs w x : 0 < w -> - 2 ^ (w - 1) <= x < 2 ^ (w - 1) -> magnitude w x = Z.abs x.
Proof.
  intros Hw Hx. assert (2 ^ w = 2 * 2 ^ (w - 1)) by (rewrite <- Z.pow_succ_r by lia; f_equal; lia).
  unfold magnitude. destruct (Z.ltb_spec x 0); rewrite wrap_small by lia; lia.
Qed.
Lemma represents_signed ds x : represents ds (Z.abs x) -> let n := Big ds (sign_of x) in wf n /\ plain n /\ value n = x.
Proof.
  intros (Hl & Hd & He). cbn zeta. unfold plain, value, sign_of. cbn [digits sign]. rewrite He.
  destruct (Z.ltb_spec x 0); (split; [split; [done|done|by (left + right)]|]); cbn; lia.
Qed.
Lemma represents_unsigned ds x : represents ds x -> let n := Big ds 0 in wf n /\ plain n /\ value n = x.
Proof. intros (Hl & Hd & He). split; [split; [done|done|by left]|]. by split. Qed.

Lemma sint_congr w x y : x mod 2 ^ w = y mod 2 ^ w -> sint w x = sint w y.
Proof. intros E. unfold sint, wrap. by rewrite E. Qed.
Lemma sint_mod w x : 0 < w -> sint w x mod 2 ^ w = x mod 2 ^ w.
Proof.
  intros Hw. unfold sint, wrap. destruct (_ <? _); [apply Zmod_mod|].
  rewrite <- (Z_mod_plus_full _ 1), Z.mul_1_l, Z.sub_add. apply Zmod_mod.
Qed.
Lemma sint_add w x y : 0 < w -> sint w (sint w x + y) = sint w (x + y).
Proof. intros. apply sint_congr. rewrite Zplus_mod, sint_mod, <- Zplus_mod by done. done. Qed.
Lemma sint_negated w n x : 0 < w -> negated w n (sint w x) = sint w (if sign n <? 0 then - x else x).
Proof.
  intros Hw. unfold negated. destruct (sign n <? 0); [|done]. replace (-1 * sint w x) with (0 - sint w x) by lia.
  apply sint_congr. rewrite Zminus_mod, sint_mod, <- Zminus_mod by done. done.
Qed.
Lemma wrap_add w x y : wrap w (wrap w x + y) = wrap w (x + y).
Proof. unfold wrap. apply Zplus_mod_idemp_l. Qed.

(** A sum wrapped at every step is wrapped once. *)
Ltac sums := repeat (first [rewrite sint_add by done | rewrite wrap_add]; rewrite <- ?Z.add_assoc).

(** Reading a number: the integer of the width asked for that its low digits give. *)
Lemma Gets_spec n : wf n ->
  let v := value n in
  GetInt128 n = sint 128 v /\ GetUInt128 n = wrap 128 (eval (digits n)) /\
    (Z.abs v < 10 ^ 27 -> GetInt64 n = sint 64 v /\ GetUInt64 n = u64 (eval (digits n))) /\
    (Z.abs v < 10 ^ 18 -> GetInt32 n = sint 32 v /\ GetUInt32 n = u32 (eval (digits n))) /\
    (Z.abs v < 10 ^ 9 -> GetInt16 n = sint 16 v /\ GetInt8 n = sint 8 v /\
    GetUInt16 n = u16 (eval (digits n)) /\ GetUInt8 n = u8 (eval (digits n))).
Proof.
  intros Hwf v. destruct (wf_explicit n Hwf) as (d0 & d1 & d2 & d3 & d4 & He). pose proof (explicit_eval _ _ _ _ _ _ He) as Ev.
  pose proof (eval_5 _ (wf_length _ Hwf) (wf_digits _ Hwf)) as Hb.
  assert (Habs : Z.abs v = eval (digits n)) by (unfold v, value; destruct (sign n <? 0); lia). rewrite Habs.
  assert (Hv : v = if sign n <? 0 then - eval (digits n) else eval (digits n)) by done. rewrite Hv, Ev. clear Habs Hv v.
  destruct He as [E H0 H1 H2 H3 H4]. unfold GetInt128, GetUInt128, GetInt64, GetUInt64, GetInt32, GetUInt32, GetInt16, GetUInt16, GetInt8, GetUInt8, dig.
  rewrite E. cbn [nth]. destruct limits as (-> & -> & ->). unfold B.
  split_and!.
  - sums. rewrite sint_negated by done. f_equal. destruct (sign n <? 0); lia.
  - sums. f_equal. lia.
  - intros Hlt. assert (d3 = 0 /\ d4 = 0) as [-> ->] by lia. sums. rewrite sint_negated by done.
    split; f_equal; destruct (sign n <? 0); lia.
  - intros Hlt. assert (d2 = 0 /\ d3 = 0 /\ d4 = 0) as (-> & -> & ->) by lia. sums. rewrite sint_negated by done.
    split; f_equal; destruct (sign n <? 0); lia.
  - intros Hlt. assert (d1 = 0 /\ d2 = 0 /\ d3 = 0 /\ d4 = 0) as (-> & -> & -> & ->) by lia.
    rewrite !sint_negated by done. split_and!; f_equal; destruct (sign n <? 0); lia.
Qed.

(** ** Order *)
Definition order_of (c : comparison) : Z :=
  match c with Lt => kCFCompareLessThan | Eq => kCFCompareEqualTo | Gt => kCFCompareGreaterThan end.
Lemma order_lt x y : x < y -> order_of (x ?= y) = kCFCompareLessThan.
Proof. by intros ->%Z.compare_lt_iff. Qed.
Lemma order_gt x y : y < x -> order_of (x ?= y) = kCFCompareGreaterThan.
Proof. by intros ->%Z.lt_gt. Qed.
Lemma order_eq x y : x = y -> order_of (x ?= y) = kCFCompareEqualTo.
Proof. by intros ->%Z.compare_eq_iff. Qed.

Section TwoNumbers.
Context (a b : BigNum) (Ha : wf a) (Hb : wf b).
(** The loops compare the digits from the most significant one. *)
Lemma Compare_loop_ok negative :
  Compare_loop 5 a b negative =
    if negative : bool then order_of (eval (digits b) ?= eval (digits a)) else order_of (eval (digits a) ?= eval (digits b)).
Proof.
  destruct (wf_explicit a Ha) as (d0 & d1 & d2 & d3 & d4 & Hd), (wf_explicit b Hb) as (e0 & e1 & e2 & e3 & e4 & He).
  rewrite (explicit_eval _ _ _ _ _ _ Hd), (explicit_eval _ _ _ _ _ _ He).
  destruct Hd as [Ed ?????], He as [Ee ?????]. cbn [Compare_loop]. unfold dig. rewrite Ed, Ee. cbn [nth]. rewrite !Z.gtb_ltb.
  zcmp; destruct negative; cbn [negb]; symmetry; first [apply order_lt; lia|apply order_gt; lia|apply order_eq; lia].
Qed.
Lemma AbsoluteLessThan_ok : AbsoluteLessThan a b = (eval (digits a) <? eval (digits b)).
Proof.
  destruct (wf_explicit a Ha) as (d0 & d1 & d2 & d3 & d4 & Hd), (wf_explicit b Hb) as (e0 & e1 & e2 & e3 & e4 & He).
  rewrite (explicit_eval _ _ _ _ _ _ Hd), (explicit_eval _ _ _ _ _ _ He). unfold AbsoluteLessThan.
  destruct Hd as [Ed ?????], He as [Ee ?????]. cbn [AbsoluteLessThan_loop]. unfold dig. rewrite Ed, Ee. cbn [nth]. rewrite !Z.gtb_ltb.
  zcmp; lia.
Qed.
Lemma value_nonneg : sign a = 0 -> value a = eval (digits a) /\ 0 <= value a.
Proof. intros E. unfold value. rewrite E. pose proof (eval_5 _ (wf_length _ Ha) (wf_digits _ Ha)). split; [done|cbn; lia]. Qed.
Lemma value_nonpos : sign a = -1 -> value a = - eval (digits a) /\ value a <= 0.
Proof. intros E. unfold value. rewrite E. pose proof (eval_5 _ (wf_length _ Ha) (wf_digits _ Ha)). split; [done|cbn; lia]. Qed.
End TwoNumbers.
(** Two numbers of one value and different signs are the two zeros. *)
Lemma Compare_ok a b : wf a -> wf b -> value a <> value b \/ sign a = sign b -> Compare a b = order_of (value a ?= value b).
Proof.
  intros Ha Hb H. unfold Compare. pose proof (eval_5 _ (wf_length _ Ha) (wf_digits _ Ha)) as Ba.
  pose proof (eval_5 _ (wf_length _ Hb) (wf_digits _ Hb)) as Bb. unfold value in *.
  destruct (wf_sign a Ha) as [Ea|Ea], (wf_sign b Hb) as [Eb|Eb]; rewrite Ea, Eb in *; cbn [Z.eqb Z.ltb Z.compare] in *;
    rewrite ?Compare_loop_ok by done; try done.
  - symmetry. apply order_gt. lia.
  - symmetry. apply order_lt. lia.
  - by rewrite Z.compare_opp.
Qed.
Lemma Compare_zeros a b : wf a -> wf b -> value a = value b -> sign a = -1 -> sign b = 0 ->
  value a = 0 /\ Compare a b = kCFCompareLessThan /\ Compare b a = kCFCompareGreaterThan.
Proof.
  intros Ha Hb E Ea Eb. destruct (value_nonpos a Ha Ea) as [_ Hle]. destruct (value_nonneg b Hb Eb) as [_ Hge].
  split; [lia|]. unfold Compare. by rewrite Ea, Eb.
Qed.
Lemma plain_Compare a b : wf a -> wf b -> plain a -> plain b -> Compare a b = order_of (value a ?= value b).
Proof.
  intros Ha Hb Pa Pb. apply Compare_ok; [done|done|]. destruct (decide (sign a = sign b)) as [|Hne]; [by right|left]. intros E.
  pose proof (eval_5 _ (wf_length _ Ha) (wf_digits _ Ha)). pose proof (eval_5 _ (wf_length _ Hb) (wf_digits _ Hb)). unfold value, plain in *.
  destruct (wf_sign a Ha) as [Ea|Ea], (wf_sign b Hb) as [Eb|Eb]; rewrite Ea, Eb in *; cbn [Z.ltb Z.compare] in E; lia.
Qed.

(** ** Negation and addition *)
Lemma all_zero_ok ds : Forall digit_ok ds -> all_zero ds = (eval ds =? 0).
Proof.
  induction 1 as [|d ds Hd Hds IH]; [done|]. cbn [all_zero eval]. pose proof (eval_bounds ds Hds). unfold digit_ok, nz, B in *.
  destruct (Z.eqb_spec d 0); cbn [negb].
  - rewrite IH. destruct (Z.eqb_spec (eval ds) 0); lia.
  - symmetry. apply Z.eqb_neq. lia.
Qed.
Lemma Neg_ok a : wf a -> wf (Neg a) /\ value (Neg a) = - value a /\ (plain a -> plain (Neg a)).
Proof.
  intros Ha. unfold Neg. rewrite all_zero_ok by apply Ha. destruct (Z.eqb_spec (eval (digits a)) 0) as [E|E]; cbn [negb].
  - split; [done|]. split; [|done]. unfold value. rewrite E. by destruct (sign a <? 0).
  - destruct Ha as [Hl Hd Hs]. unfold plain, value. cbn [digits sign].
    assert (sint 8 (sign a * sign a - 1) = -1 - sign a) as -> by (by destruct Hs as [-> | ->]).
    split; [split; [done|done|cbn [sign]; lia]|].
    destruct Hs as [-> | ->]; cbn [Z.sub Z.ltb Z.compare]; (split; [simpl; lia|done]).
Qed.
(** A sum's digit may be one billion; it is at most that. *)
Definition sum_digit (d : Z) : Prop := 0 <= d <= B.
Lemma Add_loop_ok ds es c : length ds = length es -> Forall digit_ok ds -> Forall digit_ok es -> 0 <= c <= 1 ->
  let (rs, c') := Add_loop ds es c in
  length rs = length ds /\ Forall sum_digit rs /\ 0 <= c' <= 1 /\ eval rs + B ^ Z.of_nat (length ds) * c' = eval ds + eval es + c.
Proof.
  revert es c. induction ds as [|d ds IH]; intros [|e es] c Hl Hd He Hc; try done; [cbn; split; [done|split; [constructor|lia]]|].
  apply Forall_cons in Hd as [Hd Hds], He as [He Hes]. unfold digit_ok in Hd, He. cbn [Add_loop].
  rewrite (wrap_small 32 (d + e + c)) by (unfold B in *; lia). rewrite Z.gtb_ltb. injection Hl as Hl.
  set (p := B ^ Z.of_nat (length ds)) in *. assert (Hp : B ^ Z.of_nat (length (d :: ds)) = B * p)
    by (unfold p; cbn [length]; rewrite Nat2Z.inj_succ, Z.pow_succ_r by lia; done). rewrite Hp. clearbody p.
  destruct (Z.ltb_spec B (d + e + c)) as [Hov|Hov].
  - rewrite wrap_small by (unfold B in *; lia). pose proof (IH es 1 Hl Hds Hes ltac:(lia)) as H.
    destruct (Add_loop ds es 1) as [rs c']. destruct H as (Hlr & Hr & Hc' & E). cbn [eval length].
    split_and!; [by f_equal|constructor; [unfold sum_digit, B in *; lia|done]|lia|lia|]. unfold B in *. lia.
  - pose proof (IH es 0 Hl Hds Hes ltac:(lia)) as H.
    destruct (Add_loop ds es 0) as [rs c']. destruct H as (Hlr & Hr & Hc' & E). cbn [eval length].
    split_and!; [by f_equal|constructor; [unfold sum_digit, B in *; lia|done]|lia|lia|]. unfold B in *. lia.
Qed.
Lemma Difference_loop_ok ds es c : length ds = length es -> Forall digit_ok ds -> Forall digit_ok es -> 0 <= c <= 1 ->
  let (rs, c') := Difference_loop ds es c in
  length rs = length ds /\ Forall digit_ok rs /\ 0 <= c' <= 1 /\ eval rs - B ^ Z.of_nat (length ds) * c' = eval ds - eval es - c.
Proof.
  revert es c. induction ds as [|d ds IH]; intros [|e es] c Hl Hd He Hc; try done; [cbn; split; [done|split; [constructor|lia]]|].
  apply Forall_cons in Hd as [Hd Hds], He as [He Hes]. unfold digit_ok in Hd, He. cbn [Difference_loop]. injection Hl as Hl.
  set (p := B ^ Z.of_nat (length ds)) in *. assert (Hp : B ^ Z.of_nat (length (d :: ds)) = B * p)
    by (unfold p; cbn [length]; rewrite Nat2Z.inj_succ, Z.pow_succ_r by lia; done). rewrite Hp. clearbody p.
  destruct (Z.ltb_spec (d - e - c) 0) as [Hov|Hov];
    [pose proof (IH es 1 Hl Hds Hes ltac:(lia)) as H; destruct (Difference_loop ds es 1) as [rs c']
    |pose proof (IH es 0 Hl Hds Hes ltac:(lia)) as H; destruct (Difference_loop ds es 0) as [rs c']];
    destruct H as (Hlr & Hr & Hc' & E); cbn [eval length]; (rewrite wrap_small by (unfold B in *; lia));
    (split_and!; [by f_equal|constructor; [unfold digit_ok, B in *; lia|done]|lia|lia|unfold B in *; lia]).
Qed.
(** What an addition leaves: a number whose digits may be one billion, and the
    carry out of the last digit, which together are worth [x]. *)
Record sum_of (r : BigNum) (carry x : Z) : Prop := {
  so_length : length (digits r) = 5%nat;
  so_digits : Forall sum_digit (digits r);
  so_sign : sign r = 0 \/ sign r = -1;
  so_carry : 0 <= carry <= 1;
  so_value : value r + (1 + 2 * sign r) * carry * 10 ^ 45 = x;
}.
Lemma sum_wf r carry x : sum_of r carry x -> ~ In B (digits r) -> wf r.
Proof.
  intros [Hl Hd Hs _ _] Hn. split; [done| |done]. rewrite Forall_forall in *. intros d Hin.
  pose proof (Hd d Hin). unfold sum_digit, digit_ok in *. assert (d <> B) by (intros ->; by apply Hn, list_elem_of_In). unfold B in *. lia.
Qed.
Lemma digit_sum d : digit_ok d -> sum_digit d.
Proof. unfold digit_ok, sum_digit. lia. Qed.
Lemma same_sign_ok a b : wf a -> wf b -> sign a = sign b -> sum_of (fst (Add a b)) (snd (Add a b)) (value a + value b).
Proof.
  intros [Ha Hda Hsa] [Hb Hdb Hsb] E. unfold Add. rewrite E, Z.eqb_refl.
  pose proof (Add_loop_ok (digits a) (digits b) 0 ltac:(congruence) Hda Hdb ltac:(lia)) as H.
  destruct (Add_loop (digits a) (digits b) 0) as [rs c]. destruct H as (Hl & Hd & Hc & Hv). rewrite Ha in Hl, Hv.
  change (B ^ Z.of_nat 5) with (10 ^ 45) in Hv. split; cbn [fst snd digits sign]; try done.
  unfold value. cbn [digits sign]. rewrite E. destruct Hsb as [-> | ->]; cbn [Z.ltb Z.compare]; lia.
Qed.
Lemma difference_ok x y sgn : wf x -> wf y -> eval (digits y) <= eval (digits x) -> sgn = 0 \/ sgn = -1 ->
  let (rs, carry) := Difference_loop (digits x) (digits y) 0 in
  carry = 0 /\ wf (Big rs sgn) /\ eval rs = eval (digits x) - eval (digits y).
Proof.
  intros [Hx Hdx Hsx] [Hy Hdy Hsy] Hle Hs.
  pose proof (Difference_loop_ok (digits x) (digits y) 0 ltac:(congruence) Hdx Hdy ltac:(lia)) as H.
  destruct (Difference_loop (digits x) (digits y) 0) as [rs c]. destruct H as (Hl & Hd & Hc & Hv). rewrite Hx in Hl, Hv.
  change (B ^ Z.of_nat 5) with (10 ^ 45) in Hv. pose proof (eval_5 rs Hl Hd). pose proof (eval_5 _ Hx Hdx). pose proof (eval_5 _ Hy Hdy).
  assert (c = 0) as -> by lia. split; [done|]. split; [by split|lia].
Qed.
Lemma other_sign_ok a b : wf a -> wf b -> sign a <> sign b ->
  wf (fst (Add a b)) /\ snd (Add a b) = 0 /\ value (fst (Add a b)) = value a + value b.
Proof.
  intros Ha Hb E. unfold Add. apply Z.eqb_neq in E as Ee. rewrite Ee, AbsoluteLessThan_ok by done.
  destruct (Z.ltb_spec (eval (digits a)) (eval (digits b))) as [Hlt|Hge].
  - pose proof (difference_ok b a (if sign b <? 0 then -1 else 0) Hb Ha ltac:(lia) ltac:(destruct (sign b <? 0); auto)) as H.
    destruct (Difference_loop _ _ 0) as [rs c]. destruct H as (-> & Hwf & Hv). cbn [fst snd]. split; [done|]. split; [done|].
    unfold value. cbn [digits sign]. rewrite Hv. pose proof (wf_sign a Ha). pose proof (wf_sign b Hb).
    destruct (Z.ltb_spec (sign a) 0), (Z.ltb_spec (sign b) 0); cbn [Z.ltb Z.compare]; lia.
  - pose proof (difference_ok a b (if sign a <? 0 then -1 else 0) Ha Hb ltac:(lia) ltac:(destruct (sign a <? 0); auto)) as H.
    destruct (Difference_loop _ _ 0) as [rs c]. destruct H as (-> & Hwf & Hv). cbn [fst snd]. split; [done|]. split; [done|].
    unfold value. cbn [digits sign]. rewrite Hv. pose proof (wf_sign a Ha). pose proof (wf_sign b Hb).
    destruct (Z.ltb_spec (sign a) 0), (Z.ltb_spec (sign b) 0); cbn [Z.ltb Z.compare]; lia.
Qed.
Lemma Add_ok a b : wf a -> wf b -> sum_of (fst (Add a b)) (snd (Add a b)) (value a + value b).
Proof.
  intros Ha Hb. destruct (decide (sign a = sign b)) as [E|E]; [by apply same_sign_ok|].
  destruct (other_sign_ok a b Ha Hb E) as (Hwf & -> & <-). destruct Hwf as [Hl Hd Hs].
  split; [done|eapply Forall_impl; [exact Hd|apply digit_sum]|done|lia|lia].
Qed.

(** ** Back to numbers of machine types *)
Definition type_width (t : CFNumberType) : option Z :=
  match t with
  | kCFNumberSInt8Type | kCFNumberCharType => Some 8
  | kCFNumberSInt16Type | kCFNumberShortType => Some 16
  | kCFNumberSInt32Type | kCFNumberIntType => Some 32
  | kCFNumberSInt64Type | kCFNumberLongType | kCFNumberLongLongType | kCFNumberCFIndexType | kCFNumberNSIntegerType => Some 64
  | kCFNumberSInt128Type => Some 128
  | _ => None
  end.
Definition in_range (w x : Z) : Prop := - 2 ^ (w - 1) <= x < 2 ^ (w - 1).
Lemma sint_in_range w x : 0 < w -> in_range w x -> sint w x = x.
Proof. intros Hw Hx. by apply sint_eq_iff. Qed.
Lemma Init_signed x :
  (in_range 8 x -> let n := InitWithInt8 x in wf n /\ plain n /\ value n = x) /\
  (in_range 16 x -> let n := InitWithInt16 x in wf n /\ plain n /\ value n = x) /\
  (in_range 32 x -> let n := InitWithInt32 x in wf n /\ plain n /\ value n = x) /\
  (in_range 64 x -> let n := InitWithInt64 x in wf n /\ plain n /\ value n = x) /\
  (in_range 128 x -> let n := InitWithInt128 x in wf n /\ plain n /\ value n = x).
Proof.
  unfold InitWithInt8, InitWithInt16, InitWithInt32, InitWithInt64, InitWithInt128.
  split_and!; intros Hx; rewrite magnitude_abs by done; apply represents_signed; unfold in_range in Hx;
    [apply one_digit|apply one_digit|apply split_32_ok|apply split_64_ok|apply split_128_ok]; lia.
Qed.
Lemma Init_unsigned x :
  (in_word 8 x -> let n := InitWithUInt8 x in wf n /\ plain n /\ value n = x) /\
  (in_word 16 x -> let n := InitWithUInt16 x in wf n /\ plain n /\ value n = x) /\
  (in_word 32 x -> let n := InitWithUInt32 x in wf n /\ plain n /\ value n = x) /\
  (in_word 64 x -> let n := InitWithUInt64 x in wf n /\ plain n /\ value n = x) /\
  (in_word 128 x -> let n := InitWithUInt128 x in wf n /\ plain n /\ value n = x).
Proof.
  unfold InitWithUInt8, InitWithUInt16, InitWithUInt32, InitWithUInt64, InitWithUInt128.
  split_and!; intros Hx; unfold in_word in Hx; rewrite wrap_small by done; apply represents_unsigned;
    [apply one_digit|apply one_digit|apply split_32_ok|apply split_64_ok|apply split_128_ok]; lia.
Qed.
Lemma order_le x y : (kCFCompareLessThan =? order_of (x ?= y)) || (kCFCompareEqualTo =? order_of (x ?= y)) = (x <=? y).
Proof. unfold Z.leb. by destruct (x ?= y). Qed.
Lemma order_ge x y : negb (kCFCompareLessThan =? order_of (x ?= y)) = (y <=? x).
Proof. rewrite Z.leb_antisym. unfold Z.ltb. by destruct (x ?= y). Qed.
Lemma fits_ok n maxlimit minlimit : wf n -> plain n ->
  wf maxlimit -> plain maxlimit -> wf minlimit -> plain minlimit ->
  fits n maxlimit minlimit = (value n <=? value maxlimit) && (value minlimit <=? value n).
Proof. intros Hn Pn Hx Px Hm Pm. unfold fits. rewrite !plain_Compare by done. by rewrite order_le, order_ge. Qed.
Lemma limits_ok w mx mn : wf mx /\ plain mx /\ value mx = INT_MAX w -> wf mn /\ plain mn /\ value mn = INT_MIN w ->
  forall n, wf n -> plain n -> fits n mx mn = true <-> in_range w (value n).
Proof.
  intros (Hx & Px & Ex) (Hm & Pm & Em) n Hn Pn. rewrite fits_ok, Ex, Em by done.
  unfold INT_MAX, INT_MIN, in_range. rewrite andb_true_iff, !Z.leb_le. lia.
Qed.
Lemma fits_widths n : wf n -> plain n ->
  (fits n (InitWithInt32 (INT_MAX 32)) (InitWithInt32 (INT_MIN 32)) = true <-> in_range 32 (value n)) /\
  (fits n (InitWithInt64 (INT_MAX 64)) (InitWithInt64 (INT_MIN 64)) = true <-> in_range 64 (value n)) /\
  (fits n (InitWithInt128 (INT_MAX 128)) (InitWithInt128 (INT_MIN 128)) = true <-> in_range 128 (value n)).
Proof.
  intros Hn Hp. pose proof (fun x => proj1 (proj2 (proj2 (Init_signed x)))) as S32.
  pose proof (fun x => proj1 (proj2 (proj2 (proj2 (Init_signed x))))) as S64.
  pose proof (fun x => proj2 (proj2 (proj2 (proj2 (Init_signed x))))) as S128.
  assert (R : forall w, 1 < w -> in_range w (INT_MAX w) /\ in_range w (INT_MIN w)).
  { intros w Hw. unfold in_range, INT_MAX, INT_MIN. pose proof (pow2_pos (w - 1) ltac:(lia)). lia. }
  split_and!.
  - apply (limits_ok 32); [apply S32, R; lia|apply S32, R; lia|exact Hn|exact Hp].
  - apply (limits_ok 64); [apply S64, R; lia|apply S64, R; lia|exact Hn|exact Hp].
  - apply (limits_ok 128); [apply S128, R; lia|apply S128, R; lia|exact Hn|exact Hp].
Qed.
(** The number created has a type that holds its value. *)
Lemma CreateWithBigNum_ok n : wf n ->
  match CreateWithBigNum n with
  | Some (t, v) => v = value n /\ exists w, type_width t = Some w /\ in_range w v
  | None => ~ in_range 128 (value n)
  end.
Proof.
  intros Hwf. destruct (Gets_spec n Hwf) as (G128 & _ & G64 & G32 & Gs). unfold CreateWithBigNum.
  assert (Habs : Z.abs (value n) = eval (digits n)).
  { pose proof (eval_5 _ (wf_length _ Hwf) (wf_digits _ Hwf)). unfold value. destruct (sign n <? 0); lia. }
  destruct (wf_explicit n Hwf) as (d0 & d1 & d2 & d3 & d4 & He). pose proof (explicit_eval _ _ _ _ _ _ He) as Ev.
  assert (Hp : eval (digits n) <> 0 -> plain n) by (intros Hne Hz; by destruct (Hne Hz)).
  destruct He as [E H0 H1 H2 H3 H4]. unfold dig. rewrite E. cbn [nth]. clear E.
  destruct ((0 =? d4) && (0 =? d3) && (0 =? d2) && (0 =? d1)) eqn:Esmall; cbn [andb].
  - rewrite !andb_true_iff, !Z.eqb_eq in Esmall. destruct Esmall as [[[<- <-] <-] <-].
    destruct Gs as (G16 & G8 & _); [lia|]. destruct G32 as [G32 _]; [lia|]. unfold INT_MAX.
    destruct (Z.leb_spec d0 (2 ^ (8 - 1) - 1)) as [Hle|Hgt].
    { assert (in_range 8 (value n)) by (unfold in_range; lia). rewrite G8, sint_in_range by done. split; [done|by exists 8]. }
    destruct (Z.leb_spec d0 (2 ^ (16 - 1) - 1)) as [Hle|Hgt2].
    { assert (in_range 16 (value n)) by (unfold in_range; lia). rewrite G16, sint_in_range by done. split; [done|by exists 16]. }
    destruct (fits_widths n Hwf (Hp ltac:(lia))) as (F32 & _). rewrite !Z.eqb_refl. cbn [andb].
    assert (in_range 32 (value n)) by (unfold in_range; lia). unfold INT_MAX in F32. rewrite (proj2 F32) by done.
    rewrite G32, sint_in_range by done. split; [done|by exists 32].
  - destruct (fits_widths n Hwf) as (F32 & F64 & F128).
    { apply Hp. intros E0. assert (d1 = 0 /\ d2 = 0 /\ d3 = 0 /\ d4 = 0) as (-> & -> & -> & ->) by (clear - E0 Ev H0 H1 H2 H3 H4; lia). done. }
    destruct ((0 =? d4) && (0 =? d3) && (0 =? d2) && fits n (InitWithInt32 (INT_MAX 32)) (InitWithInt32 (INT_MIN 32))) eqn:E32.
    { apply andb_prop in E32 as [[[<-%Z.eqb_eq <-%Z.eqb_eq]%andb_prop <-%Z.eqb_eq]%andb_prop Hr%F32]. destruct G32 as [-> _]; [lia|].
      rewrite sint_in_range by done. split; [done|by exists 32]. }
    destruct ((0 =? d4) && (0 =? d3) && fits n (InitWithInt64 (INT_MAX 64)) (InitWithInt64 (INT_MIN 64))) eqn:E64.
    { apply andb_prop in E64 as [[<-%Z.eqb_eq <-%Z.eqb_eq]%andb_prop Hr%F64]. destruct G64 as [-> _]; [lia|].
      rewrite sint_in_range by done. split; [done|by exists 64]. }
    destruct (fits n (InitWithInt128 (INT_MAX 128)) (InitWithInt128 (INT_MIN 128))) eqn:Ef.
    { pose proof (proj1 F128 eq_refl). rewrite G128, sint_in_range by done. split; [done|by exists 128]. }
    intros Hr. by apply F128 in Hr.
Qed.

(** ** Decimal text *)
Definition digit_chr (c : Z) : Prop := 48 <= c <= 57.
(** The number a string of digits spells. *)
Definition val (s : list Z) : Z := atol_digits s 0.
Abbreviation pow10 s := (10 ^ Z.of_nat (length s)).
Lemma is_digit_ok c : digit_chr c -> is_digit c = true.
Proof. unfold digit_chr, is_digit. intros. apply andb_true_iff. rewrite !Z.leb_le. lia. Qed.
Lemma digit_nonzero s : Forall digit_chr s -> Forall (fun c => c <> 0) s.
Proof. intros. eapply Forall_impl; [done|]. unfold digit_chr. lia. Qed.
Lemma pow10_cons c (s : list Z) : pow10 (c :: s) = 10 * pow10 s.
Proof. cbn [length]. rewrite Nat2Z.inj_succ, Z.pow_succ_r by lia. done. Qed.
Lemma pow10_pos (s : list Z) : 0 < pow10 s.
Proof. apply Z.pow_pos_nonneg; lia. Qed.
Lemma atol_digits_acc s acc : Forall digit_chr s -> atol_digits s acc = acc * pow10 s + val s.
Proof.
  intros Hs. revert acc. unfold val. induction Hs as [|c s Hc Hs IH]; intros acc; [cbn; lia|].
  rewrite pow10_cons. cbn [atol_digits]. rewrite (is_digit_ok c Hc), (IH (10 * acc + _)), (IH (10 * 0 + _)). lia.
Qed.
Lemma val_cons c s : Forall digit_chr (c :: s) -> val (c :: s) = (c - 48) * pow10 s + val s.
Proof. intros [Hc Hs]%Forall_cons. unfold val at 1. cbn [atol_digits]. rewrite (is_digit_ok c Hc), atol_digits_acc by done. unfold chr_0. lia. Qed.
Lemma val_app s t : Forall digit_chr s -> Forall digit_chr t -> val (s ++ t) = val s * pow10 t + val t.
Proof.
  intros Hs Ht. induction Hs as [|c s Hc Hs IH]; [change (val []) with 0; cbn [app]; lia|]. cbn [app].
  rewrite !val_cons by (by try constructor; try apply Forall_app). rewrite IH, length_app, Nat2Z.inj_add, Z.pow_add_r by lia. lia.
Qed.
Lemma val_bounds s : Forall digit_chr s -> 0 <= val s < pow10 s.
Proof.
  intros Hs. induction Hs as [|c s Hc Hs IH]; [cbn; lia|]. rewrite val_cons, pow10_cons by (by constructor).
  unfold digit_chr in Hc. nia.
Qed.
Lemma val_zeros k s : Forall digit_chr s -> val (replicate k chr_0 ++ s) = val s.
Proof.
  intros Hs. induction k as [|k IH]; [done|]. cbn [replicate app]. rewrite val_cons, IH; [unfold chr_0; lia|].
  constructor; [unfold digit_chr, chr_0; lia|]. apply Forall_app. split; [|done]. apply Forall_replicate. unfold digit_chr, chr_0. lia.
Qed.
(** [atol] of a few digits, none of them lost to the limits of [long]. *)
Lemma atol_val s : Forall digit_chr s -> (length s <= 18)%nat -> atol s = val s.
Proof.
  intros Hs Hl. pose proof (val_bounds s Hs) as Hb.
  assert (pow10 s <= 10 ^ 18) by (apply Z.pow_le_mono_r; lia).
  destruct Hs as [|c s Hc Hs]; [done|]. unfold atol. cbn [skip_space]. unfold digit_chr in Hc.
  assert (is_space c = false) as -> by (unfold is_space; apply orb_false_iff; rewrite andb_false_iff, Z.eqb_neq, !Z.leb_gt; lia).
  unfold chr_minus, chr_plus. destruct (Z.eqb_spec c 45); [lia|]. destruct (Z.eqb_spec c 43); [lia|].
  change (atol_digits (c :: s) 0) with (val (c :: s)). apply Z.min_r. unfold INT_MAX. lia.
Qed.

(** *** Leading zeros *)
Lemma skip_zeros_spec s : exists k, s = replicate k chr_0 ++ skip_zeros s /\ nth 0 (skip_zeros s) 0 <> chr_0.
Proof.
  induction s as [|c s (k & IH & Hn)]; [by exists 0%nat|]. cbn [skip_zeros]. destruct (Z.eqb_spec c chr_0) as [->|Hne].
  - exists (S k). split; [cbn; by f_equal|done].
  - by exists 0%nat.
Qed.
Lemma skip_zeros_replicate k s : skip_zeros (replicate k chr_0 ++ s) = skip_zeros s.
Proof. by induction k. Qed.
Lemma skip_zeros_stop s : nth 0 s 0 <> chr_0 -> skip_zeros s = s.
Proof. destruct s as [|c s]; [done|]. cbn. by destruct (Z.eqb_spec c chr_0). Qed.
Lemma skip_zeros_chr s : Forall digit_chr s -> Forall digit_chr (skip_zeros s).
Proof. intros Hs. destruct (skip_zeros_spec s) as (k & E & _). rewrite E in Hs. by apply Forall_app in Hs as [_ ?]. Qed.
Lemma skip_zeros_val s : Forall digit_chr s -> val (skip_zeros s) = val s.
Proof. intros Hs. destruct (skip_zeros_spec s) as (k & E & _). rewrite E at 2. by rewrite val_zeros by (by apply skip_zeros_chr). Qed.
Lemma skip_zeros_length s : (length (skip_zeros s) <= length s)%nat.
Proof. destruct (skip_zeros_spec s) as (k & E & _). rewrite E at 2. rewrite length_app. lia. Qed.
Lemma skip_zeros_end s : Forall digit_chr s -> skip_zeros (s ++ [0]) = skip_zeros s ++ [0].
Proof. induction 1 as [|c s Hc Hs IH]; [done|]. cbn [app skip_zeros]. by destruct (c =? chr_0). Qed.

(** *** Printing *)
Lemma decimal_spec k v : 0 <= v < 10 ^ Z.of_nat k ->
  length (decimal k v) = k /\ Forall digit_chr (decimal k v) /\ val (decimal k v) = v.
Proof.
  revert v. induction k as [|k IH]; intros v Hv; [cbn in *; split; [done|split; [constructor|cbn; lia]]|].
  rewrite Nat2Z.inj_succ, Z.pow_succ_r in Hv by lia. cbn [decimal].
  destruct (IH (v / 10)) as (Hl & Hc & E); [split; [apply Z.div_pos; lia|apply Z.div_lt_upper_bound; lia]|].
  assert (Hd : Forall digit_chr [chr_0 + v mod 10]) by (repeat constructor; unfold chr_0; dlia).
  split; [rewrite length_app, Hl; cbn; lia|]. split; [by apply Forall_app|].
  rewrite val_app, E, val_cons by done. unfold chr_0, val. cbn. dlia.
Qed.
Lemma format_spec d : digit_ok d -> length (format_09u d) = 9%nat /\ Forall digit_chr (format_09u d) /\ val (format_09u d) = d.
Proof. intros Hd. unfold format_09u. destruct (Z.ltb_spec d B); [|unfold digit_ok in Hd; lia]. by apply decimal_spec. Qed.
Lemma digit_text_spec n : wf n -> exists T, digit_text n = T ++ [0] /\ length T = 45%nat /\ Forall digit_chr T /\ val T = eval (digits n).
Proof.
  intros [Hl Hd _]. unfold digit_text, dig. destruct (digits n) as [|d0 [|d1 [|d2 [|d3 [|d4 [|]]]]]]; try discriminate Hl. cbn [nth].
  rewrite !Forall_cons in Hd. destruct Hd as (H0 & H1 & H2 & H3 & H4 & _).
  destruct (format_spec d0 H0) as (L0 & C0 & V0), (format_spec d1 H1) as (L1 & C1 & V1), (format_spec d2 H2) as (L2 & C2 & V2),
    (format_spec d3 H3) as (L3 & C3 & V3), (format_spec d4 H4) as (L4 & C4 & V4).
  rewrite take_ge by (rewrite !length_app, L0, L1, L2, L3, L4; done). eexists. split; [done|].
  split; [rewrite !length_app, L0, L1, L2, L3, L4; done|]. split; [by rewrite !Forall_app|].
  rewrite !val_app by (by rewrite ?Forall_app). rewrite !length_app, V0, V1, V2, V3, V4, L0, L1, L2, L3.
  cbn [eval Nat.add]. unfold B. lia.
Qed.
Lemma c_string_stop s rest : Forall (fun c => c <> 0) s -> c_string (s ++ 0 :: rest) = s.
Proof. induction 1 as [|c s Hc Hs IH]; [done|]. cbn [app c_string]. destruct (Z.eqb_spec c 0); [done|]. by f_equal. Qed.
Lemma strlcpy_fits buffer s rest : Forall (fun c => c <> 0) s -> (length s < length buffer)%nat ->
  exists rest', strlcpy buffer (s ++ 0 :: rest) = s ++ 0 :: rest' /\ length (s ++ 0 :: rest') = length buffer.
Proof.
  intros Hs Hl. destruct buffer as [|b0 buffer]; [cbn in Hl; lia|]. set (buf := b0 :: buffer) in *.
  change (strlcpy buf (s ++ 0 :: rest)) with
    (let k := Nat.min (length (c_string (s ++ 0 :: rest))) (length buf - 1) in take k (c_string (s ++ 0 :: rest)) ++ [0] ++ drop (k + 1) buf).
  rewrite c_string_stop by done. cbn zeta. rewrite Nat.min_l by lia. rewrite take_ge by done.
  exists (drop (length s + 1) buf). split; [done|]. rewrite length_app. cbn [length]. rewrite length_drop. lia.
Qed.
(** The digits written: with leading zeros, or without any but a single zero. *)
Definition shortest (s : list Z) : Prop := s = [chr_0] \/ nth 0 s 0 <> chr_0 /\ s <> [].
Lemma nth_zero_digit s rest : Forall digit_chr s -> s <> [] -> nth 0 (s ++ rest) 0 <> 0.
Proof. intros Hs Hn. destruct Hs as [|c s Hc _]; [done|]. cbn. unfold digit_chr in Hc. lia. Qed.
Lemma zeros_only T : Forall digit_chr T -> skip_zeros T = [] -> T = replicate (length T) chr_0.
Proof.
  intros HT E. destruct (skip_zeros_spec T) as (k & ET & _). rewrite E, app_nil_r in ET.
  rewrite ET at 2. by rewrite length_replicate.
Qed.
Lemma ToCString_digits_spec n lz buffer : wf n -> (46 <= length buffer)%nat ->
  exists s rest, ToCString_digits n lz buffer = s ++ 0 :: rest /\ length (s ++ 0 :: rest) = length buffer /\
    Forall digit_chr s /\ s <> [] /\ val s = eval (digits n) /\ (length (skip_zeros s) <= 45)%nat /\
    if lz then rest = [] else shortest s.
Proof.
  intros Hn Hb. destruct (digit_text_spec n Hn) as (T & ET & HT & CT & VT). unfold ToCString_digits. rewrite ET.
  pose proof (skip_zeros_length T) as HlT. rewrite length_app, HT. cbn [length Nat.add]. destruct lz.
  - rewrite (Nat.min_l 46) by lia. change (45 + 1 - 46)%nat with 0%nat. rewrite drop_0, app_assoc.
    exists (replicate (length buffer - 46) chr_0 ++ T), []. split; [done|].
    assert (Hz : Forall digit_chr (replicate (length buffer - 46) chr_0)) by (apply Forall_replicate; unfold digit_chr, chr_0; lia).
    split; [rewrite !length_app, length_replicate; cbn; lia|]. split; [by apply Forall_app|].
    split; [intros [_ ->]%app_nil; done|]. split; [by rewrite val_zeros|]. split; [rewrite skip_zeros_replicate; lia|reflexivity].
  - rewrite skip_zeros_end by done. pose proof (skip_zeros_chr T CT) as CS. pose proof (skip_zeros_val T CT) as VS.
    destruct (skip_zeros T) as [|c S] eqn:ES.
    + cbn [app nth Z.eqb length Nat.sub]. rewrite (zeros_only T CT ES), HT.
      change (drop 44 (replicate 45 chr_0 ++ [0])) with ([chr_0] ++ [0]).
      destruct (strlcpy_fits buffer [chr_0] []) as (rest & -> & Hlr); [by repeat constructor|cbn; lia|].
      exists [chr_0], rest. split; [done|]. split; [done|]. split; [repeat constructor; unfold chr_0; lia|]. split; [done|].
      split; [rewrite <- VT, <- VS; done|]. split; [cbn; lia|by left].
    + assert (nth 0 ((c :: S) ++ [0]) 0 <> 0) as Hn0 by (by apply nth_zero_digit).
      destruct (Z.eqb_spec (nth 0 ((c :: S) ++ [0]) 0) 0) as [E0|_]; [by destruct Hn0|].
      destruct (strlcpy_fits buffer (c :: S) []) as (rest & -> & Hlr); [by apply digit_nonzero|lia|].
      destruct (skip_zeros_spec T) as (_ & _ & Hhead). rewrite ES in Hhead.
      exists (c :: S), rest. split; [done|]. split; [done|]. split; [done|]. split; [done|]. split; [by rewrite VS|].
      split; [rewrite skip_zeros_stop by done; lia|]. by right.
Qed.

(** *** Parsing *)
Lemma eval_app ds es : eval (ds ++ es) = eval ds + B ^ Z.of_nat (length ds) * eval es.
Proof.
  induction ds as [|d ds IH]; [cbn [app eval length]; change (B ^ Z.of_nat 0) with 1; lia|]. cbn [app eval length].
  rewrite IH, Nat2Z.inj_succ, Z.pow_succ_r by lia. lia.
Qed.
Lemma store_digit low d k : <[length low := d]> (low ++ replicate (S k) 0) = (low ++ [d]) ++ replicate k 0.
Proof. rewrite insert_app_r_alt by lia. rewrite Nat.sub_diag, <- app_assoc. done. Qed.
(** What the loop keeps: [low] has the digits found, worth with the rest of the
    text what the whole text was worth. *)
Lemma FromCString_loop_ok fuel w low k : Forall digit_chr w -> Forall digit_ok low ->
  (length low + S k = 5)%nat -> (length w <= 9 * S k)%nat -> (k < fuel)%nat ->
  exists w' low' k', FromCString_loop fuel w (length low) (low ++ replicate (S k) 0) = (w', length low', low' ++ replicate (S k') 0) /\
    Forall digit_chr w' /\ Forall digit_ok low' /\ (length low' + S k' = 5)%nat /\ (length w' <= 9)%nat /\
    eval low' + B ^ Z.of_nat (length low') * val w' = eval low + B ^ Z.of_nat (length low) * val w.
Proof.
  revert w low k. induction fuel as [|fuel IH]; intros w low k Hw Hlow Hk Hlen Hf; [lia|]. cbn [FromCString_loop].
  destruct (Nat.ltb_spec (length low + 1) 5), (Nat.ltb_spec 9 (length w)); cbn [andb].
  2-4: exists w, low, k; split_and!; (done || lia).
  set (cut := (length w - 9)%nat). pose proof (take_drop cut w) as Ew.
  assert (Forall digit_chr (take cut w) /\ Forall digit_chr (drop cut w)) as [Ht Hd] by (by rewrite <- Ew, Forall_app in Hw).
  assert (Hld : length (drop cut w) = 9%nat) by (rewrite length_drop; lia). pose proof (val_bounds _ Hd) as Hv. rewrite Hld in Hv.
  assert (Evw : val w = val (take cut w) * 10 ^ 9 + val (drop cut w)) by (rewrite <- Ew at 1; by rewrite val_app, Hld).
  rewrite atol_val by (done || lia). rewrite wrap_small by lia. destruct k as [|k]; [lia|].
  rewrite store_digit. replace (length low + 1)%nat with (length (low ++ [val (drop cut w)])) by (rewrite length_app; done).
  destruct (IH (take cut w) (low ++ [val (drop cut w)]) k) as (w' & low' & k' & E & Hw' & Hlow' & Hk' & Hlen' & Ev).
  - done.
  - apply Forall_app. split; [done|]. constructor; [unfold digit_ok, B; lia|constructor].
  - rewrite length_app. cbn. lia.
  - rewrite length_take. lia.
  - lia.
  - exists w', low', k'. split_and!; try done. rewrite Ev, eval_app, length_app, Evw. cbn [eval length]. rewrite Nat2Z.inj_add, Z.pow_add_r by lia.
    change (B ^ Z.of_nat 1) with (10 ^ 9). lia.
Qed.
Lemma FromCString_digits_ok sgn w : Forall digit_chr w -> (length (skip_zeros w) <= 45)%nat -> sgn = 0 \/ sgn = -1 ->
  let n := FromCString_digits sgn w in wf n /\ sign n = sgn /\ eval (digits n) = val w.
Proof.
  intros Hw Hl Hs. cbn zeta. unfold FromCString_digits. rewrite <- (skip_zeros_val w Hw). pose proof (skip_zeros_chr w Hw) as Hc.
  revert Hl Hc. generalize (skip_zeros w). clear w Hw. intros w Hl Hw. destruct (Nat.eqb_spec (length w) 0) as [E|E].
  - apply nil_length_inv in E as ->. split; [split; [done|by repeat constructor|done]|done].
  - destruct (FromCString_loop_ok 5 w [] 4 Hw ltac:(constructor)) as (w' & low & k & E' & Hw' & Hlow & Hk & Hlen & Ev); [done|lia|lia|].
    change (FromCString_loop 5 w (length []) ([] ++ replicate 5 0)) with (FromCString_loop 5 w 0 (digits zero)) in E'. rewrite E'.
    pose proof (val_bounds w' Hw') as Hv. assert (pow10 w' <= 10 ^ 9) by (apply Z.pow_le_mono_r; lia).
    rewrite atol_val by (done || lia). rewrite wrap_small by lia. rewrite store_digit.
    split; [|split; [done|]]; cbn [digits sign].
    + split; cbn [digits sign]; [rewrite !length_app, length_replicate; cbn; lia| |done].
      rewrite !Forall_app. split; [split; [done|]|apply Forall_replicate; unfold digit_ok, B; lia].
      constructor; [unfold digit_ok, B; lia|constructor].
    + rewrite !eval_app, eval_zeros. cbn [eval] in *. change (B ^ Z.of_nat (length [])) with 1 in Ev. lia.
Qed.
Lemma sint_range w x : 0 < w -> in_range w (sint w x).
Proof.
  intros Hw. unfold in_range, sint. pose proof (wrap_range w x ltac:(lia)).
  assert (2 ^ w = 2 * 2 ^ (w - 1)) by (rewrite <- Z.pow_succ_r by lia; f_equal; lia).
  destruct (Z.ltb_spec (wrap w x) (2 ^ (w - 1))); lia.
Qed.
Lemma InitWithBytes_ok r bytes t :
  match type_width t with
  | Some w => let n := InitWithBytes r bytes t in wf n /\ plain n /\
      value n = if w =? 128 then sint 128 (unsigned_at 64 bytes 8 + Z.shiftl (signed_at 64 bytes 0) 64) else signed_at w bytes 0
  | None => InitWithBytes r bytes t = r
  end.
Proof.
  destruct t; cbn [type_width InitWithBytes]; try done; cbn [Z.eqb Pos.eqb];
    match goal with |- context [value _ = ?v] => destruct (Init_signed v) as (H8 & H16 & H32 & H64 & H128) end;
    (apply H8 + apply H16 + apply H32 + apply H64 + apply H128); by apply sint_range.
Qed.
(** A value of [w] bits comes back from the bytes of its two's complement. *)
Definition gets (w : Z) n : Z :=
  if w =? 8 then GetInt8 n else if w =? 16 then GetInt16 n else if w =? 32 then GetInt32 n else if w =? 64 then GetInt64 n else GetInt128 n.
Definition inits (w x : Z) : BigNum :=
  if w =? 8 then InitWithInt8 x else if w =? 16 then InitWithInt16 x else if w =? 32 then InitWithInt32 x
  else if w =? 64 then InitWithInt64 x else InitWithInt128 x.
Definition getus (w : Z) n : Z :=
  if w =? 8 then GetUInt8 n else if w =? 16 then GetUInt16 n else if w =? 32 then GetUInt32 n else if w =? 64 then GetUInt64 n else GetUInt128 n.
Definition initus (w x : Z) : BigNum :=
  if w =? 8 then InitWithUInt8 x else if w =? 16 then InitWithUInt16 x else if w =? 32 then InitWithUInt32 x
  else if w =? 64 then InitWithUInt64 x else InitWithUInt128 x.
Definition widths : list Z := [8; 16; 32; 64; 128].

Ltac each_width Hw := unfold widths in Hw; cbn [In] in Hw; repeat destruct Hw as [<-|Hw]; [..|done].
Lemma inits_ok w x : In w widths -> in_range w x -> wf (inits w x) /\ plain (inits w x) /\ value (inits w x) = x.
Proof. intros Hw. destruct (Init_signed x) as (H8 & H16 & H32 & H64 & H128). by each_width Hw. Qed.
Lemma initus_ok w x : In w widths -> in_word w x -> wf (initus w x) /\ plain (initus w x) /\ value (initus w x) = x.
Proof. intros Hw. destruct (Init_unsigned x) as (H8 & H16 & H32 & H64 & H128). by each_width Hw. Qed.
Lemma gets_ok w n : In w widths -> wf n -> in_range w (value n) -> gets w n = value n.
Proof.
  intros Hw Hn Hx. rewrite <- (sint_in_range w (value n)); [|each_width Hw; done|done].
  destruct (Gets_spec n Hn) as (G128 & _ & G64 & G32 & Gs). unfold in_range in Hx.
  each_width Hw; cbn [gets Z.eqb Pos.eqb]; [apply Gs|apply Gs|apply G32|apply G64|apply G128]; lia.
Qed.
Lemma getus_ok w n : In w widths -> wf n -> in_word w (value n) -> getus w n = value n.
Proof.
  intros Hw Hn Hx. pose proof (eval_5 _ (wf_length _ Hn) (wf_digits _ Hn)) as Hb. unfold in_word in Hx.
  assert (E : eval (digits n) = value n) by (unfold value in *; destruct (sign n <? 0); lia).
  rewrite <- (wrap_small w (value n)) by done. rewrite <- E.
  destruct (Gets_spec n Hn) as (_ & G128 & G64 & G32 & Gs).
  each_width Hw; cbn [getus Z.eqb Pos.eqb]; [apply Gs|apply Gs|apply G32|apply G64|apply G128]; lia.
Qed.

(** Conversions to and from machine integers and typed bytes. *)
Lemma conversions_ok w x r bytes t n : In w widths -> wf n ->
  (in_range w x -> wf (inits w x) /\ plain (inits w x) /\ value (inits w x) = x /\ gets w (inits w x) = x) /\
  (in_word w x -> wf (initus w x) /\ plain (initus w x) /\ value (initus w x) = x /\ getus w (initus w x) = x) /\
  (in_range w (value n) -> gets w n = value n) /\
  (in_word w (value n) -> getus w n = value n) /\
  match CreateWithBigNum n with
  | Some (t', v) => v = value n /\ exists w', type_width t' = Some w' /\ in_range w' v
  | None => ~ in_range 128 (value n)
  end /\
  match type_width t with
  | Some w' => let n := InitWithBytes r bytes t in wf n /\ plain n /\
      value n = if w' =? 128 then sint 128 (unsigned_at 64 bytes 8 + Z.shiftl (signed_at 64 bytes 0) 64) else signed_at w' bytes 0
  | None => InitWithBytes r bytes t = r
  end.
Proof.
  intros Hw Hn. assert (S : forall n, wf n -> in_range w (value n) -> gets w n = value n) by (intros; by apply gets_ok).
  assert (U : forall n, wf n -> in_word w (value n) -> getus w n = value n) by (intros; by apply getus_ok).
  split_and!; [| |by apply S|by apply U|by apply CreateWithBigNum_ok|apply InitWithBytes_ok].
  - intros Hx. destruct (inits_ok w x Hw Hx) as (Hwf & Hp & Hv). split_and!; try done. rewrite <- Hv at 2. apply S; [done|by rewrite Hv].
  - intros Hx. destruct (initus_ok w x Hw Hx) as (Hwf & Hp & Hv). split_and!; try done. rewrite <- Hv at 2. apply U; [done|by rewrite Hv].
Qed.

(** C39: order, negation and addition of well-formed numbers. Comparing numbers compares their values,
    except that there are two zeros: zero with the sign of the negative numbers, which
    the sum of a negative number and its opposite is, compares as less than zero (see the
    findings). Negation negates, and makes no second zero. The sum of two numbers and the
    carry out are together worth the sum of the values, a carry arising only
    from operands of one sign; the sum is well formed when none of its digits is
    one billion, which the addition lets stand (see the findings); subtraction likewise. *)
Theorem bignum_arithmetic_correct a b : wf a -> wf b ->
  (value a <> value b \/ sign a = sign b -> Compare a b = order_of (value a ?= value b)) /\
  (value a = value b -> sign a = -1 -> sign b = 0 ->
   value a = 0 /\ Compare a b = kCFCompareLessThan /\ Compare b a = kCFCompareGreaterThan) /\
  (wf (Neg a) /\ value (Neg a) = - value a /\ (plain a -> plain (Neg a))) /\
  (let (r, carry) := Add a b in sum_of r carry (value a + value b) /\ (~ In BIG_DIGITS_LIMIT (digits r) -> wf r) /\
     (sign a <> sign b -> carry = 0 /\ wf r)) /\
  (let (r, carry) := Sub a b in sum_of r carry (value a - value b) /\ (~ In BIG_DIGITS_LIMIT (digits r) -> wf r)).
Proof.
  intros Ha Hb. destruct (Neg_ok b Hb) as (Hnb & Evb & _). split_and!.
  - by apply Compare_ok.
  - by apply Compare_zeros.
  - by apply Neg_ok.
  - by apply Neg_ok.
  - by apply Neg_ok.
  - pose proof (Add_ok a b Ha Hb) as H. pose proof (other_sign_ok a b Ha Hb) as Ho. destruct (Add a b) as [r carry]. cbn [fst snd] in *.
    split; [done|]. split; [by apply (sum_wf r carry (value a + value b))|]. intros E. by destruct (Ho E) as (? & ? & _).
  - pose proof (Add_ok a (Neg b) Ha Hnb) as H. rewrite Evb in H. unfold Sub. destruct (Add a (Neg b)) as [r carry]. cbn [fst snd] in *.
    split; [done|]. by apply (sum_wf r carry (value a - value b)).
Qed.

Lemma wf_same a b : wf a -> wf b -> sign a = sign b -> eval (digits a) = eval (digits b) -> a = b.
Proof.
  intros [Ha Hda _] [Hb Hdb _] Es Ee. destruct a as [da sa], b as [db sb]. cbn in *. f_equal; [|done].
  apply eval_inj; try done. congruence.
Qed.
(** Reading a text with its sign. *)
Lemma FromCString_unsigned s rest : Forall digit_chr s -> FromCString (s ++ 0 :: rest) = FromCString_digits 0 s.
Proof.
  intros Hs. unfold FromCString. rewrite c_string_stop by (by apply digit_nonzero).
  destruct Hs as [|c s Hc _]; [done|]. unfold digit_chr, chr_minus, chr_plus in *.
  destruct (Z.eqb_spec c 45); [lia|]. destruct (Z.eqb_spec c 43); [lia|done].
Qed.
Lemma FromCString_plus s rest : Forall digit_chr s -> FromCString (chr_plus :: s ++ 0 :: rest) = FromCString_digits 0 s.
Proof. intros Hs. unfold FromCString. cbn [c_string]. rewrite c_string_stop by (by apply digit_nonzero). done. Qed.
Lemma FromCString_minus s rest : Forall digit_chr s -> FromCString (chr_minus :: s ++ 0 :: rest) = FromCString_digits (-1) s.
Proof. intros Hs. unfold FromCString. cbn [c_string]. rewrite c_string_stop by (by apply digit_nonzero). done. Qed.
Lemma FromCString_ok s rest : Forall digit_chr s -> (length (skip_zeros s) <= 45)%nat ->
  (let m := FromCString (s ++ 0 :: rest) in wf m /\ value m = val s) /\
  (let m := FromCString (chr_plus :: s ++ 0 :: rest) in wf m /\ value m = val s) /\
  (let m := FromCString (chr_minus :: s ++ 0 :: rest) in wf m /\ value m = - val s).
Proof.
  intros Hs Hl. rewrite FromCString_unsigned, FromCString_plus, FromCString_minus by done. unfold value.
  destruct (FromCString_digits_ok 0 s Hs Hl) as (H0 & E0 & V0); [by left|].
  destruct (FromCString_digits_ok (-1) s Hs Hl) as (H1 & E1 & V1); [by right|].
  cbn zeta. rewrite E0, E1, V0, V1. done.
Qed.
Lemma read_back n sgn s : wf n -> sign n = sgn -> Forall digit_chr s -> (length (skip_zeros s) <= 45)%nat -> val s = eval (digits n) ->
  FromCString_digits sgn s = n.
Proof.
  intros Hn Es Hs Hl Hv. destruct (FromCString_digits_ok sgn s Hs Hl) as (Hwf & E & V); [subst; apply Hn|].
  apply wf_same; congruence.
Qed.

(** The sign that is printed. *)
Definition sign_text n (leading_plus : bool) : list Z :=
  if sign n <? 0 then [chr_minus] else if leading_plus then [chr_plus] else [].
(** Printing and reading decimal text. *)
Lemma text_ok n lz lp buffer : wf n -> (47 <= length buffer)%nat ->
  (exists s rest : list Z, let out := sign_text n lp ++ s ++ 0 :: rest in
     ToCString n lz lp buffer = Ok out /\ length out = length buffer /\ FromCString out = n /\
     Forall digit_chr s /\ s <> [] /\ val s = Z.abs (value n) /\ if lz then rest = [] else shortest s) /\
  (forall s rest, Forall digit_chr s -> (length (skip_zeros s) <= 45)%nat ->
     (let m := FromCString (s ++ 0 :: rest) in wf m /\ value m = val s) /\
     (let m := FromCString (chr_plus :: s ++ 0 :: rest) in wf m /\ value m = val s) /\
     (let m := FromCString (chr_minus :: s ++ 0 :: rest) in wf m /\ value m = - val s)).
Proof.
  intros Hn Hb. split; [|intros; by apply FromCString_ok].
  assert (Habs : Z.abs (value n) = eval (digits n)).
  { pose proof (eval_5 _ (wf_length _ Hn) (wf_digits _ Hn)). unfold value. destruct (sign n <? 0); lia. }
  rewrite Habs. destruct buffer as [|b0 buffer]; [cbn in Hb; lia|]. cbn [length] in Hb. unfold ToCString, sign_text.
  assert (Hs : sign n = if sign n <? 0 then -1 else 0) by (by destruct (wf_sign n Hn) as [-> | ->]).
  destruct (sign n <? 0) eqn:Es; [|destruct lp].
  - destruct (ToCString_digits_spec n lz buffer Hn ltac:(lia)) as (s & rest & -> & Hl & Hc & Hne & Hv & Hl45 & Hsh).
    exists s, rest. cbn [app]. split_and!; try done; [cbn [length]; by rewrite Hl|rewrite FromCString_minus by done; by apply read_back].
  - destruct (ToCString_digits_spec n lz buffer Hn ltac:(lia)) as (s & rest & -> & Hl & Hc & Hne & Hv & Hl45 & Hsh).
    exists s, rest. cbn [app]. split_and!; try done; [cbn [length]; by rewrite Hl|rewrite FromCString_plus by done; by apply read_back].
  - destruct (ToCString_digits_spec n lz (b0 :: buffer) Hn ltac:(cbn; lia)) as (s & rest & -> & Hl & Hc & Hne & Hv & Hl45 & Hsh).
    exists s, rest. cbn [app]. split_and!; try done. rewrite FromCString_unsigned by done. by apply read_back.
Qed.

(** C38: conversions and decimal text. For every width the source knows, a number made
    of an integer is well formed, stands for it, and gives it back, the least
    integers of each width included; what is read of any number is its value
    whenever the width holds it; and a number is turned into a machine number of a
    type that holds it exactly when some machine type does. Numbers made of typed
    bytes stand for the two's complement integer in the bytes; floating-point types
    leave the number as it was. A well-formed number printed into a buffer of 47
    bytes or more leaves there, without overrun, its sign if it has one or a plus is asked for, decimal
    digits of its absolute value, and a terminating zero byte: with leading zeros, as many as
    put the terminator into the last byte of the buffer, and else the shortest digits. Reading the
    text gives the same number back. Any text of at most 45 significant digits,
    with or without a sign, is read as the number it spells. *)
Theorem bignum_conversions_roundtrip w x r bytes t n : In w widths -> wf n ->
  (in_range w x -> wf (inits w x) /\ plain (inits w x) /\ value (inits w x) = x /\ gets w (inits w x) = x) /\
  (in_word w x -> wf (initus w x) /\ plain (initus w x) /\ value (initus w x) = x /\ getus w (initus w x) = x) /\
  (in_range w (value n) -> gets w n = value n) /\
  (in_word w (value n) -> getus w n = value n) /\
  match CreateWithBigNum n with
  | Some (t', v) => v = value n /\ exists w', type_width t' = Some w' /\ in_range w' v
  | None => ~ in_range 128 (value n)
  end /\
  match type_width t with
  | Some w' => let n := InitWithBytes r bytes t in wf n /\ plain n /\
      value n = if w' =? 128 then sint 128 (unsigned_at 64 bytes 8 + Z.shiftl (signed_at 64 bytes 0) 64) else signed_at w' bytes 0
  | None => InitWithBytes r bytes t = r
  end /\
  (forall lz lp buffer, (47 <= length buffer)%nat ->
     exists s rest : list Z, let out := sign_text n lp ++ s ++ 0 :: rest in
     ToCString n lz lp buffer = Ok out /\ length out = length buffer /\ FromCString out = n /\
     Forall digit_chr s /\ s <> [] /\ val s = Z.abs (value n) /\ if lz then rest = [] else shortest s) /\
  (forall s rest, Forall digit_chr s -> (length (skip_zeros s) <= 45)%nat ->
     (let m := FromCString (s ++ 0 :: rest) in wf m /\ value m = val s) /\
     (let m := FromCString (chr_plus :: s ++ 0 :: rest) in wf m /\ value m = val s) /\
     (let m := FromCString (chr_minus :: s ++ 0 :: rest) in wf m /\ value m = - val s)).
Proof.
  intros Hw Hn. destruct (conversions_ok w x r bytes t n Hw Hn) as (? & ? & ? & ? & ? & ?). split_and!; try done.
  - intros lz lp buffer Hb. by apply (text_ok n lz lp buffer).
  - by apply (text_ok n false false (replicate 47 0)); [|rewrite length_replicate].
Qed.

(** ** Witnesses *)
Module BigNumWitness.
Lemma wf_of x : in_range 64 x -> wf (InitWithInt64 x).
Proof. intros Hx. by apply Init_signed. Qed.
(** The least 64-bit integer, and -12000000034 printed with the shortest text into 48 bytes. *)
Lemma bignum_conversions_roundtrip_witness :
  gets 64 (inits 64 (-9223372036854775808)) = -9223372036854775808 /\
  CreateWithBigNum (InitWithInt64 (-3000000000)) = Some (kCFNumberSInt64Type, -3000000000) /\
  exists out, ToCString (InitWithInt64 (-12000000034)) false true (replicate 48 7) = Ok out /\
    FromCString out = InitWithInt64 (-12000000034) /\
    c_string out = [45; 49; 50; 48; 48; 48; 48; 48; 48; 48; 51; 52].
Proof.
  destruct (bignum_conversions_roundtrip 64 (-9223372036854775808) zero [] kCFNumberFloat64Type (InitWithInt64 (-12000000034)))
    as (H & _ & _ & _ & _ & _ & P & _).
  - unfold widths. cbn. tauto.
  - apply wf_of. unfold in_range. lia.
  - split; [apply H; unfold in_range; lia|]. split; [by vm_compute|].
    destruct (P false true (replicate 48 7) ltac:(cbn; lia)) as (s & rest & E & _ & R & _).
    eexists. split; [exact E|]. split; [exact R|]. clear R. match type of E with _ = Ok ?o => set (out := o) in *; clearbody out end.
    vm_compute in E. injection E as <-. by vm_compute.
Defined.
Lemma bignum_arithmetic_correct_witness :
  value (Neg (InitWithInt64 7)) = -7 /\ Compare (InitWithInt64 7) (InitWithInt64 (-8)) = kCFCompareGreaterThan.
Proof.
  destruct (bignum_arithmetic_correct (InitWithInt64 7) (InitWithInt64 (-8))) as (C & _ & (_ & N & _) & _);
    [apply wf_of; unfold in_range; lia|apply wf_of; unfold in_range; lia|].
  split; [exact N|]. apply C. left. discriminate.
Defined.
(** A digit of one billion: 999999999 + 1 keeps its value, but is no longer well
    formed, compares as less than the number made of 1000000000, and is printed
    as another number. *)
Definition carried : BigNum := fst (Add (InitWithInt64 999999999) (InitWithInt64 1)).
Example missed_carry : digits carried = [1000000000; 0; 0; 0; 0] /\ value carried = 1000000000 /\
  Compare carried (InitWithInt64 1000000000) = kCFCompareLessThan /\
  exists out, ToCString carried false false (replicate 48 7) = Ok out /\ val (c_string out) = 100000000.
Proof. split_and!; try by vm_compute. eexists. split; [by vm_compute|by vm_compute]. Qed.
(** A second zero: -5 + 5 compares as less than 0. *)
Example negative_zero : let r := fst (Add (InitWithInt64 (-5)) (InitWithInt64 5)) in
  value r = 0 /\ sign r = -1 /\ Compare r (InitWithInt64 0) = kCFCompareLessThan.
Proof. by vm_compute. Qed.
End BigNumWitness.
