(* ===== verification/CFSortFunctions.v ===== *)
(** * CFSortFunctions.c: the merge sort of CoreFoundation
    (src/sdk/RunLoopDemo/RunLoopDemo/CF-1153.18)

    [CFSortIndexes] sorts the numbers of the items, [CFQSortArray] and
    [CFMergeSortArray] an array through them. A pointer into a buffer is the
    buffer and an index; counts and indices, which are never negative here, are
    natural numbers.

    The concurrent sort, [__CFSortIndexesN], is not modelled: [CFSortIndexes]
    reports the number of cores it would be given. *)

From stdpp Require Import prelude numbers list sorting.
From Stdlib Require Import ZArith Lia Bool.
From S2P Require Import Prelude.

Definition rd {A} (p : list A) (i : nat) : res A :=
  match p !! i with Some v => Ok v | None => Fault OutOfBounds end.
Definition wr {A} (p : list A) (i : nat) (v : A) : res (list A) :=
  let? _ := rd p i in Ok (<[i := v]> p).

Section MergeSort.
(** The comparator block. *)
Context (cmp : Z -> Z -> Z).
Implicit Types (p tmp : list Z) (lo idx cnt : nat).

(** [while (idx--) listp[idx] = tmp[idx]], [listp] being element [lo] of [p]. *)
Fixpoint copy_back idx p lo tmp : res (list Z) :=
  match idx with
  | O => Ok p
  | S idx =>
    let? v := rd tmp idx in
    let? p := wr p (lo + idx) v in
    copy_back idx p lo tmp
  end.
(** The loop of [t], from [idx + k - 1] down to [idx]. *)
Fixpoint shift_up (k : nat) p lo idx (cnt2 : nat) : res (list Z) :=
  match k with
  | O => Ok p
  | S k =>
    let t := (idx + k)%nat in
    let? v := rd p (lo + (t - cnt2)) in
    let? p := wr p (lo + t) v in
    shift_up k p lo idx cnt2
  end.
Fixpoint SimpleMerge_loop (fuel : nat) p lo (cnt1 cnt2 : nat) tmp idx (idx1 idx2 : nat) : res (list Z * list Z) :=
  match fuel with
  | O => Fault OutOfFuel
  | S fuel =>
    if (cnt1 <=? idx1)%nat then
      let? p := copy_back idx p lo tmp in Ok (p, tmp)
    else if (cnt1 + cnt2 <=? idx2)%nat then
      let? p := shift_up (cnt1 + cnt2 - idx) p lo idx cnt2 in
      let? p := copy_back idx p lo tmp in Ok (p, tmp)
    else
      let? v1 := rd p (lo + idx1) in
      let? v2 := rd p (lo + idx2) in
      if cmp v1 v2 <=? 0 then
        let? tmp := wr tmp idx v1 in
        SimpleMerge_loop fuel p lo cnt1 cnt2 tmp (idx + 1) (idx1 + 1) idx2
      else
        let? tmp := wr tmp idx v2 in
        SimpleMerge_loop fuel p lo cnt1 cnt2 tmp (idx + 1) idx1 (idx2 + 1)
  end.
Definition already_ordered p lo (cnt1 cnt2 : nat) : res bool :=
  if (16 <? cnt1 + cnt2)%nat then
    let? v1 := rd p (lo + (cnt1 - 1)) in
    let? v2 := rd p (lo + cnt1) in
    Ok (cmp v1 v2 <=? 0)
  else Ok false.
Definition SimpleMerge p lo (cnt1 cnt2 : nat) tmp : res (list Z * list Z) :=
  if (cnt1 =? 0)%nat || (cnt2 =? 0)%nat then Ok (p, tmp)
  else
    let? ordered := already_ordered p lo cnt1 cnt2 in
    if ordered : bool then Ok (p, tmp)
    else SimpleMerge_loop (cnt1 + cnt2 + 1) p lo cnt1 cnt2 tmp 0 0 cnt1.

Fixpoint SimpleMergeSort (fuel : nat) p lo cnt tmp : res (list Z * list Z) :=
  if (cnt <? 2)%nat then Ok (p, tmp)
  else if (2 =? cnt)%nat then
    let? v0 := rd p lo in
    let? v1 := rd p (lo + 1) in
    if 0 <? cmp v0 v1 then
      let? p := wr p lo v1 in
      let? p := wr p (lo + 1) v0 in
      Ok (p, tmp)
    else Ok (p, tmp)
  else if (3 =? cnt)%nat then
    let? v0 := rd p lo in
    let? v1 := rd p (lo + 1) in
    let? v2 := rd p (lo + 2) in
    let '(v0, v1) := if 0 <? cmp v0 v1 then (v1, v0) else (v0, v1) in
    let '(v0, v1, v2) :=
      if 0 <? cmp v1 v2 then
        let '(v1, v2) := (v2, v1) in
        let '(v0, v1) := if 0 <? cmp v0 v1 then (v1, v0) else (v0, v1) in
        (v0, v1, v2)
      else (v0, v1, v2) in
    let? p := wr p lo v0 in
    let? p := wr p (lo + 1) v1 in
    let? p := wr p (lo + 2) v2 in
    Ok (p, tmp)
  else
    match fuel with
    | O => Fault OutOfFuel
    | S fuel =>
      let half_cnt := (cnt / 2)%nat in
      let? (p, tmp) := SimpleMergeSort fuel p lo half_cnt tmp in
      let? (p, tmp) := SimpleMergeSort fuel p (lo + half_cnt) (cnt - half_cnt) tmp in
      SimpleMerge p lo half_cnt (cnt - half_cnt) tmp
    end.
End MergeSort.

(** ** CFSortIndexes *)
Definition kCFSortConcurrent : Z := Z.shiftl 1 0.
Definition kCFSortStable : Z := Z.shiftl 1 4.
Definition INTPTR_MAX : Z := 2 ^ 63 - 1.

(** The number of cores used, and the options left; [processors] is
    [__CFActiveProcessorCount()]. *)
Definition choose_cores (processors count opts : Z) : Z * Z :=
  if nz (Z.land opts kCFSortConcurrent) then
    let ncores := processors in
    let '(opts, ncores) :=
      if (count <? 160) || (ncores <? 2) then (Z.land opts (Z.lnot kCFSortConcurrent), ncores)
      else if (count <? 640) && (2 <? ncores) then (opts, 2)
      else if (count <? 3200) && (4 <? ncores) then (opts, 4)
      else if (count <? 16000) && (8 <? ncores) then (opts, 8)
      else (opts, ncores) in
    (opts, if 16 <? ncores then 16 else ncores)
  else (opts, 0).
(** [for (; idx < lim; idx++) indexBuffer[idx] = idx], [k] turns of it. *)
Fixpoint fill (k : nat) (idx : nat) (p : list Z) : res (list Z) :=
  match k with
  | O => Ok p
  | S k => let? p := wr p idx (Z.of_nat idx) in fill k (idx + 1) p
  end.
(** The chunks, which other threads may fill, from the [n]-th of eight on. *)
Fixpoint fill_chunks (chunks : nat) (n sz count : nat) (p : list Z) : res (list Z) :=
  match chunks with
  | O => Ok p
  | S chunks =>
    let idx := (n * sz)%nat in
    let lim := Nat.min (idx + sz) count in
    let? p := fill (lim - idx) idx p in
    fill_chunks chunks (n + 1) sz count p
  end.
Definition initial_indexes (count : nat) (p : list Z) : res (list Z) :=
  if (Z.of_nat count <=? 65536) then fill count 0 p
  else fill_chunks 8 0 ((count + 15) / 16 * 16 / 8) count p.

Inductive sorting := Sequential (indexBuffer : list Z) | Concurrent (ncores : Z) (indexBuffer : list Z).
(** [malloc n] is a block of [n] elements, or nothing; it and the stack hold
    arbitrary values. *)
Definition SortIndexes (processors : Z) (malloc : nat -> option (list Z)) (stack : nat -> list Z)
    (indexBuffer : list Z) (count : nat) (opts : Z) (cmp : Z -> Z -> Z) : res sorting :=
  if (count <? 1)%nat then Ok (Sequential indexBuffer)
  else if INTPTR_MAX / 8 <? Z.of_nat count then Ok (Sequential indexBuffer)
  else
    let (opts, ncores) := choose_cores processors (Z.of_nat count) opts in
    let? indexBuffer := initial_indexes count indexBuffer in
    if nz (Z.land opts kCFSortConcurrent) then Ok (Concurrent ncores indexBuffer)
    else
      match (if Z.of_nat count <=? 4096 then Some (stack count) else malloc count) with
      | None => Fault AllocationFailed
      | Some tmp =>
        let? (indexBuffer, _) := SimpleMergeSort cmp count indexBuffer 0 count tmp in
        Ok (Sequential indexBuffer)
      end.

(** ** Sorting arrays

    An element of [elementSize] bytes is a value of type [A]; [beyond] is what a
    pointer outside the array would point to. *)
Section Arrays.
Context {A : Type} (beyond : A) (comparator : A -> A -> Z).
Context (processors : Z) (malloc_indexes : nat -> option (list Z)) (stack_indexes : nat -> list Z).
Context (malloc_store : nat -> option (list A)) (stack_store : nat -> list A).
(** The loop copying the elements into [store]. *)
Fixpoint gather (k idx : nat) (list0 : list A) (indexes : list Z) (store : list A) : res (list A) :=
  match k with
  | O => Ok store
  | S k =>
    let? i := rd indexes idx in
    let? e := rd list0 (Z.to_nat i) in
    let? store := wr store idx e in
    gather k (idx + 1) list0 indexes store
  end.
Definition compare_at (list0 : list A) (a b : Z) : Z :=
  comparator (nth (Z.to_nat a) list0 beyond) (nth (Z.to_nat b) list0 beyond).
Definition sort_array (opts : Z) (list0 : list A) (count : nat) (elementSize : Z) : res (list A) :=
  if (count <? 2)%nat || (elementSize <? 1) then Ok list0
  else
    match (if Z.of_nat count <=? 4096 then Some (stack_indexes count) else malloc_indexes count) with
    | None => Fault AllocationFailed
    | Some indexes =>
      let? sorted := SortIndexes processors malloc_indexes stack_indexes indexes count opts (compare_at list0) in
      match sorted with
      | Concurrent _ _ => Fault FatalError
      | Sequential indexes =>
        match (if Z.of_nat count <=? 16 * 1024 / elementSize then Some (stack_store count) else malloc_store count) with
        | None => Fault AllocationFailed
        | Some store =>
          let? store := gather count 0 list0 indexes store in
          Ok (take count store ++ drop count list0)
        end
      end
    end.
Definition QSortArray : list A -> nat -> Z -> res (list A) := sort_array 0.
Definition MergeSortArray : list A -> nat -> Z -> res (list A) := sort_array kCFSortStable.
End Arrays.
