(* ===== verification/CFSortTheory.v ===== *)
(** * CFSortFunctions.c: the sort is stable

    The loops of the merge compute [list_merge] in place; the merge sort turns a
    segment of the buffer into its stable arrangement, and the array functions
    carry that over to the elements. *)

From stdpp Require Import prelude numbers list sorting.
From Stdlib Require Import ZArith Lia Bool.
From S2P Require Import Prelude CFSortFunctions.

(** ** Reads and writes in the middle of a buffer *)
Section Buffers.
Context {A : Type}.
Implicit Types (p l pre post : list A).
Lemma rd_middle pre l post i v : l !! i = Some v -> rd (pre ++ l ++ post) (length pre + i) = Ok v.
Proof.
  intros E. unfold rd. rewrite lookup_app_r by lia. replace (length pre + i - length pre)%nat with i by lia.
  by rewrite (lookup_app_l_Some _ _ _ _ E).
Qed.
Lemma wr_middle pre l post i v : (i < length l)%nat -> wr (pre ++ l ++ post) (length pre + i) v = Ok (pre ++ <[i := v]> l ++ post).
Proof.
  intros Hi. destruct (lookup_lt_is_Some_2 l i Hi) as [w E]. unfold wr. rewrite (rd_middle pre l post i w E). cbn [rbind].
  rewrite insert_app_r, insert_app_l by done. done.
Qed.
Lemma rd_middle_first pre v l post : rd (pre ++ (v :: l) ++ post) (length pre) = Ok v.
Proof. rewrite <- (Nat.add_0_r (length pre)). by apply rd_middle. Qed.
Lemma wr_middle_first pre w l post v : wr (pre ++ (w :: l) ++ post) (length pre) v = Ok (pre ++ (v :: l) ++ post).
Proof. rewrite <- (Nat.add_0_r (length pre)). rewrite wr_middle by (cbn; lia). done. Qed.
Lemma rd_ok p i v : p !! i = Some v -> rd p i = Ok v.
Proof. intros E. unfold rd. by rewrite E. Qed.
Lemma wr_ok p i v : (i < length p)%nat -> wr p i v = Ok (<[i := v]> p).
Proof. intros Hi. destruct (lookup_lt_is_Some_2 p i Hi) as [w E]. unfold wr, rd. by rewrite E. Qed.
(** Taking one element more. *)
Lemma take_more p i v : p !! i = Some v -> take (i + 1) p = take i p ++ [v].
Proof. intros E. rewrite Nat.add_1_r. by apply take_S_r. Qed.
Lemma take_insert_more p i v : (i < length p)%nat -> take (i + 1) (<[i := v]> p) = take i p ++ [v].
Proof. intros Hi. rewrite (take_more _ i v) by (by apply list_lookup_insert_eq). by rewrite take_insert_ge by lia. Qed.
Lemma drop_insert_here p i v : (i < length p)%nat -> drop i (<[i := v]> p) = v :: drop (S i) p.
Proof.
  intros Hi. rewrite (drop_S _ v i) by (by apply list_lookup_insert_eq). by rewrite drop_insert_lt by lia.
Qed.
End Buffers.

(** ** The loops of the merge *)
Section Loops.
Implicit Types (pre post l tmp : list Z).
Lemma copy_back_ok idx pre l post tmp : (idx <= length l)%nat -> (idx <= length tmp)%nat ->
  copy_back idx (pre ++ l ++ post) (length pre) tmp = Ok (pre ++ (take idx tmp ++ drop idx l) ++ post).
Proof.
  revert l. induction idx as [|idx IH]; intros l Hl Ht; [done|]. cbn [copy_back].
  destruct (lookup_lt_is_Some_2 tmp idx) as [v E]; [lia|]. rewrite (rd_ok tmp idx v E). cbn [rbind]. rewrite wr_middle by lia. cbn [rbind].
  rewrite IH by (rewrite ?length_insert; lia). rewrite drop_insert_here, (take_S_r tmp idx v E) by lia. by rewrite <- !app_assoc.
Qed.
(** The rest of the first list moves up by [cnt2]. *)
Lemma shift_up_ok k pre l post idx cnt2 : (idx + k <= length l)%nat -> (cnt2 <= idx)%nat ->
  shift_up k (pre ++ l ++ post) (length pre) idx cnt2 =
    Ok (pre ++ (take idx l ++ take k (drop (idx - cnt2) l) ++ drop (idx + k) l) ++ post).
Proof.
  revert l. induction k as [|k IH]; intros l Hl Hc; [cbn [shift_up]; rewrite take_0, Nat.add_0_r; cbn [app]; by rewrite take_drop|]. cbn [shift_up].
  destruct (lookup_lt_is_Some_2 l (idx + k - cnt2)) as [v E]; [lia|]. rewrite (rd_middle pre l post _ v E). cbn [rbind]. rewrite wr_middle by lia. cbn [rbind].
  rewrite IH by (rewrite ?length_insert; lia). rewrite drop_insert_here, take_insert_ge by lia.
  assert (take k (drop (idx - cnt2) (<[(idx + k)%nat := v]> l)) = take k (drop (idx - cnt2) l)) as ->.
  { rewrite drop_insert_ge by lia. apply take_insert_ge. lia. }
  rewrite (take_S_r (drop (idx - cnt2) l) k v) by (rewrite lookup_drop, <- E; f_equal; lia).
  rewrite Nat.add_succ_r. by rewrite <- !app_assoc.
Qed.
End Loops.

Lemma filter_none {A} (P : A -> Prop) `{forall x, Decision (P x)} l : Forall (fun y => ~ P y) l -> filter P l = [].
Proof. induction 1 as [|y l Hy Hl IH]; [done|]. by rewrite filter_cons_False. Qed.

(** ** What a stable sort is *)
Section Order.
Context {A : Type} (cmp : A -> A -> Z).
Definition before (x y : A) : Prop := cmp x y <= 0.
Definition equivalent (x y : A) : Prop := before x y /\ before y x.
#[export] Instance before_dec x y : Decision (before x y).
Proof. unfold before. apply _. Defined.
#[export] Instance equivalent_dec x y : Decision (equivalent x y).
Proof. unfold equivalent. apply _. Defined.
(** [s] has the items of [l] in order, equivalent ones as [l] has them. *)
Record arranged (l s : list A) : Prop := {
  ar_sorted : StronglySorted before s;
  ar_permuted : s ≡ₚ l;
  ar_stable : forall x, filter (equivalent x) s = filter (equivalent x) l;
}.
Lemma arranged_refl l : StronglySorted before l -> arranged l l.
Proof. by split. Qed.
Lemma arranged_length l s : arranged l s -> length s = length l.
Proof. intros []. by apply Permutation_length. Qed.
(** A comparator that orders: any two items, and consistently. *)
Record orders : Prop := {
  o_total : forall x y, before x y \/ before y x;
  o_transitive : forall x y z, before x y -> before y z -> before x z;
}.
End Order.

(** ** The merge and the merge sort *)
Section Sorting.
Context (cmp : Z -> Z -> Z).
#[local] Abbreviation before := (before cmp).
#[local] Abbreviation equivalent := (equivalent cmp).
#[local] Abbreviation arranged := (arranged cmp).
Implicit Types (pre post l tmp : list Z).
Abbreviation merged := (list_merge before).

Lemma SimpleMerge_loop_ok fuel pre l1 l2 post tmp i1 i2 :
  (i1 <= length l1)%nat -> (i2 <= length l2)%nat -> (length l1 + length l2 <= length tmp)%nat ->
  take (i1 + i2) tmp ++ merged (drop i1 l1) (drop i2 l2) = merged l1 l2 ->
  (length l1 - i1 + (length l2 - i2) < fuel)%nat ->
  exists tmp', SimpleMerge_loop cmp fuel (pre ++ (l1 ++ l2) ++ post) (length pre) (length l1) (length l2) tmp (i1 + i2) i1 (length l1 + i2) =
    Ok (pre ++ merged l1 l2 ++ post, tmp') /\ length tmp' = length tmp.
Proof.
  revert tmp i1 i2. induction fuel as [|fuel IH]; intros tmp i1 i2 H1 H2 Ht Hm Hf; [lia|]. cbn [SimpleMerge_loop].
  destruct (Nat.leb_spec (length l1) i1) as [Hd1|Hd1].
  { rewrite copy_back_ok by (rewrite ?length_app; lia). cbn [rbind]. exists tmp. split; [|done]. do 4 f_equal.
    rewrite <- Hm, (drop_ge l1), list_merge_nil_l by lia. f_equal. rewrite drop_app_ge by lia. f_equal. lia. }
  destruct (Nat.leb_spec (length l1 + length l2) (length l1 + i2)) as [Hd2|Hd2].
  { assert (i2 = length l2) as -> by lia. rewrite shift_up_ok by (rewrite ?length_app; lia). cbn [rbind].
    rewrite copy_back_ok by (rewrite ?length_app, ?length_take, ?length_drop, ?length_app; lia). cbn [rbind].
    exists tmp. split; [|done]. do 4 f_equal. rewrite <- Hm, (drop_ge l2), list_merge_nil_r by done. f_equal.
    rewrite drop_app_ge by (rewrite length_take, length_app; lia). rewrite length_take, length_app, Nat.min_l, Nat.sub_diag, drop_0 by lia.
    rewrite (drop_ge (l1 ++ l2) (i1 + length l2 + _)) by (rewrite length_app; lia). rewrite app_nil_r. replace (i1 + length l2 - length l2)%nat with i1 by lia.
    rewrite drop_app_le by lia. rewrite take_app_le by (rewrite length_drop; lia). apply take_ge. rewrite length_drop. lia. }
  destruct (lookup_lt_is_Some_2 l1 i1) as [v1 E1]; [lia|]. destruct (lookup_lt_is_Some_2 l2 i2) as [v2 E2]; [lia|].
  rewrite (rd_middle pre (l1 ++ l2) post i1 v1) by (by apply lookup_app_l_Some). cbn [rbind].
  rewrite (rd_middle pre (l1 ++ l2) post (length l1 + i2) v2)
    by (rewrite lookup_app_r by lia; rewrite <- E2; f_equal; lia). cbn [rbind].
  rewrite (drop_S _ _ _ E1), (drop_S _ _ _ E2), list_merge_cons in Hm. rewrite wr_ok, wr_ok by lia. cbn [rbind].
  destruct (Z.leb_spec (cmp v1 v2) 0) as [Hle|Hgt].
  - rewrite decide_True in Hm by done. replace (i1 + i2 + 1)%nat with (i1 + 1 + i2)%nat by lia.
    destruct (IH (<[(i1 + i2)%nat := v1]> tmp) (i1 + 1)%nat i2) as (tmp' & E & Hl); rewrite ?length_insert; try lia.
    + replace (i1 + 1 + i2)%nat with (i1 + i2 + 1)%nat by lia. rewrite take_insert_more by lia.
      rewrite <- Hm, <- app_assoc, Nat.add_1_r. do 2 f_equal. by rewrite (drop_S _ _ _ E2).
    + exists tmp'. rewrite length_insert in Hl. done.
  - rewrite decide_False in Hm by (unfold before; lia). replace (i1 + i2 + 1)%nat with (i1 + (i2 + 1))%nat by lia.
    destruct (IH (<[(i1 + i2)%nat := v2]> tmp) i1 (i2 + 1)%nat) as (tmp' & E & Hl); rewrite ?length_insert; try lia.
    + replace (i1 + (i2 + 1))%nat with (i1 + i2 + 1)%nat by lia. rewrite take_insert_more by lia.
      rewrite <- Hm, <- app_assoc, Nat.add_1_r. do 2 f_equal. by rewrite (drop_S _ _ _ E1).
    + exists tmp'. rewrite length_insert in Hl. split; [|done]. rewrite <- E, !Nat.add_assoc. done.
Qed.

(** ** Stability *)
Context (Ho : orders cmp).
#[local] Abbreviation Htot := (o_total _ Ho).
#[local] Abbreviation Htrans := (o_transitive _ Ho).
Lemma swap_stable x a b l : ~ before a b -> filter (equivalent x) (b :: a :: l) = filter (equivalent x) (a :: b :: l).
Proof.
  intros Hn. rewrite !filter_cons. destruct (decide (equivalent x b)) as [[H1 H2]|], (decide (equivalent x a)) as [[H3 H4]|]; try done.
  destruct Hn. by apply Htrans with x.
Qed.
Lemma not_before x y : ~ before x y -> before y x.
Proof. intros H. by destruct (Htot x y). Qed.
Lemma strongly_cons x l : StronglySorted before (x :: l) -> Forall (before x) l /\ StronglySorted before l.
Proof. by intros ?%StronglySorted_cons. Qed.
#[local] Instance before_total : Total before := Htot.
#[local] Instance before_trans : Transitive before := Htrans.
Lemma merged_stable x l1 l2 : StronglySorted before l1 -> StronglySorted before l2 ->
  filter (equivalent x) (merged l1 l2) = filter (equivalent x) l1 ++ filter (equivalent x) l2.
Proof.
  revert l2. induction l1 as [|x1 l1 IH1]; intros l2 H1 H2; [by rewrite list_merge_nil_l|].
  induction l2 as [|x2 l2 IH2]; [by rewrite list_merge_nil_r, app_nil_r|].
  destruct (strongly_cons _ _ H1) as [F1 S1], (strongly_cons _ _ H2) as [F2 S2]. rewrite list_merge_cons.
  destruct (decide (before x1 x2)) as [Hle|Hgt].
  - rewrite !(filter_cons _ x1), IH1 by done. by destruct (decide (equivalent x x1)).
  - rewrite (filter_cons _ x2), IH2 by done. rewrite (filter_cons _ x2 l2). destruct (decide (equivalent x x2)) as [[E1 E2]|]; [|done].
    assert (filter (equivalent x) (x1 :: l1) = []) as ->; [|done]. apply filter_none. constructor.
    + intros [E3 E4]. apply Hgt. by apply Htrans with x.
    + eapply Forall_impl; [exact F1|]. intros y Hy [E3 E4]. apply Hgt. apply Htrans with x; [|done]. by apply Htrans with y.
Qed.
Lemma merged_arranged l1 l2 s1 s2 : arranged l1 s1 -> arranged l2 s2 -> arranged (l1 ++ l2) (merged s1 s2).
Proof.
  intros [S1 P1 F1] [S2 P2 F2]. split.
  - apply Sorted_StronglySorted; [apply _|]. apply Sorted_list_merge; [apply _|..]; by apply StronglySorted_Sorted.
  - by rewrite merge_Permutation, P1, P2.
  - intros x. by rewrite merged_stable, filter_app, F1, F2.
Qed.
(** The shortcut: lists already in order. *)
Lemma merged_ordered l1 l2 x y : StronglySorted before (l1 ++ [x]) -> StronglySorted before (y :: l2) -> before x y ->
  merged (l1 ++ [x]) (y :: l2) = (l1 ++ [x]) ++ y :: l2.
Proof.
  intros H1 H2 Hxy. induction l1 as [|z l1 IH]; cbn [app] in *.
  - rewrite list_merge_cons, decide_True by done. by rewrite list_merge_nil_l.
  - destruct (strongly_cons _ _ H1) as [F1 S1]. rewrite list_merge_cons, decide_True; [by rewrite IH|].
    apply Htrans with x; [|done]. apply Forall_app in F1 as [_ F1]. by inv F1.
Qed.
Lemma SimpleMerge_ok pre l1 l2 post tmp : StronglySorted before l1 -> StronglySorted before l2 ->
  (length l1 + length l2 <= length tmp)%nat ->
  exists tmp', SimpleMerge cmp (pre ++ (l1 ++ l2) ++ post) (length pre) (length l1) (length l2) tmp =
    Ok (pre ++ merged l1 l2 ++ post, tmp') /\ length tmp' = length tmp.
Proof.
  intros S1 S2 Ht. unfold SimpleMerge.
  destruct (Nat.eqb_spec (length l1) 0) as [E|E]; [apply nil_length_inv in E as ->; exists tmp; by rewrite list_merge_nil_l|].
  destruct (Nat.eqb_spec (length l2) 0) as [E'|E']; [apply nil_length_inv in E' as ->; exists tmp; by rewrite list_merge_nil_r, app_nil_r|].
  cbn [orb]. destruct (exists_last (l := l1)) as (l1' & x & E1); [by intros ->|]. destruct l2 as [|y l2]; [done|].
  assert (Hs : exists b : bool, already_ordered cmp (pre ++ (l1 ++ y :: l2) ++ post) (length pre) (length l1) (length (y :: l2)) = Ok b /\
    (b = true -> before x y)).
  { unfold already_ordered. destruct (16 <? length l1 + length (y :: l2))%nat; [|by exists false].
    rewrite (rd_middle pre (l1 ++ y :: l2) post _ x).
    2: { subst l1. rewrite length_app. cbn [length]. rewrite lookup_app_l by (rewrite length_app; cbn; lia).
         rewrite lookup_app_r by lia. by replace (length l1' + 1 - 1 - length l1')%nat with 0%nat by lia. }
    cbn [rbind]. rewrite (rd_middle pre (l1 ++ y :: l2) post _ y) by (rewrite lookup_app_r, Nat.sub_diag by lia; done). cbn [rbind].
    eexists. split; [done|]. intros H. by apply Z.leb_le in H. }
  destruct Hs as (b & -> & Hb). cbn [rbind]. destruct b.
  - exists tmp. split; [|done]. subst l1. by rewrite merged_ordered by auto.
  - destruct (SimpleMerge_loop_ok (length l1 + length (y :: l2) + 1) pre l1 (y :: l2) post tmp 0 0) as (tmp' & E2 & Hl); try done; try lia.
    exists tmp'. rewrite !Nat.add_0_r in E2. done.
Qed.
(** [count] items from [lo] on, as a list of its own. *)
Definition sorts_to (s : list Z) pre post tmp (r : res (list Z * list Z)) : Prop :=
  exists tmp', r = Ok (pre ++ s ++ post, tmp') /\ length tmp' = length tmp.
Lemma arranged_swap a b l l' s : ~ before a b -> arranged (l ++ b :: a :: l') s -> arranged (l ++ a :: b :: l') s.
Proof.
  intros Hn [S P F]. split; [done|..].
  - rewrite P. f_equiv. constructor.
  - intros x. by rewrite F, !filter_app, swap_stable.
Qed.
Lemma two_ordered a b : before a b -> StronglySorted before [a; b].
Proof. repeat constructor; done. Qed.
Lemma three_ordered a b c : before a b -> before b c -> StronglySorted before [a; b; c].
Proof. repeat constructor; try done. by apply Htrans with b. Qed.
Lemma greater_not_before a b : (0 <? cmp a b) = true -> ~ before a b.
Proof. unfold before. lia. Qed.
Lemma not_greater_before a b : (0 <? cmp a b) = false -> before a b.
Proof. unfold before. lia. Qed.
(** The two and the three items sorted in place. *)
Lemma sort_two_ok fuel pre a b post tmp :
  exists s, sorts_to s pre post tmp (SimpleMergeSort cmp fuel (pre ++ [a; b] ++ post) (length pre) 2 tmp) /\ arranged [a; b] s.
Proof.
  destruct fuel; cbn [SimpleMergeSort Nat.ltb Nat.leb Nat.eqb]; rewrite rd_middle_first; cbn [rbind];
    rewrite (rd_middle pre [a; b] post 1 b eq_refl); cbn [rbind]; destruct (0 <? cmp a b) eqn:E.
  1, 3: apply greater_not_before in E; rewrite wr_middle_first; cbn [rbind]; rewrite wr_middle by (cbn; lia); cbn [rbind];
    exists [b; a]; (split; [by exists tmp|]); apply (arranged_swap a b [] []); [done|]; apply arranged_refl, two_ordered; by apply not_before.
  all: apply not_greater_before in E; exists [a; b]; (split; [by exists tmp|]); by apply arranged_refl, two_ordered.
Qed.
Definition sort3 (v0 v1 v2 : Z) : Z * Z * Z :=
  let '(v0, v1) := if 0 <? cmp v0 v1 then (v1, v0) else (v0, v1) in
  if 0 <? cmp v1 v2 then
    let '(v1, v2) := (v2, v1) in
    let '(v0, v1) := if 0 <? cmp v0 v1 then (v1, v0) else (v0, v1) in
    (v0, v1, v2)
  else (v0, v1, v2).
Ltac settle := repeat match goal with
  | H : (0 <? cmp _ _) = true |- _ => apply greater_not_before in H
  | H : (0 <? cmp _ _) = false |- _ => apply not_greater_before in H
  end.
Lemma sort3_arranged a b c : let '(x, y, z) := sort3 a b c in arranged [a; b; c] [x; y; z].
Proof.
  unfold sort3. destruct (0 <? cmp a b) eqn:E1.
  - destruct (0 <? cmp a c) eqn:E2; [destruct (0 <? cmp b c) eqn:E3|]; settle; apply (arranged_swap a b [] [c]); try done; cbn [app].
    + apply (arranged_swap a c [b] []); [done|]. apply (arranged_swap b c [] [a]); [done|]. apply arranged_refl, three_ordered; by apply not_before.
    + apply (arranged_swap a c [b] []); [done|]. apply arranged_refl, three_ordered; [done|by apply not_before].
    + apply arranged_refl, three_ordered; [by apply not_before|done].
  - destruct (0 <? cmp b c) eqn:E2; [destruct (0 <? cmp a c) eqn:E3|]; settle.
    + apply (arranged_swap b c [a] []); [done|]. apply (arranged_swap a c [] [b]); [done|]. apply arranged_refl, three_ordered; [by apply not_before|done].
    + apply (arranged_swap b c [a] []); [done|]. apply arranged_refl, three_ordered; [done|by apply not_before].
    + by apply arranged_refl, three_ordered.
Qed.
Lemma sort_three_ok fuel pre a b c post tmp :
  exists s, sorts_to s pre post tmp (SimpleMergeSort cmp fuel (pre ++ [a; b; c] ++ post) (length pre) 3 tmp) /\ arranged [a; b; c] s.
Proof.
  pose proof (sort3_arranged a b c) as Ha. destruct (sort3 a b c) as [[x y] z] eqn:E. exists [x; y; z]. split; [|done].
  exists tmp. split; [|done]. unfold sort3 in E.
  destruct fuel; cbn [SimpleMergeSort Nat.ltb Nat.leb Nat.eqb]; rewrite rd_middle_first; cbn [rbind];
    rewrite (rd_middle pre [a; b; c] post 1 b eq_refl); cbn [rbind];
    rewrite (rd_middle pre [a; b; c] post 2 c eq_refl); cbn [rbind].
  all: repeat match type of E with context [if ?b then _ else _] => destruct b end; simplify_eq.
  all: rewrite wr_middle_first; cbn [rbind]; rewrite wr_middle by (cbn; lia); cbn [rbind]; rewrite wr_middle by (cbn; lia); done.
Qed.
Lemma SimpleMergeSort_ok fuel pre l post tmp : (length l <= fuel)%nat -> (length l <= length tmp)%nat ->
  exists s, sorts_to s pre post tmp (SimpleMergeSort cmp fuel (pre ++ l ++ post) (length pre) (length l) tmp) /\ arranged l s.
Proof.
  revert pre l post tmp. induction fuel as [|fuel IH]; intros pre l post tmp Hf Ht.
  { destruct l; [|cbn in Hf; lia]. exists []. split; [by exists tmp|]. apply arranged_refl. constructor. }
  destruct l as [|a [|b [|c [|d l]]]].
  - exists []. split; [by exists tmp|]. apply arranged_refl. constructor.
  - exists [a]. split; [by exists tmp|]. apply arranged_refl. repeat constructor.
  - apply sort_two_ok.
  - apply sort_three_ok.
  - remember (a :: b :: c :: d :: l) as w eqn:Ew. assert (Hw : (4 <= length w)%nat) by (subst w; cbn; lia). clear Ew a b c d l.
    cbn [SimpleMergeSort]. destruct (Nat.ltb_spec (length w) 2); [lia|]. destruct (Nat.eqb_spec 2 (length w)); [lia|]. destruct (Nat.eqb_spec 3 (length w)); [lia|].
    set (h := (length w / 2)%nat). assert (Hh : (2 <= h < length w)%nat).
    { subst h. pose proof (Nat.div_mod_eq (length w) 2). pose proof (Nat.mod_upper_bound (length w) 2). lia. }
    assert (L1 : length (take h w) = h) by (rewrite length_take; lia). assert (L2 : length (drop h w) = (length w - h)%nat) by apply length_drop.
    destruct (IH pre (take h w) (drop h w ++ post) tmp) as (s1 & (tmp1 & R1 & T1) & A1); [lia..|].
    rewrite L1, (app_assoc (take h w)), take_drop in R1. rewrite R1. cbn [rbind]. clear R1.
    destruct (IH (pre ++ s1) (drop h w) post tmp1) as (s2 & (tmp2 & R2 & T2) & A2); [lia..|].
    pose proof (arranged_length _ _ _ A1) as M1. pose proof (arranged_length _ _ _ A2) as M2.
    rewrite L2, length_app, M1, L1, <- app_assoc in R2. rewrite R2. cbn [rbind]. clear R2.
    destruct (SimpleMerge_ok pre s1 s2 post tmp2) as (tmp3 & R3 & T3); [by destruct A1|by destruct A2|lia|].
    rewrite M1, M2, L1, L2, <- !app_assoc in R3.
    exists (merged s1 s2). split.
    + exists tmp3. rewrite <- app_assoc, R3. split; [done|lia].
    + rewrite <- (take_drop h w). by apply merged_arranged.
Qed.
End Sorting.

(** ** The indexes *)
Section Indexes.
Implicit Types (p : list Z).
Lemma fill_ok k idx p : (idx + k <= length p)%nat ->
  fill k idx p = Ok (take idx p ++ map Z.of_nat (seq idx k) ++ drop (idx + k) p).
Proof.
  revert idx p. induction k as [|k IH]; intros idx p Hp; cbn [fill seq map].
  - rewrite Nat.add_0_r. cbn [app]. by rewrite take_drop.
  - rewrite wr_ok by lia. cbn [rbind]. rewrite IH by (rewrite length_insert; lia). rewrite take_insert_more by lia.
    rewrite drop_insert_lt by lia. rewrite <- app_assoc, Nat.add_1_r. replace (S idx + k)%nat with (idx + S k)%nat by lia. done.
Qed.
(** The first [k] entries of the buffer filled. *)
Definition filled (k : nat) p : list Z := map Z.of_nat (seq 0 k) ++ drop k p.
Lemma fill_filled k d p : (d + k <= length p)%nat -> fill k d (filled d p) = Ok (filled (d + k) p).
Proof.
  intros Hp. unfold filled. rewrite fill_ok by (rewrite length_app, length_map, length_seq, length_drop; lia).
  rewrite take_app_le, take_ge by (rewrite length_map, length_seq; lia). rewrite seq_app, map_app, <- app_assoc. do 3 f_equal.
  rewrite drop_app_ge, length_map, length_seq, drop_drop by (rewrite length_map, length_seq; lia). f_equal. lia.
Qed.
Lemma fill_chunks_ok chunks n sz count p : (count <= length p)%nat -> (count <= (n + chunks) * sz)%nat ->
  fill_chunks chunks n sz count (filled (Nat.min (n * sz) count) p) = Ok (filled count p).
Proof.
  revert n. induction chunks as [|chunks IH]; intros n Hp Hs; cbn [fill_chunks].
  - by rewrite Nat.min_r by lia.
  - destruct (Nat.le_gt_cases (n * sz) count) as [Hle|Hgt].
    + rewrite (Nat.min_l (n * sz) count) by done. rewrite fill_filled by lia. cbn [rbind]. specialize (IH (n + 1)%nat Hp).
      rewrite <- IH by lia. do 2 f_equal. lia.
    + replace (Nat.min (n * sz + sz) count - n * sz)%nat with 0%nat by lia. cbn [fill rbind]. rewrite <- (IH (n + 1)%nat) by lia. do 2 f_equal. lia.
Qed.
Lemma initial_indexes_ok count p : (count <= length p)%nat -> initial_indexes count p = Ok (filled count p).
Proof.
  intros Hp. unfold initial_indexes. destruct (Z.of_nat count <=? 65536).
  - by apply (fill_filled count 0 p).
  - assert (H : (count <= 8 * ((count + 15) / 16 * 16 / 8))%nat).
    { replace ((count + 15) / 16 * 16)%nat with ((count + 15) / 16 * 2 * 8)%nat by lia. rewrite Nat.div_mul by done.
      pose proof (Nat.div_mod_eq (count + 15) 16). pose proof (Nat.mod_upper_bound (count + 15) 16). lia. }
    generalize dependent ((count + 15) / 16 * 16 / 8)%nat. intros sz H. apply (fill_chunks_ok 8 0 sz count p); [done|]. cbn [Nat.add]. done.
Qed.
End Indexes.

(** ** CFSortIndexes, sequentially *)
Definition sequential (processors : Z) (count : nat) (opts : Z) : Prop :=
  nz (Z.land opts kCFSortConcurrent) = false \/ (count < 160)%nat \/ processors < 2.
Lemma choose_cores_sequential processors count opts : sequential processors count opts ->
  nz (Z.land (choose_cores processors (Z.of_nat count) opts).1 kCFSortConcurrent) = false.
Proof.
  intros H. unfold choose_cores. destruct (nz (Z.land opts kCFSortConcurrent)) eqn:E; [|done].
  assert (((Z.of_nat count <? 160) || (processors <? 2)) = true) as ->.
  { destruct H as [?|[?|?]]; [congruence| |]; apply orb_true_iff; [left|right]; lia. }
  cbn [fst]. by rewrite <- Z.land_assoc, (Z.land_comm (Z.lnot _)), Z.land_lnot_diag, Z.land_0_r.
Qed.
(** The buffers that [malloc] and the stack give are as long as asked for. *)
Definition allocates {A} (malloc : nat -> option (list A)) (stack : nat -> list A) (count : nat) : Prop :=
  (forall n, length (stack n) = n) /\ exists m, malloc count = Some m /\ length m = count.
Lemma allocated {A} (malloc : nat -> option (list A)) stack count (b : bool) : allocates malloc stack count ->
  exists m, (if b then Some (stack count) else malloc count) = Some m /\ length m = count.
Proof. intros [Hs Hm]. destruct b; [|done]. by exists (stack count). Qed.
Lemma SortIndexes_opts processors malloc stack indexBuffer count opts cmp : sequential processors count opts ->
  SortIndexes processors malloc stack indexBuffer count opts cmp = SortIndexes processors malloc stack indexBuffer count 0 cmp.
Proof.
  intros H%choose_cores_sequential. unfold SortIndexes. destruct (count <? 1)%nat; [done|]. destruct (INTPTR_MAX / 8 <? Z.of_nat count); [done|].
  change (choose_cores processors (Z.of_nat count) 0) with (0, 0). destruct (choose_cores _ _ _) as [o n]. cbn [fst] in H.
  destruct (initial_indexes count indexBuffer); cbn [rbind]; [|done]. by rewrite H.
Qed.
Lemma SortIndexes_ok processors malloc stack indexBuffer count opts cmp :
  orders cmp -> allocates malloc stack count -> sequential processors count opts ->
  (1 <= count)%nat -> Z.of_nat count <= INTPTR_MAX / 8 -> length indexBuffer = count ->
  exists s, SortIndexes processors malloc stack indexBuffer count opts cmp = Ok (Sequential s) /\
    arranged cmp (map Z.of_nat (seq 0 count)) s.
Proof.
  intros Ho Ha Hs H1 Hmax Hl. unfold SortIndexes. destruct (Nat.ltb_spec count 1); [lia|]. destruct (Z.ltb_spec (INTPTR_MAX / 8) (Z.of_nat count)); [lia|].
  pose proof (choose_cores_sequential _ _ _ Hs) as Hc. destruct (choose_cores _ _ _) as [o ncores]. cbn [fst] in Hc.
  rewrite initial_indexes_ok by lia. cbn [rbind]. rewrite Hc.
  destruct (allocated malloc stack count (Z.of_nat count <=? 4096) Ha) as (m & -> & Hm). unfold filled. rewrite drop_ge by lia.
  set (l := map Z.of_nat (seq 0 count)). assert (Hn : length l = count) by (subst l; by rewrite length_map, length_seq).
  destruct (SimpleMergeSort_ok cmp Ho count [] l [] m) as (s & (tmp & R & _) & A); [lia..|].
  exists s. split; [|done]. rewrite Hn in R. cbn [app length] in R. rewrite app_nil_r in R. rewrite app_nil_r, R. cbn [rbind]. by rewrite app_nil_r.
Qed.

(** ** The array functions *)
Section Arrays.
Context {A : Type} (beyond : A).
#[local] Abbreviation item list0 i := (nth (Z.to_nat i) list0 beyond).
Lemma nth_item (list0 : list A) n : (n < length list0)%nat -> list0 !! n = Some (nth n list0 beyond).
Proof. intros [x E]%lookup_lt_is_Some_2. by rewrite (nth_lookup_Some _ _ _ _ E). Qed.
Lemma gather_ok k idx (list0 : list A) indexes store :
  (idx + k <= length indexes)%nat -> (idx + k <= length store)%nat -> Forall (fun i => (Z.to_nat i < length list0)%nat) indexes ->
  gather k idx list0 indexes store = Ok (take idx store ++ map (fun i => item list0 i) (take k (drop idx indexes)) ++ drop (idx + k) store).
Proof.
  revert idx store. induction k as [|k IH]; intros idx store Hi Hs Hf; cbn [gather].
  - rewrite take_0, Nat.add_0_r. cbn [map app]. by rewrite take_drop.
  - destruct (lookup_lt_is_Some_2 indexes idx) as [i E]; [lia|]. rewrite (rd_ok indexes idx i E). cbn [rbind].
    assert (Hb : (Z.to_nat i < length list0)%nat) by exact (Forall_lookup_1 _ _ _ _ Hf E).
    rewrite (rd_ok list0 (Z.to_nat i) (item list0 i)) by (by apply nth_item). cbn [rbind].
    rewrite wr_ok by lia. cbn [rbind]. rewrite IH by (rewrite ?length_insert; lia || done).
    rewrite take_insert_more, drop_insert_lt by lia. rewrite (drop_S _ _ _ E). cbn [take map]. rewrite <- app_assoc, Nat.add_1_r.
    replace (S idx + k)%nat with (idx + S k)%nat by lia. done.
Qed.
(** The items the indexes stand for. *)
Lemma items_in_order (list0 : list A) count : (count <= length list0)%nat ->
  map (fun i => item list0 i) (map Z.of_nat (seq 0 count)) = take count list0.
Proof.
  intros Hc. apply list_eq. intros i. rewrite map_map. destruct (Nat.lt_ge_cases i count) as [Hi|Hi].
  - rewrite lookup_take_lt, list_lookup_fmap, lookup_seq_lt by done. cbn [fmap option_fmap option_map Nat.add]. by rewrite Nat2Z.id, nth_item by lia.
  - rewrite !lookup_ge_None_2 by (rewrite ?length_take, ?length_map, ?length_seq; lia). done.
Qed.
Context (comparator : A -> A -> Z) (Hc : orders comparator).
Abbreviation at_indexes := (compare_at beyond comparator).
Lemma compare_at_orders (list0 : list A) : orders (at_indexes list0).
Proof. split; [intros x y; by apply (o_total _ Hc)|intros x y z; by apply (o_transitive _ Hc)]. Qed.
Lemma filter_items (P : A -> Prop) `{forall x, Decision (P x)} (f : Z -> A) s :
  filter P (map f s) = map f (filter (fun i => P (f i)) s).
Proof. induction s as [|i s IH]; [done|]. cbn [map]. rewrite !filter_cons. destruct (decide (P (f i))); cbn [map]; by rewrite IH. Qed.
Lemma filter_items_arranged (list0 : list A) l s x : arranged (at_indexes list0) l s ->
  filter (fun i => equivalent comparator x (item list0 i)) s = filter (fun i => equivalent comparator x (item list0 i)) l.
Proof.
  intros [_ P F]. destruct (decide (Exists (fun i => equivalent comparator x (item list0 i)) s)) as [He|Hn].
  - apply Exists_exists in He as (i & _ & Hxi1 & Hxi2).
    assert (Hsame : forall j, equivalent comparator x (item list0 j) <-> equivalent (at_indexes list0) i j).
    { pose proof (o_transitive _ Hc) as T. intros j. split; intros [H1 H2]; split.
      - by apply T with x. - by apply T with x. - by apply T with (item list0 i). - by apply T with (item list0 i). }
    rewrite (list_filter_iff _ _ s Hsame), (list_filter_iff _ _ l Hsame). apply F.
  - assert (Hl : ~ Exists (fun i => equivalent comparator x (item list0 i)) l) by by rewrite <- P.
    apply not_Exists_Forall in Hn, Hl; try apply _. transitivity (@nil Z); [|symmetry]; by apply filter_none.
Qed.
Lemma sorted_items (list0 : list A) s : StronglySorted (before (at_indexes list0)) s ->
  StronglySorted (before comparator) (map (fun i => item list0 i) s).
Proof. induction 1 as [|i s Hs IH Hf]; cbn [map]; constructor; [done|]. by apply Forall_map. Qed.
Lemma items_arranged (list0 : list A) count s : (count <= length list0)%nat ->
  arranged (at_indexes list0) (map Z.of_nat (seq 0 count)) s ->
  arranged comparator (take count list0) (map (fun i => item list0 i) s).
Proof.
  intros Hl Ha. rewrite <- (items_in_order list0 count Hl). split.
  - apply sorted_items. apply Ha.
  - f_equiv. apply Ha.
  - intros x. rewrite !filter_items. f_equal. by apply filter_items_arranged.
Qed.

(** ** Sorting an array *)
Definition storable (count : nat) (elementSize : Z) (malloc_indexes : nat -> option (list Z)) (stack_indexes : nat -> list Z)
    (malloc_store : nat -> option (list A)) (stack_store : nat -> list A) : Prop :=
  allocates malloc_indexes stack_indexes count /\ allocates malloc_store stack_store count /\
  1 <= elementSize /\ Z.of_nat count <= INTPTR_MAX / 8.
Lemma sort_array_ok processors malloc_indexes stack_indexes malloc_store stack_store opts (list0 : list A) count elementSize :
  storable count elementSize malloc_indexes stack_indexes malloc_store stack_store ->
  sequential processors count opts -> (count <= length list0)%nat ->
  exists s, sort_array beyond comparator processors malloc_indexes stack_indexes malloc_store stack_store opts list0 count elementSize =
      Ok (s ++ drop count list0) /\ arranged comparator (take count list0) s.
Proof.
  intros (Hi & Hst & He & Hmax) Hseq Hl. unfold sort_array. destruct (Nat.ltb_spec count 2) as [Hsmall|Hbig]; cbn [orb].
  { exists (take count list0). rewrite take_drop. split; [done|]. apply arranged_refl.
    destruct count as [|[|]]; [constructor| |lia]. destruct list0; [constructor|]. cbn [take]. rewrite take_0. repeat constructor. }
  destruct (Z.ltb_spec elementSize 1); [lia|].
  destruct (allocated malloc_indexes stack_indexes count (Z.of_nat count <=? 4096) Hi) as (m & -> & Hm).
  destruct (SortIndexes_ok processors malloc_indexes stack_indexes m count opts (at_indexes list0)) as (s & -> & Ha); [apply compare_at_orders|done|done|lia|done|done|].
  cbn [rbind]. destruct (allocated malloc_store stack_store count (Z.of_nat count <=? 16 * 1024 / elementSize) Hst) as (store & -> & Hs).
  assert (Hlen : length s = count) by (rewrite (arranged_length _ _ _ Ha), length_map, length_seq; done).
  rewrite gather_ok; [|lia|lia|].
  2: { apply Forall_forall. intros i Hin. rewrite (ar_permuted _ _ _ Ha) in Hin. apply list_elem_of_fmap in Hin as (j & -> & Hj%elem_of_seq). lia. }
  cbn [rbind]. rewrite take_0, drop_0. cbn [app]. rewrite (take_ge s) by lia. rewrite (drop_ge store) by lia. rewrite app_nil_r.
  exists (map (fun i => item list0 i) s). rewrite take_ge by (rewrite length_map; lia). split; [done|]. by apply items_arranged.
Qed.
(** C40: [CFMergeSortArray] and [CFQSortArray] sort: for a comparator that is total
    and transitive and while memory can be allocated, they return with the first
    [count] elements in order, a permutation of those given, elements that compare
    equal in the order they were given, and leave the elements after them alone;
    less than two elements are left as they are. The sort works on the indexes of
    the elements, through a buffer of indexes on the stack or allocated. *)
Theorem sort_array_stable processors malloc_indexes stack_indexes malloc_store stack_store (list0 : list A) count elementSize :
  storable count elementSize malloc_indexes stack_indexes malloc_store stack_store -> (count <= length list0)%nat ->
  exists s, MergeSortArray beyond comparator processors malloc_indexes stack_indexes malloc_store stack_store list0 count elementSize =
      Ok (s ++ drop count list0) /\
    QSortArray beyond comparator processors malloc_indexes stack_indexes malloc_store stack_store list0 count elementSize =
      Ok (s ++ drop count list0) /\
    StronglySorted (fun x y => comparator x y <= 0) s /\ s ≡ₚ take count list0 /\
    forall x, filter (equivalent comparator x) s = filter (equivalent comparator x) (take count list0).
Proof.
  intros Hst Hl. destruct (sort_array_ok processors malloc_indexes stack_indexes malloc_store stack_store kCFSortStable list0 count elementSize Hst)
    as (s & E & [S P F]); [by left|done|].
  exists s. split; [exact E|]. split; [|done]. rewrite <- E. unfold QSortArray, sort_array.
  destruct ((count <? 2)%nat || (elementSize <? 1)); [done|].
  match goal with |- match ?m with _ => _ end = _ => destruct m; [|done] end.
  by rewrite (SortIndexes_opts processors _ _ _ _ kCFSortStable) by by left.
Qed.
End Arrays.

(** Sorting pairs by their first component. *)
Definition by_first (x y : Z * Z) : Z := if x.1 <? y.1 then -1 else if y.1 <? x.1 then 1 else 0.
Lemma by_first_orders : orders by_first.
Proof.
  assert (H : forall x y, before by_first x y <-> x.1 <= y.1).
  { intros x y. unfold before, by_first. destruct (Z.ltb_spec x.1 y.1), (Z.ltb_spec y.1 x.1); lia. }
  split; intros *; rewrite !H; lia.
Qed.
Definition zeroes {A} (a : A) (n : nat) : list A := replicate n a.
Lemma zeroes_allocate {A} (a : A) count : allocates (fun n => Some (zeroes a n)) (zeroes a) count.
Proof. split; [intros n; apply length_replicate|]. eexists. split; [done|]. apply length_replicate. Qed.
Definition unsorted : list (Z * Z) := [(5, 0); (3, 1); (5, 2); (1, 3); (3, 4); (9, 5)].
Lemma sort_array_stable_witness :
  MergeSortArray (0, 0) by_first 4 (fun n => Some (zeroes 0 n)) (zeroes 0) (fun n => Some (zeroes (0, 0) n)) (zeroes (0, 0)) unsorted 5 16 =
    Ok [(1, 3); (3, 1); (3, 4); (5, 0); (5, 2); (9, 5)].
Proof.
  destruct (sort_array_stable (0, 0) by_first by_first_orders 4 (fun n => Some (zeroes 0 n)) (zeroes 0) (fun n => Some (zeroes (0, 0) n)) (zeroes (0, 0)) unsorted 5 16)
    as (s & E & _).
  - split; [apply zeroes_allocate|]. split; [apply zeroes_allocate|]. split; [done|]. by apply Z.leb_le.
  - cbn. lia.
  - vm_compute. reflexivity.
Defined.
